(* ===== verification/_CoqProject ===== *)
-Q . S2P
Prelude.v
GoTime.v
GoLib.v
GoIO.v
GoIOProof.v
Resp.v
RespStream.v
RespProof.v
RespLimits.v
RespEncode.v
RespTheorems.v
ListValue.v
KeyIndex.v
Store.v
StoreList.v
StoreSpec.v
StoreProof.v
StoreRefine.v
StoreMaint.v
StoreMaintProof.v
StoreTheorems.v
Command.v
CommandProof.v
CommandEffects.v
CommandTheorems.v
Executor.v
ExecutorProof.v
ExecTheorems.v
CommandTypes.v
WriteLoop.v
WriteLoopProof.v
WriteLoopTheorems.v
Aof.v
AofRecords.v
AofLog.v
AofRecovery.v
AofTheorems.v
Timeless.v
AofRewrite.v
AofRewriteProof.v
AofReplay.v
AofOpen.v
FileLock.v
FileLockProof.v
FileLockTheorems.v
Durability.v
DurabilityTheorems.v
GoNet.v
Config.v
ConfigProof.v
ConfigTheorems.v
Serving.v
Poller.v
Connection.v
ServingProof.v
EventLoop.v
ReactorServer.v
Client.v
BlockingServer.v
ConnectionProof.v
ReactorStream.v
BlockingProof.v
EndToEnd.v
EndToEndTheorems.v
EventLoopProof.v
ReactorServerProof.v
ReactorTheorems.v
ServerLifecycle.v
LifecycleProof.v
LifecycleProgress.v
LifecycleTheorems.v
GoFlag.v
Main.v
MainProof.v
MainTheorems.v
