(* ===== verification/Prelude.v ===== *)
(** * Carrot: a verification development

    Carrot ([src/]) is a Redis-compatible in-memory server written in Go: clients
    send RESP messages over TCP, a command executor runs them against a sharded
    store, and an append-only file makes mutations durable.  This development
    translates its core into Rocq definitions, component by component, and proves
    what each promises to the next.

    ** The parts and the files

    - Go itself.  [Prelude]: strings and byte slices as lists of bytes, 64-bit
      integers with their wrap-around, panics as [None], clock readings and random
      draws as arbitrary functions, the tactics and the simulation relation [sim]
      shared by all files.  [GoTime], [GoLib], [GoIO]: the parts of [time], [strconv],
      [strings] and [bufio] the server uses; [GoIOProof]: what a buffered writer
      guarantees for any sink.

    - The protocol, [internal/protocol/resp].  [Resp]: values, the bounded decoder
      as a state and error monad over the bytes still unread, the encoder.
      [RespStream] (decoding does not depend on what follows), [RespProof] (the wire
      format and its round trip), [RespLimits] (byte, line, nesting and progress
      bounds), [RespEncode] (the encoder through a buffered writer), and the claims
      in [RespTheorems].

    - The storage engine, [internal/storage].  [ListValue] (circular buffer,
      [list.go]), [KeyIndex] (dense key index, [memory.go]), [Store] and [StoreList]
      (the methods of [Store], strings and lists), [StoreMaint] (LRU sampling, active
      expiration, snapshots).  [StoreSpec] is the abstract specification: a finite
      map from keys to entries, and the interface [StoreOps] the command layer is
      written against.  [StoreProof] holds the invariant [wf] and the abstraction
      [abs]; [StoreRefine] proves that each operation of the engine simulates the
      abstract one and packages this as the class [StoreRefines]; [StoreMaintProof]
      treats maintenance; the claims are in [StoreTheorems].

    - The commands, [internal/command].  [Command]: the parser, every handler and
      the dispatch, generic in [StoreOps].  [CommandProof] transfers any sequence of
      commands along [StoreRefines]; [CommandEffects] shows which commands can change
      anything; the claims are in [CommandTheorems].

    - The executor, [executor.go] and [memory.go] of [internal/command].  [Executor]:
      the memory limit and eviction, journaling before applying, group commit,
      active expiration, rewrite status, for any implementation of the interface
      [Journal].  [ExecutorProof] and the claims in [ExecTheorems]; [CommandTypes]
      gives each command the RESP types of its replies, with the interface
      [TypedJournal] for journals that persist a command as another one with the same
      replies ([ReactorServerProof.Log_typed] for the file).  [WriteLoop] is the goroutine
      that collects batches from the queue, with its timer and its mutex, as a
      transition system; [WriteLoopProof] and [WriteLoopTheorems] treat its order,
      its progress and its deadlock.

    - The append-only file, [internal/aof/aof.go].  [Aof]: canonical commands,
      records, appending with rollback, recovery and [Open], on a disk whose every
      operation may fail ([Disk]); [AofOpen]: the checks and calls before the file is
      locked; [AofRewrite]: the rewrite with its sidecar, and [Close].  [AofRecords]
      (a record is the wire format of its command; torn tails are recognised),
      [AofLog] (what one batch leaves in the file), [AofRecovery] (histories of
      batches, crashes and [Open]), and the claims in [AofTheorems].  [FileLock] is
      the same file seen from outside: the processes that open, lock, rename and close
      it ([lock_linux.go], [lock_other.go], [sync_directory_linux.go] and the system
      calls of [aof.go]), over the interface [FileSystem]; [FileLockProof] and
      [FileLockTheorems] show what the lock guarantees, and a race in which it does
      not.

    - Durability, across the executor, the file and the store.  [Timeless] (commands
      that name their deadlines do not depend on when they run), [AofReplay] (what a
      file replays to), [AofRewriteProof], [Durability] (an executor and its log
      mirror each other), and the claims in [DurabilityTheorems].

    - Configuration, [internal/config].  [Config] over [GoNet] (the part of [net] it
      uses), [ConfigProof], [ConfigTheorems].

    - The network.  [Serving]: what both servers share, from a decoded request to the
      encoded reply, behind the interface [Service]; [ServingProof].  The blocking
      server: [Client] ([internal/client]), [BlockingServer] (the handler of a
      connection, [internal/server/server.go]), [BlockingProof]; [ServerLifecycle]
      ([Start], [Serve], [Shutdown] and their goroutines as a transition system),
      [LifecycleProof] (its invariant), [LifecycleProgress] (a measure that every
      action after [Shutdown] decreases, and an action of the server's own that is
      always possible), [LifecycleTheorems].  The reactor, [internal/reactor]:
      [Poller] (over the interface [Kernel]), [Connection], [EventLoop],
      [ReactorServer]; [ConnectionProof] (one call), [ReactorStream] (one connection
      over its lifetime, against the blocking server), [EventLoopProof] and
      [ReactorServerProof] (the invariant of the loop and of the whole server), and
      the claims in [ReactorTheorems].  [EndToEnd] and [EndToEndTheorems] put the
      blocking server, the executor and the file together: from the bytes a client
      sends to the database after a crash.

    - The programs, [cmd/server], [cmd/reactor-server] and [internal/cpuprofile].
      [GoFlag] is the part of Go's [flag] they use, with its parsers of integers,
      booleans and durations; [Main] has the flags, everything before the server
      starts, and the ends of both programs, the blocking one as a machine on top of
      [ServerLifecycle]; [MainProof], and the claims in [MainTheorems].

    ** State and steps

    A method that holds a lock for its whole body is one step: a function from the
    state before to the state after.  Stores, executors and logs are records named
    and laid out as the Go structs; a method [m] of the source is the definition [m]
    (with a trailing underscore where the name is taken).  The expiration cycle locks
    one shard or one key at a time: it takes what other goroutines do, whenever it
    holds no lock, as an argument ([StoreMaint.interference]), and its theorems hold
    for whatever they do.  Every [time.Now()] is a
    reading of a clock [clk : nat -> Z]; nothing is assumed about the readings, not
    even that they grow, except where a theorem says so.  [skip], [fork1] and [fork2]
    hand disjoint readings to the parts of an operation.  Random draws and the
    iteration order of Go maps are arbitrary functions too.  Where goroutines
    interleave (the write loop, the lifecycle of the blocking server and the [main]
    around it) or processes do (the lock on the file), the state has the position of
    each, an action is what one of them does between two synchronisations or system
    calls, and the theorems hold for every sequence of actions.  Where a theorem says
    that something is never stuck, actions that depend on a client or on the next
    connection do not count ([ServerLifecycle.external]); [Accept] fails for good once
    the listener is closed, and a handler can leave once its connection is.  What
    system calls answer comes as arbitrary scripts.

    ** The theorems

    Round trips and stream behaviour of the protocol; refinement of the abstract
    database by the engine, and of sequences of commands on it; safety, bounds and
    atomicity of the executor; order, progress and a deadlock of the write loop;
    durability across crashes and rewrites, and from the wire to the disk; one log
    per file among processes that replace it with care; exact sizes and valid
    configurations, and the round trip of a configuration through the command line;
    equivalence of the two servers on well-formed streams, their differences on
    others, the invariant and the resources of the reactor, the types of replies, the
    lifecycle of the blocking server, and the termination of its process after a
    signal; active expiration among arbitrary actions of other goroutines; and, as
    theorems too, what the program does not guarantee: a deadlock of the write loop, a
    replay that brings an expired key back, and two differences between the servers.

    ** Bounds and fuel

    Recursion that is not structural runs on fuel that is proved to be enough or is
    the source's own bound: [DecodeF] has 65 levels, one more than the nesting limit
    ([RespStream.Decode_eq]); [readLine_loop] five turns, since a line is at most
    16384 bytes and a buffer 4096 ([RespLimits.readLine_fuel]); the write loop of
    [bufio] three turns ([GoIOProof.write_loop_settled]); eviction the number of keys
    plus one ([ExecutorProof.admit_loop_spec]); replay the number of bytes plus one
    ([AofRecords.replay_loop_records], [AofOpen.replay_loop_wf]); the loops over
    requests of both servers the number of bytes plus one
    ([BlockingProof], [EventLoopProof.process_loop_safe]), since every request takes a
    byte ([RespLimits.Decode_progress]); an IPv6 address eight groups; a duration the
    number of its bytes; the expiration cycle its own limit of 16.  Loops over system calls follow the script of their
    answers.

    ** Parameters

    The behaviour of Go's string functions on non-ASCII input ([Unicode]), the disk
    ([Disk]), the sinks of encoders ([Writer], [BoundedWriter]), the journal of an
    executor and how it is opened ([Journal], [Persistent]), the descriptors and the
    interest list of the kernel ([Kernel]), the names, descriptions and locks of a
    directory ([FileSystem]) and the backend of a connection ([Service]) are
    parameters; the theorem files instantiate them in the witnesses.

    ** What is not modelled

    Addresses that are only logged ([RemoteAddr], [Addr]) and the texts of log lines
    and of flag errors; what [pprof] writes; the network below [read], [write],
    [accept] and [epoll]; the sidecar of a rewrite among the files of [FileLock],
    since it is never locked and [AofRewrite] has it; and the scheduling of
    goroutines, except as the interleavings of the transition systems and of the
    expiration cycle: [LRUVictim] locks one shard after the other and is one step
    here, and so is [Execute], although without a journal the blocking server runs
    the admission and the command of one client among those of others. *)

From stdpp Require Export ssreflect gmap strings list list_numbers fin_maps.
From Stdlib Require Export ZArith Lia Ascii.

#[global] Open Scope Z_scope.
#[export] Set Warnings "-clear-no-such-hyp".

(** ** Go strings and byte slices

    A Go [string] and a Go [[]byte] are both finite byte sequences.  They are
    lists of [ascii] (eight bits each); [str] embeds the literals of the source. *)
Abbreviation gostring := (list ascii).

Definition str (s : string) : gostring := String.list_ascii_of_string s.

Definition byte_val (c : ascii) : Z := Z.of_N (N_of_ascii c).

(** [len x] for strings and slices, as a Go [int]. *)
Definition len {A} (l : list A) : Z := Z.of_nat (length l).

(** ** Machine integers

    [int64 z] is the value a 64-bit two's complement register holds after an
    operation whose exact result is [z]. *)
Definition min_int64 : Z := - 2 ^ 63.
Definition max_int64 : Z := 2 ^ 63 - 1.
Definition int64 (z : Z) : Z := (z + 2 ^ 63) mod 2 ^ 64 - 2 ^ 63.
Definition in_int64 (z : Z) : Prop := min_int64 <= z <= max_int64.

#[global] Instance in_int64_dec z : Decision (in_int64 z).
Proof. unfold in_int64. apply _. Defined.

Lemma int64_id z : in_int64 z -> int64 z = z.
Proof.
  unfold in_int64, int64, min_int64, max_int64. intros H.
  rewrite -> Z.mod_small by lia. lia.
Qed.

Lemma int64_range z : in_int64 (int64 z).
Proof.
  unfold in_int64, int64, min_int64, max_int64.
  pose proof (Z.mod_pos_bound (z + 2 ^ 63) (2 ^ 64) ltac:(lia)). lia.
Qed.

Lemma int64_add_l a b : int64 (int64 a + b) = int64 (a + b).
Proof.
  unfold int64.
  replace ((a + 2 ^ 63) mod 2 ^ 64 - 2 ^ 63 + b + 2 ^ 63)
    with ((a + 2 ^ 63) mod 2 ^ 64 + b) by lia.
  rewrite -> Z.add_mod_idemp_l by lia.
  by replace (a + 2 ^ 63 + b) with (a + b + 2 ^ 63) by lia.
Qed.

Lemma int64_add_r a b : int64 (a + int64 b) = int64 (a + b).
Proof. rw Z.add_comm int64_add_l. by rw Z.add_comm. Qed.

(** ** Runtime panics

    A Go expression that can panic (index out of range, division by zero,
    [make] with a negative length) is an [option]: [None] is the panic. *)
Definition gorem (a b : Z) : option Z := if b =? 0 then None else Some (Z.rem a b).

Definition slice_get {A} (l : list A) (i : Z) : option A :=
  if 0 <=? i then l !! Z.to_nat i else None.

Definition slice_set {A} (l : list A) (i : Z) (x : A) : option (list A) :=
  if (0 <=? i) && (i <? len l) then Some (<[Z.to_nat i := x]> l) else None.

(** ** Clock and random readings

    Every [time.Now()] is a reading of an arbitrary function [clk], one index
    per call; [skip k clk] is the same clock after its first [k] readings.
    A [time.Time] is a number of nanoseconds since the Unix epoch. *)
Abbreviation clock := (nat -> Z).
Definition skip {A} (k : nat) (clk : nat -> A) : nat -> A := fun n => clk (k + n)%nat.

(** Two disjoint streams of readings, for an operation whose two parts take an
    unknown number of readings each. *)
Definition fork1 {A} (clk : nat -> A) : nat -> A := fun n => clk (2 * n)%nat.
Definition fork2 {A} (clk : nat -> A) : nat -> A := fun n => clk (2 * n + 1)%nat.

(** Draw number [c] of [rand.IntN(n)]: any value below [n]. *)
Definition IntN (rnd : nat -> nat) (c : nat) (n : nat) : nat := (rnd c mod n)%nat.

(** ** Tactics and hint databases *)
Create HintDb carrot discriminated.

(** Splits every [if] and [match] scrutinee on booleans and options that
    blocks the goal. *)
Ltac go_case :=
  match goal with
  | |- context [ match ?x with _ => _ end ] => destruct x eqn:?
  end.

(** Boolean comparisons to propositions, everywhere. *)
Ltac bool_prop :=
  repeat match goal with
  | H : (_ && _)%bool = true |- _ => apply andb_true_iff in H; destruct H
  | H : (_ || _)%bool = false |- _ => apply orb_false_iff in H; destruct H
  | H : (_ =? _) = true |- _ => apply Z.eqb_eq in H
  | H : (_ =? _) = false |- _ => apply Z.eqb_neq in H
  | H : (_ <? _) = true |- _ => apply Z.ltb_lt in H
  | H : (_ <? _) = false |- _ => apply Z.ltb_ge in H
  | H : (_ <=? _) = true |- _ => apply Z.leb_le in H
  | H : (_ <=? _) = false |- _ => apply Z.leb_gt in H
  | H : bool_decide _ = true |- _ => apply bool_decide_eq_true in H
  | H : bool_decide _ = false |- _ => apply bool_decide_eq_false in H
  end.

(** ** Lemmas on slices *)
Lemma len_nonneg {A} (l : list A) : 0 <= len l.
Proof. unfold len. lia. Qed.

Lemma len_app {A} (l k : list A) : len (l ++ k) = len l + len k.
Proof. unfold len. rw length_app. lia. Qed.

Lemma len_cons {A} (x : A) l : len (x :: l) = 1 + len l.
Proof. unfold len. simpl. lia. Qed.

Lemma len_nil {A} : len (@nil A) = 0.
Proof. done. Qed.

Lemma len_insert {A} (l : list A) i x : len (<[i:=x]> l) = len l.
Proof. unfold len. by rw length_insert. Qed.

Lemma len_zero_nil {A} (l : list A) : len l = 0 -> l = [].
Proof. unfold len. destruct l; simpl; [done|lia]. Qed.

Create Rewrite HintDb len.
#[global] Hint Rewrite @len_app @len_cons @len_nil @len_insert : len.

Lemma slice_get_lookup {A} (l : list A) (i : Z) :
  0 <= i -> slice_get l i = l !! Z.to_nat i.
Proof. unfold slice_get. intros. by rewrite -> (proj2 (Z.leb_le 0 i)). Qed.

Lemma slice_get_Some {A} (l : list A) (i : Z) x :
  slice_get l i = Some x -> 0 <= i < len l /\ l !! Z.to_nat i = Some x.
Proof.
  unfold slice_get. destruct (Z.leb_spec 0 i); [|done]. intros Hx.
  split; [|done]. apply lookup_lt_Some in Hx. unfold len. lia.
Qed.

Lemma slice_set_insert {A} (l : list A) (i : Z) x :
  0 <= i < len l -> slice_set l i x = Some (<[Z.to_nat i := x]> l).
Proof.
  unfold slice_set. intros.
  by rewrite -> (proj2 (Z.leb_le 0 i)), (proj2 (Z.ltb_lt i (len l))) by lia.
Qed.


(** ** Simulation of state-passing operations

    [sim R f g]: from related states both operations return normally, with the
    same answer and related states. *)
Definition sim {S T A} (R : S -> T -> Prop) (f : S -> option (A * S)) (g : T -> option (A * T))
    : Prop :=
  forall s t, R s t -> exists a s' t', f s = Some (a, s') /\ g t = Some (a, t') /\ R s' t'.

Lemma sim_ret {S T A} (R : S -> T -> Prop) (a : A) :
  sim R (fun s => Some (a, s)) (fun t => Some (a, t)).
Proof. intros s t HR. by exists a, s, t. Qed.

Lemma sim_bind {S T A B} (R : S -> T -> Prop) f g
    (k : A -> S -> option (B * S)) (k' : A -> T -> option (B * T)) :
  sim R f g -> (forall a, sim R (k a) (k' a)) ->
  sim R (fun s => '(a, s) ← f s; k a s) (fun t => '(a, t) ← g t; k' a t).
Proof.
  intros Hf Hk s t HR. destruct (Hf s t HR) as (a & s' & t' & -> & -> & HR').
  simpl. by apply Hk.
Qed.

#[global] Hint Resolve sim_ret : carrot.
