(* ===== verification/GoTime.v ===== *)
(** * The parts of Go's [time] package the server uses

    A [time.Time] is its number of nanoseconds since the Unix epoch and a
    [time.Duration] a signed 64-bit number of nanoseconds.  The monotonic reading
    of [time.Now()] is not distinguished from the wall clock.
    [Duration.Seconds] goes through [float64]; its rounding (to nearest, ties to
    even, 53-bit significand) is written out because [TTL] truncates the result. *)

From S2P Require Import Prelude.

Module GoTime.

Definition Millisecond : Z := 1000000.
Definition Second : Z := 1000000000.

(** The zero [time.Time]: January 1, year 1, UTC. *)
Definition zeroTime : Z := -62135596800 * Second.
Definition IsZero (t : Z) : bool := t =? zeroTime.
Definition Before (t u : Z) : bool := t <? u.
Definition Add (t d : Z) : Z := t + d.

(** [Time.Sub] saturates. *)
Definition Sub (t u : Z) : Z := Z.max min_int64 (Z.min max_int64 (t - u)).

(** [time.UnixMilli(ms)], [t.UnixMilli()] and [t.UnixNano()]. *)
Definition ofUnixMilli (ms : Z) : Z := ms * Millisecond.
Definition UnixMilli (t : Z) : Z := int64 (t / Millisecond).
Definition UnixNano (t : Z) : Z := int64 t.

(** ** [float64], non-negative values *)

(** [a / b] rounded to the nearest integer, ties to even. *)
Definition rne_div (a b : Z) : Z :=
  let q := a / b in
  let r := a mod b in
  if 2 * r <? b then q
  else if b <? 2 * r then q + 1
  else if Z.even q then q else q + 1.

(** The float64 nearest to [num / den] (both positive) as [(m, k)], standing for
    [m / 2^k]: the binary exponent of [num / den] fixes [k] so that [m] has 53 bits. *)
Definition f64_exponent (num den : Z) : Z :=
  let e := Z.log2 num - Z.log2 den in
  if num * 2 ^ Z.max 0 (- e) <? den * 2 ^ Z.max 0 e then e - 1 else e.

Definition f64_round (num den : Z) : Z * Z :=
  if num =? 0 then (0, 0)
  else
    let k := 52 - f64_exponent num den in
    (rne_div (num * 2 ^ Z.max 0 k) (den * 2 ^ Z.max 0 (- k)), k).

(** The conversion [int64(f)] truncates. *)
Definition f64_trunc (f : Z * Z) : Z :=
  if 0 <=? snd f then fst f / 2 ^ snd f else fst f * 2 ^ (- snd f).

(** [d.Seconds()] for [0 <= d]: [float64(d/Second) + float64(d%Second)/1e9]. *)
Definition seconds_nonneg (d : Z) : Z * Z :=
  let sec := d / Second in
  let nsec := d mod Second in
  let f := f64_round nsec Second in
  f64_round (sec * 2 ^ snd f + fst f) (2 ^ snd f).

(** [int64(d.Seconds())]; rounding to nearest is symmetric in the sign. *)
Definition truncSeconds (d : Z) : Z :=
  if 0 <=? d then f64_trunc (seconds_nonneg d) else - f64_trunc (seconds_nonneg (- d)).

(** [d.Seconds() < 0]. *)
Definition secondsNegative (d : Z) : bool := d <? 0.

(** ** Bounds *)
Lemma rne_div_ge n a b : 0 < b -> n * b <= a -> n <= rne_div a b.
Proof.
  intros Hb H. unfold rne_div.
  assert (n <= a / b) by (apply Z.div_le_lower_bound; lia).
  repeat case_match; lia.
Qed.

Lemma rne_div_le n a b : 0 < b -> a <= n * b -> rne_div a b <= n.
Proof.
  intros Hb H. unfold rne_div.
  pose proof (Z.div_mod a b ltac:(lia)). pose proof (Z.mod_pos_bound a b Hb).
  destruct (Z.ltb_spec (2 * (a mod b)) b).
  - assert (a / b < n + 1) by (apply Z.div_lt_upper_bound; lia). lia.
  - assert (a / b < n) by nia. repeat case_match; lia.
Qed.

Lemma f64_exponent_le num den : f64_exponent num den <= Z.log2 num - Z.log2 den.
Proof. unfold f64_exponent. case_match; lia. Qed.

Lemma f64_round_bounds lo hi num den :
  0 < den -> 0 <= num -> 0 <= lo -> lo * den <= num <= hi * den ->
  Z.log2 num - Z.log2 den <= 52 ->
  let f := f64_round num den in
  0 <= snd f /\ lo * 2 ^ snd f <= fst f <= hi * 2 ^ snd f.
Proof.
  intros Hd Hn Hlo H He. unfold f64_round.
  destruct (Z.eqb_spec num 0) as [->|Hne]; simpl; [split; nia|].
  pose proof (f64_exponent_le num den). set (k := 52 - f64_exponent num den).
  assert (0 <= k) by lia. rewrite -> (Z.max_r 0 k), (Z.max_l 0 (- k)), Z.mul_1_r by lia.
  pose proof (Z.pow_nonneg 2 k ltac:(lia)).
  split_and!; [lia|apply rne_div_ge; [done|nia]|apply rne_div_le; [done|nia]].
Qed.

(** The truncated float64 number of seconds is the whole number of seconds, or
    one more when the fraction rounds up to the next integer. *)
Lemma truncSeconds_bounds d :
  0 <= d <= max_int64 -> d / Second <= truncSeconds d <= d / Second + 1.
Proof.
  intros Hd. unfold truncSeconds. rewrite -> (proj2 (Z.leb_le 0 d)) by lia.
  unfold seconds_nonneg. set (sec := d / Second). set (nsec := d mod Second).
  assert (Hns : 0 <= nsec < Second) by (apply Z.mod_pos_bound; done).
  assert (Hsec : 0 <= sec < 2 ^ 34).
  { split; [apply Z.div_pos; done || lia|]. apply Z.div_lt_upper_bound; [done|].
    unfold max_int64, Second in *. lia. }
  destruct (f64_round_bounds 0 1 nsec Second) as [Hk Hm]; [done|lia..| |].
  { assert (Z.log2 nsec <= Z.log2 Second) by (apply Z.log2_le_mono; lia).
    pose proof (Z.log2_nonneg Second). lia. }
  destruct (f64_round nsec Second) as [m k]. simpl in *.
  assert (Hp : 0 < 2 ^ k) by (apply Z.pow_pos_nonneg; lia).
  destruct (f64_round_bounds sec (sec + 1) (sec * 2 ^ k + m) (2 ^ k)) as [Hk2 Hm2];
    [done|nia|lia|nia| |].
  { rewrite -> Z.log2_pow2 by lia.
    assert (Z.log2 (sec * 2 ^ k + m) <= 34 + k); [|lia].
    rewrite <- (Z.log2_pow2 (34 + k)) by lia. apply Z.log2_le_mono.
    rewrite -> Z.pow_add_r by lia. nia. }
  destruct (f64_round (sec * 2 ^ k + m) (2 ^ k)) as [m2 k2]. simpl in *.
  unfold f64_trunc. simpl. rewrite -> (proj2 (Z.leb_le 0 k2)) by lia.
  assert (0 < 2 ^ k2) by (apply Z.pow_pos_nonneg; lia). split.
  - apply Z.div_le_lower_bound; lia.
  - apply Z.lt_succ_r, Z.div_lt_upper_bound; nia.
Qed.

Example seconds_exact : truncSeconds (90 * Second + 999999999) = 90.
Proof. by vm_compute. Qed.

(** Above 2^24 seconds the fraction can round up. *)
Example seconds_rounds_up : truncSeconds (2 ^ 33 * Second - 1) = 2 ^ 33.
Proof. by vm_compute. Qed.

Lemma Sub_pos t u : u < t -> 0 < Sub t u <= max_int64.
Proof. unfold Sub, min_int64, max_int64. lia. Qed.

End GoTime.
