(* ===== verification/GoLib.v ===== *)
(** * The parts of Go's [strconv] and [strings] the server uses

    [ParseInt(s, 10, 64)] and [Atoi] (equal on a 64-bit platform) with the texts of
    their errors, [FormatInt], [Quote], [ToUpper], [ToLower], [EqualFold], [Fields],
    [TrimSpace], [HasSuffix], [TrimSuffix] and [Split].  The [strings] functions have
    an ASCII path, modelled here, and a Unicode path for inputs with a byte of
    0x80 or more, which depends on the Unicode tables: that path is the parameter
    [Unicode], unconstrained, so that every theorem holds whatever it computes. *)

From S2P Require Import Prelude.

(** Case mapping, folding, splitting, trimming and [%q] quoting of non-ASCII strings. *)
Class Unicode := {
  uni_ToUpper : gostring -> gostring;
  uni_ToLower : gostring -> gostring;
  uni_EqualFold : gostring -> gostring -> bool;
  uni_Fields : gostring -> list gostring;
  uni_Quote : gostring -> gostring;
  uni_TrimSpace : gostring -> gostring;
}.

Module GoLib.

Definition chr (n : Z) : ascii := ascii_of_N (Z.to_N n).

Definition isASCII (s : gostring) : bool := forallb (fun c => byte_val c <? 128) s.

(** ** [strconv] *)
Definition digit_of (c : ascii) : option Z :=
  let b := byte_val c in if (48 <=? b) && (b <=? 57) then Some (b - 48) else None.

Fixpoint parse_digits (s : gostring) (acc : Z) : option Z :=
  match s with
  | [] => Some acc
  | c :: s' => d ← digit_of c; parse_digits s' (acc * 10 + d)
  end.

(** The magnitude: at least one digit. *)
Definition parse_uint (s : gostring) : option Z :=
  match s with [] => None | _ => parse_digits s 0 end.

(** [None] is a syntax or range error. *)
Definition ParseInt (s : gostring) : option Z :=
  n ← match s with
      | c :: s' =>
          if bool_decide (c = "-"%char) then Z.opp <$> parse_uint s'
          else if bool_decide (c = "+"%char) then parse_uint s'
          else parse_uint s
      | [] => None
      end;
  if decide (in_int64 n) then Some n else None.

Definition Atoi := ParseInt.

(** Decimal digits of [n >= 0], least significant last; 20 digits hold any
    64-bit magnitude. *)
Fixpoint format_digits (fuel : nat) (n : Z) (acc : gostring) : gostring :=
  match fuel with
  | O => acc
  | S fuel' =>
      let acc := chr (48 + n mod 10) :: acc in
      if n / 10 =? 0 then acc else format_digits fuel' (n / 10) acc
  end.

Definition FormatInt (n : Z) : gostring :=
  if n <? 0 then "-"%char :: format_digits 20 (- n) [] else format_digits 20 n [].

(** Whether the digits of a magnitude [ParseInt] refuses reach an invalid byte
    before the value passes 64 bits; [n] is the value so far. *)
Fixpoint bad_digit (s : gostring) (n : Z) : bool :=
  match s with
  | [] => false
  | c :: s' =>
      match digit_of c with
      | None => true
      | Some d => if 2 ^ 64 <=? n * 10 + d then false else bad_digit s' (n * 10 + d)
      end
  end.

Definition magnitude (s : gostring) : gostring :=
  match s with
  | c :: s' => if bool_decide (c = "-"%char) || bool_decide (c = "+"%char) then s' else s
  | [] => []
  end.

(** [ErrSyntax] or [ErrRange], for a string [ParseInt] refuses. *)
Definition numCause (s : gostring) : gostring :=
  match magnitude s with
  | [] => str "invalid syntax"
  | m => if bad_digit m 0 then str "invalid syntax" else str "value out of range"
  end.

(** The escapes of [Quote] below 0x80. *)
Definition hex_digit (n : Z) : ascii := if n <? 10 then chr (48 + n) else chr (87 + n).

Definition quote_byte (c : ascii) : gostring :=
  let b := byte_val c in
  if (b =? 34) || (b =? 92) then [chr 92; c]
  else if b =? 7 then str "\a" else if b =? 8 then str "\b" else if b =? 12 then str "\f"
  else if b =? 10 then str "\n" else if b =? 13 then str "\r" else if b =? 9 then str "\t"
  else if b =? 11 then str "\v"
  else if (b <? 32) || (b =? 127) then str "\x" ++ [hex_digit (b / 16); hex_digit (b mod 16)]
  else [c].

(** ** [strings] *)
Definition upper (c : ascii) : ascii :=
  let b := byte_val c in if (97 <=? b) && (b <=? 122) then chr (b - 32) else c.
Definition lower (c : ascii) : ascii :=
  let b := byte_val c in if (65 <=? b) && (b <=? 90) then chr (b + 32) else c.

Definition isSpace (c : ascii) : bool :=
  let b := byte_val c in (b =? 32) || ((9 <=? b) && (b <=? 13)).

(** Maximal runs of non-space bytes; [cur] is the current run, reversed. *)
Fixpoint fields_loop (s cur : gostring) : list gostring :=
  match s with
  | [] => match cur with [] => [] | _ => [reverse cur] end
  | c :: s' =>
      if isSpace c then
        match cur with [] => fields_loop s' [] | _ => reverse cur :: fields_loop s' [] end
      else fields_loop s' (c :: cur)
  end.

Fixpoint trim_left (s : gostring) : gostring :=
  match s with
  | c :: s' => if isSpace c then trim_left s' else s
  | [] => []
  end.

(** Byte comparisons only: these need no Unicode. *)
Definition HasSuffix (s suffix : gostring) : bool :=
  (length suffix <=? length s)%nat && bool_decide (drop (length s - length suffix) s = suffix).
Definition TrimSuffix (s suffix : gostring) : gostring :=
  if HasSuffix s suffix then take (length s - length suffix) s else s.

(** [Split(s, sep)] for a separator of one byte; [cur] is the current piece, reversed. *)
Fixpoint split_loop (sep : ascii) (s cur : gostring) : list gostring :=
  match s with
  | [] => [reverse cur]
  | c :: s' => if bool_decide (c = sep) then reverse cur :: split_loop sep s' [] else split_loop sep s' (c :: cur)
  end.
Definition Split (s : gostring) (sep : ascii) : list gostring := split_loop sep s [].

Section with_unicode.
Context `{Unicode}.

Definition ToUpper (s : gostring) : gostring :=
  if isASCII s then upper <$> s else uni_ToUpper s.
Definition ToLower (s : gostring) : gostring :=
  if isASCII s then lower <$> s else uni_ToLower s.
Definition EqualFold (s t : gostring) : bool :=
  if isASCII s && isASCII t then bool_decide (lower <$> s = lower <$> t) else uni_EqualFold s t.
Definition Fields (s : gostring) : list gostring :=
  if isASCII s then fields_loop s [] else uni_Fields s.
Definition TrimSpace (s : gostring) : gostring :=
  if isASCII s then reverse (trim_left (reverse (trim_left s))) else uni_TrimSpace s.

(** [strconv.Quote], and the text of a [*strconv.NumError]. *)
Definition Quote (s : gostring) : gostring :=
  if isASCII s then [chr 34] ++ mjoin (quote_byte <$> s) ++ [chr 34] else uni_Quote s.
Definition NumError (fn : string) (s : gostring) : gostring :=
  str "strconv." ++ str fn ++ str ": parsing " ++ Quote s ++ str ": " ++ numCause s.
End with_unicode.

(** ** Decimal round trip *)
Lemma byte_val_range c : 0 <= byte_val c < 256.
Proof.
  unfold byte_val. pose proof (N_ascii_bounded c). lia.
Qed.

Lemma byte_val_chr n : 0 <= n < 256 -> byte_val (chr n) = n.
Proof. intros. unfold byte_val, chr. rewrite -> N_ascii_embedding by lia. lia. Qed.

Lemma digit_of_chr d : 0 <= d < 10 -> digit_of (chr (48 + d)) = Some d.
Proof.
  intros. unfold digit_of. rewrite -> byte_val_chr by lia.
  rewrite -> (proj2 (Z.leb_le _ _)), (proj2 (Z.leb_le _ _)) by lia. simpl. f_equal. lia.
Qed.

(** Parsing resumes after the digits of [n] as if [n] had been accumulated. *)
Lemma parse_format_digits fuel n acc a :
  0 <= n < 10 ^ Z.of_nat fuel -> (0 < fuel)%nat ->
  exists k, 0 < k /\ parse_digits (format_digits fuel n acc) a = parse_digits acc (a * 10 ^ k + n).
Proof.
  revert n acc a. induction fuel as [|fuel IH]; intros n acc a Hn Hf; [lia|]. simpl.
  pose proof (Z.mod_pos_bound n 10 ltac:(lia)). pose proof (Z.div_mod n 10 ltac:(lia)).
  destruct (Z.eqb_spec (n / 10) 0).
  { exists 1. split; [lia|]. simpl. rewrite -> digit_of_chr by lia. simpl. f_equal. lia. }
  assert (0 <= n / 10 < 10 ^ Z.of_nat fuel).
  { split; [apply Z.div_pos; lia|]. apply Z.div_lt_upper_bound; [lia|].
    rewrite -> Nat2Z.inj_succ, Z.pow_succ_r in Hn by lia. lia. }
  assert (0 < fuel)%nat by (destruct fuel; [change (10 ^ Z.of_nat 0) with 1 in *|]; lia).
  destruct (IH (n / 10) (chr (48 + n mod 10) :: acc) a) as (k & Hk & ->); [done..|].
  exists (k + 1). split; [lia|]. simpl. rewrite -> digit_of_chr by lia. simpl. f_equal.
  rewrite -> Z.pow_add_r by lia. lia.
Qed.

Lemma format_digits_head fuel n acc :
  (0 < fuel)%nat -> exists d s, format_digits fuel n acc = chr (48 + d) :: s /\ 0 <= d < 10.
Proof.
  revert n acc. induction fuel as [|fuel IH]; intros n acc Hf; [lia|]. simpl.
  pose proof (Z.mod_pos_bound n 10 ltac:(lia)).
  destruct (n / 10 =? 0); [by do 2 eexists|]. destruct fuel; [by do 2 eexists|]. apply IH. lia.
Qed.

Lemma chr_digit_not_sign d :
  0 <= d < 10 -> chr (48 + d) <> "-"%char /\ chr (48 + d) <> "+"%char.
Proof.
  intros Hd. split; intros Heq; apply (f_equal byte_val) in Heq;
    rewrite -> byte_val_chr in Heq by lia;
    change (byte_val "-"%char) with 45 in Heq; change (byte_val "+"%char) with 43 in Heq; lia.
Qed.

Lemma parse_uint_format n : 0 <= n < 10 ^ 20 -> parse_uint (format_digits 20 n []) = Some n.
Proof.
  intros Hn. destruct (format_digits_head 20 n [] ltac:(lia)) as (d & s & Heq & _).
  unfold parse_uint. rw Heq -Heq.
  by destruct (parse_format_digits 20 n [] 0 Hn ltac:(lia)) as (k & _ & ->).
Qed.

(** The decimal text of a 64-bit integer parses back to it. *)
Lemma ParseInt_FormatInt n : in_int64 n -> ParseInt (FormatInt n) = Some n.
Proof.
  intros Hn. unfold FormatInt, ParseInt.
  assert (Hr : - 2 ^ 63 <= n <= 2 ^ 63 - 1) by apply Hn.
  destruct (Z.ltb_spec n 0).
  - rewrite -> bool_decide_eq_true_2 by done. rewrite -> parse_uint_format by lia. simpl.
    rw Z.opp_involutive. by rewrite -> decide_True by done.
  - destruct (format_digits_head 20 n [] ltac:(lia)) as (d & s & Heq & Hd). rw Heq -Heq.
    destruct (chr_digit_not_sign d Hd). rewrite -> !bool_decide_eq_false_2 by done.
    rewrite -> parse_uint_format by lia. simpl. by rewrite -> decide_True by done.
Qed.

Lemma ParseInt_range s n : ParseInt s = Some n -> in_int64 n.
Proof.
  unfold ParseInt. intros Hp. apply bind_Some in Hp as (m & _ & Hm).
  case_decide; by simplify_eq.
Qed.

(** A decimal text is printable ASCII: digits and a sign. *)
Definition decimal (s : gostring) : Prop := Forall (fun c => 43 <= byte_val c <= 57) s.

Lemma format_digits_decimal fuel n acc : decimal acc -> decimal (format_digits fuel n acc).
Proof.
  revert n acc. induction fuel as [|fuel IH]; intros n acc Hacc; [done|]. simpl.
  pose proof (Z.mod_pos_bound n 10 ltac:(lia)).
  assert (decimal (chr (48 + n mod 10) :: acc)).
  { constructor; [rewrite -> byte_val_chr by lia; lia|done]. }
  destruct (n / 10 =? 0); auto.
Qed.

Lemma FormatInt_decimal n : decimal (FormatInt n).
Proof.
  unfold FormatInt. destruct (n <? 0); [constructor; [by vm_compute|]|];
    apply format_digits_decimal; constructor.
Qed.

Lemma format_digits_length fuel n acc :
  (length (format_digits fuel n acc) <= fuel + length acc)%nat.
Proof.
  revert n acc. induction fuel as [|fuel IH]; intros n acc; simpl; [lia|].
  destruct (n / 10 =? 0); simpl; [lia|]. etrans; [apply IH|]. simpl. lia.
Qed.

Lemma FormatInt_len n : len (FormatInt n) <= 21.
Proof.
  pose proof (format_digits_length 20 (- n) []) as H1.
  pose proof (format_digits_length 20 n []) as H2. rw length_nil in H1 H2.
  unfold FormatInt, len. destruct (n <? 0); rw ?length_cons; lia.
Qed.

End GoLib.
