(* ===== verification/GoIO.v ===== *)
(** * Go's [bufio] as the server uses it

    A [bufio.Reader] is the byte sequence its source still has to deliver before
    it reports [io.EOF]; the 4096-byte buffer is visible only through
    [ReadSlice], which returns a full buffer at a time when the delimiter is
    further away.  A [bufio.Writer] is its buffer, its sticky error and the
    [io.Writer] underneath, which is the class [Writer]. *)

From S2P Require Import Prelude.

Definition LF : ascii := Ascii.ascii_of_nat 10.
Definition CR : ascii := Ascii.ascii_of_nat 13.
Definition CRLF : gostring := [CR; LF].

(** [io.Writer]: bytes accepted, whether an error was returned, and the writer after. *)
Class Writer (W : Type) := w_write : gostring -> W -> (nat * bool) * W.

Module GoIO.

(** ** [bufio.Reader] *)
Definition defaultBufSize : nat := Z.to_nat 4096.
#[global] Arguments defaultBufSize : simpl never.

Definition ReadByte (r : gostring) : option (ascii * gostring) :=
  match r with [] => None | c :: r' => Some (c, r') end.

(** Bytes up to and including the first LF, at most [n] of them, and whether
    the LF was found. *)
Fixpoint scan_line (n : nat) (r : gostring) : gostring * bool * gostring :=
  match n, r with
  | O, _ => ([], false, r)
  | _, [] => ([], false, [])
  | S n', c :: r' =>
      if bool_decide (c = LF) then ([c], true, r')
      else let '(chunk, found, rest) := scan_line n' r' in (c :: chunk, found, rest)
  end.

Inductive sliceErr := SliceNil | SliceBufferFull | SliceEOF.

(** [ReadSlice('\n')]. *)
Definition ReadSlice (r : gostring) : gostring * sliceErr * gostring :=
  let '(chunk, found, rest) := scan_line defaultBufSize r in
  (chunk,
   (if found then SliceNil
    else if len chunk =? Z.of_nat defaultBufSize then SliceBufferFull else SliceEOF),
   rest).

(** [io.ReadFull(r, buf)] with [n = len(buf)]: [inl true] is [io.EOF],
    [inl false] is [io.ErrUnexpectedEOF]. *)
Definition ReadFull (n : Z) (r : gostring) : (bool + gostring) * gostring :=
  if n <=? len r then (inr (take (Z.to_nat n) r), drop (Z.to_nat n) r)
  else (inl (bool_decide (r = [])), []).

(** ** [bufio.Writer] *)
Record bufWriter (W : Type) := mkBW { bwSize : Z; bwBuf : gostring; bwErr : bool; bwSink : W }.
Global Arguments mkBW {W}.
Global Arguments bwSize {W}.
Global Arguments bwBuf {W}.
Global Arguments bwErr {W}.
Global Arguments bwSink {W}.

Definition NewWriterSize {W} (w : W) (size : Z) : bufWriter W := mkBW size [] false w.
Definition NewWriter {W} (w : W) : bufWriter W := NewWriterSize w 4096.

Section writer.
Context `{Writer W}.

(** A short write keeps the bytes the sink did not take. *)
Definition Flush (b : bufWriter W) : bufWriter W :=
  if bwErr b then b
  else match bwBuf b with
       | [] => b
       | buf =>
           let '(n, err, sink) := w_write buf (bwSink b) in
           let err := err || (n <? length buf)%nat in
           mkBW (bwSize b) (if err then drop n buf else []) err sink
       end.

Definition Available (b : bufWriter W) : Z := bwSize b - len (bwBuf b).

(** The loop of [Write]: a turn that finds the buffer empty hands the rest of
    [p] to the sink, one that does not fills the buffer and flushes it. *)
Fixpoint write_loop (fuel : nat) (p : gostring) (b : bufWriter W) : gostring * bufWriter W :=
  match fuel with
  | O => (p, b)
  | S fuel' =>
      if (Available b <? len p) && negb (bwErr b) then
        match bwBuf b with
        | [] =>
            let '(n, err, sink) := w_write p (bwSink b) in
            write_loop fuel' (drop n p) (mkBW (bwSize b) [] err sink)
        | _ =>
            let n := Z.to_nat (Available b) in
            write_loop fuel' (drop n p)
              (Flush (mkBW (bwSize b) (bwBuf b ++ take n p) (bwErr b) (bwSink b)))
        end
      else (p, b)
  end.

(** Three turns: fill and flush, write through, leave. *)
Definition Write (p : gostring) (b : bufWriter W) : bufWriter W :=
  let '(p, b) := write_loop 3 p b in
  if bwErr b then b else mkBW (bwSize b) (bwBuf b ++ p) (bwErr b) (bwSink b).
End writer.

End GoIO.
