(* ===== verification/GoIOProof.v ===== *)
(** * Buffered writing, for any sink

    What a [bufio.Writer] guarantees follows from what its sink does with one
    write.  [accepted c w] says that the sink took exactly the bytes [c] so far,
    [refused c w] what is known once a write failed, [c] being all the bytes the
    writer was given. *)

From S2P Require Import Prelude GoIO.

Module GoIOProof.

Section writer.
Context `{Writer W} (accepted refused : gostring -> W -> Prop).
Hypothesis write_ok : forall p c w, accepted c w ->
  let '(n, err, w') := w_write p w in
  if err then refused (c ++ p) w' else n = length p /\ accepted (c ++ p) w'.
Hypothesis refused_app : forall p c w, refused c w -> refused (c ++ p) w.

(** [p] is still to be written, [total] is all that was ever handed over. *)
Definition pending (p total : gostring) (b : GoIO.bufWriter W) : Prop :=
  0 < GoIO.bwSize b /\ len (GoIO.bwBuf b) <= GoIO.bwSize b /\
  if GoIO.bwErr b then refused total (GoIO.bwSink b)
  else exists out, accepted out (GoIO.bwSink b) /\ out ++ GoIO.bwBuf b ++ p = total.

(** All of [total] has been handed to the writer. *)
Definition holds (total : gostring) (b : GoIO.bufWriter W) : Prop := pending [] total b.

Lemma Flush_pending p total b :
  pending p total b ->
  pending p total (GoIO.Flush b) /\
  (GoIO.bwErr (GoIO.Flush b) = false -> GoIO.bwBuf (GoIO.Flush b) = []).
Proof.
  destruct b as [size buf err w]. unfold pending, GoIO.Flush. cbn -[Nat.ltb].
  intros (Hsz & Hbuf & Hb).
  destruct err; [done|]. destruct buf as [|x buf]; [done|].
  change (S (length buf)) with (length (x :: buf)). remember (x :: buf) as y eqn:Hy. clear Hy.
  destruct Hb as (out & Ha & <-). pose proof (write_ok y out w Ha) as Hw.
  destruct (w_write y w) as [[n err] w']. destruct err.
  - simpl. split; [|done]. split_and!; [done| |rw app_assoc; by apply refused_app].
    unfold len in *. rw length_drop. lia.
  - destruct Hw as [-> Hw]. rewrite -> (proj2 (Nat.ltb_ge (length y) (length y))) by done.
    cbn. split; [|done].
    split_and!; [done|rw len_nil; lia|]. exists (out ++ y). split; [done|]. by rw -app_assoc.
Qed.

(** The loop stops when the rest fits the buffer, or on an error. *)
Definition settled (p total : gostring) (b : GoIO.bufWriter W) : Prop :=
  pending p total b /\ (GoIO.bwErr b = false -> len p <= GoIO.Available b).

Lemma loop_settled n p total b :
  pending p total b -> GoIO.bwErr b = true \/ len p <= GoIO.Available b ->
  GoIO.write_loop n p b = (p, b) /\ settled p total b.
Proof.
  intros Hp Hs. split.
  - destruct n; [done|]. simpl. destruct Hs as [->|Hs]; [by rw andb_false_r|].
    by rewrite -> (proj2 (Z.ltb_ge _ _)).
  - split; [done|]. intros He. destruct Hs; [congruence|done].
Qed.

(** An empty buffer: the rest goes to the sink in one write. *)
Lemma loop_direct n p total b :
  pending p total b -> GoIO.bwBuf b = [] ->
  exists p' b', GoIO.write_loop (S n) p b = (p', b') /\ settled p' total b'.
Proof.
  destruct b as [size buf err w]. cbn [GoIO.bwBuf]. intros Hp ->.
  destruct (decide (err = true \/ len p <= GoIO.Available (GoIO.mkBW size [] err w))) as [Hs|Hs].
  { exists p, (GoIO.mkBW size [] err w). exact (loop_settled _ _ _ _ Hp Hs). }
  destruct err; [tauto|]. assert (Hlt : GoIO.Available (GoIO.mkBW size [] false w) < len p) by lia.
  pose proof Hp as (Hsz & _ & out & Ha & <-). cbn in Hsz, Ha. cbn [GoIO.write_loop].
  rewrite -> (proj2 (Z.ltb_lt _ _)) by done. cbn [GoIO.bwErr GoIO.bwBuf GoIO.bwSink GoIO.bwSize negb andb].
  pose proof (write_ok p out w Ha) as Hw. destruct (w_write p w) as [[k err] w']. destruct err.
  - do 2 eexists. apply loop_settled; [|by left]. split_and!; [done|simpl; rw len_nil; lia|done].
  - destruct Hw as [-> Hw]. rw drop_all.
    do 2 eexists. apply loop_settled; [|right; unfold GoIO.Available; simpl; rw len_nil; lia].
    split_and!; [done|simpl; rw len_nil; lia|]. simpl. exists (out ++ p). by rw app_nil_r.
Qed.

Lemma write_loop_settled p total b :
  pending p total b ->
  exists p' b', GoIO.write_loop 3 p b = (p', b') /\ settled p' total b'.
Proof.
  intros Hp. destruct (GoIO.bwBuf b) as [|x buf] eqn:Hbuf; [by apply loop_direct|].
  destruct (decide (GoIO.bwErr b = true \/ len p <= GoIO.Available b)) as [Hs|Hs].
  { exists p, b. by apply loop_settled. }
  destruct b as [size buf' err w]. cbn [GoIO.bwBuf GoIO.bwErr] in *. subst buf'. destruct err; [tauto|].
  set (b := GoIO.mkBW size (x :: buf) false w) in *. set (n := Z.to_nat (GoIO.Available b)).
  assert (GoIO.write_loop 3 p b = GoIO.write_loop 2 (drop n p)
            (GoIO.Flush (GoIO.mkBW size (GoIO.bwBuf b ++ take n p) false w))) as ->.
  { change (GoIO.write_loop 3 p b) with
      (if (GoIO.Available b <? len p) && true
       then GoIO.write_loop 2 (drop n p) (GoIO.Flush (GoIO.mkBW size (GoIO.bwBuf b ++ take n p) false w))
       else (p, b)).
    by rewrite -> (proj2 (Z.ltb_lt _ _)) by lia. }
  assert (Hq : pending (drop n p) total (GoIO.mkBW size (GoIO.bwBuf b ++ take n p) false w)).
  { destruct Hp as (Hsz & Hl & out & Ha & <-). split_and!; [done| |].
    - unfold GoIO.bwBuf at 1, GoIO.bwSize. rw len_app. subst n. unfold GoIO.Available in *.
      unfold len in *. rw length_take. simpl in *. lia.
    - exists out. simpl. by rw -app_assoc take_drop. }
  apply Flush_pending in Hq as [Hq He].
  destruct (GoIO.bwErr (GoIO.Flush _)) eqn:Herr.
  - do 2 eexists. apply loop_settled; auto.
  - apply loop_direct; auto.
Qed.

Lemma Write_holds total p b : holds total b -> holds (total ++ p) (GoIO.Write p b).
Proof.
  intros Hb. assert (Hp : pending p (total ++ p) b).
  { destruct Hb as (Hsz & Hl & Hb). split_and!; [done..|]. destruct (GoIO.bwErr b).
    - by apply refused_app.
    - destruct Hb as (out & Ha & <-). exists out. by rw app_nil_r -app_assoc. }
  unfold GoIO.Write. apply write_loop_settled in Hp as (p' & b' & -> & Hp & Ha).
  destruct Hp as (Hsz & Hl & Hb'). destruct (GoIO.bwErr b') eqn:He.
  - split_and!; [done..|]. by rw He.
  - specialize (Ha eq_refl). unfold GoIO.Available in Ha. split_and!; simpl; [done|rw len_app; lia|].
    destruct Hb' as (out & Hc & <-). exists out. by rw app_nil_r.
Qed.

(** Flushing delivers everything or fails. *)
Lemma Flush_holds total b :
  holds total b ->
  if GoIO.bwErr (GoIO.Flush b) then refused total (GoIO.bwSink (GoIO.Flush b))
  else accepted total (GoIO.bwSink (GoIO.Flush b)) /\ GoIO.bwBuf (GoIO.Flush b) = [].
Proof.
  intros Hb. apply Flush_pending in Hb as [(_ & _ & Hf) Hn].
  destruct (GoIO.bwErr (GoIO.Flush b)); [done|]. destruct Hf as (out & Ha & Ho).
  rewrite -> (Hn eq_refl), !app_nil_r in Ho. subst. auto.
Qed.

Lemma NewWriter_holds w size : 0 < size -> accepted [] w -> holds [] (GoIO.NewWriterSize w size).
Proof. intros Hs Ha. split_and!; [done|simpl; rw len_nil; lia|]. by exists []. Qed.

End writer.

End GoIOProof.
