(* ===== verification/Resp.v ===== *)
(** * The RESP protocol

    [internal/protocol/resp]: values, the bounded decoder and the encoder.  The
    decoder's methods are actions of an error and state monad on the [Decoder]
    struct; the encoder writes to a [bufio.Writer] over an arbitrary sink.
    Definitions only; [RespProof] has the theorems. *)

From S2P Require Import Prelude GoLib GoIO.

(** ** types.go *)
Abbreviation Type_ := ascii.
Definition SimpleString : Type_ := "+"%char.
Definition Error : Type_ := "-"%char.
Definition Integer : Type_ := ":"%char.
Definition BulkString : Type_ := "$"%char.
Definition Array : Type_ := "*"%char.

#[warnings="-register-all"]
Inductive Value := mkValue {
  vType : Type_;
  vIsNull : bool;
  vString : gostring;
  vInteger : Z;
  vArray : list Value;
}.

(** ** constructors.go *)
Definition NewSimpleString (value : gostring) : Value := mkValue SimpleString false value 0 [].
Definition NewError (value : gostring) : Value := mkValue Error false value 0 [].
Definition NewInteger (value : Z) : Value := mkValue Integer false [] value [].
Definition NewBulkString (value : gostring) : Value := mkValue BulkString false value 0 [].
Definition NewNullBulkString : Value := mkValue BulkString true [] 0 [].
Definition NewArray (values : list Value) : Value := mkValue Array false [] 0 values.

(** ** utils.go *)
Definition maxRESPLineLength : Z := 16 * 1024.
Definition maxBulkStringLength : Z := 2 ^ 20.
Definition maxArrayLength : Z := 1024.
Definition maxRESPDepth : Z := 64.

(** The errors [Decode] returns; [ErrInline] wraps the error of the line. *)
Inductive decErr :=
  | ErrEOF | ErrUnexpectedEOF
  | ErrMessageLimit (max : Z) | ErrLineLength | ErrLineCRLF | ErrTermination
  | ErrInteger (line : gostring)
  | ErrBulkSyntax (line : gostring) | ErrBulkNegative (n : Z) | ErrBulkLimit (n : Z)
  | ErrArraySyntax (line : gostring) | ErrArrayNegative (n : Z) | ErrArrayLimit (n : Z)
  | ErrDepth | ErrInline (e : decErr) | ErrEmptyInline.

(** [errors.Is(err, io.EOF) || errors.Is(err, io.ErrUnexpectedEOF)]. *)
Fixpoint incomplete (e : decErr) : bool :=
  match e with ErrEOF | ErrUnexpectedEOF => true | ErrInline e => incomplete e | _ => false end.

(** ** decoder.go *)
Record Decoder := mkDecoder {
  dreader : gostring;
  maxMessageBytes : Z;
  messageBytes : Z;
  depth : Z;
}.

Definition NewDecoderWithLimit (reader : gostring) (max : Z) : Decoder := mkDecoder reader max 0 0.
Definition NewDecoder (reader : gostring) : Decoder := NewDecoderWithLimit reader (2 * 2 ^ 20).

Definition set_reader (r : gostring) (d : Decoder) : Decoder :=
  mkDecoder r (maxMessageBytes d) (messageBytes d) (depth d).
Definition set_bytes (n : Z) (d : Decoder) : Decoder :=
  mkDecoder (dreader d) (maxMessageBytes d) n (depth d).
Definition set_depth (n : Z) (d : Decoder) : Decoder :=
  mkDecoder (dreader d) (maxMessageBytes d) (messageBytes d) n.

(** Actions of the decoder: [(Value{}, err)] is [inl err]. *)
Definition M (A : Type) : Type := Decoder -> (decErr + A) * Decoder.

Definition ret {A} (a : A) : M A := fun d => (inr a, d).
Definition fail {A} (e : decErr) : M A := fun d => (inl e, d).
Definition andThen {A B} (m : M A) (k : A -> M B) : M B := fun d =>
  match m d with (inl e, d) => (inl e, d) | (inr a, d) => k a d end.

Declare Scope dec_scope.
Delimit Scope dec_scope with dec.
Notation "x <- m ;; k" := (andThen m (fun x => k))
  (at level 100, m at next level, right associativity) : dec_scope.
Notation "m1 ;;; m2" := (andThen m1 (fun _ => m2)) (at level 100, right associativity) : dec_scope.

Module Resp.
Local Open Scope dec_scope.

(** ** utils.go: lines, budget, terminators *)
Definition readByte : M ascii := fun d =>
  match GoIO.ReadByte (dreader d) with
  | None => (inl ErrEOF, d)
  | Some (c, r) => (inr c, set_reader r d)
  end.

Definition consume (n : Z) : M unit := fun d =>
  if (n <? 0) || (maxMessageBytes d - n <? messageBytes d)
  then (inl (ErrMessageLimit (maxMessageBytes d)), d)
  else (inr tt, set_bytes (messageBytes d + n) d).

(** The guards of one turn of [readLine]'s loop on the chunk just read: [inr true]
    is the [break], [inr false] another turn. *)
Definition checked (line chunk : gostring) (err : GoIO.sliceErr) : M (gostring * bool) :=
  (if 0 <? len chunk then
     consume (len chunk) ;;;
     (if maxRESPLineLength <? len (line ++ chunk) then fail ErrLineLength else ret tt)
   else ret tt) ;;;
  match err with
  | GoIO.SliceNil => ret (line ++ chunk, true)
  | GoIO.SliceBufferFull => ret (line ++ chunk, false)
  | GoIO.SliceEOF => fail ErrEOF
  end.

Definition readChunk (line : gostring) : M (gostring * bool) := fun d =>
  let '(chunk, err, r) := GoIO.ReadSlice (dreader d) in
  checked line chunk err (set_reader r d).

(** A full buffer is 4096 bytes and a line at most 16384, so the fifth turn
    always ends the loop (see [RespLimits.readLine_fuel]). *)
Fixpoint readLine_loop (fuel : nat) (line : gostring) : M gostring :=
  match fuel with
  | O => fail ErrLineLength
  | S fuel' =>
      res <- readChunk line ;;
      (if snd res then ret (fst res) else readLine_loop fuel' (fst res))
  end.

Definition readLine : M gostring :=
  line <- readLine_loop 5 [] ;;
  let n := len line in
  if (n <? 2) || negb (bool_decide (drop (Z.to_nat (n - 2)) line = CRLF))
  then fail ErrLineCRLF
  else ret (take (Z.to_nat (n - 2)) line).

Definition expectCRLF : M unit :=
  cr <- readByte ;;
  consume 1 ;;;
  lf <- readByte ;;
  consume 1 ;;;
  if negb (bool_decide (cr = CR)) || negb (bool_decide (lf = LF))
  then fail ErrTermination else ret tt.

(** ** One method per type *)
Definition decodeSimpleString : M Value := line <- readLine ;; ret (NewSimpleString line).
Definition decodeError : M Value := line <- readLine ;; ret (NewError line).

Definition decodeInteger : M Value :=
  line <- readLine ;;
  match GoLib.ParseInt line with
  | None => fail (ErrInteger line)
  | Some value => ret (NewInteger value)
  end.

Definition readFull (n : Z) : M gostring := fun d =>
  let '(res, r) := GoIO.ReadFull n (dreader d) in
  (match res with
   | inl true => inl ErrEOF
   | inl false => inl ErrUnexpectedEOF
   | inr buf => inr buf
   end, set_reader r d).

Definition decodeBulkString : M Value :=
  line <- readLine ;;
  match GoLib.Atoi line with
  | None => fail (ErrBulkSyntax line)
  | Some length =>
      if length =? -1 then ret (mkValue BulkString true [] 0 [])
      else if length <? -1 then fail (ErrBulkNegative length)
      else if maxBulkStringLength <? length then fail (ErrBulkLimit length)
      else
        consume (length + 2) ;;;
        buf <- readFull length ;;
        expectCRLF ;;;
        ret (NewBulkString buf)
  end.

(** The element loop of [decodeArray]. *)
Fixpoint decodeElems (Decode : M Value) (n : nat) : M (list Value) :=
  match n with
  | O => ret []
  | S n' => v <- Decode ;; vs <- decodeElems Decode n' ;; ret (v :: vs)
  end.

Definition decodeArray (Decode : M Value) : M Value :=
  line <- readLine ;;
  match GoLib.Atoi line with
  | None => fail (ErrArraySyntax line)
  | Some count =>
      if count =? -1 then ret (mkValue Array false [] 0 [])
      else if count <? -1 then fail (ErrArrayNegative count)
      else if maxArrayLength <? count then fail (ErrArrayLimit count)
      else values <- decodeElems Decode (Z.to_nat count) ;; ret (NewArray values)
  end.

Section inline.
Context `{Unicode}.

(** [fmt.Errorf("...: %w", err)]. *)
Definition wrapErr {A} (w : decErr -> decErr) (m : M A) : M A := fun d =>
  match m d with (inl e, d) => (inl (w e), d) | (inr a, d) => (inr a, d) end.

Definition decodeInline : M Value :=
  line <- wrapErr ErrInline readLine ;;
  match GoLib.Fields line with
  | [] => fail ErrEmptyInline
  | tokens => ret (NewArray (NewBulkString <$> tokens))
  end.

Definition unreadByte (c : ascii) : M unit := fun d =>
  (inr tt, set_bytes (messageBytes d - 1) (set_reader (c :: dreader d) d)).

(** From the prefix byte on. *)
Definition dispatch (Decode : M Value) : M Value :=
  prefix <- readByte ;;
  consume 1 ;;;
  if bool_decide (prefix = SimpleString) then decodeSimpleString
  else if bool_decide (prefix = Error) then decodeError
  else if bool_decide (prefix = Integer) then decodeInteger
  else if bool_decide (prefix = BulkString) then decodeBulkString
  else if bool_decide (prefix = Array) then decodeArray Decode
  else unreadByte prefix ;;; decodeInline.

(** The body of [Decode]; the deferred decrement runs on every path. *)
Definition decode_body (Decode : M Value) : M Value := fun d =>
  let d := if depth d =? 0 then set_bytes 0 d else d in
  let d := set_depth (depth d + 1) d in
  let '(r, d) := if maxRESPDepth <? depth d then (inl ErrDepth, d) else dispatch Decode d in
  (r, set_depth (depth d - 1) d).

(** Recursion is bounded by the nesting limit: call number 65 fails its depth
    check, so 65 levels of fuel are never exhausted ([RespStream.Decode_eq]). *)
Fixpoint DecodeF (fuel : nat) : M Value :=
  match fuel with O => fail ErrDepth | S fuel' => decode_body (DecodeF fuel') end.

Definition Decode : M Value := DecodeF 65.
End inline.

(** ** encode.go and encoder_utils.go *)
Inductive encErr := EncWrite | EncUnsupported.

Section encoder.
Context `{Writer W}.

(** [fmt.Fprintf] formats into its own buffer and writes it in one call. *)
Definition printf (p : gostring) (b : GoIO.bufWriter W) : option encErr * GoIO.bufWriter W :=
  let b := GoIO.Write p b in (if GoIO.bwErr b then Some EncWrite else None, b).

Definition encodeSimpleString (v : Value) := printf ("+"%char :: vString v ++ CRLF).
Definition encodeError (v : Value) := printf ("-"%char :: vString v ++ CRLF).
Definition encodeInteger (v : Value) := printf (":"%char :: GoLib.FormatInt (vInteger v) ++ CRLF).
Definition encodeBulkString (v : Value) :=
  if vIsNull v then printf (str "$-1" ++ CRLF)
  else printf ("$"%char :: GoLib.FormatInt (len (vString v)) ++ CRLF ++ vString v ++ CRLF).

(** [encodeArray] is the last branch: the loop over the elements calls [Encode]. *)
Fixpoint Encode (v : Value) (b : GoIO.bufWriter W) : option encErr * GoIO.bufWriter W :=
  if bool_decide (vType v = SimpleString) then encodeSimpleString v b
  else if bool_decide (vType v = Error) then encodeError v b
  else if bool_decide (vType v = Integer) then encodeInteger v b
  else if bool_decide (vType v = BulkString) then encodeBulkString v b
  else if bool_decide (vType v = Array) then
    match printf ("*"%char :: GoLib.FormatInt (len (vArray v)) ++ CRLF) b with
    | (Some e, b) => (Some e, b)
    | (None, b) =>
        let fix encodeElems (vs : list Value) (b : GoIO.bufWriter W) :=
          match vs with
          | [] => (None, b)
          | v :: vs => match Encode v b with (Some e, b) => (Some e, b) | (None, b) => encodeElems vs b end
          end in
        encodeElems (vArray v) b
    end
  else (Some EncUnsupported, b).
End encoder.

End Resp.
