(* ===== verification/RespStream.v ===== *)
(** * The decoder on a byte stream

    The decoder never sees the end of a message from the outside: it works on
    whatever bytes have arrived.  [local] captures that its answer does not
    depend on bytes it has not consumed, that a protocol error stays one when
    more bytes arrive, and that an incomplete message is one that reads past the
    available bytes.  Every method is [local]; nesting depth is restored on
    every path. *)

From S2P Require Import Prelude GoLib GoIO Resp.

Module RespStream.
Import Resp.
Local Open Scope dec_scope.

(** The decoder after [q] more bytes have arrived. *)
Definition feed (q : gostring) (d : Decoder) : Decoder := set_reader (dreader d ++ q) d.

Definition local {A} (m : M A) : Prop := forall d q,
  match m d with
  | (inr a, d') =>
      m (feed q d) = (inr a, feed q d') /\ len (dreader d') <= len (dreader d)
  | (inl e, _) =>
      match m (feed q d) with
      | (inl e', _) => incomplete e = false -> incomplete e' = false
      | (inr _, d'') => incomplete e = true /\ len (dreader d'') < len q
      end
  end.

Lemma andThen_inr {A B} (m : M A) (k : A -> M B) d b d' :
  andThen m k d = (inr b, d') -> exists a d1, m d = (inr a, d1) /\ k a d1 = (inr b, d').
Proof. unfold andThen. destruct (m d) as [[e|a] d1]; [done|]. by exists a, d1. Qed.

Lemma ret_inr {A} (a b : A) d d' : ret a d = (inr b, d') -> a = b /\ d = d'.
Proof. unfold ret. intros. by simplify_eq. Qed.

Lemma local_ret {A} (a : A) : local (ret a).
Proof. intros d q. simpl. split; [done|lia]. Qed.

Lemma local_fail {A} e : local (@fail A e).
Proof. intros d q. simpl. done. Qed.

Lemma local_bind {A B} (m : M A) (k : A -> M B) :
  local m -> (forall a, local (k a)) -> local (andThen m k).
Proof.
  intros Hm Hk d q. unfold andThen. specialize (Hm d q).
  destruct (m d) as [[e|a] d1].
  - destruct (m (feed q d)) as [[e'|a'] d2]; [done|]. destruct Hm as [He Hl].
    specialize (Hk a' d2 []). destruct (k a' d2) as [[e'|b] d3]; [congruence|].
    destruct Hk as [_ Hk]. split; [done|lia].
  - destruct Hm as [-> Hl]. specialize (Hk a d1 q). destruct (k a d1) as [[e|b] d3]; [done|].
    destruct Hk as [-> Hk]. split; [done|lia].
Qed.

Lemma local_wrap {A} w (m : M A) :
  (forall e, incomplete (w e) = incomplete e) -> local m -> local (wrapErr w m).
Proof.
  intros Hw Hm d q. specialize (Hm d q). unfold wrapErr.
  destruct (m d) as [[e|a] d1].
  - destruct (m (feed q d)) as [[e'|a'] d2]; by rw !Hw.
  - by destruct Hm as [-> Hl].
Qed.

#[local] Hint Resolve local_ret local_fail local_bind : carrot.

(** ** Primitive reads *)
Lemma local_readByte : local readByte.
Proof.
  intros [r m n dep] q. unfold readByte. simpl. destruct r as [|c r]; simpl.
  - destruct q as [|c q]; simpl; [done|]. split; [done|]. rw len_cons. lia.
  - split; [done|]. rw len_cons. lia.
Qed.

Lemma local_consume n : local (consume n).
Proof.
  intros [r m b dep] q. unfold consume. simpl.
  destruct ((n <? 0) || (m - n <? b)); simpl; [done|]. split; [done|lia].
Qed.

Lemma local_readFull n : local (readFull n).
Proof.
  intros [r m b dep] q. unfold readFull, GoIO.ReadFull. simpl. rw len_app.
  pose proof (len_nonneg q). pose proof (len_nonneg r).
  destruct (Z.leb_spec n (len r)) as [Hn|Hn]; simpl.
  - rewrite -> (proj2 (Z.leb_le n (len r + len q))) by lia. unfold len in *.
    rewrite -> take_app_le, drop_app_le by lia. split; [done|]. rw length_drop. lia.
  - destruct (Z.leb_spec n (len r + len q)) as [Hq|Hq]; simpl.
    + rewrite -> drop_app_ge by (unfold len in *; lia).
      destruct (bool_decide (r = [])); (split; [done|]); unfold len in *; rw length_drop; lia.
    + by destruct (bool_decide (r = [])), (bool_decide (r ++ q = [])).
Qed.

(** ** Lines *)
Lemma scan_line_split n r c f r' :
  GoIO.scan_line n r = (c, f, r') ->
  r = c ++ r' /\ (length c <= n)%nat /\ (f = false -> length c = n \/ r' = []) /\ (f = true -> c <> []).
Proof.
  revert r c f r'. induction n as [|n IH]; intros r c f r' H; simpl in H.
  { simplify_eq. split_and!; auto; done. }
  destruct r as [|x r]; [simplify_eq; split_and!; simpl; try lia; auto; done|].
  case_bool_decide; simplify_eq/=; [split_and!; simpl; try lia; done|].
  destruct (GoIO.scan_line n r) as [[c1 f1] r1] eqn:Hs. simplify_eq/=.
  destruct (IH _ _ _ _ Hs) as (-> & Hl & Hf & _).
  split_and!; [done|lia| |done]. intros Hff. destruct (Hf Hff); auto.
Qed.

(** Later bytes matter only when neither the delimiter nor a full buffer was found. *)
Lemma scan_line_app n r q :
  GoIO.scan_line n (r ++ q) =
    let '(c, f, r') := GoIO.scan_line n r in
    if f || (n <=? length c)%nat then (c, f, r' ++ q)
    else let '(c2, f2, q2) := GoIO.scan_line (n - length c) q in (c ++ c2, f2, q2).
Proof.
  revert r. induction n as [|n IH]; intros r; [done|].
  destruct r as [|x r].
  { change (GoIO.scan_line (S n) []) with (@nil ascii, false, @nil ascii).
    cbv beta iota. change (S n - @length ascii [])%nat with (S n). change ([] ++ q) with q.
    by destruct (GoIO.scan_line (S n) q) as [[]]. }
  simpl. case_bool_decide; [done|]. rw IH.
  destruct (GoIO.scan_line n r) as [[c f] r']. simpl.
  destruct (f || (n <=? length c)%nat); [done|]. by destruct (GoIO.scan_line (n - length c) q) as [[]].
Qed.

Lemma local_checked line chunk err : local (checked line chunk err).
Proof.
  unfold checked. apply local_bind; [|intros _; destruct err; auto with carrot].
  destruct (0 <? len chunk); [|auto with carrot]. apply local_bind; [apply local_consume|].
  intros _. destruct (maxRESPLineLength <? len (line ++ chunk)); auto with carrot.
Qed.

(** A chunk cut short by the end of input fails its guards if a longer one does. *)
Lemma checked_longer line chunk more err r d :
  match checked line chunk GoIO.SliceEOF d with
  | (inl e, _) => incomplete e = false -> exists e' d',
      checked line (chunk ++ more) err (set_reader r d) = (inl e', d') /\ incomplete e' = false
  | (inr _, _) => False
  end.
Proof.
  unfold checked, andThen, consume. rw !len_app. pose proof (len_nonneg more).
  pose proof (len_nonneg chunk).
  destruct (Z.ltb_spec 0 (len chunk)); [|done].
  rewrite -> (proj2 (Z.ltb_lt 0 (len chunk + len more))) by lia.
  rewrite -> (proj2 (Z.ltb_ge (len chunk) 0)), (proj2 (Z.ltb_ge (len chunk + len more) 0)) by lia.
  simpl. destruct (Z.ltb_spec (maxMessageBytes d - len chunk) (messageBytes d)); simpl.
  { intros _. rewrite -> (proj2 (Z.ltb_lt _ _)) by lia. simpl. by do 2 eexists. }
  destruct (Z.ltb_spec maxRESPLineLength (len line + len chunk)); simpl; [|done]. intros _.
  destruct (maxMessageBytes d - (len chunk + len more) <? messageBytes d); simpl; [by do 2 eexists|].
  rewrite -> (proj2 (Z.ltb_lt _ _)) by lia. simpl. by do 2 eexists.
Qed.

Lemma checked_ok line chunk err d a d' :
  checked line chunk err d = (inr a, d') ->
  dreader d' = dreader d /\ err <> GoIO.SliceEOF.
Proof.
  unfold checked, andThen, consume, ret, fail.
  destruct (0 <? len chunk); [destruct (_ || _); [done|]; simpl; destruct (_ <? _); [done|]|];
    destruct err; simpl; intros; simplify_eq; by split.
Qed.

Lemma checked_line line chunk err d l stop d' :
  checked line chunk err d = (inr (l, stop), d') -> l = line ++ chunk.
Proof.
  unfold checked, andThen, consume, ret, fail.
  destruct (0 <? len chunk); [destruct (_ || _); [done|]; simpl; destruct (_ <? _); [done|]|];
    destruct err; simpl; intros; by simplify_eq.
Qed.

Lemma ReadSlice_split r : let '(c, _, r') := GoIO.ReadSlice r in r = c ++ r'.
Proof.
  unfold GoIO.ReadSlice. destruct (GoIO.scan_line _ r) as [[c f] r'] eqn:Hs.
  by apply scan_line_split in Hs as [-> _].
Qed.

Lemma ReadSlice_app r q :
  let '(c, err, r') := GoIO.ReadSlice r in
  match err with
  | GoIO.SliceEOF => r' = [] /\ exists c2 err2 q2,
      GoIO.ReadSlice (r ++ q) = (c ++ c2, err2, q2) /\
      (err2 = GoIO.SliceEOF \/ len q2 < len q)
  | _ => GoIO.ReadSlice (r ++ q) = (c, err, r' ++ q) /\ len r' <= len r
  end.
Proof.
  unfold GoIO.ReadSlice. rw scan_line_app. generalize GoIO.defaultBufSize. intros n.
  destruct (GoIO.scan_line n r) as [[c f] r'] eqn:Hs.
  destruct (scan_line_split _ _ _ _ _ Hs) as (-> & Hc & Hf & _). rw len_app.
  pose proof (len_nonneg c).
  destruct f; cbn [orb]; [split; [done|lia]|]. destruct (Z.eqb_spec (len c) (Z.of_nat n)) as [Hn|Hn].
  { rewrite -> (proj2 (Nat.leb_le _ _)) by (unfold len in *; lia).
    rewrite -> (proj2 (Z.eqb_eq _ _)) by done. split; [done|lia]. }
  rewrite -> (proj2 (Nat.leb_gt _ _)) by (unfold len in *; lia).
  destruct (Hf eq_refl) as [| ->]; [unfold len in *; lia|]. split; [done|].
  destruct (GoIO.scan_line (n - length c) q) as [[c2 f2] q2] eqn:Hs2.
  destruct (scan_line_split _ _ _ _ _ Hs2) as (-> & Hc2 & Hf2 & Hne).
  do 3 eexists. split; [done|]. rw !len_app.
  destruct f2; [right; destruct c2; [naive_solver|]; rw !len_cons; pose proof (len_nonneg c2); lia|].
  destruct (Z.eqb_spec (len c + len c2) (Z.of_nat n)); [right; unfold len in *; lia|by left].
Qed.

(** [m] run after a read that left [r]. *)
Lemma local_at {A} (m : M A) r d q :
  local m -> len r <= len (dreader d) ->
  match m (set_reader r d) with
  | (inr a, d') =>
      m (set_reader (r ++ q) (feed q d)) = (inr a, feed q d') /\ len (dreader d') <= len (dreader d)
  | (inl e, _) =>
      match m (set_reader (r ++ q) (feed q d)) with
      | (inl e', _) => incomplete e = false -> incomplete e' = false
      | (inr _, d'') => incomplete e = true /\ len (dreader d'') < len q
      end
  end.
Proof.
  intros Hm Hl. specialize (Hm (set_reader r d) q).
  change (set_reader (r ++ q) (feed q d)) with (feed q (set_reader r d)).
  destruct (m (set_reader r d)) as [[e|a] d']; [done|]. destruct Hm as [-> Hm]. simpl in Hm.
  split; [done|lia].
Qed.

Lemma local_readChunk line : local (readChunk line).
Proof.
  intros d q. unfold readChunk.
  pose proof (ReadSlice_app (dreader d) q) as Hr. simpl.
  destruct (GoIO.ReadSlice (dreader d)) as [[c err] r].
  destruct err; [destruct Hr as [-> Hl]..|].
  1,2: by apply local_at; [apply local_checked|].
  destruct Hr as (-> & c2 & err2 & q2 & -> & Hq).
  pose proof (checked_longer line c c2 err2 q2 (set_reader [] d)) as Hc.
  destruct (checked line c GoIO.SliceEOF (set_reader [] d)) as [[e|a] d1]; [|done].
  change (set_reader q2 (feed q d)) with (set_reader q2 (set_reader [] d)).
  destruct (checked line (c ++ c2) err2 _) as [[e'|a] d2] eqn:He; [naive_solver|].
  apply checked_ok in He as [Hd He]. split.
  - destruct (incomplete e); [done|]. destruct Hc as (? & ? & ? & ?); done.
  - rw Hd. destruct Hq as [->|Hq]; [done|]. done.
Qed.

Lemma local_readLine_loop fuel line : local (readLine_loop fuel line).
Proof.
  revert line. induction fuel as [|fuel IH]; intros line; [apply local_fail|].
  apply local_bind; [apply local_readChunk|]. intros [l []]; [apply local_ret|apply IH].
Qed.

Lemma local_if {A} (b : bool) (m m' : M A) : local m -> local m' -> local (if b then m else m').
Proof. by destruct b. Qed.

#[local] Hint Resolve local_if local_readByte local_consume local_readFull local_readLine_loop
  : carrot.

Lemma local_readLine : local readLine.
Proof. unfold readLine. eauto 8 with carrot. Qed.

Lemma local_expectCRLF : local expectCRLF.
Proof. unfold expectCRLF. eauto 12 with carrot. Qed.

#[local] Hint Resolve local_readLine local_expectCRLF : carrot.

(** A line is exactly the bytes it took, less its terminator. *)
Lemma readLine_loop_split fuel line d l d' :
  readLine_loop fuel line d = (inr l, d') ->
  exists c, l = line ++ c /\ dreader d = c ++ dreader d'.
Proof.
  revert line d. induction fuel as [|fuel IH]; intros line d H; simpl in H; [done|].
  unfold andThen, readChunk in H. pose proof (ReadSlice_split (dreader d)) as Hs.
  destruct (GoIO.ReadSlice (dreader d)) as [[c err] r].
  destruct (checked line c err (set_reader r d)) as [[e|[l1 stop]] d1] eqn:Hc; [done|].
  pose proof (checked_line _ _ _ _ _ _ _ Hc) as ->. apply checked_ok in Hc as [Hd _]. simpl in *.
  destruct stop.
  - unfold ret in H. simplify_eq. by exists c.
  - destruct (IH _ _ H) as (c' & -> & Hd'). exists (c ++ c'). rw Hs -Hd Hd'. by rw !app_assoc.
Qed.

Lemma readLine_split d l d' :
  readLine d = (inr l, d') -> dreader d = l ++ CRLF ++ dreader d'.
Proof.
  unfold readLine, andThen. destruct (readLine_loop 5 [] d) as [[e|line] d1] eqn:Hl; [done|].
  destruct (readLine_loop_split _ _ _ _ _ Hl) as (c & -> & ->). rw app_nil_l.
  destruct (len c <? 2); [done|]. cbn [orb negb]. case_bool_decide as Hc; [|done]. cbn [negb]. unfold ret.
  intros. simplify_eq. rw app_assoc. f_equal. rw -Hc. symmetry. apply take_drop.
Qed.

(** ** Values *)
Lemma local_decodeElems F n : local F -> local (decodeElems F n).
Proof. intros HF. induction n; simpl; eauto with carrot. Qed.

#[local] Hint Resolve local_decodeElems : carrot.

Section unicode.
Context `{Unicode}.

Lemma local_decodeInline : local decodeInline.
Proof.
  apply local_bind; [by apply local_wrap; [|apply local_readLine]|].
  intros line. destruct (GoLib.Fields line); auto with carrot.
Qed.

Lemma decodeInline_progress d v d' :
  decodeInline d = (inr v, d') -> len (dreader d') < len (dreader d).
Proof.
  unfold decodeInline, wrapErr, andThen. destruct (readLine d) as [[e|line] d1] eqn:Hl; [done|].
  apply readLine_split in Hl. destruct (GoLib.Fields line); [done|]. unfold ret. intros.
  simplify_eq. rw Hl !len_app. pose proof (len_nonneg line). change (len CRLF) with 2. lia.
Qed.

(** What [dispatch] does after the prefix byte [c], [None] for an inline command. *)
Definition framed (F : M Value) (c : ascii) : option (M Value) :=
  if bool_decide (c = SimpleString) then Some decodeSimpleString
  else if bool_decide (c = Error) then Some decodeError
  else if bool_decide (c = Integer) then Some decodeInteger
  else if bool_decide (c = BulkString) then Some decodeBulkString
  else if bool_decide (c = Array) then Some (decodeArray F)
  else None.

Lemma local_framed F c m : local F -> framed F c = Some m -> local m.
Proof.
  intros HF. unfold framed. intros Hm. repeat case_bool_decide; simplify_eq;
    unfold decodeSimpleString, decodeError, decodeInteger, decodeBulkString, decodeArray, GoLib.Atoi;
    (apply local_bind; [auto with carrot|]; intros line);
    try destruct (GoLib.ParseInt line); eauto 12 with carrot.
Qed.

Lemma dispatch_eq F d :
  dispatch F d =
    match dreader d with
    | [] => (inl ErrEOF, d)
    | c :: r =>
        match framed F c with
        | Some m => (consume 1 ;;; m) (set_reader r d)
        | None => match consume 1 (set_reader r d) with
                  | (inl e, d) => (inl e, d)
                  | (inr _, _) => decodeInline d
                  end
        end
    end.
Proof.
  destruct d as [[|c r] m b dep]; unfold dispatch, framed, andThen, readByte; simpl; [done|].
  repeat case_bool_decide; try done. unfold consume. simpl. destruct (_ <? _); [done|].
  unfold unreadByte, set_bytes, set_reader. simpl. by replace (b + 1 - 1) with b by lia.
Qed.

(** The first byte is read: framed methods go on after it, an inline command
    starts over with it. *)
Lemma local_dispatch F : local F -> local (dispatch F).
Proof.
  intros HF d q. rw !dispatch_eq. destruct d as [[|c r] m b dep]; simpl.
  - destruct q as [|c q]; [done|].
    destruct (framed F c) as [k|] eqn:Hf.
    + assert (Hk : local (consume 1 ;;; k)) by eauto using local_framed with carrot.
      specialize (Hk (mkDecoder q m b dep) []). unfold set_reader. simpl.
      destruct ((consume 1 ;;; k) (mkDecoder q m b dep)) as [[e|v] d']; [done|].
      destruct Hk as [_ Hk]. simpl in Hk. rw len_cons. split; [done|lia].
    + unfold consume. simpl. destruct (_ <? _); [done|].
      unfold feed, set_reader. simpl. destruct (decodeInline _) as [[e|v] d'] eqn:Hd; [done|].
      apply decodeInline_progress in Hd. by split.
  - destruct (framed F c) as [k|] eqn:Hf.
    + assert (Hk : local (consume 1 ;;; k)) by eauto using local_framed with carrot.
      specialize (local_at _ r (mkDecoder (c :: r) m b dep) q Hk). simpl.
      intros Ha. apply Ha. rw len_cons. lia.
    + unfold consume. simpl. destruct (_ <? _); [done|].
      apply (local_decodeInline (mkDecoder (c :: r) m b dep) q).
Qed.

Lemma local_decode_body F : local F -> local (decode_body F).
Proof.
  intros HF d q. unfold decode_body. simpl.
  set (d1 := if depth d =? 0 then set_bytes 0 d else d).
  assert ((if depth d =? 0 then set_bytes 0 (feed q d) else feed q d) = feed q d1) as ->
    by (subst d1; by destruct (depth d =? 0)).
  assert (dreader d1 = dreader d) as Hd1 by (subst d1; by destruct (depth d =? 0)).
  simpl. destruct (maxRESPDepth <? depth d1 + 1); [done|].
  pose proof (local_dispatch F HF (set_depth (depth d1 + 1) d1) q) as Hl.
  change (set_depth (depth d1 + 1) (feed q d1)) with (feed q (set_depth (depth d1 + 1) d1)).
  destruct (dispatch F (set_depth (depth d1 + 1) d1)) as [[e|v] d2]; simpl in *.
  - by destruct (dispatch F (feed q _)) as [[]].
  - destruct Hl as [-> Hl]. rw -Hd1. split; [done|lia].
Qed.

Lemma local_DecodeF fuel : local (DecodeF fuel).
Proof. induction fuel; [apply local_fail|]. by apply local_decode_body. Qed.

Lemma local_Decode : local Decode.
Proof. apply local_DecodeF. Qed.

End unicode.

(** ** Limits and depth are left as they were *)
Definition keeps {A} (m : M A) : Prop := forall d,
  maxMessageBytes (m d).2 = maxMessageBytes d /\ depth (m d).2 = depth d.

Lemma keeps_ret {A} (a : A) : keeps (ret a).
Proof. done. Qed.

Lemma keeps_fail {A} e : keeps (@fail A e).
Proof. done. Qed.

Lemma keeps_bind {A B} (m : M A) (k : A -> M B) :
  keeps m -> (forall a, keeps (k a)) -> keeps (andThen m k).
Proof.
  intros Hm Hk d. unfold andThen. specialize (Hm d). destruct (m d) as [[e|a] d1]; [done|].
  simpl in *. destruct (Hk a d1) as [-> ->]. done.
Qed.

Lemma keeps_wrap {A} w (m : M A) : keeps m -> keeps (wrapErr w m).
Proof. intros Hm d. unfold wrapErr. specialize (Hm d). by destruct (m d) as [[]]. Qed.

Lemma keeps_if {A} (b : bool) (m m' : M A) : keeps m -> keeps m' -> keeps (if b then m else m').
Proof. by destruct b. Qed.

Lemma keeps_readByte : keeps readByte.
Proof. intros d. unfold readByte. by destruct (GoIO.ReadByte (dreader d)) as [[]|]. Qed.

Lemma keeps_unreadByte c : keeps (unreadByte c).
Proof. done. Qed.

Lemma keeps_consume n : keeps (consume n).
Proof. intros d. unfold consume. by destruct (_ || _). Qed.

Lemma keeps_readFull n : keeps (readFull n).
Proof. intros d. unfold readFull. by destruct (GoIO.ReadFull n (dreader d)). Qed.

#[local] Hint Resolve keeps_ret keeps_fail keeps_bind keeps_wrap keeps_if keeps_readByte
  keeps_unreadByte keeps_consume keeps_readFull : carrot.

Lemma keeps_readChunk line : keeps (readChunk line).
Proof.
  intros d. unfold readChunk. destruct (GoIO.ReadSlice (dreader d)) as [[c err] r].
  assert (Hc : keeps (checked line c err)) by (unfold checked; destruct err; auto 8 with carrot).
  apply (Hc (set_reader r d)).
Qed.

Lemma keeps_readLine : keeps readLine.
Proof.
  unfold readLine. apply keeps_bind; [|auto with carrot].
  generalize 5%nat, (@nil ascii). induction n as [|n IH]; intros line; simpl; [auto with carrot|].
  apply keeps_bind; [apply keeps_readChunk|auto with carrot].
Qed.

#[local] Hint Resolve keeps_readLine : carrot.

Lemma keeps_decodeElems F n : keeps F -> keeps (decodeElems F n).
Proof. intros HF. induction n; simpl; auto with carrot. Qed.

#[local] Hint Resolve keeps_decodeElems : carrot.

Section depth.
Context `{Unicode}.

Lemma keeps_dispatch F : keeps F -> keeps (dispatch F).
Proof.
  intros HF. unfold dispatch. apply keeps_bind; [auto with carrot|]. intros c.
  apply keeps_bind; [auto with carrot|]. intros _.
  repeat case_bool_decide; unfold decodeSimpleString, decodeError, decodeInteger,
    decodeBulkString, decodeArray, decodeInline, expectCRLF.
  all: try (apply keeps_bind; [auto with carrot|]; intros line);
    try destruct (GoLib.ParseInt line); try destruct (GoLib.Atoi line); auto 12 with carrot.
  apply keeps_bind; [auto with carrot|]. intros l. destruct (GoLib.Fields l); auto with carrot.
Qed.

Lemma keeps_DecodeF fuel : keeps (DecodeF fuel).
Proof.
  induction fuel as [|fuel IH]; [apply keeps_fail|]. intros d. cbn [DecodeF]. unfold decode_body.
  set (d1 := if depth d =? 0 then set_bytes 0 d else d).
  assert (maxMessageBytes d1 = maxMessageBytes d /\ depth d1 = depth d) as [Hm Hd]
    by (subst d1; by destruct (depth d =? 0)).
  destruct (maxRESPDepth <? depth (set_depth (depth d1 + 1) d1)); simpl; [lia|].
  pose proof (keeps_dispatch (DecodeF fuel) IH (set_depth (depth d1 + 1) d1)) as Hk.
  destruct (dispatch (DecodeF fuel) _) as [r d2]. simpl in *. lia.
Qed.

(** ** The fuel of the two loops is never exhausted *)
Lemma decodeElems_ext F G n d :
  keeps G -> (forall d', depth d' = depth d -> F d' = G d') ->
  decodeElems F n d = decodeElems G n d.
Proof.
  intros HG HF. revert d HF. induction n as [|n IH]; intros d HF; [done|]. simpl. unfold andThen.
  rewrite -> HF by done. specialize (HG d). destruct (G d) as [[e|v] d1]; [done|]. simpl in HG.
  rewrite -> IH; [done|]. intros d' Hd'. apply HF. lia.
Qed.

Lemma dispatch_ext F G d :
  keeps G -> (forall d', depth d' = depth d -> F d' = G d') -> dispatch F d = dispatch G d.
Proof.
  intros HG HF. rw !dispatch_eq. destruct (dreader d) as [|c r]; [done|]. unfold framed.
  repeat (case_bool_decide; [done|]). case_bool_decide; [|done]. unfold andThen.
  pose proof (keeps_consume 1 (set_reader r d)) as Hc.
  destruct (consume 1 (set_reader r d)) as [[e|[]] d1]; [done|]. unfold decodeArray, andThen.
  pose proof (keeps_readLine d1) as Hl. destruct (readLine d1) as [[e|line] d2]; [done|].
  destruct (GoLib.Atoi line) as [n|]; [|done]. repeat (case_match; [done|]).
  rewrite -> (decodeElems_ext F G); [done|done|]. intros d' Hd'. apply HF. simpl in *. lia.
Qed.

Lemma decode_body_ext F G d :
  keeps G -> (forall d', depth d' = depth d + 1 -> F d' = G d') -> decode_body F d = decode_body G d.
Proof.
  intros HG HF. unfold decode_body.
  set (d1 := set_depth (depth (if depth d =? 0 then set_bytes 0 d else d) + 1)
               (if depth d =? 0 then set_bytes 0 d else d)).
  assert (depth d1 = depth d + 1) as Hd1 by (subst d1; by destruct (depth d =? 0)).
  destruct (maxRESPDepth <? depth d1); [done|].
  rewrite -> (dispatch_ext F G); [done|done|]. intros d' Hd'. apply HF. lia.
Qed.

Lemma DecodeF_enough fuel j d :
  0 <= depth d -> maxRESPDepth + 1 - depth d <= Z.of_nat fuel ->
  DecodeF (fuel + j) d = DecodeF fuel d.
Proof.
  revert d. induction fuel as [|fuel IH]; intros [r m b dep] Hd Hf; cbn [depth] in *.
  - destruct j as [|j]; [done|]. cbn. unfold decode_body. cbn [depth].
    rewrite -> (proj2 (Z.eqb_neq dep 0)) by (unfold maxRESPDepth in *; lia). simpl.
    rewrite -> (proj2 (Z.ltb_lt _ _)) by lia. simpl. unfold fail, set_depth. simpl.
    do 2 f_equal. lia.
  - cbn [Nat.add DecodeF]. apply decode_body_ext; [apply keeps_DecodeF|].
    intros d' Hd'. apply IH; simpl in *; lia.
Qed.

(** [Decode] is its own body. *)
Lemma Decode_eq d : 0 <= depth d -> Decode d = decode_body Decode d.
Proof.
  intros Hd. unfold Decode at 1. change (DecodeF 65 d) with (decode_body (DecodeF 64) d).
  apply decode_body_ext; [apply keeps_DecodeF|]. intros d' Hd'. symmetry.
  apply (DecodeF_enough 64 1); unfold maxRESPDepth; lia.
Qed.

End depth.

End RespStream.
