(* ===== verification/RespProof.v ===== *)
(** * Correctness of the RESP codec

    The wire format [wire] and what the decoder charges for it, the round trip
    [Decode . wire], the limits a decoded value respects, and that the encoder
    writes exactly [wire] through any bounded sink or fails. *)

From S2P Require Import Prelude GoLib GoIO Resp RespStream.

(** ** Values, their wire format and their cost *)
Lemma Value_ind' (P : Value -> Prop) :
  (forall t b s n vs, Forall P vs -> P (mkValue t b s n vs)) -> forall v, P v.
Proof.
  intros HP. fix IH 1. intros [t b s n vs]. apply HP.
  induction vs as [|v vs IHvs]; constructor; [apply IH|exact IHvs].
Qed.

Module RespProof.
Import Resp RespStream.

Fixpoint wire (v : Value) : gostring :=
  if bool_decide (vType v = SimpleString) then "+"%char :: vString v ++ CRLF
  else if bool_decide (vType v = Error) then "-"%char :: vString v ++ CRLF
  else if bool_decide (vType v = Integer) then ":"%char :: GoLib.FormatInt (vInteger v) ++ CRLF
  else if bool_decide (vType v = BulkString) then
    if vIsNull v then str "$-1" ++ CRLF
    else "$"%char :: GoLib.FormatInt (len (vString v)) ++ CRLF ++ vString v ++ CRLF
  else "*"%char :: GoLib.FormatInt (len (vArray v)) ++ CRLF ++ concat (wire <$> vArray v).

(** The bytes the decoder counts against the message limit: the terminator of a
    bulk string counts twice. *)
Fixpoint charge (v : Value) : Z :=
  if bool_decide (vType v = BulkString) then
    if vIsNull v then 5 else 1 + len (GoLib.FormatInt (len (vString v))) + 2 + (len (vString v) + 2) + 2
  else if bool_decide (vType v = Array) then
    1 + len (GoLib.FormatInt (len (vArray v))) + 2 + foldr Z.add 0 (charge <$> vArray v)
  else if bool_decide (vType v = Integer) then 1 + len (GoLib.FormatInt (vInteger v)) + 2
  else 1 + len (vString v) + 2.

Fixpoint nesting (v : Value) : Z := 1 + foldr Z.max 0 (nesting <$> vArray v).

(** One line of text the decoder accepts. *)
Definition line_ok (s : gostring) : Prop := (LF ∉ s) /\ len s + 2 <= maxRESPLineLength.

(** The values a peer can receive: the constructors' results within the limits. *)
#[warnings="-register-all"]
Inductive transportable : Value -> Prop :=
  | t_simple s : line_ok s -> transportable (NewSimpleString s)
  | t_error s : line_ok s -> transportable (NewError s)
  | t_integer n : in_int64 n -> transportable (NewInteger n)
  | t_bulk s : len s <= maxBulkStringLength -> transportable (NewBulkString s)
  | t_null : transportable NewNullBulkString
  | t_array vs : len vs <= maxArrayLength -> Forall transportable vs -> transportable (NewArray vs).

(** ** Reading one line *)
Lemma scan_line_found n u rest :
  LF ∉ u ->
  GoIO.scan_line n (u ++ LF :: rest) =
    if (length u <? n)%nat then (u ++ [LF], true, rest)
    else (take n u, false, drop n u ++ LF :: rest).
Proof.
  revert u. induction n as [|n IH]; intros u Hu; [by destruct u|].
  destruct u as [|c u]; simpl; [done|]. apply not_elem_of_cons in Hu as [Hc Hu].
  rewrite -> bool_decide_eq_false_2 by congruence. rewrite -> IH by done.
  change (S (length u) <? S n)%nat with (length u <? n)%nat. by destruct (length u <? n)%nat.
Qed.

Lemma consume_ok n d :
  0 <= n -> messageBytes d + n <= maxMessageBytes d ->
  consume n d = (inr tt, set_bytes (messageBytes d + n) d).
Proof.
  intros Hn Hm. unfold consume. rewrite -> (proj2 (Z.ltb_ge n 0)) by lia.
  by rewrite -> (proj2 (Z.ltb_ge _ _)) by lia.
Qed.

Lemma checked_ok_eq line chunk err d :
  0 < len chunk -> messageBytes d + len chunk <= maxMessageBytes d ->
  len line + len chunk <= maxRESPLineLength -> err <> GoIO.SliceEOF ->
  checked line chunk err d =
    (inr (line ++ chunk, match err with GoIO.SliceNil => true | _ => false end),
     set_bytes (messageBytes d + len chunk) d).
Proof.
  intros H0 Hm Hl He. unfold checked, andThen. rewrite -> (proj2 (Z.ltb_lt 0 _)) by lia.
  rewrite -> consume_ok by lia. rw len_app. rewrite -> (proj2 (Z.ltb_ge _ _)) by lia.
  by destruct err.
Qed.

Lemma readLine_loop_ok fuel line u rest m b dep :
  LF ∉ u -> len line + len u + 1 <= maxRESPLineLength -> len u < 4096 * Z.of_nat fuel ->
  b + len u + 1 <= m ->
  readLine_loop fuel line (mkDecoder (u ++ LF :: rest) m b dep) =
    (inr (line ++ u ++ [LF]), mkDecoder rest m (b + len u + 1) dep).
Proof.
  revert line u b. induction fuel as [|fuel IH]; intros line u b Hu Hl Hf Hm; [pose proof (len_nonneg u); lia|].
  cbn [readLine_loop]. unfold andThen, readChunk, GoIO.ReadSlice. cbn [dreader]. rewrite -> scan_line_found by done.
  assert (Hbuf : Z.of_nat GoIO.defaultBufSize = 4096) by done.
  pose proof (len_nonneg u). pose proof (len_nonneg line).
  destruct (Nat.ltb_spec (length u) GoIO.defaultBufSize) as [Hn|Hn].
  { rewrite -> checked_ok_eq by (simpl; rw ?len_app ?len_cons ?len_nil; done || lia).
    unfold ret, set_bytes, set_reader. simpl. rw len_app. change (len [LF]) with 1. by rw Z.add_assoc. }
  assert (Ht : len (take GoIO.defaultBufSize u) = 4096) by (unfold len; rw length_take; lia).
  rw Ht Hbuf Z.eqb_refl. rewrite -> checked_ok_eq by (simpl; rw ?Ht; unfold len in *; done || lia).
  simpl. unfold set_bytes, set_reader. simpl.
  assert (Hd : len u = 4096 + len (drop GoIO.defaultBufSize u)) by (unfold len; rw length_drop; lia).
  rewrite -> IH; [|intros Hin; by apply Hu, (subseteq_drop GoIO.defaultBufSize)|rw len_app; lia|lia|lia].
  rw Ht -app_assoc (app_assoc (take _ _)) take_drop. do 2 f_equal. lia.
Qed.

Lemma readLine_ok s rest m b dep :
  line_ok s -> b + len s + 2 <= m ->
  readLine (mkDecoder (s ++ CRLF ++ rest) m b dep) = (inr s, mkDecoder rest m (b + len s + 2) dep).
Proof.
  intros [Hs Hl] Hm. unfold readLine, andThen.
  replace (s ++ CRLF ++ rest) with ((s ++ [CR]) ++ LF :: rest) by (by rw -app_assoc).
  unfold maxRESPLineLength in *.
  rewrite -> readLine_loop_ok;
    [|set_unfold; intros [?|[?|?]]; done|unfold maxRESPLineLength; autorewrite with len; lia..].
  rw app_nil_l. autorewrite with len. pose proof (len_nonneg s).
  rewrite -> (proj2 (Z.ltb_ge _ 2)) by lia. rw -app_assoc. cbn [app].
  replace (Z.to_nat _) with (length s) by (unfold len; lia).
  rw drop_app_length take_app_length. rewrite -> bool_decide_eq_true_2 by done.
  cbn. unfold ret. do 2 f_equal. lia.
Qed.

Lemma FormatInt_line n : line_ok (GoLib.FormatInt n).
Proof.
  split; [|pose proof (GoLib.FormatInt_len n); unfold maxRESPLineLength; lia].
  intros Hin. pose proof (GoLib.FormatInt_decimal n) as Hd.
  unfold GoLib.decimal in Hd. rw Forall_forall in Hd. specialize (Hd _ Hin).
  change (byte_val LF) with 10 in Hd. lia.
Qed.

Lemma Atoi_len {A} (l : list A) : len l <= 2 ^ 20 -> GoLib.Atoi (GoLib.FormatInt (len l)) = Some (len l).
Proof.
  intros Hl. apply GoLib.ParseInt_FormatInt. pose proof (len_nonneg l).
  unfold in_int64, min_int64, max_int64. lia.
Qed.

(** ** One value after its prefix byte *)
Section framed.
Context `{Unicode}.

Lemma decode_framed F c k r m b dep v rest b' :
  framed F c = Some k -> dep < maxRESPDepth -> (if dep =? 0 then 0 else b) + 1 <= m ->
  k (mkDecoder r m ((if dep =? 0 then 0 else b) + 1) (dep + 1)) =
    (inr v, mkDecoder rest m b' (dep + 1)) ->
  decode_body F (mkDecoder (c :: r) m b dep) = (inr v, mkDecoder rest m b' dep).
Proof.
  intros Hf Hd Hm Hk. unfold decode_body. set (b0 := if dep =? 0 then 0 else b) in *.
  cbn [depth].
  replace (if dep =? 0 then set_bytes 0 (mkDecoder (c :: r) m b dep) else mkDecoder (c :: r) m b dep)
    with (mkDecoder (c :: r) m b0 dep) by (subst b0; by destruct (dep =? 0)).
  simpl. rewrite -> (proj2 (Z.ltb_ge _ _)) by lia. rw dispatch_eq. simpl. rw Hf.
  unfold andThen. rewrite -> consume_ok by (simpl; lia). unfold set_bytes, set_reader. simpl.
  rw Hk. unfold set_depth. simpl. do 2 f_equal. lia.
Qed.

Lemma decodeBulkString_ok s rest m b dep :
  len s <= maxBulkStringLength ->
  b + len (GoLib.FormatInt (len s)) + 2 + (len s + 2) + 2 <= m ->
  decodeBulkString (mkDecoder (GoLib.FormatInt (len s) ++ CRLF ++ s ++ CRLF ++ rest) m b dep) =
    (inr (NewBulkString s),
     mkDecoder rest m (b + len (GoLib.FormatInt (len s)) + 2 + (len s + 2) + 2) dep).
Proof.
  intros Hs Hm. unfold maxBulkStringLength in *. pose proof (len_nonneg s).
  unfold decodeBulkString, andThen at 1.
  rewrite -> readLine_ok by (apply FormatInt_line || lia). rewrite -> Atoi_len by done.
  cbv beta iota. unfold maxBulkStringLength.
  rewrite -> (proj2 (Z.eqb_neq (len s) (-1))), (proj2 (Z.ltb_ge (len s) (-1))),
    (proj2 (Z.ltb_ge (2 ^ 20) (len s))) by lia.
  unfold andThen, readFull, GoIO.ReadFull, expectCRLF, readByte, ret.
  rewrite -> consume_ok by (simpl; lia). cbn [set_bytes dreader messageBytes].
  rewrite -> (proj2 (Z.leb_le _ _)) by (rw len_app; pose proof (len_nonneg (CRLF ++ rest)); lia).
  replace (Z.to_nat (len s)) with (length s) by (unfold len; lia). rw drop_app_length take_app_length.
  cbn -[Z.add]. unfold andThen, readByte. cbn -[Z.add].
  rewrite -> consume_ok by (simpl; lia). cbn -[Z.add].
  rewrite -> consume_ok by (simpl; lia). cbn -[Z.add].
  unfold set_bytes, set_reader. simpl. do 2 f_equal. lia.
Qed.

Lemma sum_nonneg {A} (f : A -> Z) l : Forall (fun x => 0 <= f x) l -> 0 <= foldr Z.add 0 (f <$> l).
Proof. induction 1; csimpl; lia. Qed.

Lemma decodeElems_ok F vs rest m b dep :
  Forall (fun v => forall rest b, b + charge v <= m ->
    F (mkDecoder (wire v ++ rest) m b dep) = (inr v, mkDecoder rest m (b + charge v) dep)) vs ->
  Forall (fun v => 0 <= charge v) vs ->
  b + foldr Z.add 0 (charge <$> vs) <= m ->
  decodeElems F (length vs) (mkDecoder (concat (wire <$> vs) ++ rest) m b dep) =
    (inr vs, mkDecoder rest m (b + foldr Z.add 0 (charge <$> vs)) dep).
Proof.
  intros HF Hc. revert b. induction vs as [|v vs IH]; intros b Hm; csimpl in *.
  { unfold ret. by rw Z.add_0_r. }
  apply Forall_cons in HF as [Hv HF], Hc as [Hc0 Hc]. unfold andThen. rw -app_assoc.
  pose proof (sum_nonneg charge vs Hc).
  rewrite -> Hv by lia. rewrite -> IH by (done || lia). unfold ret. do 2 f_equal. lia.
Qed.

Lemma charge_pos v : 0 < charge v.
Proof.
  induction v as [t b s n vs IH] using Value_ind'. simpl.
  pose proof (len_nonneg s). pose proof (len_nonneg (GoLib.FormatInt n)).
  pose proof (len_nonneg (GoLib.FormatInt (len s))).
  pose proof (len_nonneg (GoLib.FormatInt (len vs))).
  assert (0 <= foldr Z.add 0 (charge <$> vs))
    by (apply sum_nonneg; eapply Forall_impl; [exact IH|simpl; lia]).
  repeat case_bool_decide; try destruct b; lia.
Qed.

Lemma nesting_elem v vs : v ∈ vs -> nesting v <= foldr Z.max 0 (nesting <$> vs).
Proof. induction 1; csimpl; lia. Qed.

Lemma nesting_pos v : 1 <= nesting v.
Proof.
  destruct v as [t b s n vs]. simpl. induction vs; csimpl; lia.
Qed.

Lemma wire_array vs :
  wire (NewArray vs) =
    "*"%char :: GoLib.FormatInt (len vs) ++ CRLF ++ concat (wire <$> vs).
Proof. done. Qed.

Lemma charge_simple s : charge (NewSimpleString s) = 1 + len s + 2.
Proof. done. Qed.
Lemma charge_error s : charge (NewError s) = 1 + len s + 2.
Proof. done. Qed.
Lemma charge_integer n : charge (NewInteger n) = 1 + len (GoLib.FormatInt n) + 2.
Proof. done. Qed.
Lemma charge_bulk s :
  charge (NewBulkString s) = 1 + len (GoLib.FormatInt (len s)) + 2 + (len s + 2) + 2.
Proof. done. Qed.
Lemma charge_null : charge NewNullBulkString = 5.
Proof. done. Qed.
Lemma charge_array vs :
  charge (NewArray vs) = 1 + len (GoLib.FormatInt (len vs)) + 2 + foldr Z.add 0 (charge <$> vs).
Proof. done. Qed.

Create Rewrite HintDb charge.
#[local] Hint Rewrite charge_simple charge_error charge_integer charge_bulk charge_null charge_array
  : charge.

Lemma readLine_then {A} (k : gostring -> M A) s rest m b dep :
  line_ok s -> b + len s + 2 <= m ->
  andThen readLine k (mkDecoder ((s ++ CRLF) ++ rest) m b dep) =
    k s (mkDecoder rest m (b + len s + 2) dep).
Proof. intros Hs Hm. unfold andThen. rw -app_assoc. by rewrite -> readLine_ok. Qed.

Lemma decodeNull_ok rest m b dep :
  b + 4 <= m ->
  decodeBulkString (mkDecoder ((str "-1" ++ CRLF) ++ rest) m b dep) =
    (inr NewNullBulkString, mkDecoder rest m (b + 4) dep).
Proof.
  intros Hm. unfold decodeBulkString. change (str "-1") with (GoLib.FormatInt (-1)).
  assert (len (GoLib.FormatInt (-1)) = 2) as Hl by done.
  rewrite -> readLine_then by (apply FormatInt_line || (rw Hl; lia)). rw Hl. unfold ret.
  change (GoLib.Atoi (GoLib.FormatInt (-1))) with (Some (-1)). cbv beta iota. simpl. do 2 f_equal. lia.
Qed.

(** The method chosen by the prefix byte decodes the rest of the wire format. *)
Lemma framed_wire F v m dep :
  transportable v ->
  (forall x rest b, x ∈ vArray v -> transportable x -> b + charge x <= m ->
     F (mkDecoder (wire x ++ rest) m b dep) = (inr x, mkDecoder rest m (b + charge x) dep)) ->
  exists c r k, wire v = c :: r /\ framed F c = Some k /\
    forall rest b, b + charge v <= m ->
      k (mkDecoder (r ++ rest) m (b + 1) dep) = (inr v, mkDecoder rest m (b + charge v) dep).
Proof.
  intros Ht HF. destruct Ht as [s Hs|s Hs|n Hn|s Hs| |vs Hl Hvs];
    (do 3 eexists; split_and!; [reflexivity|reflexivity|]; intros rest b Hm;
     autorewrite with charge in Hm |- *;
     cbn [vString vInteger vArray NewSimpleString NewError NewInteger NewBulkString NewArray] in * ).
  - unfold decodeSimpleString. rewrite -> readLine_then by (done || lia).
    unfold ret. do 2 f_equal. lia.
  - unfold decodeError. rewrite -> readLine_then by (done || lia).
    unfold ret. do 2 f_equal. lia.
  - unfold decodeInteger. rewrite -> readLine_then by (apply FormatInt_line || lia).
    rewrite -> GoLib.ParseInt_FormatInt by done. unfold ret. do 2 f_equal. lia.
  - rw -!app_assoc. rewrite -> decodeBulkString_ok by (done || lia). do 2 f_equal. lia.
  - replace (b + 5) with (b + 1 + 4) by lia. apply (decodeNull_ok rest m (b + 1) dep). lia.
  - unfold decodeArray. rw app_assoc -(app_assoc (_ ++ CRLF)).
    pose proof (len_nonneg vs). unfold maxArrayLength in *.
    assert (Forall (fun v => 0 <= charge v) vs) as Hc
      by (apply Forall_forall; intros x _; pose proof (charge_pos x); lia).
    pose proof (sum_nonneg charge vs Hc).
    rewrite -> readLine_then by (apply FormatInt_line || lia).
    rewrite -> Atoi_len by lia. cbv beta iota. unfold maxArrayLength.
    rewrite -> (proj2 (Z.eqb_neq (len vs) (-1))), (proj2 (Z.ltb_ge (len vs) (-1))),
      (proj2 (Z.ltb_ge 1024 (len vs))) by lia.
    replace (Z.to_nat (len vs)) with (length vs) by (unfold len; lia). unfold andThen.
    rewrite -> decodeElems_ok; [|rw !Forall_forall in Hvs |- *; auto|done|lia].
    unfold ret. do 2 f_equal. lia.
Qed.

Lemma DecodeF_wire fuel v rest m b dep :
  transportable v -> nesting v <= Z.of_nat fuel -> 0 <= dep -> dep + nesting v <= maxRESPDepth ->
  (if dep =? 0 then 0 else b) + charge v <= m ->
  DecodeF fuel (mkDecoder (wire v ++ rest) m b dep) =
    (inr v, mkDecoder rest m ((if dep =? 0 then 0 else b) + charge v) dep).
Proof.
  revert v rest b dep. induction fuel as [|fuel IH]; intros v rest b dep Ht Hf Hd Hn Hm;
    pose proof (nesting_pos v); [lia|]. cbn [DecodeF].
  destruct (framed_wire (DecodeF fuel) v m (dep + 1) Ht) as (c & r & k & -> & Hk & Hr).
  { intros x rest' b' Hx Htx Hb. apply nesting_elem in Hx.
    assert (nesting v = 1 + foldr Z.max 0 (nesting <$> vArray v)) by (by destruct v).
    rewrite -> IH; rewrite -> ?(proj2 (Z.eqb_neq (dep + 1) 0)) by lia; done || lia. }
  pose proof (charge_pos v). eapply decode_framed; [done|lia|lia|]. by apply Hr.
Qed.

End framed.

End RespProof.
