(* ===== verification/RespLimits.v ===== *)
(** * Resource limits of the decoder

    A decoded message never takes more input bytes than the message limit, never
    nests deeper than the depth limit, and always takes at least one byte.  The
    budget [messageBytes] pays for every byte read: [metered k m] says that [m]
    reads at most [k] bytes more than it charges (inside a message, where
    [Decode] does not reset the budget). *)

From S2P Require Import Prelude GoLib GoIO Resp RespStream RespProof.

Module RespLimits.
Import Resp RespStream RespProof.
Local Open Scope dec_scope.

Definition metered (k : Z) {A} (m : M A) : Prop := forall d a d',
  0 < depth d -> m d = (inr a, d') ->
  len (dreader d) - len (dreader d') <= messageBytes d' - messageBytes d + k /\
  (messageBytes d <= maxMessageBytes d -> messageBytes d' <= maxMessageBytes d).

Lemma metered_ret {A} (a : A) : metered 0 (ret a).
Proof. intros d ? ? _ H. unfold ret in H. simplify_eq. lia. Qed.

Lemma metered_fail k {A} e : metered k (@fail A e).
Proof. done. Qed.

Lemma metered_bind j k l {A B} (m : M A) (f : A -> M B) :
  keeps m -> metered j m -> (forall a, metered k (f a)) -> j + k <= l -> metered l (andThen m f).
Proof.
  intros Hkeep Hm Hf Hl d b d' Hp H. unfold andThen in H.
  specialize (Hkeep d). destruct (m d) as [[e|a] d1] eqn:Hd; [done|]. simpl in Hkeep.
  destruct (Hm d a d1 Hp Hd), (Hf a d1 b d' ltac:(lia) H). lia.
Qed.

Lemma metered_readByte : metered 1 readByte.
Proof.
  intros [[|c r] m b dep] a d' _ H; unfold readByte in H; simpl in H; simplify_eq/=.
  rw len_cons. lia.
Qed.

Lemma metered_consume n : metered (- n) (consume n).
Proof.
  intros d a d' _ H. unfold consume in H. destruct (_ || _) eqn:Hb; simplify_eq/=. bool_prop. lia.
Qed.

Lemma metered_readFull n : 0 <= n -> metered n (readFull n).
Proof.
  intros Hn d a d' _ H. unfold readFull, GoIO.ReadFull in H.
  destruct (n <=? len (dreader d)) eqn:Hl; [|by destruct (bool_decide _)]. simplify_eq/=.
  unfold len. rw length_drop. lia.
Qed.

(** A line charges every byte it takes. *)
Lemma metered_readChunk line : metered 0 (readChunk line).
Proof.
  intros d a d' _ H. unfold readChunk in H. pose proof (ReadSlice_split (dreader d)) as Hs.
  destruct (GoIO.ReadSlice (dreader d)) as [[c err] r]. rw Hs len_app.
  pose proof (checked_ok _ _ _ _ _ _ H) as [Hd _]. simpl in Hd. rw Hd. clear Hs Hd.
  unfold checked, andThen, consume, ret, fail in H. pose proof (len_nonneg c).
  destruct (Z.ltb_spec 0 (len c)); [destruct (_ || _) eqn:Hb; [done|]; simpl in H;
    destruct (maxRESPLineLength <? _); [done|]|]; destruct err; simplify_eq/=; bool_prop; lia.
Qed.

Lemma metered_readLine : metered 0 readLine.
Proof.
  intros d a d' Hp H.
  assert (Hl : forall n line, metered 0 (readLine_loop n line)).
  { induction n as [|n IH]; intros line; [apply metered_fail|]. simpl.
    apply (metered_bind 0 0); [apply keeps_readChunk|apply metered_readChunk| |lia].
    intros [l []]; [apply metered_ret|apply IH]. }
  unfold readLine, andThen in H. destruct (readLine_loop 5 [] d) as [[e|line] d1] eqn:Hd; [done|].
  apply Hl in Hd; [|done]. destruct (_ || _); unfold ret, fail in H; by simplify_eq.
Qed.

Lemma keeps_expectCRLF : keeps expectCRLF.
Proof.
  repeat (apply keeps_bind; [apply keeps_readByte || apply keeps_consume|intros]).
  by apply keeps_if.
Qed.

Lemma metered_expectCRLF : metered 0 expectCRLF.
Proof.
  unfold expectCRLF. apply (metered_bind 1 (-1)); [apply keeps_readByte|apply metered_readByte| |lia].
  intros cr. apply (metered_bind (-1) 0); [apply keeps_consume|apply (metered_consume 1)| |lia].
  intros _. apply (metered_bind 1 (-1)); [apply keeps_readByte|apply metered_readByte| |lia].
  intros lf. apply (metered_bind (-1) 0); [apply keeps_consume|apply (metered_consume 1)| |lia].
  intros _. destruct (_ || _); [apply metered_fail|apply metered_ret].
Qed.

Lemma metered_line {A} (f : gostring -> M A) : (forall l, metered 0 (f l)) -> metered 0 (andThen readLine f).
Proof.
  intros Hf. by apply (metered_bind 0 0); [apply keeps_readLine|apply metered_readLine| |].
Qed.

Lemma metered_decodeBulkString : metered 0 decodeBulkString.
Proof.
  apply metered_line. intros line. destruct (GoLib.Atoi line) as [n|]; [|apply metered_fail].
  destruct (Z.eqb_spec n (-1)); [apply metered_ret|].
  destruct (Z.ltb_spec n (-1)); [apply metered_fail|]. destruct (_ <? n); [apply metered_fail|].
  apply (metered_bind (- (n + 2)) n); [apply keeps_consume|apply metered_consume| |lia].
  intros _. apply (metered_bind n 0); [apply keeps_readFull|apply metered_readFull; lia| |lia].
  intros buf. apply (metered_bind 0 0); [apply keeps_expectCRLF|apply metered_expectCRLF| |lia].
  intros _. apply metered_ret.
Qed.

Lemma metered_decodeElems F n : keeps F -> metered 0 F -> metered 0 (decodeElems F n).
Proof.
  intros HK HF. induction n as [|n IH]; simpl; [apply metered_ret|].
  apply (metered_bind 0 0); [done..| |lia]. intros v.
  apply (metered_bind 0 0); [by apply keeps_decodeElems|done| |lia]. intros vs. apply metered_ret.
Qed.

Lemma metered_decodeArray F : keeps F -> metered 0 F -> metered 0 (decodeArray F).
Proof.
  intros HK HF. apply metered_line. intros line.
  destruct (GoLib.Atoi line) as [n|]; [|apply metered_fail].
  destruct (n =? -1); [apply metered_ret|]. destruct (n <? -1); [apply metered_fail|].
  destruct (_ <? n); [apply metered_fail|].
  apply (metered_bind 0 0); [by apply keeps_decodeElems|by apply metered_decodeElems| |lia].
  intros vs. apply metered_ret.
Qed.

Section unicode.
Context `{Unicode}.

Lemma metered_dispatch F : keeps F -> metered 0 F -> metered 0 (dispatch F).
Proof.
  intros HK HF. unfold dispatch.
  apply (metered_bind 1 (-1)); [apply keeps_readByte|apply metered_readByte| |lia]. intros c.
  apply (metered_bind (-1) 0); [apply keeps_consume|apply (metered_consume 1)| |lia]. intros _.
  repeat case_bool_decide.
  - apply metered_line. intros. apply metered_ret.
  - apply metered_line. intros. apply metered_ret.
  - apply metered_line. intros l. destruct (GoLib.ParseInt l); [apply metered_ret|apply metered_fail].
  - apply metered_decodeBulkString.
  - by apply metered_decodeArray.
  - intros d a d' Hp Hd. unfold andThen, unreadByte, decodeInline, wrapErr in Hd.
    set (d1 := set_bytes _ _) in Hd.
    assert (Ha : (l <- readLine ;; match GoLib.Fields l with
                  | [] => fail ErrEmptyInline
                  | tokens => ret (NewArray (NewBulkString <$> tokens)) end) d1 = (inr a, d')).
    { unfold andThen in Hd |- *. by destruct (readLine d1) as [[]]. }
    apply metered_line in Ha; [|intros l; destruct (GoLib.Fields l); [apply metered_fail|apply metered_ret]|done].
    subst d1. simpl in Ha. rw len_cons in Ha. lia.
Qed.

Lemma dispatch_DecodeF_metered fuel : metered 0 (dispatch (DecodeF fuel)).
Proof.
  apply metered_dispatch; [apply keeps_DecodeF|].
  induction fuel as [|fuel IH]; [apply metered_fail|]. intros d v d' Hp Hd. simpl in Hd.
  unfold decode_body in Hd. rewrite -> (proj2 (Z.eqb_neq (depth d) 0)) in Hd by lia.
  destruct (maxRESPDepth <? _); [done|].
  destruct (dispatch (DecodeF fuel) _) as [r d1] eqn:Hr. simplify_eq.
  apply metered_dispatch in Hr; [|apply keeps_DecodeF|done|simpl; lia]. done.
Qed.

(** The message limit, for a whole message. *)
Lemma Decode_within_limit d v d' :
  depth d = 0 -> 0 <= maxMessageBytes d -> Decode d = (inr v, d') ->
  len (dreader d) - len (dreader d') <= messageBytes d' <= maxMessageBytes d.
Proof.
  intros Hz Hm Hd. unfold Decode in Hd. change (DecodeF 65) with (decode_body (DecodeF 64)) in Hd.
  unfold decode_body in Hd. rw Hz in Hd. destruct (maxRESPDepth <? _); [done|].
  destruct (dispatch (DecodeF 64) _) as [r d1] eqn:Hr. simplify_eq.
  apply dispatch_DecodeF_metered in Hr; simpl in *; lia.
Qed.

(** A line takes at most five turns: more fuel changes nothing. *)
Lemma readChunk_full line d l d' :
  readChunk line d = (inr (l, false), d') -> len l = len line + 4096 /\ len l <= maxRESPLineLength.
Proof.
  unfold readChunk, GoIO.ReadSlice. destruct (GoIO.scan_line _ (dreader d)) as [[c f] r].
  destruct f; [|destruct (Z.eqb_spec (len c) (Z.of_nat GoIO.defaultBufSize)) as [Hc|]];
    unfold checked; intros H0; apply andThen_inr in H0 as (? & d1 & Hg & H0); [by apply ret_inr in H0 as [? _]| |done].
  apply ret_inr in H0 as [? _]. simplify_eq. change (Z.of_nat GoIO.defaultBufSize) with 4096 in Hc.
  rewrite -> (proj2 (Z.ltb_lt 0 (len c))) in Hg by lia. apply andThen_inr in Hg as (? & ? & _ & Hg).
  rw len_app in Hg |- *. destruct (Z.ltb_spec maxRESPLineLength (len line + len c)); [done|]. lia.
Qed.

Lemma readLine_fuel fuel j line d :
  (0 < fuel)%nat -> maxRESPLineLength + 4096 <= len line + 4096 * Z.of_nat fuel ->
  readLine_loop (fuel + j) line d = readLine_loop fuel line d.
Proof.
  revert line d. induction fuel as [|fuel IH]; intros line d Hf Hl; [lia|]. simpl. unfold andThen.
  destruct (readChunk line d) as [[e|[l []]] d1] eqn:Hc; [done..|]. simpl.
  apply readChunk_full in Hc as [Hlen Hle]. apply IH; lia.
Qed.

(** ** Progress and nesting *)
Lemma dispatch_progress F d v d' :
  local F -> dispatch F d = (inr v, d') -> len (dreader d') < len (dreader d).
Proof.
  intros HF Hd. rw dispatch_eq in Hd. destruct d as [[|c r] m b dep]; [done|]. simpl in *.
  destruct (framed F c) as [k|] eqn:Hf.
  - assert (Hk : local (consume 1 ;;; k))
      by (apply local_bind; [apply local_consume|intros _; by eapply local_framed]).
    specialize (Hk (set_reader r (mkDecoder (c :: r) m b dep)) []). rw Hd in Hk.
    destruct Hk as [_ Hk]. simpl in Hk. rw len_cons. lia.
  - destruct (consume 1 _) as [[]]; [done|]. by apply decodeInline_progress in Hd.
Qed.

Lemma Decode_progress d v d' :
  Decode d = (inr v, d') -> len (dreader d') < len (dreader d).
Proof.
  intros Hd. unfold Decode in Hd. change (DecodeF 65) with (decode_body (DecodeF 64)) in Hd.
  unfold decode_body in Hd. destruct (maxRESPDepth <? _); [done|].
  destruct (dispatch (DecodeF 64) _) as [r d1] eqn:Hr. simplify_eq.
  apply dispatch_progress in Hr; [|apply local_DecodeF]. simpl in *.
  by destruct (depth d =? 0).
Qed.

Lemma nesting_array vs n :
  0 <= n -> Forall (fun v => nesting v <= n) vs -> nesting (NewArray vs) <= n + 1.
Proof.
  intros Hn Hvs. change (nesting (NewArray vs)) with (1 + foldr Z.max 0 (nesting <$> vs)).
  assert (foldr Z.max 0 (nesting <$> vs) <= n); [|lia]. induction Hvs; csimpl; lia.
Qed.

Lemma decodeElems_nesting F n d vs d' k :
  keeps F -> (forall d v d', depth d = k -> F d = (inr v, d') -> nesting v <= maxRESPDepth + 1 - k) ->
  depth d = k -> decodeElems F n d = (inr vs, d') ->
  Forall (fun v => nesting v <= maxRESPDepth + 1 - k) vs.
Proof.
  intros HK HF. revert d vs. induction n as [|n IH]; intros d vs Hk Hd; simpl in Hd.
  { unfold ret in Hd. simplify_eq. constructor. }
  unfold andThen in Hd. specialize (HK d) as HKd. destruct (F d) as [[e|v] d1] eqn:Hv; [done|].
  simpl in HKd. destruct (decodeElems F n d1) as [[e|vs'] d2] eqn:Hvs; [done|].
  unfold ret in Hd. simplify_eq. constructor; [by eapply HF|]. eapply IH; [|done]. lia.
Qed.

Lemma line_leaf (f : gostring -> M Value) d v d' :
  (forall l d1, f l d1 = (inr v, d') -> vArray v = []) ->
  andThen readLine f d = (inr v, d') -> nesting v = 1.
Proof.
  intros Hf Hd. apply andThen_inr in Hd as (l & d1 & _ & Hd). apply Hf in Hd.
  destruct v. simpl in *. by subst.
Qed.

Lemma bulk_leaf d v d' : decodeBulkString d = (inr v, d') -> nesting v = 1.
Proof.
  apply line_leaf. intros line d1 Hd. destruct (GoLib.Atoi line) as [n|]; [|done].
  destruct (n =? -1); [by apply ret_inr in Hd as [<- _]|].
  destruct (n <? -1); [done|]. destruct (_ <? n); [done|].
  apply andThen_inr in Hd as (? & ? & _ & Hd). apply andThen_inr in Hd as (? & ? & _ & Hd).
  apply andThen_inr in Hd as (? & ? & _ & Hd). by apply ret_inr in Hd as [<- _].
Qed.

Lemma array_nesting F d v d' :
  keeps F ->
  (forall d1 v d', depth d1 = depth d -> F d1 = (inr v, d') -> nesting v <= maxRESPDepth + 1 - depth d) ->
  depth d <= maxRESPDepth -> decodeArray F d = (inr v, d') -> nesting v <= maxRESPDepth + 2 - depth d.
Proof.
  intros HK HF Hle Hd. apply andThen_inr in Hd as (line & d1 & Hl & Hd).
  pose proof (keeps_readLine d) as Hk. rw Hl in Hk. simpl in Hk.
  destruct (GoLib.Atoi line) as [n|]; [|done].
  destruct (n =? -1); [apply ret_inr in Hd as [<- _]; simpl; lia|]. destruct (n <? -1); [done|].
  destruct (_ <? n); [done|]. apply andThen_inr in Hd as (vs & d2 & Hvs & Hd).
  apply ret_inr in Hd as [<- _].
  apply decodeElems_nesting with (k := depth d) in Hvs; [|done|done|lia].
  apply nesting_array in Hvs; lia.
Qed.

Lemma inline_nesting d v d' : decodeInline d = (inr v, d') -> nesting v <= 2.
Proof.
  intros Hd. apply andThen_inr in Hd as (line & d1 & _ & Hd).
  destruct (GoLib.Fields line) as [|t ts]; [done|]. apply ret_inr in Hd as [<- _].
  apply (nesting_array _ 1); [lia|]. apply Forall_fmap, Forall_true. intros x. simpl. lia.
Qed.

Lemma dispatch_nesting F d v d' :
  keeps F ->
  (forall d1 v d', depth d1 = depth d -> F d1 = (inr v, d') -> nesting v <= maxRESPDepth + 1 - depth d) ->
  depth d <= maxRESPDepth -> dispatch F d = (inr v, d') -> nesting v <= maxRESPDepth + 2 - depth d.
Proof.
  intros HK HF Hle Hd. rw dispatch_eq in Hd. destruct (dreader d) as [|c r]; [done|].
  unfold framed in Hd. repeat case_bool_decide.
  6: { destruct (consume 1 (set_reader r d)) as [[]]; [done|]. apply inline_nesting in Hd. lia. }
  all: apply andThen_inr in Hd as (? & d1 & Hc & Hd);
    pose proof (keeps_consume 1 (set_reader r d)) as Hk; rw Hc in Hk; simpl in Hk.
  - apply line_leaf in Hd; [lia|]. intros l d2 Hr. by apply ret_inr in Hr as [<- _].
  - apply line_leaf in Hd; [lia|]. intros l d2 Hr. by apply ret_inr in Hr as [<- _].
  - apply line_leaf in Hd; [lia|]. intros l d2 Hr. destruct (GoLib.ParseInt l); [|done].
    by apply ret_inr in Hr as [<- _].
  - apply bulk_leaf in Hd. lia.
  - destruct Hk as [_ Hk]. rw -Hk. eapply array_nesting; [done| |lia|done]. rw Hk. done.
Qed.

(** Framed values nest at most 64 deep; an inline command at the bottom is an
    array of its own. *)
Lemma DecodeF_nesting fuel d v d' :
  0 <= depth d -> DecodeF fuel d = (inr v, d') -> nesting v <= maxRESPDepth + 1 - depth d.
Proof.
  revert d v d'. induction fuel as [|fuel IH]; intros d v d' Hp Hd; [done|]. simpl in Hd.
  unfold decode_body in Hd.
  set (d1 := if depth d =? 0 then set_bytes 0 d else d) in Hd.
  assert (depth d1 = depth d) as Hd1 by (subst d1; by destruct (depth d =? 0)).
  destruct (Z.ltb_spec maxRESPDepth (depth (set_depth (depth d1 + 1) d1))) as [|Hle]; [done|].
  destruct (dispatch (DecodeF fuel) _) as [r d2] eqn:Hr. simplify_eq. simpl in Hle.
  apply dispatch_nesting in Hr; [simpl in Hr; lia|apply keeps_DecodeF| |done].
  intros d3 v3 d4 Hd3 H3. apply IH in H3; simpl in *; lia.
Qed.

(** ** The decoder never gives back more than it took *)
Definition shrinks {A} (m : M A) : Prop := forall d, len (dreader (m d).2) <= len (dreader d).

Lemma shrinks_ret {A} (a : A) : shrinks (ret a).
Proof. intros d. simpl. lia. Qed.

Lemma shrinks_fail {A} e : shrinks (@fail A e).
Proof. intros d. simpl. lia. Qed.

Lemma shrinks_bind {A B} (m : M A) (f : A -> M B) :
  shrinks m -> (forall a, shrinks (f a)) -> shrinks (andThen m f).
Proof.
  intros Hm Hf d. unfold andThen. specialize (Hm d). destruct (m d) as [[e|a] d1]; [done|].
  specialize (Hf a d1). simpl in *. lia.
Qed.

Lemma shrinks_wrap {A} w (m : M A) : shrinks m -> shrinks (wrapErr w m).
Proof. intros Hm d. unfold wrapErr. specialize (Hm d). by destruct (m d) as [[]]. Qed.

Lemma shrinks_consume n : shrinks (consume n).
Proof. intros d. unfold consume. destruct (_ || _); simpl; lia. Qed.

Lemma shrinks_readByte : shrinks readByte.
Proof. intros [[|c r] m b dep]; unfold readByte; simpl; rw ?len_cons; lia. Qed.

Lemma shrinks_readFull n : shrinks (readFull n).
Proof.
  intros d. unfold readFull, GoIO.ReadFull. destruct (n <=? len (dreader d)); simpl.
  - unfold len. rw length_drop. lia.
  - apply len_nonneg.
Qed.

#[local] Hint Resolve shrinks_ret shrinks_fail shrinks_bind shrinks_wrap shrinks_consume shrinks_readByte
  shrinks_readFull : carrot.

Lemma scan_line_shrinks n r : let '(_, _, rest) := GoIO.scan_line n r in len rest <= len r.
Proof.
  revert r. induction n as [|n IH]; intros [|c r]; simpl; try lia. case_bool_decide; simpl.
  - rw len_cons. lia.
  - specialize (IH r). destruct (GoIO.scan_line n r) as [[? ?] ?]. rw len_cons. lia.
Qed.

Lemma shrinks_readLine : shrinks readLine.
Proof.
  assert (Hchunk : forall line, shrinks (readChunk line)).
  { intros line d. unfold readChunk, GoIO.ReadSlice.
    pose proof (scan_line_shrinks GoIO.defaultBufSize (dreader d)) as Hs.
    destruct (GoIO.scan_line _ _) as [[chunk found] r]. set (err := if found then _ else _).
    assert (Hc : shrinks (checked line chunk err)).
    { unfold checked. apply shrinks_bind; [destruct (0 <? _); [|auto with carrot]|by destruct err; auto with carrot].
      apply shrinks_bind; [auto with carrot|]. intros _. destruct (_ <? _); auto with carrot. }
    specialize (Hc (set_reader r d)). simpl in Hc. lia. }
  unfold readLine. apply shrinks_bind.
  - generalize 5%nat, (@nil ascii). intros n. induction n as [|n IH]; intros line; simpl; [auto with carrot|].
    apply shrinks_bind; [done|]. intros [l []]; simpl; auto with carrot.
  - intros line. cbv zeta. destruct (_ || _); auto with carrot.
Qed.

Lemma shrinks_expectCRLF : shrinks expectCRLF.
Proof.
  unfold expectCRLF. repeat (apply shrinks_bind; [auto with carrot|]; intros ?).
  destruct (_ || _); auto with carrot.
Qed.

Lemma shrinks_elems F n : shrinks F -> shrinks (decodeElems F n).
Proof. intros HF. induction n as [|n IH]; simpl; auto 6 with carrot. Qed.

#[local] Hint Resolve shrinks_readLine shrinks_expectCRLF shrinks_elems : carrot.

Lemma shrinks_framed F c m : shrinks F -> framed F c = Some m -> shrinks m.
Proof.
  intros HF. unfold framed. intros Hm. repeat case_bool_decide; simplify_eq;
    unfold decodeSimpleString, decodeError, decodeInteger, decodeBulkString, decodeArray;
    (apply shrinks_bind; [auto with carrot|]; intros line); repeat case_match; auto 8 with carrot.
Qed.

Lemma shrinks_DecodeF fuel : shrinks (DecodeF fuel).
Proof.
  induction fuel as [|fuel IH]; [apply shrinks_fail|]. intros d. cbn [DecodeF]. unfold decode_body.
  set (d1 := if depth d =? 0 then set_bytes 0 d else d).
  assert (Hd : dreader d1 = dreader d) by (unfold d1; by destruct (depth d =? 0)).
  destruct (maxRESPDepth <? _); [simpl; rw Hd; lia|].
  assert (Hs : forall d2, len (dreader (dispatch (DecodeF fuel) d2).2) <= len (dreader d2)).
  { intros d2. rw dispatch_eq. destruct (dreader d2) as [|c r] eqn:Hr; [simpl; by rw Hr|].
    destruct (framed _ c) as [m|] eqn:Hm.
    - assert (Hk : shrinks (consume 1 ;;; m)) by (eapply shrinks_framed in Hm; auto with carrot).
      specialize (Hk (set_reader r d2)). simpl in Hk. rw len_cons. lia.
    - destruct (consume 1 (set_reader r d2)) as [[e|u] d3] eqn:Hc.
      + pose proof (shrinks_consume 1 (set_reader r d2)) as Hk. rw Hc in Hk. simpl in *. rw len_cons. lia.
      + assert (Hk : shrinks decodeInline).
        { unfold decodeInline. apply shrinks_bind; [auto with carrot|]. intros l. destruct (GoLib.Fields l); auto with carrot. }
        specialize (Hk d2). by rw Hr in Hk. }
  specialize (Hs (set_depth (depth d1 + 1) d1)). destruct (dispatch _ _) as [r d2]. simpl in *. by rw -Hd.
Qed.

(** A message with a type prefix, even refused, takes its first byte. *)
Lemma decode_body_takes_prefix F c r m b :
  shrinks F -> framed F c <> None -> len (dreader (decode_body F (mkDecoder (c :: r) m b 0)).2) < len (c :: r).
Proof.
  intros HF Hc. unfold decode_body. simpl.
  rw dispatch_eq. simpl. destruct (framed F c) as [k|] eqn:Hk; [|done].
  assert (Hs : shrinks (consume 1 ;;; k)) by (apply shrinks_framed in Hk; auto with carrot).
  match goal with |- context [andThen (consume 1) (fun _ => k) ?d] =>
    specialize (Hs d); destruct (andThen (consume 1) (fun _ => k) d) as [v d2] end.
  simpl in *. rw len_cons. lia.
Qed.

Lemma Decode_takes_prefix r m b : len (dreader (Decode (mkDecoder (Array :: r) m b 0)).2) < len (Array :: r).
Proof. apply (decode_body_takes_prefix (DecodeF 64)); [apply shrinks_DecodeF|done]. Qed.

End unicode.

End RespLimits.
