(* ===== verification/RespEncode.v ===== *)
(** * The encoder writes the wire format or fails

    The encoder goes through a [bufio.Writer]; what reaches the sink depends on
    how the buffer fills and when it is flushed.  For every sink that accepts
    writes up to a total and refuses whole writes beyond it, encoding and
    flushing appends exactly [wire v] when it fits and reports an error when it
    does not. *)

From S2P Require Import Prelude GoLib GoIO GoIOProof Resp RespProof.

(** A sink with a total budget: what it holds and what it still accepts. *)
Class BoundedWriter (W : Type) `{Writer W} := {
  contents : W -> gostring;
  room : W -> Z;
  write_fits p w : len p <= room w -> exists w',
    w_write p w = ((length p, false), w') /\ contents w' = contents w ++ p /\ room w' = room w - len p;
  write_over p w : room w < len p -> w_write p w = ((0%nat, true), w);
}.

Module RespEncode.
Import Resp RespProof.

(** Values of the five types, at every level that is written. *)
Fixpoint encodable (v : Value) : bool :=
  bool_decide (vType v ∈ [SimpleString; Error; Integer; BulkString]) ||
  bool_decide (vType v = Array) && forallb encodable (vArray v).

(** ** Any sink

    [accepted c w]: the sink took exactly [c]; [refused c]: it may refuse to take
    all of [c]. *)
Section sink.
Context `{Writer W} (accepted : gostring -> W -> Prop) (refused : gostring -> Prop).
Hypothesis write_ok : forall p c w, accepted c w ->
  let '(n, err, w') := w_write p w in
  if err then refused (c ++ p) else n = length p /\ accepted (c ++ p) w'.
Hypothesis refused_app : forall p c, refused c -> refused (c ++ p).

Definition holds : gostring -> GoIO.bufWriter W -> Prop :=
  GoIOProof.holds accepted (fun c _ => refused c).

Definition encodes (v : Value) : Prop := forall total b e b',
  holds total b -> Encode v b = (e, b') ->
  match e with
  | None => holds (total ++ wire v) b'
  | Some _ => refused (total ++ wire v)
  end.

Lemma printf_encodes p total b e b' :
  holds total b -> printf p b = (e, b') ->
  match e with None => holds (total ++ p) b' | Some _ => refused (total ++ p) end.
Proof.
  intros Hb Hp. unfold printf in Hp.
  pose proof (GoIOProof.Write_holds accepted (fun c _ => refused c) write_ok
                (fun p c _ => refused_app p c) total p b Hb) as Hw.
  simplify_eq. destruct (GoIO.bwErr (GoIO.Write p b)) eqn:He; [|done].
  destruct Hw as (_ & _ & Hw). by rw He in Hw.
Qed.

Lemma Encode_elems vs :
  Forall encodes vs ->
  forall total b e b', holds total b ->
  (fix encodeElems (vs : list Value) (b : GoIO.bufWriter W) :=
     match vs with
     | [] => (None, b)
     | v :: vs => match Encode v b with (Some e, b) => (Some e, b) | (None, b) => encodeElems vs b end
     end) vs b = (e, b') ->
  match e with
  | None => holds (total ++ concat (wire <$> vs)) b'
  | Some _ => refused (total ++ concat (wire <$> vs))
  end.
Proof.
  induction 1 as [|v vs Hv Hvs IH]; intros total b e b' Hb He; csimpl.
  { simplify_eq. by rw app_nil_r. }
  rw app_assoc. destruct (Encode v b) as [[e1|] b1] eqn:Hpr.
  - simplify_eq. apply (Hv total b _ _ Hb) in Hpr. by apply refused_app.
  - apply (Hv total b _ _ Hb) in Hpr. exact (IH _ _ _ _ Hpr He).
Qed.

Lemma Encode_encodes v : encodable v = true -> encodes v.
Proof.
  induction v as [t nul s n vs IH] using Value_ind'. intros Hv total b e b' Hb He.
  cbn [encodable vType vArray] in Hv. cbn [Encode wire vType vString vInteger vIsNull vArray] in He |- *.
  repeat (case_bool_decide; [try destruct nul; by eapply printf_encodes|]).
  rewrite -> bool_decide_eq_false_2 in Hv by set_solver. cbn [orb] in Hv.
  apply andb_true_iff in Hv as [Ht Hvs]. rw Ht in He.
  rw (app_assoc _ CRLF) app_comm_cons app_assoc.
  destruct (printf _ b) as [[e1|] b1] eqn:Hpr;
    apply (printf_encodes _ total) in Hpr; [|done| |done]; cbv iota in Hpr.
  - simplify_eq. by apply refused_app.
  - eapply Encode_elems; [|exact Hpr|exact He]. apply Forall_forall. intros x Hx.
    rw Forall_forall in IH. apply IH; [done|]. apply forallb_forall with (x := x) in Hvs; [done|].
    by apply list_elem_of_In.
Qed.

(** Encoding and flushing one value. *)
Lemma Encode_sink v (w : W) size :
  encodable v = true -> 0 < size -> accepted [] w ->
  let '(e, b) := Encode v (GoIO.NewWriterSize w size) in
  match e with
  | Some _ => refused (wire v)
  | None =>
      let b := GoIO.Flush b in
      if GoIO.bwErr b then refused (wire v) else accepted (wire v) (GoIO.bwSink b)
  end.
Proof.
  intros Hv Hs Ha.
  assert (Hb : holds [] (GoIO.NewWriterSize w size)) by by apply GoIOProof.NewWriter_holds.
  destruct (Encode v (GoIO.NewWriterSize w size)) as [e b] eqn:He.
  apply (Encode_encodes v Hv [] _ _ _ Hb) in He. rw app_nil_l in He.
  destruct e as [e|]; [done|]. cbv zeta.
  apply (GoIOProof.Flush_holds _ _ write_ok (fun p c _ => refused_app p c)) in He.
  destruct (GoIO.bwErr (GoIO.Flush b)); [done|by destruct He].
Qed.

End sink.

(** The encoder accepts nothing else. *)
Lemma Encode_encodable `{Writer W} v (b b' : GoIO.bufWriter W) :
  Encode v b = (None, b') -> encodable v = true.
Proof.
  revert b b'. induction v as [t nul s n vs IH] using Value_ind'. intros b b' He.
  cbn [encodable vType vArray]. cbn [Encode vType vString vInteger vIsNull vArray] in He.
  destruct (decide (t ∈ [SimpleString; Error; Integer; BulkString])) as [Ht|Ht].
  { by rewrite -> bool_decide_eq_true_2. }
  rewrite -> bool_decide_eq_false_2 by done.
  repeat (rewrite -> bool_decide_eq_false_2 in He by set_solver).
  case_bool_decide; [|done]. cbn [orb andb]. destruct (printf _ b) as [[e|] b1]; [done|].
  revert b1 He. induction IH as [|v vs Hv _ IH]; intros b1 He; [done|]. cbn [forallb].
  destruct (Encode v b1) as [[e|] b2] eqn:Hv2; [done|]. rewrite -> (Hv _ _ Hv2). by apply (IH b2).
Qed.

(** And what it accepts fails only for the sink. *)
Lemma printf_supported `{Writer W} p (b : GoIO.bufWriter W) : (printf p b).1 <> Some EncUnsupported.
Proof. unfold printf. by destruct (GoIO.bwErr _). Qed.

Lemma Encode_supported `{Writer W} v (b : GoIO.bufWriter W) :
  encodable v = true -> (Encode v b).1 <> Some EncUnsupported.
Proof.
  revert b. induction v as [t nul s n vs IH] using Value_ind'. intros b Hv.
  cbn [encodable vType vArray] in Hv. cbn [Encode vType vString vInteger vIsNull vArray].
  destruct (decide (t ∈ [SimpleString; Error; Integer; BulkString])) as [Ht|Ht].
  { repeat case_bool_decide;
      unfold encodeSimpleString, encodeError, encodeInteger, encodeBulkString;
      try case_match; try apply printf_supported; set_solver. }
  repeat (rewrite -> bool_decide_eq_false_2 by set_solver).
  rewrite -> bool_decide_eq_false_2 in Hv by done. cbn [orb] in Hv.
  apply andb_true_iff in Hv as [Ht' Hvs]. rw Ht'.
  destruct (printf _ b) as [[e|] b1] eqn:Hpr; [by pose proof (printf_supported ("*"%char :: GoLib.FormatInt (len vs) ++ CRLF) b) as Hq; rw Hpr in Hq|].
  clear Hpr. revert b1 Hvs. induction IH as [|v vs Hv _ IH]; intros b1 Hvs; [done|].
  cbn [forallb] in Hvs. apply andb_true_iff in Hvs as [Hv1 Hvs]. specialize (Hv b1 Hv1).
  destruct (Encode v b1) as [[e|] b2]; [done|]. by apply IH.
Qed.

Lemma wire_nonempty v : wire v <> [].
Proof. destruct v. simpl. repeat case_bool_decide; try done. by case_match. Qed.

(** Encoding and flushing one value: the whole of it, or an error. *)
Lemma Encode_Flush `{BoundedWriter W} v (w : W) size :
  encodable v = true -> 0 < size ->
  let '(e, b) := Encode v (GoIO.NewWriterSize w size) in
  let b := GoIO.Flush b in
  if decide (len (wire v) <= room w)
  then e = None /\ GoIO.bwErr b = false /\ contents (GoIO.bwSink b) = contents w ++ wire v
  else e <> None \/ GoIO.bwErr b = true.
Proof.
  intros Hv Hs.
  set (took c w' := contents w' = contents w ++ c /\ room w' = room w - len c /\
                    (c = [] \/ len c <= room w)).
  assert (Hok : forall p c w', took c w' ->
            let '(n, err, w'') := w_write p w' in
            if err then room w < len (c ++ p) else n = length p /\ took (c ++ p) w'').
  { intros p c w' (Hc & Hr & Hle). unfold took. rw len_app.
    destruct (Z.le_gt_cases (len p) (room w')) as [Hp|Hp].
    - destruct (write_fits p w' Hp) as (w'' & -> & Hc' & Hr'). rw Hc' Hc Hr' Hr -app_assoc.
      split_and!; [done..|lia|right; lia].
    - rewrite -> write_over by done. lia. }
  assert (Happ : forall p c : gostring, room w < len c -> room w < len (c ++ p)).
  { intros p c Hc. rw len_app. pose proof (len_nonneg p). lia. }
  pose proof (Encode_sink took (fun c => room w < len c) Hok Happ v w size Hv Hs) as He.
  destruct (Encode v (GoIO.NewWriterSize w size)) as [e b].
  assert (Hw : took [] w) by (unfold took; rw app_nil_r len_nil; split_and!; [done|lia|by left]).
  specialize (He Hw). cbv zeta in *.
  destruct e as [e|]; [case_decide; [lia|by left]|].
  destruct (GoIO.bwErr (GoIO.Flush b)); case_decide; [lia|by right| |].
  - by destruct He.
  - destruct He as (_ & _ & Hle). pose proof (wire_nonempty v). destruct Hle; [done|lia].
Qed.

End RespEncode.
