(* ===== verification/RespTheorems.v ===== *)
(** * What the RESP codec guarantees

    The theorems of the protocol component, with witnesses on concrete messages.
    The string functions on non-ASCII input are instantiated by [asciiOnly] in
    the witnesses. *)

From S2P Require Import Prelude GoLib GoIO Resp RespStream RespProof RespLimits RespEncode.

(** An instance of the Unicode parameter: non-ASCII strings are left alone. *)
Definition asciiOnly : Unicode := {|
  uni_ToUpper s := s; uni_ToLower s := s; uni_EqualFold s t := bool_decide (s = t);
  uni_Fields s := [s]; uni_Quote s := s;
  uni_TrimSpace s := s |}.

(** A sink that holds at most [msCap] bytes. *)
Record memSink := mkMem { msData : gostring; msCap : Z }.
#[export] Instance memSink_writer : Writer memSink := fun p w =>
  if len p <=? msCap w - len (msData w)
  then ((length p, false), mkMem (msData w ++ p) (msCap w)) else ((0%nat, true), w).
#[export] Instance memSink_bounded : BoundedWriter memSink.
Proof.
  refine (Build_BoundedWriter _ _ msData (fun w => msCap w - len (msData w)) _ _).
  - intros p w Hp. unfold w_write, memSink_writer. rewrite -> (proj2 (Z.leb_le _ _)) by lia.
    eexists. split_and!; [done..|]. simpl. rw len_app. lia.
  - intros p w Hp. unfold w_write, memSink_writer. by rewrite -> (proj2 (Z.leb_gt _ _)) by lia.
Defined.

Module RespTheorems.
Import Resp RespStream RespProof RespLimits RespEncode.

Lemma transportable_encodable v : transportable v -> encodable v = true.
Proof.
  induction v as [t b s n vs IH] using Value_ind'. inversion 1 as [| | | | |? _ Hvs]; subst; try done.
  simpl. apply forallb_forall. intros x Hx%list_elem_of_In. rw !Forall_forall in IH Hvs. auto.
Qed.

(** The messages of the witnesses: [*2 $4 PING $2 hi]. *)
Definition ping : Value := NewArray [NewBulkString (str "PING"); NewBulkString (str "hi")].

Lemma ping_transportable : transportable ping.
Proof. repeat constructor; vm_compute; done. Qed.

(** C13.  Round trip: a value within the protocol limits, encoded and flushed to a
    sink with room for it, arrives whole, and the decoder reads it back from the
    bytes that arrived, leaving exactly the bytes that follow. *)
Theorem encode_decode_roundtrip `{Unicode} `{BoundedWriter W} (v : Value) (w : W) (size max : Z)
    (rest : gostring)
    (Hv : transportable v) (Hdepth : nesting v <= maxRESPDepth) (Hsize : 0 < size)
    (Hroom : len (wire v) <= room w) (Hempty : contents w = []) (Hmax : charge v <= max) :
  exists b, Encode v (GoIO.NewWriterSize w size) = (None, b) /\
    GoIO.bwErr (GoIO.Flush b) = false /\
    Decode (NewDecoderWithLimit (contents (GoIO.bwSink (GoIO.Flush b)) ++ rest) max) =
      (inr v, mkDecoder rest max (charge v) 0).
Proof.
  pose proof (Encode_Flush v w size (transportable_encodable v Hv) Hsize) as He.
  destruct (Encode v (GoIO.NewWriterSize w size)) as [e b]. cbv zeta in He.
  rewrite -> decide_True in He by done. destruct He as (-> & Hf & Hc).
  exists b. split_and!; [done..|]. rw Hc Hempty app_nil_l.
  unfold NewDecoderWithLimit, Decode. apply (DecodeF_wire 65 v rest max 0 0); try done.
  unfold maxRESPDepth in Hdepth. lia.
Qed.

Lemma encode_decode_roundtrip_witness :
  exists b, @Encode memSink _ ping (GoIO.NewWriterSize (mkMem [] 100) 16) = (None, b) /\
    GoIO.bwErr (GoIO.Flush b) = false /\
    @Decode asciiOnly (NewDecoderWithLimit (contents (GoIO.bwSink (GoIO.Flush b)) ++ str "next") 64) =
      (inr ping, mkDecoder (str "next") 64 (charge ping) 0).
Proof.
  apply (@encode_decode_roundtrip asciiOnly memSink _ _ ping (mkMem [] 100) 16 64 (str "next"));
    [apply ping_transportable|vm_compute; done|lia|vm_compute; done|done|vm_compute; done].
Defined.

(** Streaming: a message that decodes from the bytes received so far decodes
    to the same value, leaving the same bytes unread, however many bytes follow;
    and a protocol error remains an error when more bytes arrive. *)
Lemma decode_stream `{Unicode} (d : Decoder) (q : gostring) :
  match Decode d with
  | (inr v, d') => Decode (feed q d) = (inr v, feed q d')
  | (inl e, _) => incomplete e = false ->
      exists e' d', Decode (feed q d) = (inl e', d') /\ incomplete e' = false
  end.
Proof.
  pose proof (local_Decode d q) as Hl. destruct (Decode d) as [[e|v] d']; [|apply Hl].
  intros He. destruct (Decode (feed q d)) as [[e'|v] d'']; [eauto|]. destruct Hl. congruence.
Qed.

(** A torn message is recognised: if the decoder consumes exactly [m] out of
    [m ++ rest], then from any proper prefix of [m] it reports an incomplete
    message, never a value and never a protocol error. *)
Lemma decode_torn `{Unicode} (p t rest : gostring) (max : Z) (v : Value) (d' : Decoder)
    (Hok : Decode (NewDecoderWithLimit ((p ++ t) ++ rest) max) = (inr v, d'))
    (Hrest : dreader d' = rest) (Ht : t <> []) :
  exists e d'', Decode (NewDecoderWithLimit p max) = (inl e, d'') /\ incomplete e = true.
Proof.
  pose proof (local_Decode (NewDecoderWithLimit p max) (t ++ rest)) as Hl.
  change (feed (t ++ rest) (NewDecoderWithLimit p max))
    with (NewDecoderWithLimit (p ++ t ++ rest) max) in Hl. rw app_assoc Hok in Hl.
  destruct (Decode (NewDecoderWithLimit p max)) as [[e|v'] d1].
  - destruct Hl as [He _]. eauto.
  - destruct Hl as [Heq _]. injection Heq as _ ->. simpl in Hrest.
    apply (f_equal length) in Hrest. rw !length_app in Hrest.
    destruct t; [done|simpl in Hrest; lia].
Qed.

(** C14.  Incremental decoding.  What follows a message does not matter: bytes that
    decode to a value decode to the same value, leaving what was left and the bytes
    that follow, and bytes that are malformed stay malformed.  And a message cut
    anywhere is recognised: from any proper prefix of exactly the bytes it takes the
    decoder reports an incomplete message, never a value and never a protocol error. *)
Theorem decode_incremental `{Unicode} (input : gostring) (max : Z) (v : Value) (d' : Decoder)
    (Hok : Decode (NewDecoderWithLimit input max) = (inr v, d')) :
  (forall q, Decode (NewDecoderWithLimit (input ++ q) max) = (inr v, feed q d')) /\
  (forall p t, input = p ++ t ++ dreader d' -> t <> [] ->
     exists e d'', Decode (NewDecoderWithLimit p max) = (inl e, d'') /\ incomplete e = true) /\
  (forall bad e d'' q, Decode (NewDecoderWithLimit bad max) = (inl e, d'') -> incomplete e = false ->
     exists e' d3, Decode (NewDecoderWithLimit (bad ++ q) max) = (inl e', d3) /\ incomplete e' = false).
Proof.
  split; [|split].
  - intros q. pose proof (decode_stream (NewDecoderWithLimit input max) q) as Hs. by rw Hok in Hs.
  - intros p t Hin Ht. apply (decode_torn p t (dreader d') max v d'); [|done|done]. by rw -app_assoc -Hin.
  - intros bad e d'' q Hbad He. pose proof (decode_stream (NewDecoderWithLimit bad max) q) as Hs. rw Hbad in Hs. by apply Hs.
Qed.

Lemma decode_incremental_witness :
  let input := wire ping ++ str "x" in
  let d' := mkDecoder (str "x") 64 (charge ping) 0 in
  @Decode asciiOnly (NewDecoderWithLimit input 64) = (inr ping, d') /\
  (forall q, @Decode asciiOnly (NewDecoderWithLimit (input ++ q) 64) = (inr ping, feed q d')) /\
  (forall p t, input = p ++ t ++ dreader d' -> t <> [] ->
     exists e d'', @Decode asciiOnly (NewDecoderWithLimit p 64) = (inl e, d'') /\ incomplete e = true) /\
  (forall bad e d'' q, @Decode asciiOnly (NewDecoderWithLimit bad 64) = (inl e, d'') -> incomplete e = false ->
     exists e' d3, @Decode asciiOnly (NewDecoderWithLimit (bad ++ q) 64) = (inl e', d3) /\ incomplete e' = false).
Proof.
  intros input d'. assert (Hok : @Decode asciiOnly (NewDecoderWithLimit input 64) = (inr ping, d')) by (vm_compute; done).
  split; [exact Hok|]. exact (@decode_incremental asciiOnly input 64 ping d' Hok).
Defined.

(** C16.  Limits: a decoded message took at least one byte and at most the message
    limit from the input, and nests at most one level beyond the depth limit (an
    inline command read as an array element is an array itself). *)
Theorem decode_limits `{Unicode} (input : gostring) (max : Z) (v : Value) (d' : Decoder)
    (Hmax : 0 <= max) (Hok : Decode (NewDecoderWithLimit input max) = (inr v, d')) :
  1 <= len input - len (dreader d') <= max /\ nesting v <= maxRESPDepth + 1.
Proof.
  pose proof (Decode_within_limit (NewDecoderWithLimit input max) _ _ eq_refl Hmax Hok).
  pose proof (Decode_progress _ _ _ Hok). apply DecodeF_nesting in Hok; [|done]. simpl in *. lia.
Qed.

Lemma decode_limits_witness :
  1 <= len (wire ping ++ str "x") - len (str "x") <= 64 /\ nesting ping <= maxRESPDepth + 1.
Proof.
  apply (@decode_limits asciiOnly (wire ping ++ str "x") 64 ping (mkDecoder (str "x") 64 (charge ping) 0));
    [lia|vm_compute; done].
Defined.

(** C17.  The encoder through a buffered writer of any size: if the wire format
    fits the sink, the sink receives exactly it; if not, the encoder or the final
    flush reports an error. *)
Theorem encode_all_or_error `{BoundedWriter W} (v : Value) (w : W) (size : Z)
    (Hv : encodable v = true) (Hsize : 0 < size) :
  let '(e, b) := Encode v (GoIO.NewWriterSize w size) in
  if decide (len (wire v) <= room w)
  then e = None /\ GoIO.bwErr (GoIO.Flush b) = false /\
       contents (GoIO.bwSink (GoIO.Flush b)) = contents w ++ wire v
  else e <> None \/ GoIO.bwErr (GoIO.Flush b) = true.
Proof. by apply Encode_Flush. Qed.

Lemma encode_all_or_error_witness :
  let '(e, b) := Encode ping (GoIO.NewWriterSize (mkMem [] 10) 4) in
  if decide (len (wire ping) <= room (mkMem [] 10))
  then e = None /\ GoIO.bwErr (GoIO.Flush b) = false /\
       contents (GoIO.bwSink (GoIO.Flush b)) = contents (mkMem [] 10) ++ wire ping
  else e <> None \/ GoIO.bwErr (GoIO.Flush b) = true.
Proof. apply (encode_all_or_error ping (mkMem [] 10) 4); [vm_compute; done|lia]. Defined.

(** The decoder counts the terminator of a bulk string twice: a bulk string
    whose encoding has exactly the permitted number of bytes is refused, and it
    is accepted only with two bytes to spare. *)
Lemma bulk_terminator_charged_twice `{Unicode} :
  let v := NewBulkString (str "hello") in
  (Decode (NewDecoderWithLimit (wire v) (len (wire v)))).1 = inl (ErrMessageLimit (len (wire v))) /\
  (Decode (NewDecoderWithLimit (wire v) (len (wire v) + 1))).1 =
    inl (ErrMessageLimit (len (wire v) + 1)) /\
  (Decode (NewDecoderWithLimit (wire v) (len (wire v) + 2))).1 = inr v.
Proof. by vm_compute. Qed.

End RespTheorems.
