(* ===== verification/ListValue.v ===== *)
(** * The circular list buffer

    [internal/storage/list.go], lines 15 to 154: [listValue], a growable ring
    buffer, with one definition per method.  [None] is a runtime panic (index
    out of range, modulo by an empty buffer).  [contents] is the logical list;
    every method is shown not to panic on a well-formed value and to act on
    [contents] as the corresponding list operation. *)

From S2P Require Import Prelude.

(** ** Data *)
Record listValue := mkList {
  lbuffer : list gostring;
  lhead : Z;
  lsize : Z;
  lbytes : Z;
}.

(** The zero value of the struct. *)
Definition listZero : listValue := mkList [] 0 0 0.

Module ListValue.

(** ** Operations *)
Definition Len (l : listValue) : Z := lsize l.

Definition at_ (l : listValue) (index : Z) : option gostring :=
  p ← gorem (lhead l + index) (len (lbuffer l));
  slice_get (lbuffer l) p.

Definition set_ (l : listValue) (index : Z) (value : gostring) : option listValue :=
  p ← gorem (lhead l + index) (len (lbuffer l));
  b ← slice_set (lbuffer l) p value;
  Some (mkList b (lhead l) (lsize l) (lbytes l)).

(** The copy loop of [grow]: [for i := 0; i < l.size; i++ { buffer[i] = l.at(i) }]. *)
Fixpoint grow_copy (l : listValue) (n : nat) (i : Z) (buffer : list gostring)
    : option (list gostring) :=
  match n with
  | O => Some buffer
  | S n' =>
      v ← at_ l i;
      b ← slice_set buffer i v;
      grow_copy l n' (i + 1) b
  end.

Definition grow (l : listValue) : option listValue :=
  if lsize l <? len (lbuffer l) then Some l
  else
    let capacity := len (lbuffer l) * 2 in
    let capacity := if capacity =? 0 then 8 else capacity in
    b ← grow_copy l (Z.to_nat (lsize l)) 0 (replicate (Z.to_nat capacity) []);
    Some (mkList b 0 (lsize l) (lbytes l)).

Definition push (l : listValue) (value : gostring) (left : bool) : option listValue :=
  l ← grow l;
  let l := mkList (lbuffer l) (lhead l) (lsize l) (lbytes l + len value) in
  l ← (if left then
         h ← gorem (lhead l - 1 + len (lbuffer l)) (len (lbuffer l));
         Some (mkList (lbuffer l) h (lsize l) (lbytes l))
       else set_ l (lsize l) value);
  l ← (if left then
         b ← slice_set (lbuffer l) (lhead l) value;
         Some (mkList b (lhead l) (lsize l) (lbytes l))
       else Some l);
  Some (mkList (lbuffer l) (lhead l) (lsize l + 1) (lbytes l)).

Definition pop (l : listValue) (left : bool) : option ((gostring * bool) * listValue) :=
  if lsize l =? 0 then Some (([], false), l)
  else if left then
    value ← at_ l 0;
    b ← slice_set (lbuffer l) (lhead l) [];
    h ← gorem (lhead l + 1) (len b);
    Some ((value, true), mkList b h (lsize l - 1) (lbytes l - len value))
  else
    let last := lsize l - 1 in
    value ← at_ l last;
    l' ← set_ l last [];
    Some ((value, true),
          mkList (lbuffer l') (lhead l') (lsize l' - 1) (lbytes l' - len value)).

(** [n] turns of [l.set(i, l.at(i+d))] with [i] moving by [d]: the element
    shifts of [insert] and [removeAt]. *)
Fixpoint shift_loop (l : listValue) (n : nat) (i d : Z) : option listValue :=
  match n with
  | O => Some l
  | S n' =>
      v ← at_ l (i + d);
      l' ← set_ l i v;
      shift_loop l' n' (i + d) d
  end.

(** The branch of [insert] that opens a slot at [index] (list.go, lines 89 to 98). *)
Definition make_room (l : listValue) (index : Z) : option listValue :=
  if index <? lsize l - index then
    h ← gorem (lhead l - 1 + len (lbuffer l)) (len (lbuffer l));
    shift_loop (mkList (lbuffer l) h (lsize l) (lbytes l)) (Z.to_nat index) 0 1
  else
    shift_loop l (Z.to_nat (lsize l - index)) (lsize l) (-1).

Definition insert (l : listValue) (index : Z) (value : gostring) : option listValue :=
  l ← grow l;
  let l := mkList (lbuffer l) (lhead l) (lsize l) (lbytes l + len value) in
  l ← make_room l index;
  l ← set_ l index value;
  Some (mkList (lbuffer l) (lhead l) (lsize l + 1) (lbytes l)).

(** The branch of [removeAt] that closes the slot at [index] (list.go, lines 105 to 116). *)
Definition close_gap (l : listValue) (index : Z) : option listValue :=
  if index <? lsize l - index - 1 then
    l ← shift_loop l (Z.to_nat index) index (-1);
    b ← slice_set (lbuffer l) (lhead l) [];
    h ← gorem (lhead l + 1) (len b);
    Some (mkList b h (lsize l) (lbytes l))
  else
    l ← shift_loop l (Z.to_nat (lsize l - 1 - index)) index 1;
    set_ l (lsize l - 1) [].

Definition removeAt (l : listValue) (index : Z) : option listValue :=
  v ← at_ l index;
  let l := mkList (lbuffer l) (lhead l) (lsize l) (lbytes l - len v) in
  l ← close_gap l index;
  Some (mkList (lbuffer l) (lhead l) (lsize l - 1) (lbytes l)).

(** [items[i-start] = l.at(i)] for [n] values of [i] from [i]. *)
Fixpoint range_loop (l : listValue) (n : nat) (i : Z) : option (list gostring) :=
  match n with
  | O => Some []
  | S n' => v ← at_ l i; vs ← range_loop l n' (i + 1); Some (v :: vs)
  end.

(** [make([]string, end-start)] panics on a negative length. *)
Definition rangeCopy (l : listValue) (start end_ : Z) : option (list gostring) :=
  if end_ - start <? 0 then None
  else range_loop l (Z.to_nat (end_ - start)) start.

(** The total length of the stored strings. *)
Definition sum_len (items : list gostring) : Z := foldr (fun s n => len s + n) 0 items.

Definition replace (items : list gostring) : listValue :=
  mkList items 0 (len items) (sum_len items).

Definition assign (l : listValue) (index : Z) (value : gostring) : option listValue :=
  v ← at_ l index;
  set_ (mkList (lbuffer l) (lhead l) (lsize l) (lbytes l + (len value - len v))) index value.

(** Go returns [(0, false)] out of range. *)
Definition index (l : listValue) (i : Z) : option Z :=
  let length := lsize l in
  let i := if i <? 0 then i + length else i in
  if (i <? 0) || (length <=? i) then None else Some i.

(** [listValue.memorySize] of memory.go, line 25. *)
Definition memorySize (l : listValue) : Z := int64 (len (lbuffer l) * 16 + lbytes l).

(** ** The logical list and well-formedness *)
Definition ring (l : listValue) : list gostring := rotate (Z.to_nat (lhead l)) (lbuffer l).
Definition contents (l : listValue) : list gostring := take (Z.to_nat (lsize l)) (ring l).

Record shape (l : listValue) : Prop := {
  shape_head : 0 <= lhead l;
  shape_head_lt : lhead l < len (lbuffer l) \/ (lhead l = 0 /\ lbuffer l = []);
  shape_size : 0 <= lsize l <= len (lbuffer l);
}.

Definition wf (l : listValue) : Prop := shape l /\ lbytes l = sum_len (contents l).

(** ** The ring behind the buffer *)
Lemma ring_length l : length (ring l) = length (lbuffer l).
Proof. apply length_rotate. Qed.

Lemma ring_lookup l (j : nat) :
  Z.of_nat j < len (lbuffer l) -> 0 <= lhead l ->
  ring l !! j = lbuffer l !! Z.to_nat ((lhead l + Z.of_nat j) mod len (lbuffer l)).
Proof.
  intros Hj Hh. unfold ring. rewrite -> lookup_rotate_r by (unfold len in Hj; lia).
  unfold rotate_nat_add. by rewrite -> Z2Nat.id by done.
Qed.

Lemma gorem_mod a b : 0 <= a -> 0 < b -> gorem a b = Some (a mod b).
Proof.
  intros. unfold gorem. rewrite -> (proj2 (Z.eqb_neq b 0)) by lia.
  by rewrite -> Z.rem_mod_nonneg by done.
Qed.

Lemma at_ring l i :
  shape l -> 0 <= i < len (lbuffer l) -> at_ l i = ring l !! Z.to_nat i.
Proof.
  intros [Hh Hlt Hs] Hi. unfold at_. rewrite -> gorem_mod by lia. simpl.
  rewrite -> slice_get_lookup by (apply Z.mod_pos_bound; lia).
  rewrite -> ring_lookup by lia. by rewrite -> Z2Nat.id by lia.
Qed.

Lemma at_Some l i :
  shape l -> 0 <= i < len (lbuffer l) ->
  exists v, at_ l i = Some v /\ ring l !! Z.to_nat i = Some v.
Proof.
  intros Hl Hi. rewrite -> at_ring by done.
  destruct (lookup_lt_is_Some_2 (ring l) (Z.to_nat i)) as [v Hv]; [|eauto].
  rw ring_length. unfold len in Hi. lia.
Qed.

(** A replacement of one buffer slot, seen from the ring. *)
Lemma set_ring l i v :
  shape l -> 0 <= i < len (lbuffer l) ->
  exists b, set_ l i v = Some (mkList b (lhead l) (lsize l) (lbytes l)) /\
    len b = len (lbuffer l) /\
    ring (mkList b (lhead l) (lsize l) (lbytes l)) = <[Z.to_nat i := v]> (ring l).
Proof.
  intros [Hh Hlt Hs] Hi. unfold set_. rewrite -> gorem_mod by lia. simpl.
  pose proof (Z.mod_pos_bound (lhead l + i) (len (lbuffer l)) ltac:(lia)).
  rewrite -> slice_set_insert by done. eexists. split; [done|].
  split; [apply len_insert|]. unfold ring. simpl.
  rewrite <- rotate_insert_l by (unfold len in Hi; lia). unfold rotate_nat_add.
  by rewrite -> !Z2Nat.id by lia.
Qed.

(** Moving the head one slot back or forward. *)
Lemma ring_head_back b h sz n (j : nat) :
  0 <= h < len b -> (j < length b)%nat ->
  ring (mkList b ((h - 1 + len b) mod len b) sz n) !! j =
  match j with
  | O => b !! Z.to_nat ((h - 1 + len b) mod len b)
  | S j' => ring (mkList b h sz n) !! j'
  end.
Proof.
  intros Hh Hj. pose proof (Z.mod_pos_bound (h - 1 + len b) (len b) ltac:(lia)).
  rewrite -> ring_lookup by (simpl; unfold len in *; lia). simpl.
  destruct j as [|j'].
  - rewrite -> Z.add_0_r, Z.mod_mod by lia. done.
  - rewrite -> ring_lookup by (simpl; unfold len in *; lia). simpl.
    rewrite -> Z.add_mod_idemp_l by lia. do 2 f_equal.
    replace (h - 1 + len b + Z.of_nat (S j')) with (h + Z.of_nat j' + 1 * len b) by lia.
    apply Z_mod_plus_full.
Qed.

Lemma ring_head_forward b h sz n (j : nat) :
  0 <= h < len b -> (S j < length b)%nat ->
  ring (mkList b ((h + 1) mod len b) sz n) !! j = ring (mkList b h sz n) !! S j.
Proof.
  intros Hh Hj. pose proof (Z.mod_pos_bound (h + 1) (len b) ltac:(lia)).
  rewrite -> !ring_lookup by (simpl; unfold len in *; lia). simpl.
  rewrite -> Z.add_mod_idemp_l by lia. do 3 f_equal. lia.
Qed.

(** ** [contents] through its lookups *)
Lemma contents_length l : shape l -> length (contents l) = Z.to_nat (lsize l).
Proof.
  intros [? ? ?]. unfold contents. rw length_take ring_length. unfold len in *. lia.
Qed.

Lemma contents_len l : shape l -> len (contents l) = lsize l.
Proof. intros Hl. unfold len. rw contents_length; [|done]. destruct Hl. lia. Qed.

Lemma contents_lookup l (j : nat) :
  Z.of_nat j < lsize l -> contents l !! j = ring l !! j.
Proof. intros. unfold contents. apply lookup_take_lt. lia. Qed.

Lemma at_contents l i :
  shape l -> 0 <= i < lsize l -> at_ l i = contents l !! Z.to_nat i.
Proof.
  intros Hl Hi. rewrite -> at_ring by (destruct Hl; lia || done).
  by rewrite -> contents_lookup by lia.
Qed.

(** Two values with the same size whose rings agree on the live part. *)
Lemma contents_eq l (k : list gostring) :
  shape l -> lsize l = len k ->
  (forall j : nat, (j < length k)%nat -> ring l !! j = k !! j) -> contents l = k.
Proof.
  intros Hl Hsz Hj. apply list_eq_same_length with (n := length k); [done| |].
  - rw contents_length; [|done]. unfold len in Hsz. lia.
  - intros j x y Hlt Hx Hy. rw contents_lookup in Hx; [|unfold len in Hsz; lia].
    rw Hj in Hx; [congruence|done].
Qed.

Lemma sum_len_app k1 k2 : sum_len (k1 ++ k2) = sum_len k1 + sum_len k2.
Proof. induction k1; simpl; lia. Qed.

(** ** [grow] *)
Lemma grow_copy_spec l (n : nat) i buf :
  shape l -> 0 <= i -> i + Z.of_nat n <= lsize l -> lsize l <= len buf ->
  exists b, grow_copy l n i buf = Some b /\ length b = length buf /\
    forall j : nat, b !! j =
      if decide (i <= Z.of_nat j < i + Z.of_nat n) then ring l !! j else buf !! j.
Proof.
  intros Hl. revert i buf. induction n as [|n IH]; intros i buf Hi Hn Hb; simpl.
  { exists buf. split_and!; [done..|]. intros j. by rewrite -> decide_False by lia. }
  destruct (at_Some l i) as (v & -> & Hv); [done|destruct Hl; lia|]. simpl.
  rewrite -> slice_set_insert by lia. simpl.
  destruct (IH (i + 1) (<[Z.to_nat i:=v]> buf)) as (b & -> & Hlen & Hb');
    [lia..|by rw len_insert|].
  exists b. split_and!; [done|by rw Hlen length_insert|].
  intros j. rw Hb'. destruct (decide (Z.of_nat j = i)) as [<-|Hne].
  - rewrite -> decide_False, decide_True by lia. rewrite -> Nat2Z.id in *.
    by rewrite -> list_lookup_insert_eq by (unfold len in *; lia).
  - rewrite -> list_lookup_insert_ne by lia. repeat case_decide; lia || done.
Qed.

Lemma rotate_0 {A} (l : list A) : rotate 0 l = l.
Proof. unfold rotate. by rw Nat.Div0.mod_0_l drop_0 /= app_nil_r. Qed.

Lemma grow_spec l :
  shape l ->
  exists l', grow l = Some l' /\ shape l' /\ lsize l' = lsize l /\
    lbytes l' = lbytes l /\ lsize l' < len (lbuffer l') /\ contents l' = contents l.
Proof.
  intros Hl. unfold grow. destruct (Z.ltb_spec (lsize l) (len (lbuffer l))) as [|Hfull];
    [by exists l|].
  pose proof (len_nonneg (lbuffer l)). pose proof (shape_size l Hl).
  set (cap := if len (lbuffer l) * 2 =? 0 then 8 else len (lbuffer l) * 2).
  assert (Hcap : lsize l < cap) by (subst cap; destruct (Z.eqb_spec (len (lbuffer l) * 2) 0); lia).
  destruct (grow_copy_spec l (Z.to_nat (lsize l)) 0 (replicate (Z.to_nat cap) []))
    as (b & -> & Hlen & Hb); [done|lia|lia| |].
  { unfold len. rw length_replicate. lia. }
  rw length_replicate in Hlen. simpl.
  assert (Hlb : len b = cap) by (unfold len; lia).
  eexists. split; [done|]. simpl. split_and!; [|done..|lia|].
  { constructor; simpl; lia. }
  apply contents_eq; simpl; [constructor; simpl; lia|by rw contents_len|].
  intros j Hj. rewrite -> contents_length in Hj by done.
  unfold ring. simpl. rw rotate_0 Hb. rewrite -> decide_True, contents_lookup by lia. done.
Qed.

(** ** [push] and [pop] *)
Definition spec_push (left : bool) (v : gostring) (k : list gostring) : list gostring :=
  if left then v :: k else k ++ [v].

Lemma mod_head_back_ne h c j :
  0 <= h < c -> 0 <= j < c - 1 -> (h - 1 + c) mod c <> (h + j) mod c.
Proof.
  intros Hh Hj Heq. pose proof (Z.div_mod (h - 1 + c) c ltac:(lia)).
  pose proof (Z.div_mod (h + j) c ltac:(lia)). rewrite -> Heq in *.
  assert (c * ((h - 1 + c) / c - (h + j) / c) = c - 1 - j) as Hq
    by (rewrite -> Z.mul_sub_distr_l; lia).
  set (q := (h - 1 + c) / c - (h + j) / c) in *. clearbody q.
  destruct (Z.le_gt_cases q 0); nia.
Qed.

Lemma contents_cons b h sz n n' v :
  shape (mkList b h sz n) -> sz < len b ->
  let h' := (h - 1 + len b) mod len b in
  contents (mkList (<[Z.to_nat h' := v]> b) h' (sz + 1) n') = v :: contents (mkList b h sz n).
Proof.
  intros Hl Hlt h'. pose proof Hl as [Hh Hhlt Hsize]. simpl in *.
  pose proof (Z.mod_pos_bound (h - 1 + len b) (len b) ltac:(lia)) as Hh'. fold h' in Hh'.
  apply contents_eq; simpl.
  { constructor; simpl; rw ?len_insert; lia. }
  { rw len_cons contents_len //=. lia. }
  intros j Hj. rewrite -> contents_length in Hj by done. simpl in Hj.
  pose proof (ring_head_back (<[Z.to_nat h':=v]> b) h (sz + 1) n' j) as Hr.
  rewrite -> len_insert, length_insert in Hr. fold h' in Hr.
  rewrite -> Hr by (unfold len in *; lia). destruct j as [|j]; simpl.
  - apply list_lookup_insert_eq. unfold len in *. lia.
  - rewrite -> contents_lookup by (simpl; lia).
    rewrite -> !ring_lookup by (simpl; rw ?len_insert; lia). simpl. rw len_insert.
    apply list_lookup_insert_ne. intros Heq.
    pose proof (Z.mod_pos_bound (h + Z.of_nat j) (len b) ltac:(lia)).
    apply Z2Nat.inj in Heq; [|lia..].
    apply (mod_head_back_ne h (len b) (Z.of_nat j)); [lia..|done].
Qed.

Lemma contents_snoc b b' h sz n n' v :
  shape (mkList b h sz n) -> sz < len b -> len b' = len b ->
  ring (mkList b' h sz n) = <[Z.to_nat sz := v]> (ring (mkList b h sz n)) ->
  contents (mkList b' h (sz + 1) n') = contents (mkList b h sz n) ++ [v].
Proof.
  intros Hl Hlt Hlb Hr. pose proof Hl as [Hh Hhlt Hsize]. simpl in *.
  apply contents_eq; simpl.
  { constructor; simpl; lia. }
  { rw len_app contents_len //=. }
  intros j Hj. rw length_app contents_length //= in Hj.
  change (ring (mkList b' h (sz + 1) n')) with (ring (mkList b' h sz n)). rw Hr.
  destruct (decide (j = Z.to_nat sz)) as [->|Hne].
  - rewrite -> list_lookup_insert_eq by (rw ring_length /=; unfold len in *; lia).
    rewrite -> lookup_app_r by (rw contents_length //=).
    by rw contents_length //= Nat.sub_diag.
  - rewrite -> list_lookup_insert_ne by done.
    rewrite -> lookup_app_l by (rw contents_length //=; lia).
    by rewrite -> contents_lookup by (simpl; lia).
Qed.

Lemma push_spec l v left :
  wf l -> exists l', push l v left = Some l' /\ wf l' /\
    contents l' = spec_push left v (contents l).
Proof.
  intros [Hl Hby]. unfold push.
  destruct (grow_spec l Hl) as ([b h sz n] & -> & Hs' & Hsz & Hbytes & Hlt & Hc).
  pose proof Hs' as [Hh Hhlt Hsize]. simpl in *. rw -Hc.
  destruct left; simpl.
  - rewrite -> gorem_mod by lia. simpl.
    pose proof (Z.mod_pos_bound (h - 1 + len b) (len b) ltac:(lia)).
    rewrite -> slice_set_insert by lia. simpl.
    eexists. split; [done|]. rewrite -> contents_cons with (n := n) by done.
    split; [|done]. split; [constructor; simpl; rw ?len_insert; lia|].
    rewrite -> contents_cons with (n := n) by done. simpl. rw Hc. lia.
  - destruct (set_ring (mkList b h sz (n + len v)) sz v) as (b' & -> & Hlb & Hr);
      [by constructor|simpl; lia|]. simpl in *.
    eexists. split; [done|]. rewrite -> (contents_snoc b b' h sz n _ v) by done.
    split; [|done]. split; [constructor; simpl; lia|].
    rewrite -> (contents_snoc b b' h sz n _ v) by done. rw sum_len_app /= Hc. lia.
Qed.

Lemma pop_empty l left : lsize l = 0 -> pop l left = Some (([], false), l).
Proof. intros H. unfold pop. by rw H. Qed.

Lemma mod_head_ne h c j :
  0 <= h < c -> 0 < j < c -> (h + j) mod c <> h.
Proof.
  intros Hh Hj Heq. pose proof (Z.div_mod (h + j) c ltac:(lia)). rewrite -> Heq in *.
  set (q := (h + j) / c) in *. clearbody q. destruct (Z.le_gt_cases q 0); nia.
Qed.

(** Clearing the head slot and moving the head drops the first element. *)
Lemma ring_drop_head b h sz n sz' n' (j : nat) :
  0 <= h < len b -> (S j < length b)%nat ->
  ring (mkList (<[Z.to_nat h := []]> b) ((h + 1) mod len b) sz n) !! j =
  ring (mkList b h sz' n') !! S j.
Proof.
  intros Hh Hj. pose proof (len_insert b (Z.to_nat h) []) as Hlen.
  rewrite <- Hlen. rewrite -> ring_head_forward by (rw ?length_insert; lia).
  rewrite -> !ring_lookup by (simpl; rw ?len_insert; unfold len; lia). simpl. rw len_insert.
  apply list_lookup_insert_ne. intros Heq.
  pose proof (Z.mod_pos_bound (h + Z.of_nat (S j)) (len b) ltac:(lia)).
  apply Z2Nat.inj in Heq; [|lia..].
  apply (mod_head_ne h (len b) (Z.of_nat (S j))); unfold len in *; [lia..|done].
Qed.

Lemma pop_left_spec l :
  wf l -> 0 < lsize l ->
  exists v l', pop l true = Some ((v, true), l') /\ wf l' /\ contents l = v :: contents l'.
Proof.
  intros [Hl Hby] Hpos. pose proof Hl as [Hh Hhlt Hsize]. unfold pop.
  rewrite -> (proj2 (Z.eqb_neq (lsize l) 0)) by lia.
  destruct (at_Some l 0) as (v & -> & Hv); [done|lia|]. simpl.
  rewrite -> slice_set_insert by lia. simpl. rw len_insert.
  rewrite -> gorem_mod by lia. simpl. do 2 eexists. split; [done|].
  set (l' := mkList _ _ _ _).
  pose proof (Z.mod_pos_bound (lhead l + 1) (len (lbuffer l)) ltac:(lia)).
  assert (Hs' : shape l') by (constructor; simpl; rw ?len_insert; lia).
  assert (Hc : contents l = v :: contents l').
  { apply contents_eq; [done|rw len_cons contents_len //=; lia|].
    intros [|j] Hj; simpl; [done|]. simpl in Hj. rewrite -> contents_length in Hj by done.
    simpl in Hj. rewrite -> contents_lookup by (simpl; lia).
    destruct l as [b h sz n]. simpl in *. symmetry. apply ring_drop_head; unfold len in *; lia. }
  split; [|done]. split; [done|]. rw Hc /= in Hby. simpl. lia.
Qed.

Lemma pop_right_spec l :
  wf l -> 0 < lsize l ->
  exists v l', pop l false = Some ((v, true), l') /\ wf l' /\ contents l = contents l' ++ [v].
Proof.
  intros [Hl Hby] Hpos. pose proof Hl as [Hh Hhlt Hsize]. unfold pop.
  rewrite -> (proj2 (Z.eqb_neq (lsize l) 0)) by lia.
  destruct (at_Some l (lsize l - 1)) as (v & -> & Hv); [done|lia|]. simpl.
  destruct (set_ring l (lsize l - 1) []) as (b & -> & Hlb & Hr); [done|lia|]. simpl.
  do 2 eexists. split; [done|]. set (l' := mkList _ _ _ _).
  assert (Hs' : shape l') by (constructor; simpl; lia).
  assert (Hc : contents l = contents l' ++ [v]).
  { apply contents_eq; [done|rw len_app contents_len //= len_cons len_nil; lia|].
    intros j Hj. rw length_app contents_length //= in Hj.
    destruct (decide (j = Z.to_nat (lsize l - 1))) as [->|Hne].
    - rewrite -> lookup_app_r by (rw contents_length //=).
      by rw contents_length //= Nat.sub_diag.
    - rewrite -> lookup_app_l by (rw contents_length //=; lia).
      rewrite -> contents_lookup by (simpl; lia).
      change (ring l') with (ring (mkList b (lhead l) (lsize l) (lbytes l))).
      rw Hr. by rewrite -> list_lookup_insert_ne by lia. }
  split; [|done]. split; [done|]. rw Hc sum_len_app /= in Hby. simpl. lia.
Qed.

Lemma pop_spec l left :
  wf l -> 0 < lsize l ->
  exists v l', pop l left = Some ((v, true), l') /\ wf l' /\
    contents l = spec_push left v (contents l').
Proof. destruct left; [apply pop_left_spec|apply pop_right_spec]. Qed.

(** ** Element shifts *)
Lemma shape_same_len l b n :
  shape l -> len b = len (lbuffer l) -> shape (mkList b (lhead l) (lsize l) n).
Proof.
  intros [Hh Hhlt Hs] Hb. constructor; simpl; [done| |lia].
  destruct Hhlt as [|[? He]]; [lia|]. rw He len_nil in Hb.
  right. by split; [|apply len_zero_nil].
Qed.

Lemma shift_loop_spec l (n : nat) i d :
  shape l -> (d = 1 \/ d = -1) ->
  0 <= i < len (lbuffer l) -> 0 <= i + d * Z.of_nat n < len (lbuffer l) ->
  exists b, shift_loop l n i d = Some (mkList b (lhead l) (lsize l) (lbytes l)) /\
    len b = len (lbuffer l) /\
    forall (j : nat), ring (mkList b (lhead l) (lsize l) (lbytes l)) !! j =
      if decide (0 <= (Z.of_nat j - i) * d < Z.of_nat n)
      then ring l !! Z.to_nat (Z.of_nat j + d) else ring l !! j.
Proof.
  intros Hl Hd. revert l i Hl. induction n as [|n IH]; intros l i Hl Hi Hin.
  { exists (lbuffer l). destruct l. simpl. split_and!; [done..|]. intros j.
    by rewrite -> decide_False by lia. }
  simpl. destruct (at_Some l (i + d)) as (v & -> & Hv); [done|lia|]. simpl.
  destruct (set_ring l i v) as (b1 & -> & Hl1 & Hr1); [done|lia|]. simpl.
  destruct (IH (mkList b1 (lhead l) (lsize l) (lbytes l)) (i + d)) as (b & Heq & Hlb & Hr);
    [by apply shape_same_len|simpl; lia..|].
  simpl in *. exists b. split_and!; [done|lia|]. intros j. rw Hr Hr1.
  destruct (decide (Z.of_nat j = i)) as [<-|Hne].
  - rewrite -> decide_False by lia. rewrite -> decide_True by lia.
    rewrite -> Nat2Z.id, list_lookup_insert_eq by (rw ring_length; unfold len in *; lia). done.
  - assert (Z.to_nat (Z.of_nat j + d) <> Z.to_nat i \/
            ~ (0 <= (Z.of_nat j - (i + d)) * d < Z.of_nat n)) by lia.
    do 2 case_decide; rewrite -> ?list_lookup_insert_ne by lia; done || lia.
Qed.

(** ** [insert] and [removeAt] *)
Definition insert_at (i : nat) (v : gostring) (k : list gostring) : list gostring :=
  take i k ++ v :: drop i k.

Lemma insert_at_lookup i v k (j : nat) :
  (i <= length k)%nat ->
  insert_at i v k !! j =
    if decide (j < i)%nat then k !! j else if decide (j = i) then Some v else k !! (j - 1)%nat.
Proof.
  intros Hi. unfold insert_at. repeat case_decide.
  - rewrite -> lookup_app_l by (rw length_take; lia). by apply lookup_take_lt.
  - subst. rewrite -> lookup_app_r by (rw length_take; lia).
    by rewrite -> length_take_le, Nat.sub_diag by lia.
  - rewrite -> lookup_app_r by (rw length_take; lia). rewrite -> length_take_le by lia.
    rewrite -> lookup_cons_ne_0, lookup_drop by lia. f_equal. lia.
Qed.

Lemma insert_at_len i v k : (i <= length k)%nat -> len (insert_at i v k) = len k + 1.
Proof.
  intros. unfold insert_at, len. rw length_app /= length_take length_drop. lia.
Qed.

Lemma sum_len_insert_at i v k : sum_len (insert_at i v k) = sum_len k + len v.
Proof.
  unfold insert_at. rw sum_len_app /=. rewrite <- (take_drop i k) at 3. rw sum_len_app. lia.
Qed.

(** What the two shifting branches of [insert] leave: a hole at [index]. *)
Definition hole (l l' : listValue) (index : Z) : Prop :=
  forall j : nat, Z.of_nat j <= lsize l ->
    (Z.of_nat j < index -> ring l' !! j = ring l !! j) /\
    (index < Z.of_nat j -> ring l' !! j = ring l !! (j - 1)%nat).

Lemma make_room_spec l index :
  shape l -> 0 <= index <= lsize l -> lsize l < len (lbuffer l) ->
  exists l', make_room l index = Some l' /\
    shape l' /\ lsize l' = lsize l /\ lbytes l' = lbytes l /\
    len (lbuffer l') = len (lbuffer l) /\ hole l l' index.
Proof.
  intros Hl Hi Hlt. pose proof Hl as [Hh Hhlt Hsize]. unfold make_room.
  destruct (Z.ltb_spec index (lsize l - index)).
  - rewrite -> gorem_mod by lia. simpl.
    pose proof (Z.mod_pos_bound (lhead l - 1 + len (lbuffer l)) (len (lbuffer l)) ltac:(lia)).
    set (l1 := mkList _ _ _ _).
    assert (Hs1 : shape l1) by (constructor; simpl; lia).
    destruct (shift_loop_spec l1 (Z.to_nat index) 0 1) as (b & -> & Hlb & Hr);
      [done|lia|simpl; lia..|]. simpl in *.
    eexists. split; [done|]. split_and!; [by apply (shape_same_len l1)|done..|].
    assert (Hback : forall j : nat, Z.of_nat j < lsize l -> ring l1 !! S j = ring l !! j).
    { intros j Hj. destruct l as [bb h sz n]. unfold l1. simpl in *.
      rewrite -> ring_head_back by (unfold len in *; lia). done. }
    intros j Hj. rw Hr. split; intros.
    + rewrite -> decide_True by lia.
      replace (Z.to_nat (Z.of_nat j + 1)) with (S j) by lia. apply Hback. lia.
    + rewrite -> decide_False by lia. destruct j; [lia|]. rewrite -> Hback by lia.
      f_equal. lia.
  - destruct (shift_loop_spec l (Z.to_nat (lsize l - index)) (lsize l) (-1))
      as (b & -> & Hlb & Hr); [done|lia|lia..|]. simpl in *.
    eexists. split; [done|]. split_and!; [by apply shape_same_len|done..|].
    intros j Hj. rw Hr. split; intros.
    + by rewrite -> decide_False by lia.
    + rewrite -> decide_True by lia. f_equal. lia.
Qed.

Lemma insert_spec l index v :
  wf l -> 0 <= index <= lsize l ->
  exists l', insert l index v = Some l' /\ wf l' /\
    contents l' = insert_at (Z.to_nat index) v (contents l).
Proof.
  intros [Hl Hby] Hi. unfold insert.
  destruct (grow_spec l Hl) as (l0 & -> & Hs0 & Hsz & Hb0 & Hlt & Hc). simpl.
  set (l1 := mkList _ _ _ _). assert (Hs1 : shape l1) by (by apply shape_same_len).
  destruct (make_room_spec l1 index) as (l2 & -> & Hs2 & Hz2 & Hb2 & Hn2 & Hhole);
    [done|simpl; lia..|]. simpl in *.
  destruct (set_ring l2 index v) as (b & -> & Hlb & Hr); [done|lia|]. simpl.
  eexists. split; [done|]. set (l' := mkList _ _ _ _).
  assert (Hs' : shape l') by (destruct Hs2; constructor; simpl; lia).
  assert (Hlenc : length (contents l) = Z.to_nat (lsize l)) by (by apply contents_length).
  assert (Hc' : contents l' = insert_at (Z.to_nat index) v (contents l)).
  { apply contents_eq; [done|rw insert_at_len; rw ?contents_len //= ?Hlenc; lia|].
    intros j Hj. assert (Z.of_nat j <= lsize l).
    { pose proof (insert_at_len (Z.to_nat index) v (contents l) ltac:(lia)) as Hil.
      unfold len in Hil. lia. }
    change (ring l') with (ring (mkList b (lhead l2) (lsize l2) (lbytes l2))). rw Hr.
    rewrite -> insert_at_lookup by lia. destruct (Hhole j ltac:(simpl; lia)) as [H1 H2].
    repeat case_decide.
    - rewrite -> list_lookup_insert_ne by lia. rewrite -> H1 by lia.
      rw -Hc. by rewrite -> contents_lookup by lia.
    - subst. apply list_lookup_insert_eq. rw ring_length. unfold len in *. lia.
    - rewrite -> list_lookup_insert_ne by lia. rewrite -> H2 by lia.
      rw -Hc. by rewrite -> contents_lookup by lia. }
  split; [|done]. split; [done|]. rw Hc' sum_len_insert_at. simpl. rw Hb2 /=. lia.
Qed.

(** What [close_gap] leaves: the elements after [index] moved one down. *)
Lemma close_gap_spec l index :
  shape l -> 0 <= index < lsize l ->
  exists l', close_gap l index = Some l' /\
    shape l' /\ lsize l' = lsize l /\ lbytes l' = lbytes l /\
    forall j : nat, Z.of_nat j < lsize l - 1 ->
      ring l' !! j = ring l !! (if decide (Z.of_nat j < index) then j else S j).
Proof.
  intros Hl Hi. pose proof Hl as [Hh Hhlt Hsize]. unfold close_gap.
  destruct (Z.ltb_spec index (lsize l - index - 1)).
  - destruct (shift_loop_spec l (Z.to_nat index) index (-1)) as (b & -> & Hlb & Hr);
      [done|lia..|]. simpl in *.
    rewrite -> slice_set_insert by lia. simpl. rw len_insert.
    rewrite -> gorem_mod by lia. simpl. eexists. split; [done|].
    pose proof (Z.mod_pos_bound (lhead l + 1) (len b) ltac:(lia)).
    split_and!; [constructor; simpl; rw ?len_insert; lia|done..|].
    intros j Hj. rewrite -> (ring_drop_head b _ _ _ (lsize l) (lbytes l))
      by (unfold len in *; lia). rw Hr. do 2 case_decide; f_equal; lia.
  - destruct (shift_loop_spec l (Z.to_nat (lsize l - 1 - index)) index 1)
      as (b & -> & Hlb & Hr); [done|lia..|]. simpl in *.
    destruct (set_ring (mkList b (lhead l) (lsize l) (lbytes l)) (lsize l - 1) [])
      as (b' & -> & Hlb' & Hr'); [by apply shape_same_len|simpl; lia|]. simpl in *.
    eexists. split; [done|]. split_and!; [apply shape_same_len; [done|lia]|done..|].
    intros j Hj. rw Hr'. rewrite -> list_lookup_insert_ne by lia. rw Hr.
    do 2 case_decide; f_equal; lia.
Qed.

Lemma sum_len_delete i v k : k !! i = Some v -> sum_len k = len v + sum_len (delete i k).
Proof.
  intros Hi. rw delete_take_drop. rewrite <- (take_drop_middle k i v) at 1 by done.
  rw !sum_len_app /=. lia.
Qed.

Lemma removeAt_spec l index :
  wf l -> 0 <= index < lsize l ->
  exists l', removeAt l index = Some l' /\ wf l' /\ lsize l' = lsize l - 1 /\
    contents l' = delete (Z.to_nat index) (contents l).
Proof.
  intros [Hl Hby] Hi. pose proof Hl as [Hh Hhlt Hsize]. unfold removeAt.
  destruct (at_Some l index) as (v & Hat & Hv); [done|lia|]. rw Hat /=.
  set (l1 := mkList _ _ _ _). assert (Hs1 : shape l1) by (by apply shape_same_len).
  destruct (close_gap_spec l1 index) as (l2 & -> & Hs2 & Hz2 & Hb2 & Hr); [done..|].
  simpl in *. eexists. split; [done|]. set (l' := mkList _ _ _ _).
  assert (Hs' : shape l') by (destruct Hs2; constructor; simpl; lia).
  assert (Hlk : contents l !! Z.to_nat index = Some v)
    by (rewrite -> contents_lookup by lia; done).
  assert (Hlc : length (contents l) = Z.to_nat (lsize l)) by (by apply contents_length).
  assert (Hld : length (delete (Z.to_nat index) (contents l)) = (Z.to_nat (lsize l) - 1)%nat)
    by (rewrite -> length_delete by (by eexists); lia).
  assert (Hc' : contents l' = delete (Z.to_nat index) (contents l)).
  { apply contents_eq; [done|unfold len; simpl; lia|]. intros j Hj.
    change (ring l') with (ring l2). rewrite -> Hr by lia.
    change (ring l1) with (ring l). rw list_lookup_delete.
    repeat case_decide; try lia; by rewrite -> contents_lookup by lia. }
  split_and!; [|simpl; lia|done]. split; [done|]. rw Hc'. simpl. rw Hb2 /=.
  rewrite -> (sum_len_delete _ _ _ Hlk) in Hby. lia.
Qed.

(** ** Copies and single-slot updates *)
Lemma range_loop_spec l (n : nat) i :
  shape l -> 0 <= i -> i + Z.of_nat n <= lsize l ->
  range_loop l n i = Some (take n (drop (Z.to_nat i) (contents l))).
Proof.
  intros Hl. revert i. induction n as [|n IH]; intros i Hi Hn; [done|]. simpl.
  pose proof (shape_size l Hl).
  destruct (at_Some l i) as (v & Hat & Hv); [done|lia|]. rw Hat /=.
  rewrite -> IH by lia. simpl.
  replace (Z.to_nat (i + 1)) with (S (Z.to_nat i)) by lia.
  by rewrite -> (drop_S (contents l) v (Z.to_nat i)) by (rewrite -> contents_lookup by lia; done).
Qed.

Lemma rangeCopy_spec l start end_ :
  shape l -> 0 <= start <= end_ -> end_ <= lsize l ->
  rangeCopy l start end_ =
    Some (take (Z.to_nat (end_ - start)) (drop (Z.to_nat start) (contents l))).
Proof.
  intros Hl Hs He. unfold rangeCopy. rewrite -> (proj2 (Z.ltb_ge _ _)) by lia.
  apply range_loop_spec; [done|lia..].
Qed.

Lemma rangeCopy_all l : shape l -> rangeCopy l 0 (lsize l) = Some (contents l).
Proof.
  intros Hl. pose proof (shape_size l Hl). rewrite -> rangeCopy_spec by (done || lia).
  rw Z.sub_0_r drop_0 firstn_all2 //. by rw contents_length.
Qed.

Lemma replace_spec items : wf (replace items) /\ contents (replace items) = items.
Proof.
  assert (Hc : contents (replace items) = items).
  { unfold contents, ring, replace. simpl. rw rotate_0 firstn_all2 //. unfold len. lia. }
  split; [|done]. split; [|by rw Hc]. constructor; simpl; [done| |pose proof (len_nonneg items); lia].
  destruct items; [by right|left]. rw len_cons. pose proof (len_nonneg items). lia.
Qed.

Lemma sum_len_insert i v w k :
  k !! i = Some w -> sum_len (<[i := v]> k) = sum_len k + (len v - len w).
Proof.
  intros Hi. rewrite -> insert_take_drop by (by eapply lookup_lt_Some).
  rewrite <- (take_drop_middle k i w) at 3 by done. rw !sum_len_app /=. lia.
Qed.

Lemma assign_spec l index v :
  wf l -> 0 <= index < lsize l ->
  exists l', assign l index v = Some l' /\ wf l' /\ lsize l' = lsize l /\
    contents l' = <[Z.to_nat index := v]> (contents l).
Proof.
  intros [Hl Hby] Hi. pose proof (shape_size l Hl). unfold assign.
  destruct (at_Some l index) as (w & Hat & Hw); [done|lia|]. rw Hat /=.
  set (l1 := mkList _ _ _ _). assert (Hs1 : shape l1) by (by apply shape_same_len).
  destruct (set_ring l1 index v) as (b & -> & Hlb & Hr); [done|simpl; lia|].
  simpl in *. eexists. split; [done|].
  assert (Hlk : contents l !! Z.to_nat index = Some w)
    by (rewrite -> contents_lookup by lia; done).
  assert (Hc : contents (mkList b (lhead l) (lsize l) (lbytes l1)) = <[Z.to_nat index:=v]> (contents l)).
  { unfold contents at 1. simpl. rw Hr. by rewrite -> take_insert_lt by lia. }
  simpl in Hc. split_and!; [|done|done].
  split; [by apply shape_same_len|]. rw Hc (sum_len_insert _ _ _ _ Hlk) /=. lia.
Qed.

(** A valid index is normalised into range; anything else is refused. *)
Lemma index_spec l i :
  0 <= lsize l ->
  index l i = (let j := if i <? 0 then i + lsize l else i in
               if decide (0 <= j < lsize l) then Some j else None).
Proof.
  intros. unfold index. cbv zeta. set (j := if i <? 0 then i + lsize l else i).
  destruct (Z.ltb_spec j 0), (Z.leb_spec (lsize l) j); simpl; case_decide; done || lia.
Qed.

End ListValue.
