(* ===== verification/KeyIndex.v ===== *)
(** * The key index

    [internal/storage/memory.go], lines 60 to 93: [keyIndex], a set of keys with
    constant-time insertion, swap-with-last removal and positional access.  It
    refines a finite set: [keys_of] is the set, [wf] says that [pos] is the exact
    inverse of [keys]. *)

From S2P Require Import Prelude.

(** The nil map and the empty map are not distinguished: [add] allocates the
    map before its first write and every other access is a read or a delete. *)
Record keyIndex := mkIndex {
  ikeys : list gostring;
  ipos : gmap gostring nat;
}.

Definition indexZero : keyIndex := mkIndex [] ∅.

Module KeyIndex.

Definition size (ix : keyIndex) : nat := length (ikeys ix).

(** [None] is the index-out-of-range panic. *)
Definition at_ (ix : keyIndex) (i : nat) : option gostring := ikeys ix !! i.

Definition add (ix : keyIndex) (key : gostring) : keyIndex :=
  match ipos ix !! key with
  | Some _ => ix
  | None => mkIndex (ikeys ix ++ [key]) (<[key := length (ikeys ix)]> (ipos ix))
  end.

Definition remove (ix : keyIndex) (key : gostring) : option keyIndex :=
  match ipos ix !! key with
  | None => Some ix
  | Some i =>
      let last := (length (ikeys ix) - 1)%nat in
      moved ← ikeys ix !! last;
      ks ← slice_set (ikeys ix) (Z.of_nat i) moved;
      let pos := <[moved := i]> (ipos ix) in
      Some (mkIndex (take last ks) (delete key pos))
  end.

(** ** Invariant and abstraction *)
Definition wf (ix : keyIndex) : Prop :=
  forall k i, ipos ix !! k = Some i <-> ikeys ix !! i = Some k.

Definition keys_of (ix : keyIndex) : gset gostring := list_to_set (ikeys ix).

Lemma wf_NoDup ix : wf ix -> NoDup (ikeys ix).
Proof. intros H. apply NoDup_alt. intros i j k Hi Hj. apply H in Hi, Hj. congruence. Qed.

Lemma elem_of_keys ix k : wf ix -> k ∈ keys_of ix <-> is_Some (ipos ix !! k).
Proof.
  intros H. unfold keys_of. rw elem_of_list_to_set list_elem_of_lookup.
  split; intros [i Hi]; exists i; by apply H.
Qed.

Lemma indexZero_wf : wf indexZero.
Proof. intros k i. simpl. by rw lookup_empty lookup_nil. Qed.

Lemma keys_of_zero : keys_of indexZero = ∅.
Proof. done. Qed.

Lemma size_keys_of ix : wf ix -> base.size (keys_of ix) = size ix.
Proof. intros H. apply size_list_to_set. by apply wf_NoDup. Qed.

Lemma add_wf ix k : wf ix -> wf (add ix k).
Proof.
  intros H. unfold add. destruct (ipos ix !! k) as [i|] eqn:Hk; [done|].
  intros k' i. simpl. destruct (decide (k = k')) as [<-|Hne].
  - rw lookup_insert_eq. split.
    + intros [= <-]. by rw lookup_app_r // Nat.sub_diag.
    + intros Hi. apply lookup_app_Some in Hi as [Hi|[Hge Hi]].
      { apply H in Hi. congruence. }
      apply list_lookup_singleton_Some in Hi as [? _]. f_equal. lia.
  - rw lookup_insert_ne // H lookup_app_Some. split; [by left|].
    intros [?|[_ Hi]]; [done|]. by apply list_lookup_singleton_Some in Hi as [_ ?].
Qed.

Lemma keys_of_add ix k : wf ix -> keys_of (add ix k) = {[k]} ∪ keys_of ix.
Proof.
  intros H. apply set_eq. intros k'.
  rw elem_of_union elem_of_singleton !elem_of_keys //; [|by apply add_wf].
  unfold add. destruct (ipos ix !! k) eqn:Hk; simpl.
  - split; [by right|]. intros [->|?]; [by eexists|done].
  - rw lookup_insert_is_Some. destruct (decide (k = k')); naive_solver.
Qed.

(** Removal never indexes out of range and deletes exactly [k]. *)
Lemma remove_spec ix k :
  wf ix ->
  exists ix', remove ix k = Some ix' /\ wf ix' /\ keys_of ix' = keys_of ix ∖ {[k]}.
Proof.
  intros H. unfold remove. destruct (ipos ix !! k) as [i|] eqn:Hk; cycle 1.
  { exists ix. split_and!; [done..|]. apply set_eq. intros k'.
    rw elem_of_difference elem_of_singleton. split; [|by intros []].
    intros Hin. split; [done|]. intros ->. apply elem_of_keys in Hin as [? ?]; [|done]. congruence. }
  pose proof (proj1 (H k i) Hk) as Hki. pose proof (lookup_lt_Some _ _ _ Hki) as Hlt.
  set (last := (length (ikeys ix) - 1)%nat).
  destruct (lookup_lt_is_Some_2 (ikeys ix) last) as [m Hm]; [lia|]. rw Hm /=.
  rewrite -> slice_set_insert by (unfold len; lia). rw Nat2Z.id /=.
  eexists. split; [done|]. set (ix' := mkIndex _ _).
  assert (Hwf : wf ix').
  { intros k' j. simpl. rw lookup_delete_Some lookup_insert_Some.
    destruct (decide (j < last)%nat) as [Hj|Hj]; cycle 1.
    { split; [|intros Hl; apply lookup_lt_Some in Hl; rw length_take in Hl; lia].
      intros (Hne & [[<- <-]|[Hnm Hp]]).
      - assert (i = last) by lia. subst i. congruence.
      - apply H in Hp. pose proof (lookup_lt_Some _ _ _ Hp). assert (j = last) by lia.
        congruence. }
    rewrite -> lookup_take_lt by done. destruct (decide (i = j)) as [<-|Hij].
    - rewrite -> list_lookup_insert_eq by done. split.
      + intros (Hne & [[<- _]|[_ Hp]]); [done|]. apply H in Hp. congruence.
      + intros [= <-]. split; [|by left]. intros <-. apply H in Hm. rw Hk in Hm.
        injection Hm. lia.
    - rewrite -> list_lookup_insert_ne by done. rw -H. split; [naive_solver|].
      intros Hp. split; [congruence|]. right. split; [|done]. intros <-.
      apply H in Hm. rw Hp in Hm. injection Hm. lia. }
  split; [done|]. apply set_eq. intros k'.
  rw elem_of_difference elem_of_singleton !elem_of_keys //. simpl.
  rw lookup_delete_is_Some lookup_insert_is_Some'. apply H in Hm. naive_solver.
Qed.

Lemma at_keys ix i : (i < size ix)%nat -> exists k, at_ ix i = Some k /\ k ∈ keys_of ix.
Proof.
  intros Hi. destruct (lookup_lt_is_Some_2 (ikeys ix) i Hi) as [k Hk]. exists k.
  split; [done|]. unfold keys_of. rw elem_of_list_to_set. by eapply list_elem_of_lookup_2.
Qed.

End KeyIndex.

#[export] Hint Resolve KeyIndex.indexZero_wf KeyIndex.add_wf : carrot.
