(* ===== verification/Store.v ===== *)
(** * The storage engine

    [internal/storage/storage.go], [memory.go] and the [Store] methods of
    [list.go]: sharded maps of typed objects with expiration, memory accounting,
    LRU sampling and list operations.  Definitions only; the invariant and the
    refinement of an abstract key-value database are in [StoreProof].

    A method below takes the shard lock for its whole body, so it is one
    atomic step from a [Store] to a [Store].  [None] is a runtime panic.  The
    successive [time.Now()] calls of a method are [clk 0], [clk 1], ...

    A list's backing array is shared between the copy of [Obj] a method works on
    and the one in the map; every method that mutates the copy stores it back (or
    removes the key) before it returns, so objects are plain values here. *)

From S2P Require Import Prelude GoTime ListValue KeyIndex.

(** ** Data *)
Inductive ValueKind := StringKind | ListKind.

#[global] Instance ValueKind_eq_dec : EqDecision ValueKind.
Proof. solve_decision. Defined.

Record Obj := mkObj {
  oValue : gostring;
  oExpiresAt : Z;
  oKind : ValueKind;
  oList : listValue;
  oLastAccess : Z;
}.

(** [Obj{Kind: k}]: every other field has its zero value. *)
Definition objOfKind (k : ValueKind) : Obj := mkObj [] GoTime.zeroTime k listZero 0.

Record SnapshotEntry := mkSnapshot {
  snKey : gostring;
  snValue : gostring;
  snExpiresAt : Z;
  snKind : ValueKind;
  snList : list gostring;
}.

Record shard := mkShard {
  sdata : gmap gostring Obj;
  sall : keyIndex;
  svolatile : keyIndex;
}.

Definition shardZero : shard := mkShard ∅ indexZero indexZero.

Record Store := mkStore {
  shards : list shard;
  usedBytes : Z;
  lastExpirationLog : Z;
  pendingExpired : Z;
}.

Inductive storeErr := ErrWrongType | ErrNoSuchKey | ErrListIndexRange | ErrInvalidRank.

#[global] Instance storeErr_eq_dec : EqDecision storeErr.
Proof. solve_decision. Defined.

Definition numShards : nat := 256.

(** A shard together with the store-wide byte counter it points to. *)
Abbreviation shardst := (shard * Z)%type.

Module Store.

(** ** Objects *)
Definition IsExpired (o : Obj) (now : Z) : bool :=
  negb (GoTime.IsZero (oExpiresAt o)) && negb (GoTime.Before now (oExpiresAt o)).

Definition memorySize (o : Obj) (key : gostring) : Z :=
  int64 (192 + (len key + len (oValue o)) + ListValue.memorySize (oList o)).

Definition with_access (o : Obj) (t : Z) : Obj :=
  mkObj (oValue o) (oExpiresAt o) (oKind o) (oList o) (GoTime.UnixNano t).
Definition with_list (o : Obj) (l : listValue) : Obj :=
  mkObj (oValue o) (oExpiresAt o) (oKind o) l (oLastAccess o).
Definition with_expiry (o : Obj) (t : Z) : Obj :=
  mkObj (oValue o) t (oKind o) (oList o) (oLastAccess o).

(** ** Shards *)
Definition put (stamp : Z) (key : gostring) (obj : Obj) (st : shardst) : shardst :=
  let (sh, used) := st in
  let obj := with_access obj stamp in
  let delta := memorySize obj key in
  let '(delta, all) :=
    match sdata sh !! key with
    | Some old => (int64 (delta - memorySize old key), sall sh)
    | None => (delta, KeyIndex.add (sall sh) key)
    end in
  (mkShard (<[key := obj]> (sdata sh)) all (svolatile sh), int64 (used + delta)).

Definition touch (key : gostring) (obj : Obj) (now : Z) (sh : shard) : Obj * shard :=
  let obj := with_access obj now in
  (obj, mkShard (<[key := obj]> (sdata sh)) (sall sh) (svolatile sh)).

Definition remove (key : gostring) (st : shardst) : option shardst :=
  let (sh, used) := st in
  '(sh, used) ←
    match sdata sh !! key with
    | Some old =>
        all ← KeyIndex.remove (sall sh) key;
        Some (mkShard (delete key (sdata sh)) all (svolatile sh),
              int64 (used + int64 (- memorySize old key)))
    | None => Some (sh, used)
    end;
  vol ← KeyIndex.remove (svolatile sh) key;
  Some (mkShard (sdata sh) (sall sh) vol, used).

Definition volatile_add (key : gostring) (st : shardst) : shardst :=
  (mkShard (sdata st.1) (sall st.1) (KeyIndex.add (svolatile st.1) key), st.2).

Definition volatile_remove (key : gostring) (st : shardst) : option shardst :=
  vol ← KeyIndex.remove (svolatile st.1) key;
  Some (mkShard (sdata st.1) (sall st.1) vol, st.2).

(** ** Sharding *)
Definition fnv32a (key : gostring) : Z :=
  fold_left (fun hash c => (Z.lxor hash (byte_val c) * 16777619) mod 2 ^ 32) key 2166136261.

Definition getShardIndex (key : gostring) : nat := Z.to_nat (fnv32a key mod Z.of_nat numShards).

Definition NewStore : Store := mkStore (replicate numShards shardZero) 0 GoTime.zeroTime 0.

(** [sh := s.getShard(key); sh.mu.Lock(); ...; sh.mu.Unlock()]: the body [f]
    runs on shard [i] and the shared counter. *)
Definition on_shard {A} (i : nat) (s : Store) (f : shardst -> option (A * shardst))
    : option (A * Store) :=
  sh ← shards s !! i;
  '(r, (sh', used')) ← f (sh, usedBytes s);
  Some (r, mkStore (<[i := sh']> (shards s)) used' (lastExpirationLog s) (pendingExpired s)).

Definition with_shard {A} (key : gostring) (s : Store) (f : shardst -> option (A * shardst))
    : option (A * Store) := on_shard (getShardIndex key) s f.

(** ** Strings and expiration (storage.go) *)
Definition Set_ (clk : clock) (key value : gostring) (ttl : Z) (s : Store) : option (unit * Store) :=
  with_shard key s (fun st =>
    let expiresAt := if 0 <? ttl then GoTime.Add (clk 0%nat) ttl else GoTime.zeroTime in
    let st := put (clk 1%nat) key (mkObj value expiresAt StringKind listZero 0) st in
    st ← (if GoTime.IsZero expiresAt then volatile_remove key st else Some (volatile_add key st));
    Some (tt, st)).

Definition SetAt (clk : clock) (key value : gostring) (expiresAt : Z) (s : Store)
    : option (unit * Store) :=
  with_shard key s (fun st =>
    if negb (GoTime.Before (clk 0%nat) expiresAt) then
      st ← remove key st; Some (tt, st)
    else
      let st := put (clk 1%nat) key (mkObj value expiresAt StringKind listZero 0) st in
      Some (tt, volatile_add key st)).

(** [liveObjectLocked]: lazy expiration and LRU touch. *)
Definition liveObjectLocked (now : Z) (key : gostring) (st : shardst)
    : option (option Obj * shardst) :=
  match sdata st.1 !! key with
  | None => Some (None, st)
  | Some obj =>
      if IsExpired obj now then
        st ← remove key st; Some (None, st)
      else
        let '(obj, sh) := touch key obj now st.1 in
        Some (Some obj, (sh, st.2))
  end.

(** [(value, true, nil)] is [inr (Some value)], [("", false, nil)] is [inr None]. *)
Definition GetString (clk : clock) (key : gostring) (s : Store)
    : option ((storeErr + option gostring) * Store) :=
  with_shard key s (fun st =>
    '(o, st) ← liveObjectLocked (clk 0%nat) key st;
    match o with
    | None => Some (inr None, st)
    | Some obj =>
        match oKind obj with
        | StringKind => Some (inr (Some (oValue obj)), st)
        | ListKind => Some (inl ErrWrongType, st)
        end
    end).

Definition Get (clk : clock) (key : gostring) (s : Store) : option (option gostring * Store) :=
  '(r, s) ← GetString clk key s;
  Some (match r with inr v => v | inl _ => None end, s).

Definition TTL (clk : clock) (key : gostring) (s : Store) : option (Z * Store) :=
  with_shard key s (fun st =>
    match sdata st.1 !! key with
    | None => Some (-2, st)
    | Some obj =>
        let now := clk 0%nat in
        if IsExpired obj now then
          st ← remove key st; Some (-2, st)
        else if GoTime.IsZero (oExpiresAt obj) then Some (-1, st)
        else
          let remaining := GoTime.Sub (oExpiresAt obj) now in
          if GoTime.secondsNegative remaining then
            st ← remove key st; Some (-2, st)
          else Some (GoTime.truncSeconds remaining, st)
    end).

Definition Del (clk : clock) (key : gostring) (s : Store) : option (bool * Store) :=
  with_shard key s (fun st =>
    match sdata st.1 !! key with
    | None => Some (false, st)
    | Some obj =>
        if IsExpired obj (clk 0%nat) then
          st ← remove key st; Some (false, st)
        else
          st ← remove key st; Some (true, st)
    end).

Definition ExpireAt (clk : clock) (key : gostring) (expiresAt : Z) (s : Store)
    : option (bool * Store) :=
  with_shard key s (fun st =>
    match sdata st.1 !! key with
    | None => Some (false, st)
    | Some obj =>
        let now := clk 0%nat in
        if IsExpired obj now then
          st ← remove key st; Some (false, st)
        else if negb (GoTime.Before now expiresAt) then
          st ← remove key st; Some (true, st)
        else
          let st := put (clk 1%nat) key (with_expiry obj expiresAt) st in
          Some (true, volatile_add key st)
    end).

Definition Expire (clk : clock) (key : gostring) (seconds : Z) (s : Store) : option (bool * Store) :=
  let deadline := clk 0%nat in
  let deadline :=
    if 0 <? seconds then GoTime.Add deadline (int64 (seconds * GoTime.Second)) else deadline in
  ExpireAt (skip 1 clk) key deadline s.

End Store.
