(* ===== verification/StoreList.v ===== *)
(** * List operations of the store

    [internal/storage/list.go], lines 185 to 549: the [List*] methods of [Store].
    [(x, nil)] is [inr x] and [(_, err)] is [inl err].  Loops over a list are
    structural on the number of remaining turns, except the forward scan of
    [ListRem], whose index does not advance on a removal: it has fuel for one turn
    per element plus one, and [None] when it runs out (shown not to happen). *)

From S2P Require Import Prelude GoTime ListValue KeyIndex Store.

Module StoreList.
Import Store.

Fixpoint push_all (l : listValue) (values : list gostring) (left : bool) : option listValue :=
  match values with
  | [] => Some l
  | v :: vs => l ← ListValue.push l v left; push_all l vs left
  end.

Definition ListPush (clk : clock) (key : gostring) (values : list gostring)
    (left onlyExisting : bool) (s : Store) : option ((storeErr + Z) * Store) :=
  with_shard key s (fun st =>
    '(o, st) ← liveObjectLocked (clk 0%nat) key st;
    match o, onlyExisting with
    | None, true => Some (inr 0, st)
    | _, _ =>
        let obj := default (objOfKind ListKind) o in
        match oKind obj with
        | StringKind => Some (inl ErrWrongType, st)
        | ListKind =>
            l ← push_all (oList obj) values left;
            Some (inr (ListValue.Len l), put (clk 1%nat) key (with_list obj l) st)
        end
    end).

Fixpoint pop_loop (l : listValue) (n : nat) (left : bool) : option (list gostring * listValue) :=
  match n with
  | O => Some ([], l)
  | S n' =>
      '((value, _), l) ← ListValue.pop l left;
      '(values, l) ← pop_loop l n' left;
      Some (value :: values, l)
  end.

(** The tail shared by [ListPop] and [ListRem]: an emptied list removes its key. *)
Definition store_back (stamp : Z) (key : gostring) (obj : Obj) (l : listValue) (st : shardst)
    : option shardst :=
  if ListValue.Len l =? 0 then remove key st
  else Some (put stamp key (with_list obj l) st).

(** [make([]string, 0, n)] panics when [n] is negative. *)
Definition ListPop (clk : clock) (key : gostring) (left : bool) (count : Z) (s : Store)
    : option ((storeErr + option (list gostring)) * Store) :=
  with_shard key s (fun st =>
    '(o, st) ← liveObjectLocked (clk 0%nat) key st;
    match o with
    | None => Some (inr None, st)
    | Some obj =>
        match oKind obj with
        | StringKind => Some (inl ErrWrongType, st)
        | ListKind =>
            let n := if ListValue.Len (oList obj) <? count
                     then ListValue.Len (oList obj) else count in
            if n <? 0 then None
            else
              '(values, l) ← pop_loop (oList obj) (Z.to_nat n) left;
              st ← store_back (clk 1%nat) key obj l st;
              Some (inr (Some values), st)
        end
    end).

Definition ListLen (clk : clock) (key : gostring) (s : Store) : option ((storeErr + Z) * Store) :=
  with_shard key s (fun st =>
    '(o, st) ← liveObjectLocked (clk 0%nat) key st;
    match o with
    | None => Some (inr 0, st)
    | Some obj =>
        match oKind obj with
        | StringKind => Some (inl ErrWrongType, st)
        | ListKind => Some (inr (ListValue.Len (oList obj)), st)
        end
    end).

(** The clamping of [start] and [stop], the same lines in [ListRange] and [ListTrim]. *)
Definition clamp_range (start stop length : Z) : Z * Z :=
  let start := if start <? 0 then start + length else start in
  let stop := if stop <? 0 then stop + length else stop in
  let start := if start <? 0 then 0 else start in
  let stop := if length <=? stop then length - 1 else stop in
  (start, stop).

Definition ListRange (clk : clock) (key : gostring) (start stop : Z) (s : Store)
    : option ((storeErr + list gostring) * Store) :=
  with_shard key s (fun st =>
    '(o, st) ← liveObjectLocked (clk 0%nat) key st;
    match o with
    | None => Some (inr [], st)
    | Some obj =>
        match oKind obj with
        | StringKind => Some (inl ErrWrongType, st)
        | ListKind =>
            let length := ListValue.Len (oList obj) in
            let '(start, stop) := clamp_range start stop length in
            if (length <=? start) || (stop <? start) || (length =? 0) then Some (inr [], st)
            else
              items ← ListValue.rangeCopy (oList obj) start (stop + 1);
              Some (inr items, st)
        end
    end).

Definition ListIndex (clk : clock) (key : gostring) (index : Z) (s : Store)
    : option ((storeErr + option gostring) * Store) :=
  with_shard key s (fun st =>
    '(o, st) ← liveObjectLocked (clk 0%nat) key st;
    match o with
    | None => Some (inr None, st)
    | Some obj =>
        match oKind obj with
        | StringKind => Some (inl ErrWrongType, st)
        | ListKind =>
            match ListValue.index (oList obj) index with
            | None => Some (inr None, st)
            | Some i => v ← ListValue.at_ (oList obj) i; Some (inr (Some v), st)
            end
        end
    end).

(** [None] as a result stands for a nil error. *)
Definition ListSet (clk : clock) (key : gostring) (index : Z) (value : gostring) (s : Store)
    : option (option storeErr * Store) :=
  with_shard key s (fun st =>
    '(o, st) ← liveObjectLocked (clk 0%nat) key st;
    match o with
    | None => Some (Some ErrNoSuchKey, st)
    | Some obj =>
        match oKind obj with
        | StringKind => Some (Some ErrWrongType, st)
        | ListKind =>
            match ListValue.index (oList obj) index with
            | None => Some (Some ErrListIndexRange, st)
            | Some i =>
                l ← ListValue.assign (oList obj) i value;
                Some (None, put (clk 1%nat) key (with_list obj l) st)
            end
        end
    end).

Definition ListTrim (clk : clock) (key : gostring) (start stop : Z) (s : Store)
    : option (option storeErr * Store) :=
  with_shard key s (fun st =>
    '(o, st) ← liveObjectLocked (clk 0%nat) key st;
    match o with
    | None => Some (None, st)
    | Some obj =>
        match oKind obj with
        | StringKind => Some (Some ErrWrongType, st)
        | ListKind =>
            let length := ListValue.Len (oList obj) in
            let '(start, stop) := clamp_range start stop length in
            if (length =? 0) || (length <=? start) || (stop <? start) then
              st ← remove key st; Some (None, st)
            else
              items ← ListValue.rangeCopy (oList obj) start (stop + 1);
              Some (None, put (clk 1%nat) key (with_list obj (ListValue.replace items)) st)
        end
    end).

Fixpoint rem_forward (fuel : nat) (l : listValue) (i removed count limit : Z) (value : gostring)
    : option (Z * listValue) :=
  match fuel with
  | O => None
  | S fuel' =>
      if i <? ListValue.Len l then
        v ← ListValue.at_ l i;
        if bool_decide (v = value) && ((count =? 0) || (removed <? limit)) then
          l ← ListValue.removeAt l i;
          rem_forward fuel' l i (removed + 1) count limit value
        else rem_forward fuel' l (i + 1) removed count limit value
      else Some (removed, l)
  end.

(** [for i := n-1; i >= 0; i--]. *)
Fixpoint rem_backward (n : nat) (l : listValue) (removed limit : Z) (value : gostring)
    : option (Z * listValue) :=
  match n with
  | O => Some (removed, l)
  | S i =>
      v ← ListValue.at_ l (Z.of_nat i);
      if bool_decide (v = value) && (removed <? limit) then
        l ← ListValue.removeAt l (Z.of_nat i);
        rem_backward i l (removed + 1) limit value
      else rem_backward i l removed limit value
  end.

Definition ListRem (clk : clock) (key : gostring) (count : Z) (value : gostring) (s : Store)
    : option ((storeErr + Z) * Store) :=
  with_shard key s (fun st =>
    '(o, st) ← liveObjectLocked (clk 0%nat) key st;
    match o with
    | None => Some (inr 0, st)
    | Some obj =>
        match oKind obj with
        | StringKind => Some (inl ErrWrongType, st)
        | ListKind =>
            let limit :=
              if count <? 0 then (if count =? min_int64 then max_int64 else - count)
              else count in
            let n := Z.to_nat (ListValue.Len (oList obj)) in
            '(removed, l) ←
              (if 0 <=? count then rem_forward (S n) (oList obj) 0 0 count limit value
               else rem_backward n (oList obj) 0 limit value);
            st ← store_back (clk 1%nat) key obj l st;
            Some (inr removed, st)
        end
    end).

(** The scan of [ListInsert] for the first pivot; the outer option is a panic. *)
Fixpoint find_pivot (l : listValue) (n : nat) (i : Z) (pivot : gostring) : option (option Z) :=
  match n with
  | O => Some None
  | S n' =>
      item ← ListValue.at_ l i;
      if bool_decide (item = pivot) then Some (Some i) else find_pivot l n' (i + 1) pivot
  end.

Definition ListInsert (clk : clock) (key pivot value : gostring) (before : bool) (s : Store)
    : option ((storeErr + Z) * Store) :=
  with_shard key s (fun st =>
    '(o, st) ← liveObjectLocked (clk 0%nat) key st;
    match o with
    | None => Some (inr 0, st)
    | Some obj =>
        match oKind obj with
        | StringKind => Some (inl ErrWrongType, st)
        | ListKind =>
            p ← find_pivot (oList obj) (Z.to_nat (ListValue.Len (oList obj))) 0 pivot;
            match p with
            | None => Some (inr (-1), st)
            | Some i =>
                let insertAt := if before then i else i + 1 in
                l ← ListValue.insert (oList obj) insertAt value;
                Some (inr (ListValue.Len l), put (clk 1%nat) key (with_list obj l) st)
            end
        end
    end).

(** The scan of [ListPosition]; [n] turns remain before [index] reaches [end]. *)
Fixpoint position_loop (l : listValue) (n : nat) (value : gostring)
    (index step rank count maxLen seen examined : Z) (positions : list Z) : option (list Z) :=
  match n with
  | O => Some positions
  | S n' =>
      if (0 <? maxLen) && (maxLen <=? examined) then Some positions
      else
        v ← ListValue.at_ l index;
        let examined := examined + 1 in
        if negb (bool_decide (v = value)) then
          position_loop l n' value (index + step) step rank count maxLen seen examined positions
        else
          let seen := seen + 1 in
          if seen <? rank then
            position_loop l n' value (index + step) step rank count maxLen seen examined positions
          else
            let positions := positions ++ [index] in
            if (0 <? count) && (count <=? len positions) then Some positions
            else
              position_loop l n' value (index + step) step rank count maxLen seen examined positions
  end.

Definition ListPosition (clk : clock) (key value : gostring) (rank count maxLen : Z) (s : Store)
    : option ((storeErr + list Z) * Store) :=
  with_shard key s (fun st =>
    if rank =? min_int64 then Some (inl ErrInvalidRank, st)
    else
      '(o, st) ← liveObjectLocked (clk 0%nat) key st;
      match o with
      | None => Some (inr [], st)
      | Some obj =>
          match oKind obj with
          | StringKind => Some (inl ErrWrongType, st)
          | ListKind =>
              let length := ListValue.Len (oList obj) in
              let '(start, step, rank) :=
                if rank <? 0 then (length - 1, -1, - rank) else (0, 1, rank) in
              ps ← position_loop (oList obj) (Z.to_nat length) value start step rank count maxLen
                     0 0 [];
              Some (inr ps, st)
          end
      end).

(** ** [ListMove] *)

(** The two shards and the byte counter [listMoveLocked] works on; the source
    and destination shards are one and the same when the keys share an index. *)
Definition on_key {A} (key : gostring) (f : shardst -> option (A * shardst)) (s : Store)
    : option (A * Store) := with_shard key s f.

Definition put_at (stamp : Z) (key : gostring) (obj : Obj) (s : Store) : option Store :=
  '(_, s) ← on_key key (fun st => Some (tt, put stamp key obj st)) s; Some s.

Definition remove_at (key : gostring) (s : Store) : option Store :=
  '(_, s) ← on_key key (fun st => st ← remove key st; Some (tt, st)) s; Some s.

Definition listMoveLocked (clk : clock) (src dst : gostring) (fromLeft toLeft : bool) (s : Store)
    : option ((storeErr + option gostring) * Store) :=
  '(source, s) ← on_key src (liveObjectLocked (clk 0%nat) src) s;
  match source with
  | None => Some (inr None, s)
  | Some source =>
      match oKind source with
      | StringKind => Some (inl ErrWrongType, s)
      | ListKind =>
          if bool_decide (src = dst) then
            '((value, _), l) ← ListValue.pop (oList source) fromLeft;
            l ← ListValue.push l value toLeft;
            s ← put_at (clk 2%nat) src (with_list source l) s;
            Some (inr (Some value), s)
          else
            '(destination, s) ← on_key dst (liveObjectLocked (clk 1%nat) dst) s;
            match destination with
            | Some (mkObj _ _ StringKind _ _) => Some (inl ErrWrongType, s)
            | _ =>
                '((value, _), sl) ← ListValue.pop (oList source) fromLeft;
                let destination := default (objOfKind ListKind) destination in
                dl ← ListValue.push (oList destination) value toLeft;
                s ← (if ListValue.Len sl =? 0 then remove_at src s
                     else put_at (clk 2%nat) src (with_list source sl) s);
                s ← put_at (clk 3%nat) dst (with_list destination dl) s;
                Some (inr (Some value), s)
            end
      end
  end.

(** The locks of both shards are held throughout, in index order. *)
Definition ListMove := listMoveLocked.

End StoreList.
