(* ===== verification/StoreSpec.v ===== *)
(** * What the storage engine promises

    An abstract key-value database: a finite map from keys to entries, an entry
    being a string or a list of strings with an expiration deadline.  No shards,
    indexes, ring buffers, byte counters or access times.  Each operation of the
    engine is specified here as a function of the entries it touches; [StoreOps]
    is the interface the command layer is written against, with [DB_ops] its
    abstract implementation.  [StoreProof] shows that the engine refines it. *)

From S2P Require Import Prelude GoTime ListValue Store.

(** ** Entries *)
Inductive sval := VString (v : gostring) | VList (l : list gostring).
Record entry := mkEntry { eVal : sval; eExp : Z }.
Abbreviation DB := (gmap gostring entry).

(** ** The interface *)
Class StoreOps (S : Type) := {
  op_Set : clock -> gostring -> gostring -> Z -> S -> option (unit * S);
  op_SetAt : clock -> gostring -> gostring -> Z -> S -> option (unit * S);
  op_GetString : clock -> gostring -> S -> option ((storeErr + option gostring) * S);
  op_TTL : clock -> gostring -> S -> option (Z * S);
  op_Del : clock -> gostring -> S -> option (bool * S);
  op_Expire : clock -> gostring -> Z -> S -> option (bool * S);
  op_ExpireAt : clock -> gostring -> Z -> S -> option (bool * S);
  op_ListPush : clock -> gostring -> list gostring -> bool -> bool -> S ->
                option ((storeErr + Z) * S);
  op_ListPop : clock -> gostring -> bool -> Z -> S ->
               option ((storeErr + option (list gostring)) * S);
  op_ListLen : clock -> gostring -> S -> option ((storeErr + Z) * S);
  op_ListRange : clock -> gostring -> Z -> Z -> S -> option ((storeErr + list gostring) * S);
  op_ListIndex : clock -> gostring -> Z -> S -> option ((storeErr + option gostring) * S);
  op_ListSet : clock -> gostring -> Z -> gostring -> S -> option (option storeErr * S);
  op_ListTrim : clock -> gostring -> Z -> Z -> S -> option (option storeErr * S);
  op_ListRem : clock -> gostring -> Z -> gostring -> S -> option ((storeErr + Z) * S);
  op_ListInsert : clock -> gostring -> gostring -> gostring -> bool -> S ->
                  option ((storeErr + Z) * S);
  op_ListPosition : clock -> gostring -> gostring -> Z -> Z -> Z -> S ->
                    option ((storeErr + list Z) * S);
  op_ListMove : clock -> gostring -> gostring -> bool -> bool -> S ->
                option ((storeErr + option gostring) * S);
}.

Module StoreSpec.

Definition expired (now : Z) (e : entry) : bool :=
  negb (GoTime.IsZero (eExp e)) && negb (GoTime.Before now (eExp e)).

(** The entry a reader sees at [now]. *)
Definition live (now : Z) (e : option entry) : option entry :=
  match e with Some e => if expired now e then None else Some e | None => None end.

(** An operation on one key: from the entry before to the answer and the entry after. *)
Definition entry_op (A : Type) := option entry -> A * option entry.

Definition on_entry {A} (key : gostring) (g : entry_op A) (db : DB) : option (A * DB) :=
  let '(r, e) := g (db !! key) in Some (r, partial_alter (fun _ => e) key db).

(** ** Lists *)
Definition list_entry (l : list gostring) (exp : Z) : option entry :=
  match l with [] => None | _ => Some (mkEntry (VList l) exp) end.

(** An operation on the live list at a key; a list left empty removes the key. *)
Definition list_op {A} (now : Z) (missing wrong : A) (f : list gostring -> A * list gostring)
    : entry_op A := fun e =>
  match live now e with
  | None => (missing, None)
  | Some (mkEntry (VString v) exp) => (wrong, Some (mkEntry (VString v) exp))
  | Some (mkEntry (VList l) exp) => let '(r, l') := f l in (r, list_entry l' exp)
  end.

Definition push_list (left : bool) (values l : list gostring) : list gostring :=
  if left then reverse values ++ l else l ++ values.

Definition pop_list (left : bool) (n : nat) (l : list gostring) : list gostring * list gostring :=
  if left then (take n l, drop n l)
  else (reverse (drop (length l - n) l), take (length l - n) l).

(** Python-style index of a list of length [n]. *)
Definition norm_index (n i : Z) : option Z :=
  let j := if i <? 0 then i + n else i in
  if decide (0 <= j < n) then Some j else None.

(** The inclusive range [start .. stop], negative positions counting from the end. *)
Definition range_list (start stop : Z) (l : list gostring) : list gostring :=
  let start := Z.max 0 (if start <? 0 then start + len l else start) in
  let stop := Z.min (len l - 1) (if stop <? 0 then stop + len l else stop) in
  if stop <? start then []
  else take (Z.to_nat (stop + 1 - start)) (drop (Z.to_nat start) l).

(** [l] without its first [n] occurrences of [v]. *)
Fixpoint remove_first (n : nat) (v : gostring) (l : list gostring) : list gostring :=
  match l with
  | [] => []
  | x :: l' =>
      match n with
      | O => l
      | S n' => if bool_decide (x = v) then remove_first n' v l' else x :: remove_first n v l'
      end
  end.

Definition rem_list (count : Z) (v : gostring) (l : list gostring) : list gostring :=
  let limit := if count =? min_int64 then max_int64 else Z.abs count in
  let n := Z.to_nat (Z.min limit (len l)) in
  if count =? 0 then remove_first (length l) v l
  else if 0 <? count then remove_first n v l
  else reverse (remove_first n v (reverse l)).

Fixpoint index_of (v : gostring) (l : list gostring) : option nat :=
  match l with
  | [] => None
  | x :: l' => if bool_decide (x = v) then Some O else S <$> index_of v l'
  end.

Definition insert_list (before : bool) (pivot v : gostring) (l : list gostring)
    : (storeErr + Z) * list gostring :=
  match index_of pivot l with
  | None => (inr (-1), l)
  | Some i =>
      let i := if before then i else S i in
      (inr (len l + 1), ListValue.insert_at i v l)
  end.

(** Positions of [v], scanning at most [maxLen] elements from one end (all of
    them when [maxLen] is 0), skipping [rank - 1] matches, keeping [count] (all
    when [count] is 0). *)
Definition position_list (v : gostring) (rank count maxLen : Z) (l : list gostring) : list Z :=
  let idx := seq 0 (length l) in
  let idx := if rank <? 0 then reverse idx else idx in
  let idx := if 0 <? maxLen then take (Z.to_nat (Z.min maxLen (len l))) idx else idx in
  let hits := filter (fun j => l !! j = Some v) idx in
  let hits := drop (Z.to_nat (Z.min (Z.abs rank - 1) (len l))) hits in
  Z.of_nat <$> (if 0 <? count then take (Z.to_nat (Z.min count (len l))) hits else hits).

(** ** Operations on one entry *)
Definition spec_Set (now : Z) (value : gostring) (ttl : Z) : entry_op unit := fun _ =>
  (tt, Some (mkEntry (VString value) (if 0 <? ttl then GoTime.Add now ttl else GoTime.zeroTime))).

Definition spec_SetAt (now : Z) (value : gostring) (exp : Z) : entry_op unit := fun _ =>
  (tt, if GoTime.Before now exp then Some (mkEntry (VString value) exp) else None).

Definition spec_GetString (now : Z) : entry_op (storeErr + option gostring) := fun e =>
  match live now e with
  | None => (inr None, None)
  | Some (mkEntry (VString v) exp) => (inr (Some v), Some (mkEntry (VString v) exp))
  | Some (mkEntry (VList l) exp) => (inl ErrWrongType, Some (mkEntry (VList l) exp))
  end.

Definition spec_TTL (now : Z) : entry_op Z := fun e =>
  match live now e with
  | None => (-2, None)
  | Some e =>
      (if GoTime.IsZero (eExp e) then -1 else GoTime.truncSeconds (GoTime.Sub (eExp e) now), Some e)
  end.

Definition spec_Del (now : Z) : entry_op bool := fun e =>
  (match live now e with Some _ => true | None => false end, None).

Definition spec_ExpireAt (now exp : Z) : entry_op bool := fun e =>
  match live now e with
  | None => (false, None)
  | Some e => (true, if GoTime.Before now exp then Some (mkEntry (eVal e) exp) else None)
  end.

Definition expire_deadline (now seconds : Z) : Z :=
  if 0 <? seconds then GoTime.Add now (int64 (seconds * GoTime.Second)) else now.

Definition spec_ListPush (now : Z) (values : list gostring) (left onlyExisting : bool)
    : entry_op (storeErr + Z) := fun e =>
  match live now e with
  | None =>
      if onlyExisting then (inr 0, None)
      else let l := push_list left values [] in (inr (len l), list_entry l GoTime.zeroTime)
  | Some (mkEntry (VString v) exp) => (inl ErrWrongType, Some (mkEntry (VString v) exp))
  | Some (mkEntry (VList l) exp) =>
      let l' := push_list left values l in (inr (len l'), list_entry l' exp)
  end.

Definition spec_ListPop (now : Z) (left : bool) (count : Z)
    : entry_op (storeErr + option (list gostring)) :=
  list_op now (inr None) (inl ErrWrongType) (fun l =>
    let '(vs, l') := pop_list left (Z.to_nat (Z.min count (len l))) l in (inr (Some vs), l')).

Definition spec_ListLen (now : Z) : entry_op (storeErr + Z) :=
  list_op now (inr 0) (inl ErrWrongType) (fun l => (inr (len l), l)).

Definition spec_ListRange (now start stop : Z) : entry_op (storeErr + list gostring) :=
  list_op now (inr []) (inl ErrWrongType) (fun l => (inr (range_list start stop l), l)).

Definition spec_ListIndex (now i : Z) : entry_op (storeErr + option gostring) :=
  list_op now (inr None) (inl ErrWrongType) (fun l =>
    (inr (j ← norm_index (len l) i; l !! Z.to_nat j), l)).

Definition spec_ListSet (now i : Z) (v : gostring) : entry_op (option storeErr) :=
  list_op now (Some ErrNoSuchKey) (Some ErrWrongType) (fun l =>
    match norm_index (len l) i with
    | None => (Some ErrListIndexRange, l)
    | Some j => (None, <[Z.to_nat j := v]> l)
    end).

Definition spec_ListTrim (now start stop : Z) : entry_op (option storeErr) :=
  list_op now None (Some ErrWrongType) (fun l => (None, range_list start stop l)).

Definition spec_ListRem (now count : Z) (v : gostring) : entry_op (storeErr + Z) :=
  list_op now (inr 0) (inl ErrWrongType) (fun l =>
    let l' := rem_list count v l in (inr (len l - len l'), l')).

Definition spec_ListInsert (now : Z) (pivot v : gostring) (before : bool)
    : entry_op (storeErr + Z) :=
  list_op now (inr 0) (inl ErrWrongType) (insert_list before pivot v).

Definition spec_ListPosition (now : Z) (v : gostring) (rank count maxLen : Z)
    : entry_op (storeErr + list Z) := fun e =>
  if rank =? min_int64 then (inl ErrInvalidRank, e)
  else list_op now (inr []) (inl ErrWrongType) (fun l =>
         (inr (position_list v rank count maxLen l), l)) e.

(** ** Moving between two keys *)
Definition clean (now : Z) (key : gostring) (db : DB) : DB :=
  partial_alter (fun _ => live now (db !! key)) key db.

Definition spec_ListMove (now now' : Z) (src dst : gostring) (fromLeft toLeft : bool) (db : DB)
    : option ((storeErr + option gostring) * DB) :=
  let db := clean now src db in
  match db !! src with
  | None => Some (inr None, db)
  | Some (mkEntry (VString _) _) => Some (inl ErrWrongType, db)
  | Some (mkEntry (VList l) exp) =>
      let '(vs, l') := pop_list fromLeft 1 l in
      let v := default [] (head vs) in
      if bool_decide (src = dst) then
        Some (inr (Some v), <[src := mkEntry (VList (push_list toLeft [v] l')) exp]> db)
      else
        let db := clean now' dst db in
        match db !! dst with
        | Some (mkEntry (VString _) _) => Some (inl ErrWrongType, db)
        | d =>
            let '(dl, dexp) :=
              match d with
              | Some (mkEntry (VList dl) dexp) => (dl, dexp)
              | _ => ([], GoTime.zeroTime)
              end in
            let db := partial_alter (fun _ => list_entry l' exp) src db in
            Some (inr (Some v), <[dst := mkEntry (VList (push_list toLeft [v] dl)) dexp]> db)
        end
  end.

End StoreSpec.
Import StoreSpec.

#[export] Instance DB_ops : StoreOps DB := {|
  op_Set clk key v ttl := on_entry key (spec_Set (clk 0%nat) v ttl);
  op_SetAt clk key v exp := on_entry key (spec_SetAt (clk 0%nat) v exp);
  op_GetString clk key := on_entry key (spec_GetString (clk 0%nat));
  op_TTL clk key := on_entry key (spec_TTL (clk 0%nat));
  op_Del clk key := on_entry key (spec_Del (clk 0%nat));
  op_Expire clk key seconds :=
    on_entry key (spec_ExpireAt (clk 1%nat) (expire_deadline (clk 0%nat) seconds));
  op_ExpireAt clk key exp := on_entry key (spec_ExpireAt (clk 0%nat) exp);
  op_ListPush clk key vs left only := on_entry key (spec_ListPush (clk 0%nat) vs left only);
  op_ListPop clk key left count := on_entry key (spec_ListPop (clk 0%nat) left count);
  op_ListLen clk key := on_entry key (spec_ListLen (clk 0%nat));
  op_ListRange clk key start stop := on_entry key (spec_ListRange (clk 0%nat) start stop);
  op_ListIndex clk key i := on_entry key (spec_ListIndex (clk 0%nat) i);
  op_ListSet clk key i v := on_entry key (spec_ListSet (clk 0%nat) i v);
  op_ListTrim clk key start stop := on_entry key (spec_ListTrim (clk 0%nat) start stop);
  op_ListRem clk key count v := on_entry key (spec_ListRem (clk 0%nat) count v);
  op_ListInsert clk key pivot v before := on_entry key (spec_ListInsert (clk 0%nat) pivot v before);
  op_ListPosition clk key v rank count maxLen :=
    on_entry key (spec_ListPosition (clk 0%nat) v rank count maxLen);
  op_ListMove clk src dst fromLeft toLeft :=
    spec_ListMove (clk 0%nat) (clk 1%nat) src dst fromLeft toLeft;
|}.
