(* ===== verification/StoreProof.v ===== *)
(** * The storage engine refines the abstract database

    The engine's invariant [wf] (indexes, shard placement, list buffers, byte
    counter), the abstraction [abs] to a [StoreSpec.DB], and, for every
    operation, that it does not panic, keeps [wf] and acts on [abs] as its
    specification. *)

From S2P Require Import Prelude GoTime ListValue KeyIndex Store StoreList StoreSpec.
Import StoreSpec.

Module StoreProof.
Import Store.

(** ** Abstraction *)
Definition obj_entry (o : Obj) : entry :=
  mkEntry (match oKind o with
           | StringKind => VString (oValue o)
           | ListKind => VList (ListValue.contents (oList o))
           end) (oExpiresAt o).

Definition shard_abs (sh : shard) : DB := obj_entry <$> sdata sh.

Definition abs (s : Store) : DB := ⋃ (shard_abs <$> shards s).

(** ** Invariant *)
Definition obj_wf (o : Obj) : Prop :=
  match oKind o with
  | StringKind => oList o = listZero
  | ListKind => oValue o = [] /\ ListValue.wf (oList o) /\ 0 < lsize (oList o)
  end.

Record shard_wf (i : nat) (sh : shard) : Prop := {
  sw_all : KeyIndex.wf (sall sh);
  sw_vol : KeyIndex.wf (svolatile sh);
  sw_all_dom : KeyIndex.keys_of (sall sh) = dom (sdata sh);
  sw_vol_dom : KeyIndex.keys_of (svolatile sh) ⊆ dom (sdata sh);
  sw_vol_complete : forall k o, sdata sh !! k = Some o ->
    GoTime.IsZero (oExpiresAt o) = false -> k ∈ KeyIndex.keys_of (svolatile sh);
  sw_home : forall k, k ∈ dom (sdata sh) -> getShardIndex k = i;
  sw_objs : map_Forall (fun _ => obj_wf) (sdata sh);
}.

Definition map_bytes (m : gmap gostring Obj) : Z :=
  map_fold (fun k o n => memorySize o k + n) 0 m.

Definition shard_bytes (sh : shard) : Z := map_bytes (sdata sh).

Definition total_bytes (l : list shard) : Z := foldr (fun sh n => shard_bytes sh + n) 0 l.

Record wf (s : Store) : Prop := {
  wf_length : length (shards s) = numShards;
  wf_shards : forall i sh, shards s !! i = Some sh -> shard_wf i sh;
  wf_used : usedBytes s = int64 (total_bytes (shards s));
}.

(** ** Byte accounting *)
Lemma map_bytes_insert m k o :
  map_bytes (<[k := o]> m) =
    map_bytes m + memorySize o k - (match m !! k with Some old => memorySize old k | None => 0 end).
Proof.
  unfold map_bytes. destruct (m !! k) as [old|] eqn:Hk.
  - rewrite <- insert_delete_eq. rewrite -> (map_fold_insert_L _ _ k o (delete k m))
      by (intros; lia || by rw lookup_delete_eq).
    rewrite -> (map_fold_delete_L _ _ k old m) by (intros; lia || done). lia.
  - rewrite -> map_fold_insert_L by (intros; lia || done). lia.
Qed.

Lemma map_bytes_delete m k old :
  m !! k = Some old -> map_bytes (delete k m) = map_bytes m - memorySize old k.
Proof.
  intros Hk. unfold map_bytes.
  rewrite -> (map_fold_delete_L _ _ k old m) by (intros; lia || done). lia.
Qed.

Lemma total_bytes_insert l i sh sh' :
  l !! i = Some sh ->
  total_bytes (<[i := sh']> l) = total_bytes l + shard_bytes sh' - shard_bytes sh.
Proof.
  revert i. induction l as [|x l IH]; intros [|i] H; simplify_eq/=; [lia|].
  rewrite -> IH by done. lia.
Qed.

Lemma memorySize_access o t k : memorySize (with_access o t) k = memorySize o k.
Proof. done. Qed.

(** ** Effects on one key of a shard *)

(** [eff i key st st' e]: from [st] to [st'] only [key] changed, to entry [e],
    the shard stays well formed and the byte counter follows the contents. *)
Record eff (i : nat) (key : gostring) (st st' : shardst) (e : option entry) : Prop := {
  eff_wf : shard_wf i st'.1;
  eff_used : forall t, st.2 = int64 t -> st'.2 = int64 (t + shard_bytes st'.1 - shard_bytes st.1);
  eff_key : shard_abs st'.1 !! key = e;
  eff_frame : forall k, k <> key -> shard_abs st'.1 !! k = shard_abs st.1 !! k;
}.

Lemma eff_trans i key st st1 st2 e1 e2 :
  eff i key st st1 e1 -> eff i key st1 st2 e2 -> eff i key st st2 e2.
Proof.
  intros [W1 U1 K1 F1] [W2 U2 K2 F2]. constructor; [done| |done|].
  - intros t Ht. rewrite -> (U2 _ (U1 t Ht)). f_equal. lia.
  - intros k Hk. by rewrite -> F2, F1.
Qed.

Lemma eff_refl i key st : shard_wf i st.1 -> eff i key st st (shard_abs st.1 !! key).
Proof. intros H. constructor; [done| |done|done]. intros t ->. f_equal. lia. Qed.

Lemma shard_abs_lookup sh k : shard_abs sh !! k = obj_entry <$> sdata sh !! k.
Proof. apply lookup_fmap. Qed.

Lemma remove_eff i key st :
  shard_wf i st.1 -> exists st', remove key st = Some st' /\ eff i key st st' None.
Proof.
  destruct st as [sh used]. simpl. intros [Wa Wv Da Dv Cv Hh Ho]. unfold remove.
  destruct (KeyIndex.remove_spec (svolatile sh) key Wv) as (vol & Hvol & Wvol & Kvol).
  destruct (sdata sh !! key) as [old|] eqn:Hk; simpl.
  - destruct (KeyIndex.remove_spec (sall sh) key Wa) as (all & -> & Wall & Kall). simpl.
    rw Hvol /=. eexists. split; [done|]. constructor; simpl.
    + constructor; simpl; [done..| | | | |].
      * rw dom_delete_L Kall Da. set_solver.
      * rw dom_delete_L Kvol. set_solver.
      * intros k o Hko Hz. rw lookup_delete_Some in Hko. destruct Hko as [Hne Hko].
        rw Kvol. specialize (Cv k o Hko Hz). set_solver.
      * intros k Hkd. apply Hh. rw dom_delete_L in Hkd. set_solver.
      * by apply map_Forall_delete.
    + intros t ->. unfold shard_bytes. simpl. rewrite -> (map_bytes_delete _ _ _ Hk).
      rw int64_add_r (int64_add_l t). f_equal. lia.
    + by rw shard_abs_lookup /= lookup_delete_eq.
    + intros k Hne. rw !shard_abs_lookup /=. by rewrite -> lookup_delete_ne by done.
  - rw Hvol /=. eexists. split; [done|]. constructor; simpl.
    + constructor; simpl; [done..| | |done|done].
      * rw Kvol. set_solver.
      * intros k o Hko Hz. rw Kvol. specialize (Cv k o Hko Hz).
        assert (k <> key) by congruence. set_solver.
    + intros t ->. f_equal. unfold shard_bytes. simpl. lia.
    + by rw shard_abs_lookup /= Hk.
    + done.
Qed.

(** Storing [obj] and leaving the TTL index as [vol]. *)
Lemma put_eff_vol i key st obj stamp vol :
  shard_wf i st.1 -> getShardIndex key = i -> obj_wf obj ->
  KeyIndex.wf vol ->
  KeyIndex.keys_of vol ∖ {[key]} = KeyIndex.keys_of (svolatile st.1) ∖ {[key]} ->
  (GoTime.IsZero (oExpiresAt obj) = false -> key ∈ KeyIndex.keys_of vol) ->
  let st' := put stamp key obj st in
  eff i key st (mkShard (sdata st'.1) (sall st'.1) vol, st'.2) (Some (obj_entry obj)).
Proof.
  destruct st as [sh used]. simpl. intros [Wa Wv Da Dv Cv Hh Ho] Hi Hobj Wvol Kvol Hz.
  unfold put.
  set (all := match sdata sh !! key with Some _ => sall sh | None => KeyIndex.add (sall sh) key end).
  set (delta := match sdata sh !! key with
                | Some old => int64 (memorySize obj key - memorySize old key)
                | None => memorySize obj key end).
  assert (Hall : KeyIndex.wf all /\ KeyIndex.keys_of all = {[key]} ∪ dom (sdata sh)).
  { subst all. destruct (sdata sh !! key) as [old|] eqn:Hk.
    - split; [done|]. rw Da. apply elem_of_dom_2 in Hk. set_solver.
    - split; [by apply KeyIndex.add_wf|]. by rewrite -> KeyIndex.keys_of_add, Da by done. }
  destruct Hall as [Wall Kall].
  replace (match sdata sh !! key with Some _ => _ | None => _ end)
    with (delta, all) by (subst delta all; by destruct (sdata sh !! key)). simpl.
  constructor; simpl.
  - constructor; simpl; [done..| | | | |].
    + by rw dom_insert_L.
    + rw dom_insert_L. intros k Hk. destruct (decide (k = key)); set_solver.
    + intros k o Hko Hzo. destruct (decide (k = key)) as [->|Hne].
      * rw lookup_insert_eq in Hko. simplify_eq. by apply Hz.
      * rewrite -> lookup_insert_ne in Hko by done. specialize (Cv k o Hko Hzo). set_solver.
    + intros k Hk. rw dom_insert_L in Hk. set_solver.
    + apply map_Forall_insert_2; [|done]. unfold obj_wf in *. by destruct obj as [? ? []].
  - intros t ->. unfold shard_bytes. simpl. rw map_bytes_insert memorySize_access. subst delta.
    destruct (sdata sh !! key) as [old|]; [rw int64_add_r|]; rw (int64_add_l t); f_equal; lia.
  - by rw shard_abs_lookup /= lookup_insert_eq.
  - intros k Hne. rw !shard_abs_lookup /=. by rewrite -> lookup_insert_ne by done.
Qed.

Lemma put_eff i key st obj stamp :
  shard_wf i st.1 -> getShardIndex key = i -> obj_wf obj ->
  (GoTime.IsZero (oExpiresAt obj) = false -> key ∈ KeyIndex.keys_of (svolatile st.1)) ->
  eff i key st (put stamp key obj st) (Some (obj_entry obj)).
Proof.
  intros Hw Hi Ho Hz. pose proof (put_eff_vol i key st obj stamp (svolatile st.1) Hw Hi Ho) as H.
  destruct st as [sh used]. unfold put in *. simpl in *.
  destruct (sdata sh !! key); apply H; by destruct Hw.
Qed.

Lemma put_add_eff i key st obj stamp :
  shard_wf i st.1 -> getShardIndex key = i -> obj_wf obj ->
  eff i key st (volatile_add key (put stamp key obj st)) (Some (obj_entry obj)).
Proof.
  intros Hw Hi Ho. unfold volatile_add.
  assert (svolatile (put stamp key obj st).1 = svolatile st.1) as ->.
  { destruct st as [sh used]. unfold put. simpl. by destruct (sdata sh !! key). }
  apply put_eff_vol; [done..| | |].
  - apply KeyIndex.add_wf. by destruct Hw.
  - rewrite -> KeyIndex.keys_of_add by (by destruct Hw). set_solver.
  - intros _. rewrite -> KeyIndex.keys_of_add by (by destruct Hw). set_solver.
Qed.

Lemma put_remove_eff i key st obj stamp :
  shard_wf i st.1 -> getShardIndex key = i -> obj_wf obj ->
  GoTime.IsZero (oExpiresAt obj) = true ->
  exists st', volatile_remove key (put stamp key obj st) = Some st' /\
    eff i key st st' (Some (obj_entry obj)).
Proof.
  intros Hw Hi Ho Hz. unfold volatile_remove.
  assert (svolatile (put stamp key obj st).1 = svolatile st.1) as ->.
  { destruct st as [sh used]. unfold put. simpl. by destruct (sdata sh !! key). }
  destruct (KeyIndex.remove_spec (svolatile st.1) key) as (vol & -> & Wvol & Kvol);
    [by destruct Hw|]. simpl. eexists. split; [done|].
  apply put_eff_vol; [done..| |congruence]. rw Kvol. set_solver.
Qed.

Lemma touch_eff i key sh used obj now :
  shard_wf i sh -> sdata sh !! key = Some obj ->
  eff i key (sh, used) ((touch key obj now sh).2, used) (Some (obj_entry obj)).
Proof.
  intros [Wa Wv Da Dv Cv Hh Ho] Hk. unfold touch. simpl.
  assert (Hd : dom (<[key:=with_access obj now]> (sdata sh)) = dom (sdata sh)).
  { rw dom_insert_L. apply elem_of_dom_2 in Hk. set_solver. }
  constructor; simpl.
  - constructor; simpl; rw ?Hd; [done..| |done|].
    + intros k o Hko Hz. destruct (decide (k = key)) as [->|Hne].
      * rw lookup_insert_eq in Hko. simplify_eq. by apply (Cv key obj).
      * rewrite -> lookup_insert_ne in Hko by done. by apply (Cv k o).
    + apply map_Forall_insert_2; [|done]. specialize (Ho key obj Hk). simpl in Ho.
      unfold obj_wf in *. by destruct obj as [? ? []].
  - intros t ->. unfold shard_bytes. simpl. rw map_bytes_insert Hk memorySize_access.
    f_equal. lia.
  - by rw shard_abs_lookup /= lookup_insert_eq.
  - intros k Hne. rw !shard_abs_lookup /=. by rewrite -> lookup_insert_ne by done.
Qed.

Lemma expired_entry o now : expired now (obj_entry o) = IsExpired o now.
Proof. done. Qed.

(** The object a method works on after lazy expiration. *)
Lemma live_eff i key st now :
  shard_wf i st.1 ->
  exists o st', liveObjectLocked now key st = Some (o, st') /\
    eff i key st st' (live now (shard_abs st.1 !! key)) /\
    obj_entry <$> o = live now (shard_abs st.1 !! key) /\
    sdata st'.1 !! key = o.
Proof.
  intros Hw. unfold liveObjectLocked. rw shard_abs_lookup.
  destruct (sdata st.1 !! key) as [obj|] eqn:Hk; simpl.
  - rw expired_entry. destruct (IsExpired obj now).
    + destruct (remove_eff i key st Hw) as (st' & -> & He). simpl.
      exists None, st'. split_and!; [done..|].
      pose proof (eff_key _ _ _ _ _ He) as Hn. rw shard_abs_lookup in Hn.
      by destruct (sdata st'.1 !! key).
    + do 2 eexists. split; [done|]. split_and!; [|done|simpl; by rw lookup_insert_eq].
      destruct st as [sh used]. by apply (touch_eff i key sh used obj now).
  - exists None, st. split_and!; [done| |done|done].
    pose proof (eff_refl i key st Hw) as He. by rw shard_abs_lookup Hk in He.
Qed.

(** ** From one shard to the store *)
Definition rel (s : Store) (db : DB) : Prop := wf s /\ abs s = db.

(** [implements key f g]: the body [f] run on the shard of [key] has the effect [g]. *)
Definition implements {A} (key : gostring) (f : shardst -> option (A * shardst)) (g : entry_op A)
    : Prop :=
  forall st, shard_wf (getShardIndex key) st.1 ->
    exists r st' e, f st = Some (r, st') /\ eff (getShardIndex key) key st st' e /\
      g (shard_abs st.1 !! key) = (r, e).

Lemma getShardIndex_lt k : (getShardIndex k < numShards)%nat.
Proof.
  unfold getShardIndex. pose proof (Z.mod_pos_bound (fnv32a k) (Z.of_nat numShards) eq_refl). lia.
Qed.

Lemma union_list_lookup (ms : list DB) (i : nat) m k :
  ms !! i = Some m ->
  (forall j m', ms !! j = Some m' -> j <> i -> m' !! k = None) ->
  (⋃ ms) !! k = m !! k.
Proof.
  revert i. induction ms as [|m0 ms IH]; intros [|i] Hi Ho; simplify_eq/=.
  - rw lookup_union. assert ((⋃ ms) !! k = None) as ->; [|by destruct (m !! k)].
    assert (Hn : forall j m', ms !! j = Some m' -> m' !! k = None)
      by (intros j m' Hj; by apply (Ho (S j) m')).
    clear -Hn. induction ms as [|m1 ms IH]; [done|]. simpl. rw lookup_union.
    rewrite -> (Hn O m1) by done. rewrite -> IH; [done|]. intros j m' Hj. by apply (Hn (S j)).
  - rw lookup_union. rewrite -> (Ho O m0) by done. rewrite -> (IH i); [by destruct (m !! k)|done|].
    intros j m' Hj Hne. apply (Ho (S j) m'); [done|lia].
Qed.

Lemma shard_abs_foreign i sh k : shard_wf i sh -> getShardIndex k <> i -> shard_abs sh !! k = None.
Proof.
  intros Hw Hne. rw shard_abs_lookup. destruct (sdata sh !! k) eqn:Hk; [|done].
  apply elem_of_dom_2, (sw_home _ _ Hw) in Hk. congruence.
Qed.

Lemma abs_lookup s k sh :
  wf s -> shards s !! getShardIndex k = Some sh -> abs s !! k = shard_abs sh !! k.
Proof.
  intros Hw Hsh. unfold abs. apply (union_list_lookup _ (getShardIndex k)).
  - by rw list_lookup_fmap Hsh.
  - intros j m' Hj Hne. rw list_lookup_fmap in Hj. apply fmap_Some in Hj as (sh' & Hj & ->).
    by eapply shard_abs_foreign; [eapply wf_shards|].
Qed.

Lemma wf_shard_of s k : wf s -> exists sh, shards s !! getShardIndex k = Some sh.
Proof.
  intros Hw. apply lookup_lt_is_Some_2. rw (wf_length s Hw). apply getShardIndex_lt.
Qed.

(** Replacing the shard of [key] after an effect on it. *)
Lemma eff_store s key sh sh' used' e :
  wf s -> shards s !! getShardIndex key = Some sh ->
  eff (getShardIndex key) key (sh, usedBytes s) (sh', used') e ->
  forall t n, let s' := mkStore (<[getShardIndex key := sh']> (shards s)) used' t n in
  wf s' /\ abs s' = partial_alter (fun _ => e) key (abs s).
Proof.
  intros Hw Hsh [Ew Eu Ek Ef] t n. simpl in *. set (s' := mkStore _ _ _ _).
  assert (Hlt : (getShardIndex key < length (shards s))%nat) by (by eapply lookup_lt_Some).
  assert (Hw' : wf s').
  { constructor; simpl.
    - by rw length_insert (wf_length s Hw).
    - intros i x Hx. apply list_lookup_insert_Some in Hx as [(<- & <- & _)|[Hne Hx]]; [done|].
      by apply (wf_shards s Hw).
    - rewrite -> (total_bytes_insert _ _ _ _ Hsh). apply Eu, (wf_used s Hw). }
  split; [done|]. apply map_eq. intros k.
  destruct (decide (getShardIndex k = getShardIndex key)) as [Hi|Hi].
  - rewrite -> (abs_lookup s' k sh') by (simpl; rw ?Hi ?list_lookup_insert_eq //).
    destruct (decide (k = key)) as [->|Hne]; [by rw lookup_partial_alter_eq|].
    rewrite -> lookup_partial_alter_ne, Ef by done. symmetry. apply abs_lookup; [done|by rw Hi].
  - destruct (wf_shard_of s k Hw) as [x Hx].
    rewrite -> (abs_lookup s' k x) by (simpl; rw ?list_lookup_insert_ne //).
    rewrite -> lookup_partial_alter_ne by congruence. symmetry. by apply abs_lookup.
Qed.

Lemma with_shard_sim {A} key (f : shardst -> option (A * shardst)) (g : entry_op A) :
  implements key f g -> sim rel (fun s => with_shard key s f) (on_entry key g).
Proof.
  intros Hf s db [Hw <-]. unfold with_shard, on_shard, on_entry.
  destruct (wf_shard_of s key Hw) as [sh Hsh]. rw Hsh /=.
  destruct (Hf (sh, usedBytes s)) as (r & [sh' used'] & e & -> & He & Hg);
    [by apply (wf_shards s Hw)|]. simpl in *.
  rewrite -> (abs_lookup s key sh), Hg by done. simpl.
  do 3 eexists. split_and!; [done..|]. by apply (eff_store s key sh).
Qed.

(** Closes an [implements] goal whose effect is in the context. *)
Ltac effect_done :=
  do 3 eexists; split_and!; [reflexivity|eassumption|reflexivity].

(** ** The empty store *)
Lemma shardZero_wf i : shard_wf i shardZero.
Proof.
  constructor; simpl; try apply KeyIndex.indexZero_wf; done.
Qed.

Lemma NewStore_wf : wf NewStore.
Proof.
  constructor; [done| |].
  - intros i sh Hi. apply lookup_replicate_1 in Hi as [-> _]. apply shardZero_wf.
  - vm_compute. done.
Qed.

Lemma NewStore_rel : rel NewStore ∅.
Proof.
  split; [apply NewStore_wf|]. apply map_eq. intros k.
  assert (Hsh : shards NewStore !! getShardIndex k = Some shardZero)
    by (apply lookup_replicate_2, getShardIndex_lt).
  by rewrite -> (abs_lookup NewStore k shardZero NewStore_wf Hsh).
Qed.

End StoreProof.
