(* ===== verification/StoreRefine.v ===== *)
(** * Operation by operation: the engine implements the abstract database

    [Store_ops] packages the engine behind the interface [StoreOps]; [StoreRefines]
    states what the interface promises to the command layer (every operation
    simulates its abstract counterpart), and [Store_refines] discharges it. *)

From S2P Require Import Prelude GoTime ListValue KeyIndex Store StoreList StoreSpec StoreProof.
Import StoreSpec.

#[export] Instance Store_ops : StoreOps Store := {|
  op_Set := Store.Set_;
  op_SetAt := Store.SetAt;
  op_GetString := Store.GetString;
  op_TTL := Store.TTL;
  op_Del := Store.Del;
  op_Expire := Store.Expire;
  op_ExpireAt := Store.ExpireAt;
  op_ListPush := StoreList.ListPush;
  op_ListPop := StoreList.ListPop;
  op_ListLen := StoreList.ListLen;
  op_ListRange := StoreList.ListRange;
  op_ListIndex := StoreList.ListIndex;
  op_ListSet := StoreList.ListSet;
  op_ListTrim := StoreList.ListTrim;
  op_ListRem := StoreList.ListRem;
  op_ListInsert := StoreList.ListInsert;
  op_ListPosition := StoreList.ListPosition;
  op_ListMove := StoreList.ListMove;
|}.

(** What an implementation of the interface owes the command layer.  [ListPush]
    is only called with at least one value and [ListPop] with a count that is not
    negative. *)
Class StoreRefines (S T : Type) `{StoreOps S} `{StoreOps T} (R : S -> T -> Prop) := {
  ref_Set clk k v ttl : sim R (op_Set clk k v ttl) (op_Set clk k v ttl);
  ref_SetAt clk k v e : sim R (op_SetAt clk k v e) (op_SetAt clk k v e);
  ref_GetString clk k : sim R (op_GetString clk k) (op_GetString clk k);
  ref_TTL clk k : sim R (op_TTL clk k) (op_TTL clk k);
  ref_Del clk k : sim R (op_Del clk k) (op_Del clk k);
  ref_Expire clk k n : sim R (op_Expire clk k n) (op_Expire clk k n);
  ref_ExpireAt clk k e : sim R (op_ExpireAt clk k e) (op_ExpireAt clk k e);
  ref_ListPush clk k vs l o :
    vs <> [] -> sim R (op_ListPush clk k vs l o) (op_ListPush clk k vs l o);
  ref_ListPop clk k l n : 0 <= n -> sim R (op_ListPop clk k l n) (op_ListPop clk k l n);
  ref_ListLen clk k : sim R (op_ListLen clk k) (op_ListLen clk k);
  ref_ListRange clk k a b : sim R (op_ListRange clk k a b) (op_ListRange clk k a b);
  ref_ListIndex clk k i : sim R (op_ListIndex clk k i) (op_ListIndex clk k i);
  ref_ListSet clk k i v : sim R (op_ListSet clk k i v) (op_ListSet clk k i v);
  ref_ListTrim clk k a b : sim R (op_ListTrim clk k a b) (op_ListTrim clk k a b);
  ref_ListRem clk k n v : sim R (op_ListRem clk k n v) (op_ListRem clk k n v);
  ref_ListInsert clk k p v b : sim R (op_ListInsert clk k p v b) (op_ListInsert clk k p v b);
  ref_ListPosition clk k v r c m :
    sim R (op_ListPosition clk k v r c m) (op_ListPosition clk k v r c m);
  ref_ListMove clk a b f t : sim R (op_ListMove clk a b f t) (op_ListMove clk a b f t);
}.

Module StoreRefine.
Import Store StoreProof.

Lemma string_obj_wf v e n : obj_wf (mkObj v e StringKind listZero n).
Proof. done. Qed.

(** ** Strings and expiration *)
Lemma Set_sim clk k v ttl : sim rel (Set_ clk k v ttl) (on_entry k (spec_Set (clk 0%nat) v ttl)).
Proof.
  apply with_shard_sim. intros st Hw. unfold spec_Set. cbv zeta.
  set (e := if 0 <? ttl then _ else _). destruct (GoTime.IsZero e) eqn:Hz.
  - destruct (put_remove_eff (getShardIndex k) k st (mkObj v e StringKind listZero 0) (clk 1%nat))
      as (st' & -> & He); [done..|]. simpl. effect_done.
  - simpl. do 3 eexists. split_and!; [done| |done]. by apply put_add_eff.
Qed.

Lemma SetAt_sim clk k v e : sim rel (SetAt clk k v e) (on_entry k (spec_SetAt (clk 0%nat) v e)).
Proof.
  apply with_shard_sim. intros st Hw. unfold spec_SetAt.
  destruct (GoTime.Before (clk 0%nat) e); simpl.
  - do 3 eexists. split_and!; [done| |done]. by apply put_add_eff.
  - destruct (remove_eff _ k st Hw) as (st' & -> & He). effect_done.
Qed.

Lemma GetString_sim clk k : sim rel (GetString clk k) (on_entry k (spec_GetString (clk 0%nat))).
Proof.
  apply with_shard_sim. intros st Hw. unfold spec_GetString.
  destruct (live_eff _ k st (clk 0%nat) Hw) as (o & st' & -> & He & Ho & _). simpl.
  rewrite <- Ho in *. destruct o as [[v e [] l a]|]; simpl; effect_done.
Qed.

(** [TTL], [Del] and [ExpireAt] look the object up without touching it. *)
Lemma expired_live e now :
  live now (Some e) = if expired now e then None else Some e.
Proof. done. Qed.

Lemma TTL_sim clk k : sim rel (TTL clk k) (on_entry k (spec_TTL (clk 0%nat))).
Proof.
  apply with_shard_sim. intros st Hw. unfold spec_TTL. pose proof (eff_refl _ k st Hw) as Hr.
  rw shard_abs_lookup in Hr. rw shard_abs_lookup.
  destruct (sdata st.1 !! k) as [o|] eqn:Hk; simpl in *; [|effect_done].
  rw expired_entry. destruct (IsExpired o (clk 0%nat)) eqn:Hx.
  { destruct (remove_eff _ k st Hw) as (st' & -> & He). effect_done. }
  change (eExp (obj_entry o)) with (oExpiresAt o).
  destruct (GoTime.IsZero (oExpiresAt o)) eqn:Hz; [effect_done|].
  assert (GoTime.secondsNegative (GoTime.Sub (oExpiresAt o) (clk 0%nat)) = false) as ->.
  { unfold IsExpired in Hx. rw Hz /= in Hx. apply negb_false_iff, Z.ltb_lt in Hx.
    apply Z.ltb_ge. pose proof (GoTime.Sub_pos _ _ Hx). lia. }
  effect_done.
Qed.

Lemma Del_sim clk k : sim rel (Del clk k) (on_entry k (spec_Del (clk 0%nat))).
Proof.
  apply with_shard_sim. intros st Hw. unfold spec_Del. pose proof (eff_refl _ k st Hw) as Hr.
  rw shard_abs_lookup in Hr. rw shard_abs_lookup.
  destruct (sdata st.1 !! k) as [o|] eqn:Hk; simpl in *; [|effect_done].
  rw expired_entry. destruct (remove_eff _ k st Hw) as (st' & -> & He).
  destruct (IsExpired o (clk 0%nat)); effect_done.
Qed.

Lemma ExpireAt_sim clk k e : sim rel (ExpireAt clk k e) (on_entry k (spec_ExpireAt (clk 0%nat) e)).
Proof.
  apply with_shard_sim. intros st Hw. unfold spec_ExpireAt. pose proof (eff_refl _ k st Hw) as Hr.
  rw shard_abs_lookup in Hr. rw shard_abs_lookup.
  destruct (sdata st.1 !! k) as [o|] eqn:Hk; simpl in *; [|effect_done].
  rw expired_entry. destruct (remove_eff _ k st Hw) as (st' & Hrm & He).
  destruct (IsExpired o (clk 0%nat)); [rw Hrm; effect_done|].
  destruct (GoTime.Before (clk 0%nat) e); simpl; [|rw Hrm; effect_done].
  do 3 eexists. split_and!; [done| |done]. apply (put_add_eff _ k st (with_expiry o e)); [done..|].
  pose proof (sw_objs _ _ Hw k o Hk) as Ho. unfold obj_wf in *. by destruct o as [? ? []].
Qed.

Lemma Expire_sim clk k n :
  sim rel (Expire clk k n)
    (on_entry k (spec_ExpireAt (clk 1%nat) (expire_deadline (clk 0%nat) n))).
Proof. apply ExpireAt_sim. Qed.

(** ** List loops *)
Lemma push_all_spec l vs left :
  ListValue.wf l ->
  exists l', StoreList.push_all l vs left = Some l' /\ ListValue.wf l' /\
    ListValue.contents l' = push_list left vs (ListValue.contents l).
Proof.
  revert l. induction vs as [|v vs IH]; intros l Hl; simpl.
  { exists l. split_and!; [done..|]. destruct left; simpl; by rw ?app_nil_r. }
  destruct (ListValue.push_spec l v left Hl) as (l1 & -> & Hl1 & Hc1). simpl.
  destruct (IH l1 Hl1) as (l' & -> & Hl' & Hc'). exists l'. split_and!; [done..|].
  rw Hc' Hc1. unfold push_list, ListValue.spec_push.
  destruct left; simpl; [by rw reverse_cons -app_assoc|by rw -app_assoc].
Qed.

Lemma pop_list_step left (n : nat) v l :
  pop_list left (S n) (ListValue.spec_push left v l) =
    (v :: (pop_list left n l).1, (pop_list left n l).2).
Proof.
  unfold pop_list, ListValue.spec_push. destruct left; simpl; [done|].
  rw length_app /=. replace (length l + 1 - S n)%nat with (length l - n)%nat by lia.
  rewrite -> drop_app_le, reverse_app, take_app_le by lia. done.
Qed.

Lemma pop_loop_spec l (n : nat) left :
  ListValue.wf l -> Z.of_nat n <= lsize l ->
  exists l', StoreList.pop_loop l n left =
      Some ((pop_list left n (ListValue.contents l)).1, l') /\ ListValue.wf l' /\
    ListValue.contents l' = (pop_list left n (ListValue.contents l)).2.
Proof.
  revert l. induction n as [|n IH]; intros l Hl Hn; simpl.
  { exists l. unfold pop_list. destruct left; simpl; [done|].
    rw Nat.sub_0_r drop_all firstn_all. done. }
  destruct (ListValue.pop_spec l left Hl) as (v & l1 & -> & Hl1 & Hc); [lia|]. simpl.
  assert (lsize l1 = lsize l - 1) as Hsz.
  { rewrite <- (ListValue.contents_len l), <- (ListValue.contents_len l1) by (apply Hl || apply Hl1).
    rw Hc. unfold ListValue.spec_push. destruct left; autorewrite with len; lia. }
  destruct (IH l1 Hl1) as (l' & -> & Hl' & Hc'); [lia|]. exists l'.
  rw Hc pop_list_step. done.
Qed.

Lemma wf_size_len l : ListValue.wf l -> len (ListValue.contents l) = lsize l.
Proof. intros [Hs _]. by apply ListValue.contents_len. Qed.

(** ** The shape shared by the list methods *)

(** The object at [key] is a list the method may work on. *)
Record list_at (key : gostring) (obj : Obj) (st : shardst) : Prop := {
  la_wf : shard_wf (getShardIndex key) st.1;
  la_obj : sdata st.1 !! key = Some obj;
  la_kind : oKind obj = ListKind;
  la_list : ListValue.wf (oList obj);
  la_size : 0 < lsize (oList obj);
}.

Lemma list_entry_contents l e :
  ListValue.wf l -> 0 < lsize l ->
  list_entry (ListValue.contents l) e = Some (mkEntry (VList (ListValue.contents l)) e).
Proof.
  intros Hl Hs. pose proof (wf_size_len l Hl) as Hlen.
  destruct (ListValue.contents l); [rw len_nil in Hlen; lia|done].
Qed.

Lemma list_at_entry key obj st :
  list_at key obj st ->
  obj_entry obj = mkEntry (VList (ListValue.contents (oList obj))) (oExpiresAt obj).
Proof. intros [_ _ Hk _ _]. unfold obj_entry. by rw Hk. Qed.

Lemma list_at_refl key obj st :
  list_at key obj st ->
  eff (getShardIndex key) key st st
    (list_entry (ListValue.contents (oList obj)) (oExpiresAt obj)).
Proof.
  intros Ha. pose proof (eff_refl _ key st (la_wf _ _ _ Ha)) as He.
  rw shard_abs_lookup (la_obj _ _ _ Ha) /= (list_at_entry _ _ _ Ha) in He.
  rewrite -> list_entry_contents by apply Ha. done.
Qed.

Lemma list_at_put key obj st l stamp :
  list_at key obj st -> ListValue.wf l -> 0 < lsize l ->
  eff (getShardIndex key) key st (put stamp key (with_list obj l) st)
    (list_entry (ListValue.contents l) (oExpiresAt obj)).
Proof.
  intros [Hw Hk Hkind Hl Hs] Hwl Hsl. rewrite -> list_entry_contents by done.
  pose proof (sw_objs _ _ Hw key obj Hk) as Ho. simpl in Ho. unfold obj_wf in Ho.
  replace (mkEntry _ _) with (obj_entry (with_list obj l)) by (unfold obj_entry; simpl; by rw Hkind).
  apply put_eff; [done|done| |].
  - unfold obj_wf. simpl. rw Hkind. rw Hkind in Ho. naive_solver.
  - simpl. intros Hz. by apply (sw_vol_complete _ _ Hw key obj).
Qed.

Lemma list_at_store_back key obj st l stamp :
  list_at key obj st -> ListValue.wf l ->
  exists st', StoreList.store_back stamp key obj l st = Some st' /\
    eff (getShardIndex key) key st st' (list_entry (ListValue.contents l) (oExpiresAt obj)).
Proof.
  intros Ha Hl. unfold StoreList.store_back, ListValue.Len.
  destruct (Z.eqb_spec (lsize l) 0) as [Hz|Hnz].
  - pose proof (wf_size_len l Hl) as Hlen. rw Hz in Hlen.
    rewrite -> (len_zero_nil _ Hlen). apply remove_eff, Ha.
  - eexists. split; [done|]. apply list_at_put; [done..|]. destruct Hl as [[? ? ?] _]. lia.
Qed.

(** What [liveObjectLocked] hands to the body of a list method. *)
Lemma live_cases key st now :
  shard_wf (getShardIndex key) st.1 ->
  exists o st', liveObjectLocked now key st = Some (o, st') /\
    eff (getShardIndex key) key st st' (obj_entry <$> o) /\
    live now (shard_abs st.1 !! key) = obj_entry <$> o /\
    match o with
    | Some obj => if decide (oKind obj = ListKind) then list_at key obj st' else True
    | None => True
    end.
Proof.
  intros Hw. destruct (live_eff _ key st now Hw) as (o & st' & -> & He & Ho & Hd).
  exists o, st'. rw -Ho in He. split_and!; [done..|].
  destruct o as [obj|]; [|done]. case_decide as Hk; [|done].
  pose proof (eff_wf _ _ _ _ _ He) as Hw'. pose proof (sw_objs _ _ Hw' key obj Hd) as Hobj.
  simpl in Hobj. unfold obj_wf in Hobj. rw Hk in Hobj. destruct Hobj as (_ & ? & ?).
  by constructor.
Qed.

Lemma list_op_implements {A} key now (missing wrong : A)
    (F : Obj -> shardst -> option (A * shardst)) (f : list gostring -> A * list gostring) :
  (forall obj st, list_at key obj st ->
     exists st', F obj st = Some ((f (ListValue.contents (oList obj))).1, st') /\
       eff (getShardIndex key) key st st'
         (list_entry (f (ListValue.contents (oList obj))).2 (oExpiresAt obj))) ->
  implements key
    (fun st =>
       '(o, st) ← liveObjectLocked now key st;
       match o with
       | None => Some (missing, st)
       | Some obj =>
           match oKind obj with StringKind => Some (wrong, st) | ListKind => F obj st end
       end)
    (list_op now missing wrong f).
Proof.
  intros HF st Hw. destruct (live_cases key st now Hw) as (o & st1 & -> & He & Hl & Ho).
  unfold list_op. rw Hl. simpl. destruct o as [obj|]; simpl in *; [|effect_done].
  destruct obj as [v e [] l a]; simpl in *; [effect_done|]. set (obj := mkObj _ _ _ _ _) in *.
  destruct (HF obj st1 Ho) as (st2 & -> & He2). subst obj. simpl in *.
  destruct (f (ListValue.contents l)) as [r l'] eqn:Hf. simpl in *.
  do 3 eexists. split_and!; [done|by eapply eff_trans|done].
Qed.

(** ** List methods *)
Lemma ListLen_sim clk k : sim rel (StoreList.ListLen clk k) (on_entry k (spec_ListLen (clk 0%nat))).
Proof.
  apply with_shard_sim, list_op_implements. intros obj st Ha. simpl.
  rewrite -> wf_size_len by apply Ha. eexists. split; [done|]. by apply list_at_refl.
Qed.

Lemma ListPop_sim clk k left n :
  0 <= n -> sim rel (StoreList.ListPop clk k left n) (on_entry k (spec_ListPop (clk 0%nat) left n)).
Proof.
  intros Hn. apply with_shard_sim, list_op_implements. intros obj st Ha. cbv zeta.
  unfold ListValue.Len. pose proof (la_size _ _ _ Ha). rewrite -> wf_size_len by apply Ha.
  set (m := if lsize (oList obj) <? n then _ else _).
  assert (m = Z.min n (lsize (oList obj))) as -> by (subst m; case_match; lia).
  rewrite -> (proj2 (Z.ltb_ge _ _)) by lia.
  destruct (pop_loop_spec (oList obj) (Z.to_nat (Z.min n (lsize (oList obj)))) left)
    as (l' & -> & Hl' & Hc); [apply Ha|lia|]. simpl.
  destruct (list_at_store_back k obj st l' (clk 1%nat)) as (st' & -> & He); [done..|]. simpl.
  destruct (pop_list _ _ _) as [vs rest]. simpl in *. subst. by eexists.
Qed.

Lemma ListIndex_sim clk k i :
  sim rel (StoreList.ListIndex clk k i) (on_entry k (spec_ListIndex (clk 0%nat) i)).
Proof.
  apply with_shard_sim, list_op_implements. intros obj st Ha. pose proof (la_size _ _ _ Ha).
  rewrite -> wf_size_len by apply Ha. rewrite -> ListValue.index_spec by lia.
  unfold norm_index. cbv zeta. set (j := if i <? 0 then _ else _).
  pose proof (list_at_refl _ _ _ Ha). case_decide; simpl; [|by eexists].
  destruct (la_list _ _ _ Ha) as [Hs _].
  rewrite -> ListValue.at_contents by done.
  destruct (lookup_lt_is_Some_2 (ListValue.contents (oList obj)) (Z.to_nat j)) as [v Hv].
  { rewrite -> ListValue.contents_length by done. lia. }
  rw Hv /=. by eexists.
Qed.

Lemma ListSet_sim clk k i v :
  sim rel (StoreList.ListSet clk k i v) (on_entry k (spec_ListSet (clk 0%nat) i v)).
Proof.
  apply with_shard_sim, list_op_implements. intros obj st Ha. pose proof (la_size _ _ _ Ha).
  rewrite -> wf_size_len by apply Ha. rewrite -> ListValue.index_spec by lia.
  unfold norm_index. cbv zeta. set (j := if i <? 0 then _ else _).
  pose proof (list_at_refl _ _ _ Ha). case_decide; simpl; [|by eexists].
  destruct (ListValue.assign_spec (oList obj) j v) as (l' & -> & Hl' & Hsz & Hc); [apply Ha|done|].
  simpl. eexists. split; [done|]. rw -Hc. apply list_at_put; [done..|lia].
Qed.

(** ** Ranges *)
Lemma clamp_range_spec start stop l a b :
  0 < len l -> StoreList.clamp_range start stop (len l) = (a, b) ->
  0 <= a /\ b < len l /\
  range_list start stop l =
    if b <? a then [] else take (Z.to_nat (b + 1 - a)) (drop (Z.to_nat a) l).
Proof.
  intros Hl H. unfold StoreList.clamp_range in H. unfold range_list. simplify_eq.
  set (x := if start <? 0 then _ else _). set (y := if stop <? 0 then _ else _).
  replace (if x <? 0 then 0 else x) with (Z.max 0 x) by (destruct (Z.ltb_spec x 0); lia).
  replace (if len l <=? y then len l - 1 else y) with (Z.min (len l - 1) y)
    by (destruct (Z.leb_spec (len l) y); lia).
  split_and!; [lia|lia|done].
Qed.

Lemma ListRange_sim clk k start stop :
  sim rel (StoreList.ListRange clk k start stop)
    (on_entry k (spec_ListRange (clk 0%nat) start stop)).
Proof.
  apply with_shard_sim, list_op_implements. intros obj st Ha. pose proof (la_size _ _ _ Ha).
  pose proof (list_at_refl _ _ _ Ha) as He. pose proof (wf_size_len _ (la_list _ _ _ Ha)) as Hlen.
  cbv zeta. unfold ListValue.Len. rw -Hlen.
  destruct (StoreList.clamp_range _ _ _) as [a b] eqn:Hc.
  apply clamp_range_spec in Hc as (Ha0 & Hb & Hr); [|lia]. simpl. rw Hr.
  destruct (Z.leb_spec (len (ListValue.contents (oList obj))) a), (Z.ltb_spec b a),
    (Z.eqb_spec (len (ListValue.contents (oList obj))) 0); try lia; simpl; try by eexists.
  rewrite -> ListValue.rangeCopy_spec by (apply Ha || lia). simpl. by eexists.
Qed.

Lemma ListTrim_sim clk k start stop :
  sim rel (StoreList.ListTrim clk k start stop)
    (on_entry k (spec_ListTrim (clk 0%nat) start stop)).
Proof.
  apply with_shard_sim, list_op_implements. intros obj st Ha. pose proof (la_size _ _ _ Ha).
  pose proof (wf_size_len _ (la_list _ _ _ Ha)) as Hlen.
  destruct (remove_eff _ k st (la_wf _ _ _ Ha)) as (st' & Hrm & He).
  cbv zeta. unfold ListValue.Len. rw -Hlen.
  destruct (StoreList.clamp_range _ _ _) as [a b] eqn:Hc.
  apply clamp_range_spec in Hc as (Ha0 & Hb & Hr); [|lia]. simpl. rw Hr.
  destruct (Z.eqb_spec (len (ListValue.contents (oList obj))) 0),
    (Z.leb_spec (len (ListValue.contents (oList obj))) a), (Z.ltb_spec b a);
    try lia; simpl; try (rw Hrm; by eexists).
  rewrite -> ListValue.rangeCopy_spec by (apply Ha || lia). simpl. eexists. split; [done|].
  set (items := take _ _). destruct (ListValue.replace_spec items) as [Hwf Hcc].
  rewrite <- Hcc at 2. apply list_at_put; [done..|]. simpl. subst items. unfold len.
  rw length_take length_drop. unfold len in *. lia.
Qed.

(** ** [ListRem] *)
Lemma remove_first_0 v l : remove_first 0 v l = l.
Proof. by destruct l. Qed.

Lemma remove_first_ge q v l :
  (length l <= q)%nat -> remove_first q v l = remove_first (length l) v l.
Proof.
  revert q. induction l as [|x l IH]; intros [|q] Hq; simpl in *; [done..|lia|].
  case_bool_decide; [apply IH; lia|]. f_equal.
  rewrite -> (IH (S q)), (IH (S (length l))) by lia. done.
Qed.

Lemma remove_first_min n v l :
  0 <= n -> remove_first (Z.to_nat (Z.min n (len l))) v l = remove_first (Z.to_nat n) v l.
Proof.
  intros Hn. destruct (Z.le_gt_cases n (len l)); [by rewrite -> Z.min_l by done|].
  rewrite -> Z.min_r by lia. unfold len. rw Nat2Z.id.
  rewrite -> (remove_first_ge (Z.to_nat n)) by (unfold len in *; lia). done.
Qed.

Lemma delete_split {A} (c : list A) (i : nat) :
  (i < length c)%nat ->
  take i (delete i c) = take i c /\ drop i (delete i c) = drop (S i) c.
Proof.
  intros Hi. rw delete_take_drop. assert (length (take i c) = i) by (rw length_take; lia).
  split; [by rewrite -> take_app_length' by done|by rewrite -> drop_app_length' by done].
Qed.

(** [q] removals remain allowed. *)
Definition quota (count limit removed : Z) (q n : nat) : Prop :=
  (count = 0 /\ (n <= q)%nat) \/ (count <> 0 /\ Z.of_nat q = limit - removed).

Lemma rem_forward_spec fuel l i removed count limit v (q : nat) :
  ListValue.wf l -> 0 <= i <= lsize l -> lsize l - i < Z.of_nat fuel ->
  quota count limit removed q (Z.to_nat (lsize l - i)) ->
  exists l', StoreList.rem_forward fuel l i removed count limit v =
      Some (removed + lsize l - lsize l', l') /\ ListValue.wf l' /\
    ListValue.contents l' =
      take (Z.to_nat i) (ListValue.contents l) ++
      remove_first q v (drop (Z.to_nat i) (ListValue.contents l)).
Proof.
  revert l i removed q. induction fuel as [|fuel IH]; intros l i removed q Hl Hi Hf Hq; [lia|].
  pose proof Hl as [Hs _]. pose proof (ListValue.contents_length l Hs) as Hlen. simpl.
  unfold ListValue.Len. destruct (Z.ltb_spec i (lsize l)) as [Hlt|Hge]; cycle 1.
  { exists l. replace (removed + lsize l - lsize l) with removed by lia. split_and!; [done..|].
    rewrite -> drop_ge, take_ge by lia. by rw /= app_nil_r. }
  destruct (lookup_lt_is_Some_2 (ListValue.contents l) (Z.to_nat i)) as [x Hx]; [lia|].
  rewrite -> ListValue.at_contents by (done || lia). rw Hx /=.
  rewrite -> (drop_S _ _ _ Hx). simpl.
  case_bool_decide as Hv; [destruct ((count =? 0) || (removed <? limit)) eqn:Hc|]; simpl.
  - destruct (ListValue.removeAt_spec l i Hl) as (l1 & -> & Hl1 & Hsz & Hc1); [lia|]. simpl.
    destruct (delete_split (ListValue.contents l) (Z.to_nat i)) as [Ht Hd]; [lia|].
    destruct q as [|q]; [exfalso; destruct Hq as [[]|[]]; [lia|];
      apply orb_true_iff in Hc as [?|?]; bool_prop; lia|].
    destruct (IH l1 i (removed + 1) q) as (l' & -> & Hl' & Hc'); [done|lia|lia| |].
    { unfold quota in *. lia. }
    exists l'. split_and!; [do 2 f_equal; lia|done|]. by rw Hc' Hc1 Ht Hd.
  - apply orb_false_iff in Hc as [? ?]. bool_prop.
    assert (q = 0)%nat as -> by (unfold quota in Hq; lia).
    destruct (IH l (i + 1) removed O) as (l' & -> & Hl' & Hc'); [done|lia|lia|unfold quota in *; lia|].
    exists l'. split_and!; [done..|]. rw Hc' remove_first_0.
    replace (Z.to_nat (i + 1)) with (S (Z.to_nat i)) by lia.
    by rewrite -> (take_S_r _ _ _ Hx), <- app_assoc.
  - destruct (IH l (i + 1) removed q) as (l' & -> & Hl' & Hc'); [done|lia|lia|unfold quota in *; lia|].
    exists l'. split_and!; [done..|]. rw Hc'.
    replace (Z.to_nat (i + 1)) with (S (Z.to_nat i)) by lia.
    rewrite -> (take_S_r _ _ _ Hx), <- app_assoc. destruct q; [by rw remove_first_0|done].
Qed.

Lemma rem_backward_spec (n : nat) l removed limit v (q : nat) :
  ListValue.wf l -> Z.of_nat n <= lsize l -> Z.of_nat q = limit - removed ->
  exists l', StoreList.rem_backward n l removed limit v =
      Some (removed + lsize l - lsize l', l') /\ ListValue.wf l' /\
    ListValue.contents l' =
      reverse (remove_first q v (reverse (take n (ListValue.contents l)))) ++
      drop n (ListValue.contents l).
Proof.
  revert l removed q. induction n as [|n IH]; intros l removed q Hl Hn Hq; simpl.
  { exists l. replace (removed + lsize l - lsize l) with removed by lia. by destruct q. }
  pose proof Hl as [Hs _]. pose proof (ListValue.contents_length l Hs) as Hlen.
  destruct (lookup_lt_is_Some_2 (ListValue.contents l) n) as [x Hx]; [lia|].
  rewrite -> ListValue.at_contents by (done || lia). rw Nat2Z.id Hx /=.
  rewrite -> (take_S_r _ _ _ Hx). rw reverse_app /=.
  assert (Hd0 : drop n (ListValue.contents l) = x :: drop (S n) (ListValue.contents l))
    by (by apply drop_S).
  case_bool_decide as Hv; [destruct (Z.ltb_spec removed limit) as [Hr|Hr]|]; simpl.
  - destruct (ListValue.removeAt_spec l (Z.of_nat n) Hl) as (l1 & -> & Hl1 & Hsz & Hc1); [lia|].
    simpl. rw Nat2Z.id in Hc1.
    destruct (delete_split (ListValue.contents l) n) as [Ht Hd]; [lia|].
    destruct q as [|q]; [lia|].
    destruct (IH l1 (removed + 1) q) as (l' & -> & Hl' & Hc'); [done|lia|lia|].
    exists l'. split_and!; [do 2 f_equal; lia|done|]. by rw Hc' Hc1 Ht Hd.
  - assert (q = 0)%nat as -> by lia.
    destruct (IH l removed O) as (l' & -> & Hl' & Hc'); [done|lia|lia|].
    exists l'. split_and!; [done..|]. rw Hc' Hd0 remove_first_0 /= reverse_cons -app_assoc //.
  - destruct (IH l removed q) as (l' & -> & Hl' & Hc'); [done|lia|lia|].
    exists l'. split_and!; [done..|]. rw Hc' Hd0.
    destruct q; rw ?remove_first_0 reverse_cons -app_assoc //.
Qed.

Lemma rem_list_limit count v l :
  count < 0 ->
  rem_list count v l =
    reverse (remove_first (Z.to_nat (if count =? min_int64 then max_int64 else - count)) v (reverse l)).
Proof.
  intros Hc. unfold rem_list. rewrite -> (proj2 (Z.eqb_neq count 0)) by lia.
  rewrite -> (proj2 (Z.ltb_ge 0 count)) by lia. rewrite -> Z.abs_neq by lia.
  set (limit := if count =? min_int64 then _ else _).
  assert (0 <= limit) by (subst limit; unfold max_int64; case_match; lia).
  rewrite <- (remove_first_min limit v (reverse l)) by done. unfold len. by rw length_reverse.
Qed.

Lemma rem_list_forward count v l :
  0 <= count ->
  rem_list count v l = remove_first (if count =? 0 then length l else Z.to_nat count) v l.
Proof.
  intros Hc. unfold rem_list. destruct (Z.eqb_spec count 0) as [->|]; [done|].
  rewrite -> (proj2 (Z.ltb_lt 0 count)) by lia. rewrite -> Z.abs_eq by lia.
  rewrite -> (proj2 (Z.eqb_neq count min_int64)) by (unfold min_int64; lia).
  by apply remove_first_min.
Qed.

Lemma ListRem_sim clk k count v :
  sim rel (StoreList.ListRem clk k count v) (on_entry k (spec_ListRem (clk 0%nat) count v)).
Proof.
  apply with_shard_sim, list_op_implements. intros obj st Ha. cbv zeta.
  pose proof (la_list _ _ _ Ha) as Hl. pose proof (la_size _ _ _ Ha).
  set (limit := if count <? 0 then _ else _).
  assert (exists l', (if 0 <=? count
     then StoreList.rem_forward (S (Z.to_nat (ListValue.Len (oList obj)))) (oList obj) 0 0 count limit v
     else StoreList.rem_backward (Z.to_nat (ListValue.Len (oList obj))) (oList obj) 0 limit v)
     = Some (0 + lsize (oList obj) - lsize l', l') /\ ListValue.wf l' /\
     ListValue.contents l' = rem_list count v (ListValue.contents (oList obj)))
    as (l' & -> & Hl' & Hc').
  { unfold ListValue.Len. destruct (Z.leb_spec 0 count) as [Hc|Hc].
    - assert (limit = count) as -> by (subst limit; by rewrite -> (proj2 (Z.ltb_ge count 0)) by lia).
      destruct (rem_forward_spec (S (Z.to_nat (lsize (oList obj)))) (oList obj) 0 0 count count v
        (if count =? 0 then length (ListValue.contents (oList obj)) else Z.to_nat count))
        as (l' & -> & Hl' & Hc'); [done|lia|lia| |].
      { unfold quota. rewrite -> ListValue.contents_length by apply Hl.
        destruct (Z.eqb_spec count 0); lia. }
      exists l'. split_and!; [done..|]. rewrite -> rem_list_forward by done. by rw Hc' drop_0.
    - subst limit. rewrite -> (proj2 (Z.ltb_lt count 0)) by lia.
      set (limit := if count =? min_int64 then _ else _).
      destruct (rem_backward_spec (Z.to_nat (lsize (oList obj))) (oList obj) 0 limit v (Z.to_nat limit))
        as (l' & -> & Hl' & Hc'); [done|lia| |].
      { subst limit. unfold max_int64. case_match; lia. }
      exists l'. split_and!; [done..|]. rewrite -> rem_list_limit by done. rw Hc'.
      rewrite <- (ListValue.contents_length (oList obj)) by apply Hl.
      by rw firstn_all drop_all app_nil_r. }
  simpl. destruct (list_at_store_back k obj st l' (clk 1%nat)) as (st' & -> & He); [done..|].
  simpl. rw -Hc'. eexists. split; [|done]. by rewrite -> !wf_size_len by done.
Qed.

(** ** [ListInsert] and [ListPosition] *)
Lemma find_pivot_spec l (n : nat) i pivot :
  ListValue.wf l -> 0 <= i -> i + Z.of_nat n = lsize l ->
  StoreList.find_pivot l n i pivot =
    Some ((fun j : nat => i + Z.of_nat j) <$>
          index_of pivot (drop (Z.to_nat i) (ListValue.contents l))).
Proof.
  intros Hl. pose proof Hl as [Hs _]. pose proof (ListValue.contents_length l Hs) as Hlen.
  revert i. induction n as [|n IH]; intros i Hi Hn; simpl.
  { by rewrite -> drop_ge by lia. }
  destruct (lookup_lt_is_Some_2 (ListValue.contents l) (Z.to_nat i)) as [x Hx]; [lia|].
  rewrite -> ListValue.at_contents by (done || lia). rw Hx /=. rewrite -> (drop_S _ _ _ Hx). simpl.
  case_bool_decide; [simpl; do 2 f_equal; lia|]. rewrite -> IH by lia.
  replace (Z.to_nat (i + 1)) with (S (Z.to_nat i)) by lia.
  destruct (index_of pivot _); simpl; do 2 f_equal. lia.
Qed.

Lemma index_of_lt v l j : index_of v l = Some j -> (j < length l)%nat.
Proof.
  revert j. induction l as [|x l IH]; intros j H; simplify_eq/=.
  case_bool_decide; simplify_eq/=; [lia|]. apply fmap_Some in H as (j' & Hj & ->).
  apply IH in Hj. lia.
Qed.

Lemma ListInsert_sim clk k pivot v before :
  sim rel (StoreList.ListInsert clk k pivot v before)
    (on_entry k (spec_ListInsert (clk 0%nat) pivot v before)).
Proof.
  apply with_shard_sim, list_op_implements. intros obj st Ha.
  pose proof (la_list _ _ _ Ha) as Hl. pose proof (la_size _ _ _ Ha).
  pose proof (wf_size_len _ Hl) as Hlen.
  unfold ListValue.Len. rewrite -> find_pivot_spec by (done || lia). simpl.
  rw drop_0. unfold insert_list. destruct (index_of pivot _) as [j|] eqn:Hj; simpl.
  - apply index_of_lt in Hj. unfold len in Hlen.
    set (p := if before then _ else _).
    assert (p = Z.of_nat (if before then j else S j)) as -> by (subst p; destruct before; lia).
    destruct (ListValue.insert_spec (oList obj) (Z.of_nat (if before then j else S j)) v)
      as (l' & -> & Hl' & Hc'); [done|destruct before; lia|]. simpl. rw Nat2Z.id in Hc'.
    assert (Hlen' : lsize l' = len (ListValue.contents (oList obj)) + 1).
    { rw -(wf_size_len l' Hl') Hc'. apply ListValue.insert_at_len. destruct before; lia. }
    rw Hlen'. eexists. split; [done|]. rw -Hc'.
    apply list_at_put; [done..|]. pose proof (len_nonneg (ListValue.contents (oList obj))). lia.
  - eexists. split; [done|]. by apply list_at_refl.
Qed.

Lemma take_min {A} n (l : list A) m :
  len l <= m -> take (Z.to_nat (Z.min n m)) l = take (Z.to_nat n) l.
Proof.
  intros. destruct (Z.le_gt_cases n m); [by rewrite -> Z.min_l by done|].
  unfold len in *. by rewrite -> !take_ge by lia.
Qed.

Lemma drop_min {A} n (l : list A) m :
  len l <= m -> drop (Z.to_nat (Z.min n m)) l = drop (Z.to_nat n) l.
Proof.
  intros. destruct (Z.le_gt_cases n m); [by rewrite -> Z.min_l by done|].
  unfold len in *. by rewrite -> !drop_ge by lia.
Qed.

(** What remains of the scan when the indexes [idx] are still to be visited. *)
Definition scan (c : list gostring) (v : gostring) (rank count maxLen seen examined got : Z)
    (idx : list nat) : list Z :=
  let idx := if 0 <? maxLen then take (Z.to_nat (maxLen - examined)) idx else idx in
  let hits := drop (Z.to_nat (rank - 1 - seen)) (filter (fun j => c !! j = Some v) idx) in
  Z.of_nat <$> (if 0 <? count then take (Z.to_nat (count - got)) hits else hits).

Lemma scan_stop c v rank count maxLen seen examined got idx :
  0 < maxLen <= examined -> scan c v rank count maxLen seen examined got idx = [].
Proof.
  intros. unfold scan. rewrite -> (proj2 (Z.ltb_lt 0 maxLen)) by lia.
  replace (Z.to_nat (maxLen - examined)) with O by lia. simpl.
  rw drop_nil. by rw take_nil; destruct (0 <? count).
Qed.

Lemma scan_cons c v rank count maxLen seen examined got j idx :
  (0 < maxLen -> examined < maxLen) -> (0 < count -> got < count) ->
  scan c v rank count maxLen seen examined got (j :: idx) =
    if decide (c !! j = Some v) then
      if seen + 1 <? rank then scan c v rank count maxLen (seen + 1) (examined + 1) got idx
      else Z.of_nat j :: scan c v rank count maxLen (seen + 1) (examined + 1) (got + 1) idx
    else scan c v rank count maxLen seen (examined + 1) got idx.
Proof.
  intros Hm Hg. unfold scan. cbv zeta.
  assert ((if 0 <? maxLen then take (Z.to_nat (maxLen - examined)) (j :: idx) else j :: idx) =
          j :: (if 0 <? maxLen then take (Z.to_nat (maxLen - (examined + 1))) idx else idx)) as ->.
  { destruct (Z.ltb_spec 0 maxLen); [|done].
    replace (Z.to_nat (maxLen - examined)) with (S (Z.to_nat (maxLen - (examined + 1)))) by lia. done. }
  set (E := if 0 <? maxLen then _ else _). rw filter_cons. case_decide; [|done].
  destruct (Z.ltb_spec (seen + 1) rank).
  - replace (Z.to_nat (rank - 1 - seen)) with (S (Z.to_nat (rank - 1 - (seen + 1)))) by lia. done.
  - replace (Z.to_nat (rank - 1 - seen)) with O by lia.
    replace (Z.to_nat (rank - 1 - (seen + 1))) with O by lia. rw !drop_0.
    destruct (Z.ltb_spec 0 count); [|done].
    replace (Z.to_nat (count - got)) with (S (Z.to_nat (count - (got + 1)))) by lia. done.
Qed.

Lemma scan_full c v rank count maxLen seen examined got idx :
  0 < count <= got -> scan c v rank count maxLen seen examined got idx = [].
Proof.
  intros. unfold scan. rewrite -> (proj2 (Z.ltb_lt 0 count)) by lia.
  by replace (Z.to_nat (count - got)) with O by lia.
Qed.

Lemma position_loop_spec l idx v index step rank count maxLen seen examined positions :
  ListValue.wf l ->
  (forall (t j : nat), idx !! t = Some j ->
     Z.of_nat j = index + step * Z.of_nat t /\ Z.of_nat j < lsize l) ->
  (0 < count -> len positions < count) ->
  StoreList.position_loop l (length idx) v index step rank count maxLen seen examined positions =
    Some (positions ++ scan (ListValue.contents l) v rank count maxLen seen examined (len positions) idx).
Proof.
  intros Hl. revert index seen examined positions.
  induction idx as [|j idx IH]; intros index seen examined positions Hidx Hg; simpl.
  { unfold scan. rw take_nil. destruct (0 <? maxLen); rw filter_nil drop_nil take_nil;
      destruct (0 <? count); by rw app_nil_r. }
  destruct (Hidx O j eq_refl) as [Hj Hjlt]. pose proof Hl as [Hs _].
  assert (Hidx' : forall t j' : nat, idx !! t = Some j' ->
     Z.of_nat j' = index + step + step * Z.of_nat t /\ Z.of_nat j' < lsize l).
  { intros t j' Ht. destruct (Hidx (S t) j' Ht). lia. }
  destruct ((0 <? maxLen) && (maxLen <=? examined)) eqn:Hm.
  { bool_prop. rewrite -> scan_stop by lia. by rw app_nil_r. }
  assert (Hm' : 0 < maxLen -> examined < maxLen)
    by (apply andb_false_iff in Hm as [?|?]; bool_prop; lia).
  assert (index = Z.of_nat j) as -> by lia.
  destruct (lookup_lt_is_Some_2 (ListValue.contents l) j) as [x Hx].
  { rewrite -> ListValue.contents_length by done. lia. }
  rewrite -> ListValue.at_contents by (done || lia). rw Nat2Z.id Hx /=.
  rewrite -> scan_cons by done. rw Hx.
  case_bool_decide as Hv; subst; simpl.
  - rewrite -> decide_True by done. destruct (Z.ltb_spec (seen + 1) rank); [by apply IH|].
    assert (Hlen : len (positions ++ [Z.of_nat j]) = len positions + 1) by (by autorewrite with len).
    destruct ((0 <? count) && (count <=? len (positions ++ [Z.of_nat j]))) eqn:Hc.
    + bool_prop. rewrite -> scan_full by lia. done.
    + rewrite -> IH; [|done|]. { by rw Hlen -app_assoc. }
      intros Hpos. rw Hlen. apply andb_false_iff in Hc as [?|?]; bool_prop; lia.
  - rewrite -> decide_False by congruence. by apply IH.
Qed.

Lemma scan_position_list c v rank count maxLen :
  scan c v (Z.abs rank) count maxLen 0 0 0
    (if rank <? 0 then reverse (seq 0 (length c)) else seq 0 (length c)) =
  position_list v rank count maxLen c.
Proof.
  unfold scan, position_list. cbv zeta.
  set (idx := if rank <? 0 then _ else _). rw !Z.sub_0_r.
  assert (Hidx : len idx <= len c).
  { subst idx. unfold len. destruct (rank <? 0); rw ?length_reverse length_seq; lia. }
  rewrite -> (take_min maxLen) by done. set (E := if 0 <? maxLen then _ else _).
  assert (HE : len E <= len c).
  { subst E. destruct (0 <? maxLen); [|done]. unfold len in *. rw length_take. lia. }
  set (hits := filter _ E). assert (Hh : len hits <= len c).
  { subst hits. etrans; [|done]. unfold len. apply inj_le, length_filter. }
  rewrite -> drop_min by done. rewrite -> take_min; [done|].
  unfold len in *. rw length_drop. lia.
Qed.

Lemma ListPosition_sim clk k v rank count maxLen :
  sim rel (StoreList.ListPosition clk k v rank count maxLen)
    (on_entry k (spec_ListPosition (clk 0%nat) v rank count maxLen)).
Proof.
  apply with_shard_sim. unfold spec_ListPosition, implements.
  destruct (rank =? min_int64).
  { intros st Hw. pose proof (eff_refl _ k st Hw). effect_done. }
  apply list_op_implements. intros obj st Ha. cbv zeta. simpl.
  pose proof (la_list _ _ _ Ha) as Hl. pose proof (wf_size_len _ Hl) as Hlen.
  pose proof (list_at_refl _ _ _ Ha) as He. pose proof (la_size _ _ _ Ha).
  rewrite <- scan_position_list. unfold ListValue.Len.
  set (idx := if rank <? 0 then reverse _ else _).
  assert (Hn : Z.to_nat (lsize (oList obj)) = length idx).
  { subst idx. unfold len in Hlen. destruct (rank <? 0); rw ?length_reverse length_seq; lia. }
  destruct (Z.ltb_spec rank 0).
  - rw Hn. rewrite -> position_loop_spec; [|done| |by intros].
    { rewrite -> Z.abs_neq by lia. simpl. by eexists. }
    intros t j Ht. subst idx. rw reverse_lookup_Some length_seq in Ht.
    destruct Ht as [Ht ?]. apply lookup_seq in Ht. unfold len in Hlen. lia.
  - rw Hn. rewrite -> position_loop_spec; [|done| |by intros].
    { rewrite -> Z.abs_eq by lia. simpl. by eexists. }
    intros t j Ht. subst idx. apply lookup_seq in Ht. unfold len in Hlen. lia.
Qed.

(** ** [ListPush] *)
Lemma listZero_wf : ListValue.wf listZero.
Proof.
  split; [|done]. constructor; simpl; [done|by right|done].
Qed.

Lemma push_list_size left vs l l' :
  vs <> [] -> ListValue.wf l' -> ListValue.contents l' = push_list left vs l -> 0 < lsize l'.
Proof.
  intros Hvs Hl' Hc. rw -(wf_size_len l' Hl') Hc. unfold push_list, len.
  destruct vs as [|v vs]; [done|]. destruct left; rw length_app ?length_reverse /=; lia.
Qed.

(** A list stored under a key that has just been found dead. *)
Lemma fresh_list_put key st l stamp :
  shard_wf (getShardIndex key) st.1 -> ListValue.wf l -> 0 < lsize l ->
  eff (getShardIndex key) key st (put stamp key (with_list (objOfKind ListKind) l) st)
    (list_entry (ListValue.contents l) GoTime.zeroTime).
Proof.
  intros Hw Hl Hs. rewrite -> list_entry_contents by done.
  apply (put_eff _ key st (with_list (objOfKind ListKind) l)); [done..|].
  intros Hz. by vm_compute in Hz.
Qed.

Lemma ListPush_sim clk k vs left only :
  vs <> [] ->
  sim rel (StoreList.ListPush clk k vs left only)
    (on_entry k (spec_ListPush (clk 0%nat) vs left only)).
Proof.
  intros Hvs. apply with_shard_sim. intros st Hw. unfold spec_ListPush.
  destruct (live_cases k st (clk 0%nat) Hw) as (o & st1 & -> & He & Hl & Ho). rw Hl. simpl.
  destruct o as [[v e [] l a]|]; simpl in *; [effect_done| |].
  - destruct (push_all_spec l vs left) as (l' & -> & Hl' & Hc); [apply Ho|]. simpl.
    do 3 eexists. split_and!; [done|eapply eff_trans; [done|]; apply (list_at_put _ _ _ l' _ Ho)|];
      [done|by eapply push_list_size|]. simpl. unfold ListValue.Len.
    by rewrite <- (wf_size_len l' Hl'), Hc.
  - destruct only; [effect_done|].
    destruct (push_all_spec listZero vs left listZero_wf) as (l' & -> & Hl' & Hc). simpl.
    do 3 eexists. split_and!; [done|eapply eff_trans; [done|]; apply (fresh_list_put k st1 l')|];
      [by eapply eff_wf|done|by eapply push_list_size|].
    unfold ListValue.Len. by rewrite <- (wf_size_len l' Hl'), Hc.
Qed.

(** ** [ListMove] *)
Lemma pop_list_0 left l : pop_list left 0 l = ([], l).
Proof.
  unfold pop_list. destruct left; simpl; [done|]. by rw Nat.sub_0_r drop_all firstn_all.
Qed.

Lemma spec_push_list left v l : ListValue.spec_push left v l = push_list left [v] l.
Proof. by destruct left. Qed.

(** The three steps of [listMoveLocked] on one key of the store. *)
Lemma on_key_eff {A} key (f : shardst -> option (A * shardst)) s :
  wf s ->
  (forall st, shard_wf (getShardIndex key) st.1 -> shard_abs st.1 !! key = abs s !! key ->
     exists r st' e, f st = Some (r, st') /\ eff (getShardIndex key) key st st' e) ->
  exists r s' st' e, StoreList.on_key key f s = Some (r, s') /\ wf s' /\
    abs s' = partial_alter (fun _ => e) key (abs s) /\
    (exists st, shard_abs st.1 !! key = abs s !! key /\ shard_wf (getShardIndex key) st.1 /\
       f st = Some (r, st') /\ eff (getShardIndex key) key st st' e).
Proof.
  intros Hw Hf. unfold StoreList.on_key, with_shard, on_shard.
  destruct (wf_shard_of s key Hw) as [sh Hsh]. rw Hsh /=.
  assert (Hws : shard_wf (getShardIndex key) sh) by (by apply (wf_shards s Hw)).
  pose proof (abs_lookup s key sh Hw Hsh) as Ha.
  destruct (Hf (sh, usedBytes s) Hws (eq_sym Ha)) as (r & [sh' used'] & e & Heq & He). rw Heq /=.
  destruct (eff_store s key sh sh' used' e Hw Hsh He (lastExpirationLog s) (pendingExpired s)).
  exists r. eexists. exists (sh', used'), e. split_and!; [done..|].
  by exists (sh, usedBytes s).
Qed.

Lemma live_at key now s :
  wf s ->
  exists o s', StoreList.on_key key (liveObjectLocked now key) s = Some (o, s') /\ wf s' /\
    abs s' = clean now key (abs s) /\ abs s' !! key = obj_entry <$> o /\
    match o with Some obj => obj_wf obj | None => True end.
Proof.
  intros Hw. destruct (on_key_eff key (liveObjectLocked now key) s Hw)
    as (o & s' & st' & e & Heq & Hw' & Ha & st & Hst & Hws & Hf & He).
  { intros st Hws _. destruct (live_eff _ key st now Hws) as (o & st' & ? & ? & _). by do 3 eexists. }
  destruct (live_eff _ key st now Hws) as (o' & st'' & Hf' & He' & Ho & Hd).
  rw Hf in Hf'. simplify_eq.
  assert (e = live now (abs s !! key)) as ->.
  { rw -(eff_key _ _ _ _ _ He) (eff_key _ _ _ _ _ He'). by rw Hst. }
  exists (sdata st''.1 !! key), s'. split_and!; [done..| |].
  - rw Ha lookup_partial_alter_eq. by rw Ho Hst.
  - destruct (sdata st''.1 !! key) as [obj|] eqn:Hk; [|done].
    exact (sw_objs _ _ (eff_wf _ _ _ _ _ He) key obj Hk).
Qed.

Lemma put_at_spec key obj stamp s :
  wf s -> obj_wf obj ->
  (GoTime.IsZero (oExpiresAt obj) = false ->
     exists e, abs s !! key = Some e /\ eExp e = oExpiresAt obj) ->
  exists s', StoreList.put_at stamp key obj s = Some s' /\ wf s' /\
    abs s' = <[key := obj_entry obj]> (abs s).
Proof.
  intros Hw Ho Hz.
  assert (Hp : forall st, shard_wf (getShardIndex key) st.1 -> shard_abs st.1 !! key = abs s !! key ->
     eff (getShardIndex key) key st (put stamp key obj st) (Some (obj_entry obj))).
  { intros st Hws Hst. apply put_eff; [done..|]. intros Hnz.
    destruct (Hz Hnz) as (e & He & Hexp). rw -Hst shard_abs_lookup in He.
    apply fmap_Some in He as (o & Hk & ->). simpl in Hexp.
    apply (sw_vol_complete _ _ Hws key o Hk). by rw Hexp. }
  destruct (on_key_eff key (fun st => Some (tt, put stamp key obj st)) s Hw)
    as (r & s' & st' & e & Heq & Hw' & Ha & st & Hst & Hws & Hf & He).
  { intros st Hws Hst. do 3 eexists. split; [done|]. by apply Hp. }
  unfold StoreList.put_at. rw Heq /=. exists s'. split_and!; [done..|].
  simplify_eq. rw Ha -(eff_key _ _ _ _ _ He) (eff_key _ _ _ _ _ (Hp st Hws Hst)). done.
Qed.

Lemma remove_at_spec key s :
  wf s -> exists s', StoreList.remove_at key s = Some s' /\ wf s' /\ abs s' = delete key (abs s).
Proof.
  intros Hw. destruct (on_key_eff key (fun st => st ← remove key st; Some (tt, st)) s Hw)
    as (r & s' & st' & e & Heq & Hw' & Ha & st & Hst & Hws & Hf & He).
  { intros st Hws Hst. destruct (remove_eff _ key st Hws) as (st' & -> & He). by do 3 eexists. }
  unfold StoreList.remove_at. rw Heq /=. exists s'. split_and!; [done..|].
  destruct (remove_eff _ key st Hws) as (st2 & Hr & He2). rw Hr /= in Hf. simplify_eq.
  rw Ha -(eff_key _ _ _ _ _ He) (eff_key _ _ _ _ _ He2). done.
Qed.

(** Storing the popped source list, or removing its key when nothing is left. *)
Lemma put_back_source key obj l stamp s :
  wf s -> obj_wf obj -> oKind obj = ListKind -> abs s !! key = Some (obj_entry obj) ->
  ListValue.wf l ->
  exists s',
    (if ListValue.Len l =? 0 then StoreList.remove_at key s
     else StoreList.put_at stamp key (with_list obj l) s) = Some s' /\ wf s' /\
    abs s' = partial_alter (fun _ => list_entry (ListValue.contents l) (oExpiresAt obj)) key (abs s).
Proof.
  intros Hw Ho Hk He Hl. unfold ListValue.Len. destruct (Z.eqb_spec (lsize l) 0) as [Hz|Hnz].
  - pose proof (wf_size_len l Hl) as Hlen. rw Hz in Hlen. rewrite -> (len_zero_nil _ Hlen).
    by apply remove_at_spec.
  - assert (0 < lsize l) by (destruct Hl as [[? ? ?] _]; lia).
    rewrite -> list_entry_contents by done.
    destruct (put_at_spec key (with_list obj l) stamp s Hw) as (s' & -> & Hw' & Ha).
    + unfold obj_wf in *. simpl. rw Hk in Ho. rw Hk. naive_solver.
    + intros _. by exists (obj_entry obj).
    + exists s'. split_and!; [done..|]. rw Ha. unfold obj_entry. simpl. by rw Hk.
Qed.

Lemma list_obj_wf obj : obj_wf obj -> oKind obj = ListKind ->
  oValue obj = [] /\ ListValue.wf (oList obj) /\ 0 < lsize (oList obj).
Proof. unfold obj_wf. intros H Hk. by rw Hk in H. Qed.

Lemma with_list_wf obj l :
  oKind obj = ListKind -> oValue obj = [] -> ListValue.wf l -> 0 < lsize l ->
  obj_wf (with_list obj l) /\
  obj_entry (with_list obj l) = mkEntry (VList (ListValue.contents l)) (oExpiresAt obj).
Proof. intros Hk Hv Hl Hs. unfold obj_wf, obj_entry. simpl. by rw Hk. Qed.

(** The popped element and both list buffers, before anything is stored. *)
Lemma move_element sl dl fromLeft toLeft :
  ListValue.wf sl -> 0 < lsize sl -> ListValue.wf dl ->
  exists v sl' dl', ListValue.pop sl fromLeft = Some ((v, true), sl') /\
    ListValue.push dl v toLeft = Some dl' /\
    ListValue.wf sl' /\ ListValue.wf dl' /\ 0 < lsize dl' /\
    pop_list fromLeft 1 (ListValue.contents sl) = ([v], ListValue.contents sl') /\
    ListValue.contents dl' = push_list toLeft [v] (ListValue.contents dl).
Proof.
  intros Hsl Hs Hdl. destruct (ListValue.pop_spec sl fromLeft Hsl Hs) as (v & sl' & -> & Hsl' & Hc).
  destruct (ListValue.push_spec dl v toLeft Hdl) as (dl' & Hp & Hdl' & Hcd).
  rw spec_push_list in Hcd. exists v, sl', dl'. split_and!; [done..| | |done].
  - by apply (push_list_size toLeft [v] (ListValue.contents dl)).
  - by rw Hc pop_list_step pop_list_0.
Qed.

(** Moving within one list. *)
Lemma move_same clk key obj fromLeft toLeft s :
  wf s -> obj_wf obj -> oKind obj = ListKind -> abs s !! key = Some (obj_entry obj) ->
  exists v l', pop_list fromLeft 1 (ListValue.contents (oList obj)) = ([v], l') /\
  exists s',
    ('((value, _), l) ← ListValue.pop (oList obj) fromLeft;
     l ← ListValue.push l value toLeft;
     s ← StoreList.put_at (clk 2%nat) key (with_list obj l) s;
     Some (inr (Some value), s)) = Some (@inr storeErr _ (Some v), s') /\ wf s' /\
    abs s' = <[key := mkEntry (VList (push_list toLeft [v] l')) (oExpiresAt obj)]> (abs s).
Proof.
  intros Hw Ho Hk He. destruct (list_obj_wf obj Ho Hk) as (Hv & Hl & Hs).
  destruct (ListValue.pop_spec (oList obj) fromLeft Hl Hs) as (v & l1 & -> & Hl1 & Hc).
  destruct (ListValue.push_spec l1 v toLeft Hl1) as (l2 & Hp & Hl2 & Hc2).
  rw spec_push_list in Hc2. exists v, (ListValue.contents l1).
  split; [by rw Hc pop_list_step pop_list_0|]. simpl. rw Hp /=.
  assert (0 < lsize l2) by (by apply (push_list_size toLeft [v] (ListValue.contents l1))).
  destruct (with_list_wf obj l2) as [Hwl Hel]; [done..|].
  destruct (put_at_spec key (with_list obj l2) (clk 2%nat) s Hw Hwl) as (s' & -> & Hw' & Ha).
  { intros _. by exists (obj_entry obj). }
  exists s'. split_and!; [done..|]. by rw Ha Hel Hc2.
Qed.

Lemma ListMove_sim clk src dst fromLeft toLeft :
  sim rel (StoreList.ListMove clk src dst fromLeft toLeft)
    (spec_ListMove (clk 0%nat) (clk 1%nat) src dst fromLeft toLeft).
Proof.
  intros s db [Hw <-]. unfold StoreList.ListMove, StoreList.listMoveLocked, spec_ListMove.
  destruct (live_at src (clk 0%nat) s Hw) as (o & s1 & -> & Hw1 & Ha1 & He1 & Ho1).
  rw -Ha1 He1. simpl. destruct o as [[v e [] l a]|]; simpl in *; [by do 3 eexists| |by do 3 eexists].
  set (obj := mkObj v e ListKind l a) in *. destruct (list_obj_wf obj Ho1 eq_refl) as (_ & Hl & Hs).
  case_bool_decide as Heq.
  { destruct (move_same clk src obj fromLeft toLeft s1) as (w & l' & Hpop & s' & Hrun & Hw' & Ha');
      [done..|]. simpl in *. rw Hrun Hpop. by do 3 eexists. }
  destruct (live_at dst (clk 1%nat) s1 Hw1) as (d & s2 & -> & Hw2 & Ha2 & He2 & Ho2).
  assert (He2s : abs s2 !! src = Some (obj_entry obj))
    by (rewrite -> Ha2; unfold clean; by rewrite -> lookup_partial_alter_ne by done).
  set (dobj := default (objOfKind ListKind) d).
  destruct (pop_list fromLeft 1 (ListValue.contents l)) as [vs l'] eqn:Hpop.
  rw -Ha2 He2. simpl.
  assert (Hgo : match d with Some o => oKind o = ListKind | None => True end ->
    exists s', ('((value, _), sl) ← ListValue.pop l fromLeft;
       dl ← ListValue.push (oList dobj) value toLeft;
       s3 ← (if ListValue.Len sl =? 0 then StoreList.remove_at src s2
             else StoreList.put_at (clk 2%nat) src (with_list obj sl) s2);
       s4 ← StoreList.put_at (clk 3%nat) dst (with_list dobj dl) s3;
       Some (inr (Some value), s4)) = Some (@inr storeErr _ (Some (default [] (head vs))), s') /\
      wf s' /\ abs s' = <[dst := mkEntry (VList (push_list toLeft [default [] (head vs)]
                 (ListValue.contents (oList dobj)))) (oExpiresAt dobj)]>
                 (partial_alter (fun _ => list_entry l' e) src (abs s2))).
  { intros Hd. assert (Hdw : oKind dobj = ListKind /\ oValue dobj = [] /\ ListValue.wf (oList dobj)).
    { subst dobj. destruct d as [o|]; simpl; [|by split_and!; try apply listZero_wf].
      destruct (list_obj_wf o Ho2 Hd) as (? & ? & ?). done. }
    destruct Hdw as (Hdk & Hdv & Hdl).
    destruct (move_element l (oList dobj) fromLeft toLeft) as (w & sl & dl & -> & Hpush & Hsl & Hdl' & Hds & Hp & Hcd);
      [done..|]. simpl. rw Hpush /=. rw Hp in Hpop. simplify_eq/=.
    destruct (put_back_source src obj sl (clk 2%nat) s2) as (s3 & -> & Hw3 & Ha3); [done..|]. simpl.
    destruct (with_list_wf dobj dl) as [Hwl Hel]; [done..|].
    destruct (put_at_spec dst (with_list dobj dl) (clk 3%nat) s3 Hw3 Hwl) as (s4 & -> & Hw4 & Ha4).
    { intros Hz. exists (obj_entry dobj). split; [|done]. simpl in Hz.
      rewrite -> Ha3, lookup_partial_alter_ne, He2 by done. subst dobj.
      destruct d; [done|]. by vm_compute in Hz. }
    exists s4. split_and!; [done..|]. by rw Ha4 Hel Ha3 Hcd. }
  destruct d as [[dv de [] dl da]|]; simpl in *; [by do 3 eexists| |];
    destruct (Hgo ltac:(done)) as (s' & Hrun & Hw' & Ha'); rw Hrun; by do 3 eexists.
Qed.

End StoreRefine.

(** The engine keeps the promise of the interface. *)
#[export] Instance Store_refines : StoreRefines Store DB StoreProof.rel.
Proof.
  constructor; intros.
  - apply StoreRefine.Set_sim.
  - apply StoreRefine.SetAt_sim.
  - apply StoreRefine.GetString_sim.
  - apply StoreRefine.TTL_sim.
  - apply StoreRefine.Del_sim.
  - apply StoreRefine.Expire_sim.
  - apply StoreRefine.ExpireAt_sim.
  - by apply StoreRefine.ListPush_sim.
  - by apply StoreRefine.ListPop_sim.
  - apply StoreRefine.ListLen_sim.
  - apply StoreRefine.ListRange_sim.
  - apply StoreRefine.ListIndex_sim.
  - apply StoreRefine.ListSet_sim.
  - apply StoreRefine.ListTrim_sim.
  - apply StoreRefine.ListRem_sim.
  - apply StoreRefine.ListInsert_sim.
  - apply StoreRefine.ListPosition_sim.
  - apply StoreRefine.ListMove_sim.
Qed.
