(* ===== verification/StoreMaint.v ===== *)
(** * Maintenance of the store

    [internal/storage/memory.go] (LRU sampling) and [storage.go] lines 306 to 514:
    the active expiration cycle and snapshots.  Random draws are an arbitrary
    function [rnd], draw number [c] being [IntN rnd c n]; Go's unspecified map
    iteration order is a function [ord] from the keys of a shard to the sequence
    they are visited in. *)

From S2P Require Import Prelude GoTime ListValue KeyIndex Store.

Module StoreMaint.
Import Store.

(** ** memory.go *)
Definition UsedMemory (s : Store) : Z := usedBytes s.

Definition lruSampleSize : Z := 5.

(** The shards in visiting order, from a random start. *)
Definition visit_order (start : nat) : list nat :=
  (fun i => (start + i) mod numShards)%nat <$> seq 0 numShards.

(** The loop of [LRUVictim] over the remaining shards: the best key so far with
    its access time, the number sampled, the next draw. *)
Fixpoint lru_loop (rnd : nat -> nat) (s : Store) (order : list nat) (best : option (gostring * Z))
    (sampled : Z) (c : nat) : option (option (gostring * Z)) :=
  match order with
  | [] => Some best
  | i :: order' =>
      if sampled <? lruSampleSize then
        sh ← shards s !! i;
        let n := KeyIndex.size (sall sh) in
        if (0 <? n)%nat then
          key ← KeyIndex.at_ (sall sh) (IntN rnd c n);
          let access := match sdata sh !! key with Some o => oLastAccess o | None => 0 end in
          let best := match best with
                      | None => Some (key, access)
                      | Some (_, oldest) => if access <? oldest then Some (key, access) else best
                      end in
          lru_loop rnd s order' best (sampled + 1) (S c)
        else lru_loop rnd s order' best sampled c
      else Some best
  end.

(** [(victim, true)] is [Some victim]. *)
Definition LRUVictim (rnd : nat -> nat) (s : Store) : option (option gostring) :=
  best ← lru_loop rnd s (visit_order (IntN rnd 0 numShards)) None 0 1;
  Some (match best with Some (victim, _) => Some victim | None => None end).

(** ** Active expiration *)
Definition sampleSize : Z := 20.
Definition perShard : Z := 5.
Definition maxIterations : nat := 16.
Definition maxDuration : Z := 25 * GoTime.Millisecond.

(** The loop over [j] in one shard: keys sampled, expired keys, stale keys. *)
Fixpoint sample_shard (sh : shard) (now : Z) (offset n : nat) (js : list nat) (sampled : Z)
    (expired stale : list gostring) : option (Z * list gostring * list gostring) :=
  match js with
  | [] => Some (sampled, expired, stale)
  | j :: js' =>
      key ← KeyIndex.at_ (svolatile sh) ((offset + j) mod n);
      match sdata sh !! key with
      | Some obj =>
          if GoTime.IsZero (oExpiresAt obj)
          then sample_shard sh now offset n js' sampled expired (stale ++ [key])
          else sample_shard sh now offset n js' (sampled + 1)
                 (if IsExpired obj now then expired ++ [key] else expired) stale
      | None => sample_shard sh now offset n js' sampled expired (stale ++ [key])
      end
  end.

Fixpoint drop_stale (stale : list gostring) (sh : shard) : option shard :=
  match stale with
  | [] => Some sh
  | key :: stale' =>
      vol ← KeyIndex.remove (svolatile sh) key;
      drop_stale stale' (mkShard (sdata sh) (sall sh) vol)
  end.

(** *** Other goroutines

    The cycle takes and releases the lock of one shard at a time, and whatever uses the
    store may run in between.  [others n] is what happens to the store, and to the rest
    [E] of the state, between two critical sections; each function below takes a
    sequence of them and uses the next one before it takes a lock. *)
Definition interference (E : Type) : Type := nat -> E * Store -> E * Store.

(** Nobody else uses the store. *)
Definition alone {E} : interference E := fun _ es => es.

Section interleaved.
Context {E : Type}.

Fixpoint sample_loop (rnd : nat -> nat) (others : interference E) (now limit : Z) (order : list nat) (sampled : Z)
    (expired : list gostring) (c : nat) (es : E * Store) : option ((Z * list gostring) * (E * Store)) :=
  match order with
  | [] => Some ((sampled, expired), es)
  | i :: order' =>
      if sampled <? limit then
        let '(e, s) := others 0%nat es in
        sh ← shards s !! i;
        let n := KeyIndex.size (svolatile sh) in
        if (n =? 0)%nat then sample_loop rnd (skip 1 others) now limit order' sampled expired c (e, s)
        else
          let offset := IntN rnd c n in
          let take := Z.min (Z.of_nat n) (Z.min perShard (limit - sampled)) in
          '(sampled, expired, stale) ←
            sample_shard sh now offset n (seq 0 (Z.to_nat take)) sampled expired [];
          sh ← drop_stale stale sh;
          sample_loop rnd (skip 1 others) now limit order' sampled expired (S c)
            (e, mkStore (<[i := sh]> (shards s)) (usedBytes s) (lastExpirationLog s) (pendingExpired s))
      else Some ((sampled, expired), es)
  end.

Definition sampleExpired (rnd : nat -> nat) (others : interference E) (clk : clock) (limit : Z) (es : E * Store)
    : option ((Z * list gostring) * (E * Store)) :=
  sample_loop rnd others (clk 0%nat) limit (visit_order (IntN rnd 0 numShards)) 0 [] 1 es.

(** [obj, exists := sh.data[key]; exists && obj.IsExpired(now)]. *)
Definition expired_in (sh : shard) (now : Z) (key : gostring) : bool :=
  match sdata sh !! key with Some obj => IsExpired obj now | None => false end.

(** One turn of the loop of [DeleteExpired]: the key may have been overwritten with a
    live value since it was sampled, so it is looked at again. *)
Definition delete_candidate (now : Z) (key : gostring) (s : Store) : option (bool * Store) :=
  with_shard key s (fun st =>
    if expired_in st.1 now key then st ← remove key st; Some (true, st) else Some (false, st)).

Fixpoint delete_loop (others : interference E) (now : Z) (candidates : list gostring) (deleted : Z) (es : E * Store)
    : option (Z * (E * Store)) :=
  match candidates with
  | [] => Some (deleted, es)
  | key :: candidates' =>
      let '(e, s) := others 0%nat es in
      '(hit, s) ← delete_candidate now key s;
      delete_loop (skip 1 others) now candidates' (if (hit : bool) then deleted + 1 else deleted) (e, s)
  end.

Definition DeleteExpired (others : interference E) (clk : clock) (candidates : list gostring) (es : E * Store)
    : option (Z * (E * Store)) :=
  delete_loop others (clk 0%nat) candidates 0 es.
End interleaved.

(** Used under the executor's mutation lock, where others only read: at most, a key
    that is found expired here disappears before it is deleted. *)
Definition FilterExpired (clk : clock) (candidates : list gostring) (s : Store)
    : option (list gostring) :=
  let now := clk 0%nat in
  foldr (fun key out =>
           out ← out; sh ← shards s !! getShardIndex key;
           Some (if expired_in sh now key then key :: out else out)) (Some []) candidates.

Definition activeExpirationLogInterval : Z := 60 * GoTime.Second.

Definition reportActiveExpiration (clk : clock) (deleted : Z) (s : Store) : Store :=
  let pending := pendingExpired s + deleted in
  let now := clk 0%nat in
  if (pending =? 0) ||
     (negb (GoTime.IsZero (lastExpirationLog s)) &&
      (GoTime.Sub now (lastExpirationLog s) <? activeExpirationLogInterval))
  then mkStore (shards s) (usedBytes s) (lastExpirationLog s) pending
  else mkStore (shards s) (usedBytes s) now 0.

(** [remove] may change its own state [E] as well as the store; its flag is a
    returned error.  One iteration reads the clock for the time budget, for the
    sample and for the removal; the float comparison [len(expired)/sampled <=
    0.25] is exact for counts up to 20. *)
Section cycle.
Context {E : Type}.
Variable remove : option (clock -> list gostring -> E * Store -> option ((Z * bool) * (E * Store))).

Definition remove_batch (others : interference E) (clk : clock) (expired : list gostring) (es : E * Store)
    : option ((Z * bool) * (E * Store)) :=
  match expired with
  | [] => Some ((0, false), es)
  | _ =>
      match remove with
      | None => '(n, es) ← DeleteExpired others clk expired es; Some ((n, false), es)
      | Some f => f clk expired (others 0%nat es)
      end
  end.

Fixpoint cycle_loop (fuel : nat) (rnd : nat -> nat) (others : interference E) (clk : clock) (startTime total : Z)
    (es : E * Store) : option (Z * (E * Store)) :=
  match fuel with
  | O => Some (total, es)
  | S fuel' =>
      if maxDuration <=? GoTime.Sub (clk 0%nat) startTime then Some (total, es)
      else
        '((sampled, expired), es) ← sampleExpired rnd (fork1 (fork1 others)) (skip 1 clk) sampleSize es;
        if sampled =? 0 then Some (total, es)
        else
          '((n, failed), es) ← remove_batch (fork2 (fork1 others)) (skip 2 clk) expired es;
          let total := total + n in
          if (failed : bool) || (4 * len expired <=? sampled) then Some (total, es)
          else cycle_loop fuel' (skip 257 rnd) (fork2 others) (skip 4 clk) startTime total es
  end.

Definition ActiveExpireCycleWith (rnd : nat -> nat) (others : interference E) (clk : clock) (es : E * Store)
    : option (Z * (E * Store)) :=
  '(total, es) ← cycle_loop maxIterations rnd (fork1 others) (skip 2 clk) (clk 0%nat) 0 es;
  let '(e, s) := fork2 others 0%nat es in
  Some (total, (e, reportActiveExpiration (skip 1 clk) total s)).
End cycle.

Definition ActiveExpireCycle {E} : (nat -> nat) -> interference E -> clock -> E * Store -> option (Z * (E * Store)) :=
  ActiveExpireCycleWith None.

(** ** Snapshots *)
Definition snapshot_of (key : gostring) (obj : Obj) : option SnapshotEntry :=
  l ← (match oKind obj with
       | ListKind => ListValue.rangeCopy (oList obj) 0 (ListValue.Len (oList obj))
       | StringKind => Some []
       end);
  Some (mkSnapshot key (oValue obj) (oExpiresAt obj) (oKind obj) l).

(** The keys of one shard in the order they are visited; [visit] threads its own
    state and stops the walk by an error. *)
Fixpoint visit_keys {A Err : Type} (visit : SnapshotEntry -> A -> Err + A) (now : Z) (sh : shard)
    (keys : list gostring) (a : A) : option (Err + A) :=
  match keys with
  | [] => Some (inr a)
  | key :: keys' =>
      match sdata sh !! key with
      | Some obj =>
          if IsExpired obj now then visit_keys visit now sh keys' a
          else
            entry ← snapshot_of key obj;
            match visit entry a with
            | inl e => Some (inl e)
            | inr a => visit_keys visit now sh keys' a
            end
      | None => visit_keys visit now sh keys' a
      end
  end.

Fixpoint visit_shards {A Err : Type} (ord : gset gostring -> list gostring)
    (visit : SnapshotEntry -> A -> Err + A) (now : Z) (shs : list shard) (a : A) : option (Err + A) :=
  match shs with
  | [] => Some (inr a)
  | sh :: shs' =>
      r ← visit_keys visit now sh (ord (dom (sdata sh))) a;
      match r with inl e => Some (inl e) | inr a => visit_shards ord visit now shs' a end
  end.

(** The caller holds off writers, so every shard is read as it is now. *)
Definition ForEachSnapshot {A Err : Type} (ord : gset gostring -> list gostring) (clk : clock)
    (visit : SnapshotEntry -> A -> Err + A) (s : Store) (a : A) : option (Err + A) :=
  visit_shards ord visit (clk 0%nat) (shards s) a.

(** The collecting callback never fails; an error would be returned. *)
Definition collect (entry : SnapshotEntry) (entries : list SnapshotEntry)
    : unit + list SnapshotEntry := inr (entries ++ [entry]).

Definition SnapshotEntries (ord : gset gostring -> list gostring) (clk : clock) (s : Store)
    : option (unit + list SnapshotEntry) := ForEachSnapshot ord clk collect s [].

End StoreMaint.
