(* ===== verification/StoreMaintProof.v ===== *)
(** * Eviction sampling, active expiration and snapshots are correct

    In terms of the abstract database: the LRU victim is a stored key, active
    expiration removes nothing but entries that had expired at one of its clock
    readings, and a snapshot lists exactly the live entries, once each. *)

From S2P Require Import Prelude GoTime ListValue KeyIndex Store StoreSpec StoreProof StoreMaint.
Import StoreSpec.

Module StoreMaintProof.
Import Store StoreProof StoreMaint.

(** ** Shards *)
Lemma visit_order_lt start i : i ∈ visit_order start -> (i < numShards)%nat.
Proof.
  unfold visit_order. intros (j & -> & _)%list_elem_of_fmap. by apply Nat.mod_upper_bound.
Qed.

Lemma visit_order_all start i : (i < numShards)%nat -> i ∈ visit_order start.
Proof.
  intros Hi. apply list_elem_of_fmap.
  exists ((i + (numShards - start mod numShards)) mod numShards)%nat. split.
  - pose proof (Nat.mod_upper_bound start numShards ltac:(done)).
    rw Nat.Div0.add_mod_idemp_r. rewrite <- (Nat.Div0.add_mod_idemp_l start).
    replace (start mod numShards + (i + (numShards - start mod numShards)))%nat
      with (i + 1 * numShards)%nat by lia.
    by rewrite -> Nat.Div0.mod_add, Nat.mod_small.
  - apply elem_of_seq. split; [lia|]. by apply Nat.mod_upper_bound.
Qed.

Lemma shard_at s i : wf s -> (i < numShards)%nat -> exists sh, shards s !! i = Some sh /\ shard_wf i sh.
Proof.
  intros Hw Hi. destruct (lookup_lt_is_Some_2 (shards s) i) as [sh Hsh]; [by rw (wf_length s Hw)|].
  exists sh. split; [done|]. by apply (wf_shards s Hw).
Qed.

(** A key indexed by a shard is a key of the database. *)
Lemma index_key_abs s i sh k :
  wf s -> shards s !! i = Some sh -> k ∈ dom (sdata sh) -> is_Some (abs s !! k).
Proof.
  intros Hw Hsh Hk. pose proof (sw_home _ _ (wf_shards s Hw _ _ Hsh) k Hk) as Hi.
  rewrite -> (abs_lookup s k sh) by (by rw ?Hi). rw shard_abs_lookup.
  apply elem_of_dom in Hk as [o ->]. by eexists.
Qed.

Lemma empty_shards_abs s :
  wf s -> (forall i sh, shards s !! i = Some sh -> KeyIndex.size (sall sh) = 0%nat) -> abs s = ∅.
Proof.
  intros Hw He. apply map_empty. intros k. destruct (wf_shard_of s k Hw) as [sh Hsh].
  rewrite -> (abs_lookup s k sh), shard_abs_lookup by done.
  destruct (sdata sh !! k) as [o|] eqn:Hk; [|done]. apply elem_of_dom_2 in Hk.
  pose proof (wf_shards s Hw _ _ Hsh) as Hs. rewrite <- (sw_all_dom _ _ Hs) in Hk.
  specialize (He _ _ Hsh). unfold KeyIndex.size in He. apply nil_length_inv in He.
  unfold KeyIndex.keys_of in Hk. rw He in Hk. set_solver.
Qed.

(** ** LRU sampling *)
Lemma lru_loop_spec rnd s order best sampled c :
  wf s -> Forall (fun i => (i < numShards)%nat) order ->
  (best = None -> sampled = 0) ->
  (forall k t, best = Some (k, t) -> is_Some (abs s !! k)) ->
  exists r, lru_loop rnd s order best sampled c = Some r /\
    match r with
    | Some (k, _) => is_Some (abs s !! k)
    | None => best = None /\
        forall i sh, i ∈ order -> shards s !! i = Some sh -> KeyIndex.size (sall sh) = 0%nat
    end.
Proof.
  intros Hw Ho. revert best sampled c. induction Ho as [|i order Hi Ho IH]; intros best sampled c Hb Hk.
  { exists best. split; [done|]. destruct best as [[k t]|]; [by eapply Hk|]. split; [done|]. set_solver. }
  simpl. destruct (Z.ltb_spec sampled lruSampleSize); cycle 1.
  { exists best. split; [done|]. destruct best as [[k t]|]; [by eapply Hk|].
    unfold lruSampleSize in *. specialize (Hb eq_refl). lia. }
  destruct (shard_at s i Hw Hi) as (sh & Hsh & Hs). rw Hsh /=.
  destruct (Nat.ltb_spec 0 (KeyIndex.size (sall sh))) as [Hn|Hn].
  - destruct (KeyIndex.at_keys (sall sh) (IntN rnd c (KeyIndex.size (sall sh)))) as (k & -> & Hin).
    { apply Nat.mod_upper_bound. lia. }
    simpl. rewrite -> (sw_all_dom _ _ Hs) in Hin. apply (index_key_abs s i sh) in Hin; [|done..].
    match goal with |- context [lru_loop _ _ _ ?b _ _] => destruct (IH b (sampled + 1) (S c)) as (r & -> & Hr) end.
    + destruct best as [[? ?]|]; [by case_match|done].
    + intros k' t Hkt. destruct best as [[? ?]|]; [case_match|]; simplify_eq; eauto.
    + exists r. split; [done|]. destruct r as [[]|]; [done|]. destruct Hr as [Hr _].
      destruct best as [[? ?]|]; [case_match|]; done.
  - destruct (IH best sampled c Hb Hk) as (r & -> & Hr). exists r. split; [done|].
    destruct r as [[]|]; [done|]. destruct Hr as [-> Hr]. split; [done|].
    intros j sh' [->|Hj]%elem_of_cons Hsh'; [simplify_eq; lia|by eapply Hr].
Qed.

Lemma LRUVictim_spec rnd s :
  wf s -> exists r, LRUVictim rnd s = Some r /\
    match r with Some k => is_Some (abs s !! k) | None => abs s = ∅ end.
Proof.
  intros Hw. unfold LRUVictim.
  destruct (lru_loop_spec rnd s (visit_order (IntN rnd 0 numShards)) None 0 1) as (r & -> & Hr); [done| |done|done|].
  { apply Forall_forall. apply visit_order_lt. }
  simpl. eexists. split; [done|]. destruct r as [[]|]; [done|]. destruct Hr as [_ Hr].
  apply empty_shards_abs; [done|]. intros i sh Hsh. eapply Hr; [|done].
  apply visit_order_all. rw -(wf_length s Hw). by eapply lookup_lt_Some.
Qed.

(** ** Sampling for expired keys *)
Definition expired_key (db : DB) (now : Z) (k : gostring) : Prop :=
  exists e, db !! k = Some e /\ expired now e = true.

(** A key of the TTL index that has no deadline. *)
Definition stale_key (sh : shard) (k : gostring) : Prop :=
  forall o, sdata sh !! k = Some o -> GoTime.IsZero (oExpiresAt o) = true.

Lemma sample_shard_spec i sh now offset js sampled expired stale :
  shard_wf i sh -> KeyIndex.size (svolatile sh) <> 0%nat ->
  Forall (stale_key sh) stale ->
  exists sampled' new stale',
    sample_shard sh now offset (KeyIndex.size (svolatile sh)) js sampled expired stale =
      Some (sampled', expired ++ new, stale') /\
    Forall (fun k => expired_in sh now k = true) new /\ Forall (stale_key sh) stale' /\
    len new <= sampled' - sampled <= len js.
Proof.
  intros Hs Hn. revert sampled expired stale.
  induction js as [|j js IH]; intros sampled expired stale Hst.
  { exists sampled, [], stale. rw app_nil_r. split_and!; try done; rw ?len_nil; lia. }
  simpl. destruct (KeyIndex.at_keys (svolatile sh) ((offset + j) mod KeyIndex.size (svolatile sh)))
    as (k & -> & Hk); [by apply Nat.mod_upper_bound|]. simpl. rw len_cons.
  assert (Hstale : stale_key sh k -> exists sampled' new stale',
    sample_shard sh now offset (KeyIndex.size (svolatile sh)) js sampled expired (stale ++ [k]) =
      Some (sampled', expired ++ new, stale') /\
    Forall (fun k => expired_in sh now k = true) new /\ Forall (stale_key sh) stale' /\
    len new <= sampled' - sampled <= 1 + len js).
  { intros Hq. destruct (IH sampled expired (stale ++ [k])) as (n' & new & st & -> & ? & ? & ?);
      [by apply Forall_app; split; [|apply Forall_singleton]|].
    exists n', new, st. split_and!; try done; lia. }
  destruct (sdata sh !! k) as [o|] eqn:Ho; [|apply Hstale; intros o Ho'; congruence].
  destruct (GoTime.IsZero (oExpiresAt o)) eqn:Hz; [apply Hstale; intros o' Ho'; congruence|].
  destruct (IsExpired o now) eqn:Hx.
  - destruct (IH (sampled + 1) (expired ++ [k]) stale) as (n' & new & st & -> & Hf & ? & ?); [done|].
    exists n', (k :: new), st. rw -app_assoc len_cons. split_and!; try done; [|lia|lia].
    constructor; [|done]. unfold expired_in. by rw Ho.
  - destruct (IH (sampled + 1) expired stale) as (n' & new & st & -> & Hf & ? & ?); [done..|].
    exists n', new, st. split_and!; try done; lia.
Qed.

Lemma drop_stale_spec i sh stale :
  shard_wf i sh -> Forall (stale_key sh) stale ->
  exists sh', drop_stale stale sh = Some sh' /\ shard_wf i sh' /\ sdata sh' = sdata sh.
Proof.
  intros Hs Hst. revert sh Hs Hst. induction stale as [|k stale IH]; intros sh Hs Hst; [by exists sh|].
  apply Forall_cons in Hst as [Hk Hst]. simpl.
  destruct (KeyIndex.remove_spec (svolatile sh) k (sw_vol _ _ Hs)) as (vol & -> & Wv & Kv). simpl.
  destruct (IH (mkShard (sdata sh) (sall sh) vol)) as (sh' & -> & Hw' & Hd'); [|done|by exists sh'].
  destruct Hs as [Wa _ Da Dv Cv Hh Ho]. constructor; simpl; [done..| | |done|done].
  - rw Kv. set_solver.
  - intros k' o Hk' Hz. rw Kv. specialize (Cv k' o Hk' Hz). apply elem_of_difference.
    split; [done|]. intros ->%elem_of_singleton. specialize (Hk o Hk'). congruence.
Qed.

(** Changing the TTL index of a shard is invisible. *)
Lemma replace_shard s i sh sh' :
  wf s -> shards s !! i = Some sh -> shard_wf i sh' -> sdata sh' = sdata sh ->
  let s' := mkStore (<[i := sh']> (shards s)) (usedBytes s) (lastExpirationLog s) (pendingExpired s) in
  wf s' /\ abs s' = abs s.
Proof.
  intros Hw Hsh Hs' Hd. split.
  - constructor; simpl.
    + by rw length_insert (wf_length s Hw).
    + intros j x Hx. apply list_lookup_insert_Some in Hx as [(<- & <- & _)|[_ Hx]]; [done|].
      by apply (wf_shards s Hw).
    + rewrite -> (total_bytes_insert _ _ _ _ Hsh). unfold shard_bytes. rw Hd (wf_used s Hw).
      f_equal. lia.
  - unfold abs. simpl. rw list_fmap_insert. f_equal. apply list_insert_id.
    rw list_lookup_fmap Hsh. simpl. unfold shard_abs. by rw Hd.
Qed.

Lemma expired_in_abs s i sh now k :
  wf s -> shards s !! i = Some sh -> expired_in sh now k = true -> expired_key (abs s) now k.
Proof.
  intros Hw Hsh He. unfold expired_in in He. destruct (sdata sh !! k) as [o|] eqn:Ho; [|done].
  pose proof (sw_home _ _ (wf_shards s Hw _ _ Hsh) k (elem_of_dom_2 _ _ _ Ho)) as Hi.
  exists (obj_entry o). rewrite -> (abs_lookup s k sh), shard_abs_lookup, Ho by (by rw ?Hi). done.
Qed.

(** ** Deleting expired keys *)
Definition spec_purge (now : Z) : entry_op bool := fun e =>
  (match e with Some e => expired now e | None => false end, live now e).

Lemma purge_sim now key : sim rel (delete_candidate now key) (on_entry key (spec_purge now)).
Proof.
  apply with_shard_sim. intros st Hw. unfold expired_in, spec_purge. rw shard_abs_lookup.
  pose proof (eff_refl _ key st Hw) as Hr. rw shard_abs_lookup in Hr.
  destruct (sdata st.1 !! key) as [o|] eqn:Hk; simpl in *; [|effect_done].
  rw expired_entry. destruct (IsExpired o now); [|effect_done].
  destruct (remove_eff _ key st Hw) as (st' & -> & He). simpl. effect_done.
Qed.

Lemma delete_candidate_spec now key s :
  wf s -> exists hit s', delete_candidate now key s = Some (hit, s') /\ wf s' /\
    forall k, abs s' !! k = if decide (k = key) then live now (abs s !! k) else abs s !! k.
Proof.
  intros Hw. destruct (purge_sim now key s (abs s) (conj Hw eq_refl)) as (hit & s1 & db1 & -> & Hg & Hw1 & Ha1).
  exists hit, s1. split_and!; [done..|]. injection Hg as _ Hdb. intros k. rw Ha1 -Hdb.
  case_decide as Hk; [subst k; by rw lookup_partial_alter_eq|by rewrite -> lookup_partial_alter_ne].
Qed.

Lemma live_idem now e : live now (live now e) = live now e.
Proof. unfold live. destruct e as [e|]; [|done]. destruct (expired now e) eqn:He; [done|by rw He]. Qed.

(** Without interference, the candidates that have expired are removed at once. *)
Lemma DeleteExpired_alone {E} clk keys (e : E) s :
  wf s -> exists m s', DeleteExpired alone clk keys (e, s) = Some (m, (e, s')) /\ wf s' /\
    forall k, abs s' !! k = if decide (k ∈ keys) then live (clk 0%nat) (abs s !! k) else abs s !! k.
Proof.
  unfold DeleteExpired. generalize 0 as n. assert (Halone : alone (E := E) = alone) by done. revert Halone.
  generalize (alone (E := E)) at 1 3 as others.
  intros others Ho n. revert others Ho n s. induction keys as [|key keys IH]; intros others Ho n s Hw.
  { exists n, s. split_and!; try done. }
  cbn [delete_loop]. rw Ho. cbn [alone]. destruct (delete_candidate_spec (clk 0%nat) key s Hw) as (hit & s1 & -> & Hw1 & Ha1).
  cbn [mbind option_bind]. destruct (IH (skip 1 alone) eq_refl (if hit then n + 1 else n) s1 Hw1) as (m & s' & -> & Hw' & Ha').
  exists m, s'. split_and!; [done..|]. intros k. rw Ha' Ha1. destruct (decide (k = key)) as [->|Hne].
  - rewrite -> (decide_True (P := key ∈ key :: keys)) by set_solver. case_decide; [|done]. by apply live_idem.
  - repeat case_decide; set_solver.
Qed.

Lemma FilterExpired_spec clk keys s :
  wf s -> exists out, FilterExpired clk keys s = Some out /\
    forall k, k ∈ out <-> k ∈ keys /\ expired_key (abs s) (clk 0%nat) k.
Proof.
  intros Hw. unfold FilterExpired. induction keys as [|key keys (out & Hout & Hin)]; simpl.
  { exists []. set_solver. }
  rw Hout /=. destruct (wf_shard_of s key Hw) as [sh Hsh]. rw Hsh /=. eexists. split; [done|].
  assert (Hx : expired_in sh (clk 0%nat) key = true <-> expired_key (abs s) (clk 0%nat) key).
  { unfold expired_key, expired_in. rewrite -> (abs_lookup s key sh), shard_abs_lookup by done.
    destruct (sdata sh !! key) as [o|]; simpl; [|naive_solver]. rw -expired_entry. naive_solver. }
  intros k. destruct (expired_in sh (clk 0%nat) key); rw ?elem_of_cons Hin; [naive_solver|].
  split; [naive_solver|]. intros [[->|?] ?]; [|done]. by apply Hx in H.
Qed.

(** ** The expiration cycle *)

(** Entries disappear only if they had expired at a reading of [clk]. *)
Definition purged (clk : clock) (db db' : DB) : Prop := forall k,
  db' !! k = db !! k \/ (db' !! k = None /\ exists n, expired_key db (clk n) k).

(** [clk'] gives only readings of [clk]. *)
Definition drawn (clk clk' : clock) : Prop := forall n, exists m, clk' n = clk m.

Lemma drawn_refl clk : drawn clk clk.
Proof. intros n. by exists n. Qed.

Lemma drawn_skip clk clk' k : drawn clk clk' -> drawn clk (skip k clk').
Proof. intros Hd n. apply Hd. Qed.

Lemma drawn_fork1 clk clk' : drawn clk clk' -> drawn clk (fork1 clk').
Proof. intros Hd n. apply Hd. Qed.

Lemma drawn_fork2 clk clk' : drawn clk clk' -> drawn clk (fork2 clk').
Proof. intros Hd n. apply Hd. Qed.

#[export] Hint Resolve drawn_refl drawn_skip drawn_fork1 drawn_fork2 : carrot.

Lemma purged_refl clk db : purged clk db db.
Proof. intros k. by left. Qed.

Lemma purged_trans clk db1 db2 db3 : purged clk db1 db2 -> purged clk db2 db3 -> purged clk db1 db3.
Proof.
  intros H1 H2 k. destruct (H1 k) as [E1|[E1 X1]], (H2 k) as [E2|[E2 (n & e & He & X2)]].
  - left. congruence.
  - right. split; [done|]. exists n, e. split; [congruence|done].
  - right. split; [congruence|done].
  - by right.
Qed.

Lemma purged_keys (clk clk' : clock) (keys : list gostring) (db db' : DB) :
  drawn clk clk' -> (forall k, db' !! k = if decide (k ∈ keys) then live (clk' 0%nat) (db !! k) else db !! k) ->
  purged clk db db'.
Proof.
  intros Hd Ha k. rw Ha. case_decide; [|by left]. unfold live. destruct (db !! k) as [e|] eqn:Hk; [|by left].
  destruct (expired (clk' 0%nat) e) eqn:He; [|by left]. right. split; [done|].
  destruct (Hd 0%nat) as [j Hj]. exists j, e. by rw -Hj.
Qed.

(** ** The cycle among other goroutines

    [Q] is what the cycle and the others together may do to the state, closed under
    composition and blind to changes of representation; [others] keep the store well
    formed and stay in [Q]. *)
Section cycle.
Context {E : Type} (clk : clock) (Q : E * Store -> E * Store -> Prop).
Hypothesis Q_refl : forall es, Q es es.
Hypothesis Q_trans : forall a b c, Q a b -> Q b c -> Q a c.
Hypothesis Q_abs : forall e s s', abs s' = abs s -> Q (e, s) (e, s').

Definition harmless (others : interference E) : Prop :=
  forall n es, wf es.2 -> wf (others n es).2 /\ Q es (others n es).

Lemma harmless_skip k others : harmless others -> harmless (skip k others).
Proof. intros Ho n. apply Ho. Qed.
Lemma harmless_fork1 others : harmless others -> harmless (fork1 others).
Proof. intros Ho n. apply Ho. Qed.
Lemma harmless_fork2 others : harmless others -> harmless (fork2 others).
Proof. intros Ho n. apply Ho. Qed.
Hint Resolve harmless_skip harmless_fork1 harmless_fork2 : carrot.

Lemma sample_loop_spec rnd others now limit order sampled exp c es :
  harmless others -> wf es.2 -> Forall (fun i => (i < numShards)%nat) order ->
  exists n exp' es', sample_loop rnd others now limit order sampled exp c es = Some ((n, exp'), es') /\
    wf es'.2 /\ Q es es'.
Proof.
  intros Hoth Hw Ho. revert others Hoth sampled exp c es Hw.
  induction Ho as [|i order Hi Ho IH]; intros others Hoth sampled exp c es Hw; [by do 3 eexists|].
  cbn [sample_loop]. destruct (Z.ltb_spec sampled limit); [|by do 3 eexists].
  destruct (Hoth 0%nat es Hw) as [Hwo HQ]. destruct (others 0%nat es) as [e s]. cbn [snd] in Hwo.
  destruct (shard_at s i Hwo Hi) as (sh & Hsh & Hs). rw Hsh. cbn [mbind option_bind].
  destruct (Nat.eqb_spec (KeyIndex.size (svolatile sh)) 0) as [Hz|Hz].
  { destruct (IH (skip 1 others) ltac:(auto with carrot) sampled exp c (e, s) Hwo) as (n & exp' & es' & -> & ? & ?).
    do 3 eexists. split_and!; eauto. }
  set (take := Z.min _ _).
  destruct (sample_shard_spec i sh now (IntN rnd c (KeyIndex.size (svolatile sh))) (seq 0 (Z.to_nat take))
              sampled exp [] Hs Hz) as (n & new & st & -> & _ & Hst & _); [constructor|]. cbn [mbind option_bind].
  destruct (drop_stale_spec i sh st Hs Hst) as (sh' & -> & Hs' & Hd'). cbn [mbind option_bind].
  destruct (replace_shard s i sh sh' Hwo Hsh Hs' Hd') as [Hw' Ha'].
  edestruct (IH (skip 1 others) ltac:(auto with carrot) n (exp ++ new) (S c) (e, _) Hw') as (n' & exp' & es' & -> & ? & ?).
  do 3 eexists. split_and!; eauto.
Qed.

Lemma sampleExpired_spec rnd others clk' limit es :
  harmless others -> wf es.2 ->
  exists n exp es', sampleExpired rnd others clk' limit es = Some ((n, exp), es') /\ wf es'.2 /\ Q es es'.
Proof. intros Ho Hw. apply sample_loop_spec; [done..|]. apply Forall_forall, visit_order_lt. Qed.

Section remove.
Variable remove : option (clock -> list gostring -> E * Store -> option ((Z * bool) * (E * Store))).
Hypothesis remove_ok : forall others clk' expired es, harmless others -> drawn clk clk' -> wf es.2 ->
  exists n failed es', remove_batch remove others clk' expired es = Some ((n, failed), es') /\ wf es'.2 /\ Q es es'.

Lemma cycle_loop_spec fuel rnd others clk' startTime total es :
  harmless others -> drawn clk clk' -> wf es.2 ->
  exists n es', cycle_loop remove fuel rnd others clk' startTime total es = Some (n, es') /\ wf es'.2 /\ Q es es'.
Proof.
  revert rnd others clk' total es. induction fuel as [|fuel IH]; intros rnd others clk' total es Ho Hl Hw; cbn [cycle_loop].
  { by do 2 eexists. }
  destruct (maxDuration <=? _); [by do 2 eexists|].
  destruct (sampleExpired_spec rnd (fork1 (fork1 others)) (skip 1 clk') sampleSize es) as (n & exp & es1 & -> & Hw1 & HQ1);
    [auto with carrot|done|]. cbn [mbind option_bind].
  destruct (n =? 0); [by do 2 eexists|].
  destruct (remove_ok (fork2 (fork1 others)) (skip 2 clk') exp es1) as (m & failed & es2 & -> & Hw2 & HQ2);
    [auto with carrot..|]. cbn [mbind option_bind].
  destruct (failed || _); [do 2 eexists; split_and!; eauto|].
  destruct (IH (skip 257 rnd) (fork2 others) (skip 4 clk') (total + m) es2) as (r & es' & -> & Hw' & HQ'); [auto with carrot..|].
  do 2 eexists. split_and!; eauto.
Qed.

Lemma report_wf clk' n s : wf s -> wf (reportActiveExpiration clk' n s) /\
  abs (reportActiveExpiration clk' n s) = abs s.
Proof.
  intros [Hl Hs Hu]. unfold reportActiveExpiration. cbv zeta.
  destruct (_ || _); (split; [by constructor|done]).
Qed.

Lemma cycle_spec rnd others es :
  harmless others -> wf es.2 ->
  exists n es', ActiveExpireCycleWith remove rnd others clk es = Some (n, es') /\ wf es'.2 /\ Q es es'.
Proof.
  intros Ho Hw. unfold ActiveExpireCycleWith.
  destruct (cycle_loop_spec maxIterations rnd (fork1 others) (skip 2 clk) (clk 0%nat) 0 es) as (n & es1 & -> & Hw1 & HQ1);
    [auto with carrot..|]. cbn [mbind option_bind].
  destruct (harmless_fork2 _ Ho 0%nat es1 Hw1) as [Hw2 HQ2]. destruct (fork2 others 0%nat es1) as [e s]. cbn [snd] in Hw2.
  destruct (report_wf (skip 1 clk) n s Hw2) as [Hw3 Ha3]. do 2 eexists. split_and!; [done..|]. eauto.
Qed.
End remove.

(** Deleting directly: [Q] allows to remove one entry that has expired. *)
Hypothesis Q_delete : forall clk' key e s s', drawn clk clk' ->
  (forall k, abs s' !! k = if decide (k = key) then live (clk' 0%nat) (abs s !! k) else abs s !! k) -> Q (e, s) (e, s').

Lemma delete_loop_spec others clk' keys n es :
  harmless others -> drawn clk clk' -> wf es.2 ->
  exists m es', delete_loop others (clk' 0%nat) keys n es = Some (m, es') /\ wf es'.2 /\ Q es es'.
Proof.
  intros Ho Hd. revert others Ho n es. induction keys as [|key keys IH]; intros others Ho n es Hw; [by do 2 eexists|].
  cbn [delete_loop]. destruct (Ho 0%nat es Hw) as [Hw1 HQ1]. destruct (others 0%nat es) as [e s]. cbn [snd] in Hw1.
  destruct (delete_candidate_spec (clk' 0%nat) key s Hw1) as (hit & s1 & -> & Hw2 & Ha). cbn [mbind option_bind].
  destruct (IH (skip 1 others) ltac:(auto with carrot) (if hit then n + 1 else n) (e, s1) Hw2) as (m & es' & -> & Hw' & HQ').
  do 2 eexists. split_and!; [done..|]. eauto.
Qed.

Lemma ActiveExpireCycle_spec rnd others es :
  harmless others -> wf es.2 ->
  exists n es', ActiveExpireCycle rnd others clk es = Some (n, es') /\ wf es'.2 /\ Q es es'.
Proof.
  apply cycle_spec. intros others' clk' [|k exp] es' Ho Hd Hw; [by do 3 eexists|].
  cbn [remove_batch]. destruct (delete_loop_spec others' clk' (k :: exp) 0 es' Ho Hd Hw) as (m & es1 & Hdel & Hw1 & HQ1).
  unfold DeleteExpired. rw Hdel. by do 3 eexists.
Qed.
End cycle.

(** ** Snapshots *)
Definition entry_of (sn : SnapshotEntry) : entry :=
  mkEntry (match snKind sn with StringKind => VString (snValue sn) | ListKind => VList (snList sn) end)
    (snExpiresAt sn).

(** The entry of a live object, as a value. *)
Definition snap (now : Z) (sh : shard) (key : gostring) : option SnapshotEntry :=
  match sdata sh !! key with
  | Some o =>
      if IsExpired o now then None
      else Some (mkSnapshot key (oValue o) (oExpiresAt o) (oKind o)
                   (match oKind o with ListKind => ListValue.contents (oList o) | StringKind => [] end))
  | None => None
  end.

Lemma snapshot_of_spec key o :
  obj_wf o ->
  snapshot_of key o =
    Some (mkSnapshot key (oValue o) (oExpiresAt o) (oKind o)
            (match oKind o with ListKind => ListValue.contents (oList o) | StringKind => [] end)).
Proof.
  unfold obj_wf, snapshot_of. destruct (oKind o); [done|]. intros (_ & [Hl _] & _).
  unfold ListValue.Len. by rewrite -> ListValue.rangeCopy_all.
Qed.

Lemma visit_keys_collect i sh now keys acc :
  shard_wf i sh -> visit_keys collect now sh keys acc = Some (inr (acc ++ omap (snap now sh) keys)).
Proof.
  intros Hs. revert acc. induction keys as [|k keys IH]; intros acc; simpl; [by rw app_nil_r|].
  unfold snap at 1. destruct (sdata sh !! k) as [o|] eqn:Hk; [|apply IH].
  destruct (IsExpired o now); [apply IH|].
  rewrite -> snapshot_of_spec by (by eapply sw_objs). simpl. rw IH -app_assoc. done.
Qed.

Section order.
Context (ord : gset gostring -> list gostring) (Hord : forall X, ord X ≡ₚ elements X).

Definition shard_snaps (now : Z) (sh : shard) : list SnapshotEntry :=
  omap (snap now sh) (ord (dom (sdata sh))).

Lemma visit_shards_collect now shs off acc :
  (forall i sh, shs !! i = Some sh -> shard_wf (off + i) sh) ->
  visit_shards ord collect now shs acc = Some (inr (acc ++ mjoin (shard_snaps now <$> shs))).
Proof.
  revert off acc. induction shs as [|sh shs IH]; intros off acc Hs; [by rw /= app_nil_r|]. simpl.
  rewrite -> (visit_keys_collect (off + 0)) by (by apply (Hs 0%nat)). simpl.
  rewrite -> (IH (S off)), <- app_assoc; [done|]. intros i sh' Hi.
  replace (S off + i)%nat with (off + S i)%nat by lia. by apply Hs.
Qed.

Lemma snap_key now sh k sn : snap now sh k = Some sn -> snKey sn = k.
Proof. unfold snap. repeat case_match; intros; by simplify_eq/=. Qed.

Lemma elem_of_shard_snaps now sh sn :
  sn ∈ shard_snaps now sh <-> snap now sh (snKey sn) = Some sn.
Proof.
  unfold shard_snaps. rw list_elem_of_omap. split.
  - intros (k & _ & Hk). by rw (snap_key _ _ _ _ Hk).
  - intros Hs. exists (snKey sn). split; [|done]. rw Hord elem_of_elements. apply elem_of_dom.
    unfold snap in Hs. by destruct (sdata sh !! snKey sn).
Qed.

Lemma shard_snaps_NoDup now sh : NoDup (snKey <$> shard_snaps now sh).
Proof.
  unfold shard_snaps. assert (Hnd : NoDup (ord (dom (sdata sh)))) by (rw Hord; apply NoDup_elements).
  induction Hnd as [|k ks Hk Hnd IH]; simpl; [constructor|].
  destruct (snap now sh k) as [sn|] eqn:Hs; [|done]. csimpl. constructor; [|done].
  rw (snap_key _ _ _ _ Hs). intros (sn' & -> & Hin)%list_elem_of_fmap.
  apply list_elem_of_omap in Hin as (k' & Hk' & Hs'). apply snap_key in Hs'. congruence.
Qed.

Lemma snaps_NoDup now shs off :
  (forall i sh, shs !! i = Some sh -> shard_wf (off + i) sh) ->
  NoDup (snKey <$> mjoin (shard_snaps now <$> shs)) /\
  forall k, k ∈ snKey <$> mjoin (shard_snaps now <$> shs) -> (off <= getShardIndex k)%nat.
Proof.
  revert off. induction shs as [|sh shs IH]; intros off Hs; [split; [constructor|set_solver]|].
  csimpl. rw fmap_app. destruct (IH (S off)) as [Hnd Hge].
  { intros i sh' Hi. replace (S off + i)%nat with (off + S i)%nat by lia. by apply Hs. }
  assert (Hhome : forall k, k ∈ snKey <$> shard_snaps now sh -> getShardIndex k = off).
  { intros k (sn & -> & Hin)%list_elem_of_fmap. apply elem_of_shard_snaps in Hin.
    replace off with (off + 0)%nat by lia. apply (sw_home _ _ (Hs 0%nat sh eq_refl)). apply elem_of_dom.
    unfold snap in Hin. by destruct (sdata sh !! snKey sn). }
  split.
  - apply NoDup_app. split_and!; [apply shard_snaps_NoDup| |done].
    intros k H1%Hhome H2%Hge. lia.
  - intros k [Hk|Hk]%elem_of_app; [apply Hhome in Hk; lia|apply Hge in Hk; lia].
Qed.

(** The snapshot is the live part of the database. *)
Lemma SnapshotEntries_spec clk s :
  wf s -> exists es, SnapshotEntries ord clk s = Some (inr es) /\ NoDup (snKey <$> es) /\
    (forall sn, sn ∈ es -> live (clk 0%nat) (abs s !! snKey sn) = Some (entry_of sn)) /\
    (forall k e, live (clk 0%nat) (abs s !! k) = Some e ->
       exists sn, sn ∈ es /\ snKey sn = k /\ entry_of sn = e).
Proof.
  intros Hw. unfold SnapshotEntries, ForEachSnapshot.
  pose proof (wf_shards s Hw) as Hs. set (now := clk 0%nat).
  rewrite -> (visit_shards_collect now (shards s) 0) by done. rw app_nil_l.
  destruct (snaps_NoDup now (shards s) 0) as [Hnd _]; [done|]. eexists. split_and!; [done..| |].
  - intros sn (l & Hin & Hl)%list_elem_of_join.
    apply list_elem_of_fmap in Hl as (sh & -> & (i & Hi)%list_elem_of_lookup).
    apply elem_of_shard_snaps in Hin. unfold snap in Hin. destruct sn as [k v x kind l]. simpl in *.
    destruct (sdata sh !! k) as [o|] eqn:Ho; [|done].
    destruct (IsExpired o now) eqn:Hx; [done|]. simplify_eq.
    pose proof (sw_home _ _ (Hs _ _ Hi) _ (elem_of_dom_2 _ _ _ Ho)) as Hh. simpl in *.
    rewrite -> (abs_lookup s _ sh), shard_abs_lookup, Ho by (by rw ?Hh). simpl.
    rw expired_entry Hx. unfold entry_of, obj_entry. simpl. by destruct (oKind o).
  - intros k e He. destruct (wf_shard_of s k Hw) as [sh Hsh].
    rewrite -> (abs_lookup s k sh), shard_abs_lookup in He by done.
    destruct (sdata sh !! k) as [o|] eqn:Ho; [|done]. simpl in He. rw expired_entry in He.
    destruct (IsExpired o now) eqn:Hx; [done|]. simplify_eq.
    assert (Hsn : snap now sh k = Some (mkSnapshot k (oValue o) (oExpiresAt o) (oKind o)
        (match oKind o with ListKind => ListValue.contents (oList o) | StringKind => [] end)))
      by (unfold snap; by rw Ho Hx).
    eexists. split_and!; [|by eapply snap_key|by unfold entry_of, obj_entry; destruct (oKind o)].
    apply list_elem_of_join. exists (shard_snaps now sh).
    split; [by apply elem_of_shard_snaps; rw (snap_key _ _ _ _ Hsn)|].
    apply list_elem_of_fmap. exists sh. split; [done|]. by eapply list_elem_of_lookup_2.
Qed.

End order.

End StoreMaintProof.
