(* ===== verification/StoreTheorems.v ===== *)
(** * What the storage engine guarantees

    The theorems of the storage component: the engine is the abstract database,
    its lists are deques, its key indexes are sets, memory eviction finds a victim
    whenever there is one, active expiration removes only what has expired and a
    snapshot is exactly the live contents. *)

From S2P Require Import Prelude GoTime ListValue KeyIndex Store StoreList StoreSpec StoreProof.
From S2P Require Import StoreRefine StoreMaint StoreMaintProof.
Import StoreSpec.

Module StoreTheorems.
Import Store StoreProof StoreMaint StoreMaintProof.

(** A store with one string that expires and one list, for the witnesses. *)
Definition demo : option (Z * Store) :=
  '(_, s) ← Set_ (fun _ => 10) (str "a") (str "1") 5 NewStore;
  '(r, s) ← StoreList.ListPush (fun _ => 20) (str "b") [str "x"; str "y"] false false s;
  Some (match r with inr n => n | inl _ => 0 end, s).

Definition demoStore : Store := match demo with Some (_, s) => s | None => NewStore end.

Lemma demo_wf : wf demoStore.
Proof.
  unfold demoStore, demo.
  destruct (StoreRefine.Set_sim (fun _ => 10) (str "a") (str "1") 5 _ _ NewStore_rel)
    as (? & s1 & db1 & -> & _ & H1). cbn [mbind option_bind].
  destruct (StoreRefine.ListPush_sim (fun _ => 20) (str "b") [str "x"; str "y"] false false ltac:(done) _ _ H1)
    as (r & s2 & db2 & -> & _ & [H2 _]). done.
Qed.

(** C1.  The engine is the database: an empty engine stands for the empty map, and
    from related states each of the eighteen operations of the engine returns
    normally, with the answer of the abstract operation, into related states. *)
Theorem engine_refines_database : rel NewStore ∅ /\ StoreRefines Store DB rel.
Proof. split; [apply NewStore_rel|exact Store_refines]. Qed.

(** C18.  The circular buffer is a deque: every operation on a well-formed list is
    the plain list operation on its contents, keeps it well formed and keeps the
    byte counter equal to the total length of the elements; popping an empty list
    reports it. *)
Theorem list_buffer_is_deque (l : listValue) (Hl : ListValue.wf l) :
  (forall v left, exists l', ListValue.push l v left = Some l' /\ ListValue.wf l' /\
     ListValue.contents l' = if left then v :: ListValue.contents l else ListValue.contents l ++ [v]) /\
  (forall left, match ListValue.pop l left with
     | Some ((v, true), l') => ListValue.wf l' /\
         ListValue.contents l = if left then v :: ListValue.contents l' else ListValue.contents l' ++ [v]
     | Some ((_, false), l') => ListValue.contents l = [] /\ l' = l
     | None => False
     end) /\
  (forall i v, 0 <= i <= ListValue.Len l -> exists l', ListValue.insert l i v = Some l' /\ ListValue.wf l' /\
     ListValue.contents l' = take (Z.to_nat i) (ListValue.contents l) ++ v :: drop (Z.to_nat i) (ListValue.contents l)) /\
  (forall i, 0 <= i < ListValue.Len l -> exists l', ListValue.removeAt l i = Some l' /\ ListValue.wf l' /\
     ListValue.contents l' = delete (Z.to_nat i) (ListValue.contents l)) /\
  (forall i v, 0 <= i < ListValue.Len l -> exists l', ListValue.assign l i v = Some l' /\ ListValue.wf l' /\
     ListValue.contents l' = <[Z.to_nat i := v]> (ListValue.contents l)) /\
  (forall i, 0 <= i < ListValue.Len l -> ListValue.at_ l i = ListValue.contents l !! Z.to_nat i) /\
  (forall a b, 0 <= a <= b -> b <= ListValue.Len l ->
     ListValue.rangeCopy l a b = Some (take (Z.to_nat (b - a)) (drop (Z.to_nat a) (ListValue.contents l)))).
Proof.
  pose proof Hl as [Hs _]. split_and!.
  - intros v left. exact (ListValue.push_spec l v left Hl).
  - intros left. pose proof (ListValue.shape_size l Hs). destruct (decide (lsize l = 0)) as [Hz|Hz].
    + rewrite -> ListValue.pop_empty by done. split; [|done]. apply len_zero_nil.
      by rewrite -> ListValue.contents_len.
    + destruct (ListValue.pop_spec l left Hl) as (v & l' & -> & Hw & Hc); [lia|]. by split.
  - intros i v Hi. exact (ListValue.insert_spec l i v Hl Hi).
  - intros i Hi. destruct (ListValue.removeAt_spec l i Hl Hi) as (l' & Hr & Hw & _ & Hc). by exists l'.
  - intros i v Hi. destruct (ListValue.assign_spec l i v Hl Hi) as (l' & Hr & Hw & _ & Hc). by exists l'.
  - intros i Hi. by apply ListValue.at_contents.
  - intros a b Hab Hb. by apply ListValue.rangeCopy_spec.
Qed.

(** A buffer of four with one slot free and the head in the middle. *)
Definition demoList : listValue := mkList [str "c"; []; str "a"; str "b"] 2 3 3.

Lemma list_buffer_is_deque_witness :
  ListValue.wf demoList /\
  exists l', ListValue.push demoList (str "d") true = Some l' /\ ListValue.wf l' /\
    ListValue.contents l' = [str "d"; str "a"; str "b"; str "c"].
Proof.
  assert (Hw : ListValue.wf demoList).
  { split; [constructor; vm_compute; intuition congruence|vm_compute; done]. }
  split; [exact Hw|]. exact (proj1 (list_buffer_is_deque demoList Hw) (str "d") true).
Defined.

(** C19.  The key index is a set with constant-time removal and random access:
    adding and removing keys adds and removes exactly them, no key is listed
    twice, and every position below the size holds a key of the set. *)
Theorem key_index_is_set (ix : keyIndex) (key : gostring) (Hix : KeyIndex.wf ix) :
  KeyIndex.wf (KeyIndex.add ix key) /\
  KeyIndex.keys_of (KeyIndex.add ix key) = {[key]} ∪ KeyIndex.keys_of ix /\
  (exists ix', KeyIndex.remove ix key = Some ix' /\ KeyIndex.wf ix' /\
     KeyIndex.keys_of ix' = KeyIndex.keys_of ix ∖ {[key]}) /\
  NoDup (ikeys ix) /\
  (forall i, (i < KeyIndex.size ix)%nat ->
     exists k, KeyIndex.at_ ix i = Some k /\ k ∈ KeyIndex.keys_of ix).
Proof.
  split_and!; [by apply KeyIndex.add_wf|by apply KeyIndex.keys_of_add|by apply KeyIndex.remove_spec|
               by apply KeyIndex.wf_NoDup|apply KeyIndex.at_keys].
Qed.

Lemma key_index_is_set_witness :
  let ix := KeyIndex.add (KeyIndex.add indexZero (str "a")) (str "b") in
  exists ix', KeyIndex.remove ix (str "a") = Some ix' /\ KeyIndex.wf ix' /\
    KeyIndex.keys_of ix' = KeyIndex.keys_of ix ∖ {[str "a"]}.
Proof.
  exact (proj1 (proj2 (proj2 (key_index_is_set (KeyIndex.add (KeyIndex.add indexZero (str "a")) (str "b"))
    (str "a") (KeyIndex.add_wf _ _ (KeyIndex.add_wf _ _ KeyIndex.indexZero_wf)))))).
Defined.

(** C20.  Eviction makes progress: whatever the random draws, sampling for the
    least recently used key does not fail, returns a key of the store, and returns
    none only when the store is empty. *)
Theorem lru_victim_exists (rnd : nat -> nat) (s : Store) (Hs : wf s) :
  exists r, LRUVictim rnd s = Some r /\
    match r with Some k => is_Some (abs s !! k) | None => abs s = ∅ end.
Proof. by apply LRUVictim_spec. Qed.

Lemma lru_victim_exists_witness :
  wf demoStore /\ exists r, LRUVictim (fun n => (7 * n)%nat) demoStore = Some r /\
    match r with Some k => is_Some (abs demoStore !! k) | None => abs demoStore = ∅ end.
Proof. split; [apply demo_wf|]. apply (lru_victim_exists (fun n => (7 * n)%nat) demoStore demo_wf). Defined.

(** One action during an expiration cycle: one of the other goroutines', or one of the
    cycle's own, which leaves the rest of the state alone and removes nothing but
    entries that have expired, by a reading of its clock, in the store it finds. *)
Definition cycle_action {E} (others : interference E) (clk : clock) (a b : E * Store) : Prop :=
  (exists i, b = others i a) \/ (b.1 = a.1 /\ purged clk (abs a.2) (abs b.2)).

(** C21.  Active expiration is safe among other goroutines: whatever the clock and the
    random draws, and whatever others do to the store whenever the cycle holds no lock,
    as long as they keep it well formed, a cycle terminates without a panic and keeps
    the store well formed; and it is a sequence of actions of the others and of
    removals of entries that have expired in the store as it is at that moment.  A key
    that is overwritten with a live value between being sampled and being deleted
    stays. *)
Theorem active_expiration_safe {E} (rnd : nat -> nat) (others : interference E) (clk : clock) (es : E * Store)
    (Hs : wf es.2) (Hothers : forall n a, wf a.2 -> wf (others n a).2) :
  exists n es', ActiveExpireCycle rnd others clk es = Some (n, es') /\ wf es'.2 /\
    rtc (cycle_action others clk) es es'.
Proof.
  apply (ActiveExpireCycle_spec clk (rtc (cycle_action others clk))); [done| | | |by intros n a Ha; split; [auto|apply rtc_once; left; eauto]|done].
  - intros a b c. by etrans.
  - intros e s s' Ha. apply rtc_once. right. split; [done|]. cbn [snd]. rw Ha. apply purged_refl.
  - intros clk' key e s s' Hd Ha. apply rtc_once. right. split; [done|]. apply (purged_keys clk clk' [key]); [done|].
    intros k. rw Ha. repeat case_decide; set_solver.
Qed.

(** While the expired key [a] of [demoStore] is about to be deleted, a client writes
    it anew: it is still there afterwards. *)
Definition overwriting : interference nat := fun n es =>
  match SetAt (fun _ => 100) (str "a") (str "2") 0 es.2 with
  | Some (_, s) => (S es.1, s)
  | None => es
  end.

Lemma overwriting_wf n a : wf a.2 -> wf (overwriting n a).2.
Proof.
  intros Ha. unfold overwriting.
  destruct (StoreRefine.SetAt_sim (fun _ => 100) (str "a") (str "2") 0 a.2 _ (conj Ha eq_refl)) as (? & s & ? & -> & _ & [Hw _]).
  exact Hw.
Qed.

Lemma active_expiration_safe_witness :
  wf demoStore /\ exists n es', ActiveExpireCycle (fun n => n) overwriting (fun _ => 100) (0%nat, demoStore) = Some (n, es') /\
    wf es'.2 /\ rtc (cycle_action overwriting (fun _ => 100)) (0%nat, demoStore) es'.
Proof.
  split; [apply demo_wf|].
  apply (active_expiration_safe (fun n => n) overwriting (fun _ => 100) (0%nat, demoStore) demo_wf overwriting_wf).
Defined.

(** C22.  A snapshot is exactly the live contents, whatever the order in which the
    maps are visited: no key twice, every entry is the live entry of its key, and
    every live key has its entry. *)
Theorem snapshot_is_live_contents (ord : gset gostring -> list gostring) (clk : clock) (s : Store)
    (Hord : forall X, ord X ≡ₚ elements X) (Hs : wf s) :
  exists es, SnapshotEntries ord clk s = Some (inr es) /\ NoDup (snKey <$> es) /\
    (forall sn, sn ∈ es -> live (clk 0%nat) (abs s !! snKey sn) = Some (entry_of sn)) /\
    (forall k e, live (clk 0%nat) (abs s !! k) = Some e ->
       exists sn, sn ∈ es /\ snKey sn = k /\ entry_of sn = e).
Proof. by apply SnapshotEntries_spec. Qed.

Lemma snapshot_is_live_contents_witness :
  exists es, SnapshotEntries elements (fun _ => 12) demoStore = Some (inr es) /\ NoDup (snKey <$> es) /\
    (forall sn, sn ∈ es -> live 12 (abs demoStore !! snKey sn) = Some (entry_of sn)) /\
    (forall k e, live 12 (abs demoStore !! k) = Some e ->
       exists sn, sn ∈ es /\ snKey sn = k /\ entry_of sn = e).
Proof.
  exact (snapshot_is_live_contents elements (fun _ => 12) demoStore (fun X => reflexivity _) demo_wf).
Defined.

End StoreTheorems.
