(* ===== verification/Command.v ===== *)
(** * Parsing and executing commands

    [internal/command]: the parser, one handler per command and the dispatch
    [execute].  Handlers are written against the interface [StoreOps] of the
    storage engine, so that the same definitions run on the engine and on the
    abstract database.  Their Go error result is always nil and is left out;
    [None] is a panic.  Each [time.Now()] reached through the store is a later
    reading of [clk]. *)

From S2P Require Import Prelude GoTime GoLib GoIO Resp ListValue Store StoreSpec.

Record Command := mkCommand { cName : gostring; cArgs : list gostring }.

#[global] Instance Command_eq_dec : EqDecision Command.
Proof. solve_decision. Defined.

Module Cmd.

(** [name] is one of the cases of a [switch]. *)
Definition one_of (name : gostring) (names : list string) : bool := bool_decide (name ∈ str <$> names).
Definition named (name : gostring) (s : string) : bool := bool_decide (name = str s).

Definition err (s : string) : Value := NewError (str s).

(** ** parser.go *)
Section parser.
Context `{Unicode}.

Fixpoint parse_args (vs : list Value) : gostring + list gostring :=
  match vs with
  | [] => inr []
  | arg :: vs' =>
      if negb (bool_decide (vType arg = BulkString))
      then inl (str "ERR protocol error: arguments must be bulk strings")
      else match parse_args vs' with inl e => inl e | inr args => inr (vString arg :: args) end
  end.

Definition Parse (value : Value) : gostring + Command :=
  if negb (bool_decide (vType value = Array)) then inl (str "ERR protocol error: expected array")
  else match vArray value with
       | [] => inl (str "ERR protocol error: empty command")
       | commandValue :: rest =>
           if negb (bool_decide (vType commandValue = BulkString))
           then inl (str "ERR protocol error: command must be bulk string")
           else match parse_args rest with
                | inl e => inl e
                | inr args => inr (mkCommand (GoLib.ToUpper (vString commandValue)) args)
                end
       end.
End parser.

(** ** Replies *)
Definition storageError (e : storeErr) : Value :=
  match e with
  | ErrWrongType => err "WRONGTYPE Operation against a key holding the wrong kind of value"
  | ErrNoSuchKey => err "ERR no such key"
  | ErrListIndexRange => err "ERR index out of range"
  | ErrInvalidRank => err "ERR invalid rank"
  end.

Definition parseListInteger (value : gostring) : gostring + Z :=
  match GoLib.ParseInt value with
  | None => inl (str "ERR value is not an integer or out of range")
  | Some n => inr n
  end.

Definition stringArray (values : list gostring) : Value := NewArray (NewBulkString <$> values).

Definition bulkOrNull (v : option gostring) : Value :=
  match v with None => NewNullBulkString | Some v => NewBulkString v end.

(** The cap on relative expirations in seconds and milliseconds. *)
Definition maxSeconds : Z := max_int64 / GoTime.Second.
Definition maxMilliseconds : Z := max_int64 / GoTime.Millisecond.

Section handlers.
Context `{Unicode} {S : Type} `{StoreOps S}.

Definition handlePing (args : list gostring) : Value :=
  match args with
  | [] => NewSimpleString (str "PONG")
  | [a] => NewBulkString a
  | _ => err "ERR wrong number of arguments for 'ping' command"
  end.

Definition handleGet (clk : clock) (args : list gostring) (s : S) : option (Value * S) :=
  match args with
  | [key] =>
      '(r, s) ← op_GetString clk key s;
      Some (match r with inl e => storageError e | inr v => bulkOrNull v end, s)
  | _ => Some (err "ERR wrong number of arguments for 'get' command", s)
  end.

(** The option loop of [handleSet]: [ttl], [expiresAt] and [hasAbsoluteExpiry]. *)
Fixpoint set_options (args : list gostring) (ttl expiresAt : Z) (hasAbsoluteExpiry : bool)
    : Value + (Z * Z * bool) :=
  match args with
  | [] => inr (ttl, expiresAt, hasAbsoluteExpiry)
  | opt :: rest =>
      let opt := GoLib.ToUpper opt in
      if named opt "EX" then
        match rest with
        | [] => inl (err "ERR syntax error")
        | a :: rest' =>
            match GoLib.ParseInt a with
            | Some sec =>
                if (sec <=? 0) || (maxSeconds <? sec)
                then inl (err "ERR invalid expire time in 'set' command")
                else set_options rest' (int64 (sec * GoTime.Second)) GoTime.zeroTime false
            | None => inl (err "ERR invalid expire time in 'set' command")
            end
        end
      else if named opt "PX" then
        match rest with
        | [] => inl (err "ERR syntax error")
        | a :: rest' =>
            match GoLib.ParseInt a with
            | Some ms =>
                if (ms <=? 0) || (maxMilliseconds <? ms)
                then inl (err "ERR invalid expire time in 'set' command")
                else set_options rest' (int64 (ms * GoTime.Millisecond)) GoTime.zeroTime false
            | None => inl (err "ERR invalid expire time in 'set' command")
            end
        end
      else if named opt "PXAT" then
        match rest with
        | [] => inl (err "ERR syntax error")
        | a :: rest' =>
            match GoLib.ParseInt a with
            | Some milliseconds => set_options rest' 0 (GoTime.ofUnixMilli milliseconds) true
            | None => inl (err "ERR invalid expire time in 'set' command")
            end
        end
      else inl (err "ERR syntax error")
  end.

Definition handleSet (clk : clock) (args : list gostring) (s : S) : option (Value * S) :=
  match args with
  | key :: val :: opts =>
      match set_options opts 0 GoTime.zeroTime false with
      | inl e => Some (e, s)
      | inr (ttl, expiresAt, hasAbsoluteExpiry) =>
          '(_, s) ← (if (hasAbsoluteExpiry : bool) then op_SetAt clk key val expiresAt s
                     else op_Set clk key val ttl s);
          Some (NewSimpleString (str "OK"), s)
      end
  | _ => Some (err "ERR wrong number of arguments for 'set' command", s)
  end.

(** Key number [i] is deleted at a later clock reading than key [i - 1]. *)
Fixpoint del_loop (clk : clock) (keys : list gostring) (countDeleted : Z) (s : S) : option (Z * S) :=
  match keys with
  | [] => Some (countDeleted, s)
  | key :: keys' =>
      '(deleted, s) ← op_Del clk key s;
      del_loop (skip 1 clk) keys' (if (deleted : bool) then countDeleted + 1 else countDeleted) s
  end.

Definition handleDel (clk : clock) (args : list gostring) (s : S) : option (Value * S) :=
  match args with
  | [] => Some (err "ERR wrong number of arguments for 'del' command", s)
  | _ => '(n, s) ← del_loop clk args 0 s; Some (NewInteger n, s)
  end.

Definition boolInteger (ok : bool) : Value := if ok then NewInteger 1 else NewInteger 0.

Definition handleExpire (clk : clock) (args : list gostring) (s : S) : option (Value * S) :=
  match args with
  | [key; arg] =>
      match GoLib.ParseInt arg with
      | None => Some (err "ERR value is not an integer or out of range", s)
      | Some seconds =>
          if maxSeconds <? seconds then Some (err "ERR value is not an integer or out of range", s)
          else '(ok, s) ← op_Expire clk key seconds s; Some (boolInteger ok, s)
      end
  | _ => Some (err "ERR wrong number of arguments for 'expire' command", s)
  end.

Definition handleExpireAt (clk : clock) (args : list gostring) (s : S) : option (Value * S) :=
  match args with
  | [key; arg] =>
      match GoLib.ParseInt arg with
      | None => Some (err "ERR value is not an integer or out of range", s)
      | Some milliseconds =>
          '(ok, s) ← op_ExpireAt clk key (GoTime.ofUnixMilli milliseconds) s; Some (boolInteger ok, s)
      end
  | _ => Some (err "ERR wrong number of arguments for 'pexpireat' command", s)
  end.

Definition handleTTL (clk : clock) (args : list gostring) (s : S) : option (Value * S) :=
  match args with
  | [key] => '(ttlSeconds, s) ← op_TTL clk key s; Some (NewInteger ttlSeconds, s)
  | _ => Some (err "ERR wrong number of arguments for 'ttl' command", s)
  end.

(** ** list.go *)
Definition wrongArgs (name : gostring) : Value :=
  NewError (str "ERR wrong number of arguments for '" ++ GoLib.ToLower name ++ str "' command").

Definition handleListPush (clk : clock) (name : gostring) (args : list gostring) (s : S)
    : option (Value * S) :=
  match args with
  | key :: value :: more =>
      let left := one_of name ["LPUSH"; "LPUSHX"] in
      let onlyExisting := one_of name ["LPUSHX"; "RPUSHX"] in
      '(r, s) ← op_ListPush clk key (value :: more) left onlyExisting s;
      Some (match r with inl e => storageError e | inr length => NewInteger length end, s)
  | _ => Some (wrongArgs name, s)
  end.

(** The tail of [handleListPop] once [count] is known. *)
Definition list_pop (clk : clock) (name key : gostring) (count : Z) (withCount : bool) (s : S)
    : option (Value * S) :=
  '(r, s) ← op_ListPop clk key (named name "LPOP") count s;
  Some (match r with
        | inl e => storageError e
        | inr values =>
            let values := default [] values in
            if withCount then stringArray values
            else match values with [] => NewNullBulkString | v :: _ => NewBulkString v end
        end, s).

Definition handleListPop (clk : clock) (name : gostring) (args : list gostring) (s : S)
    : option (Value * S) :=
  match args with
  | [key] => list_pop clk name key 1 false s
  | [key; arg] =>
      match parseListInteger arg with
      | inl e => Some (NewError e, s)
      | inr parsed =>
          if parsed <? 0 then Some (err "ERR count must be a positive integer", s)
          else list_pop clk name key parsed true s
      end
  | _ => Some (wrongArgs name, s)
  end.

(** The option loop of [handleListPosition]: rank, count, maxLen, countSpecified. *)
Fixpoint lpos_options (args : list gostring) (rank count maxLen : Z) (countSpecified : bool)
    : Value + (Z * Z * Z * bool) :=
  match args with
  | [] => inr (rank, count, maxLen, countSpecified)
  | [_] => inl (err "ERR syntax error")
  | opt :: a :: rest =>
      let option := GoLib.ToUpper opt in
      match parseListInteger a with
      | inl e => inl (NewError e)
      | inr value =>
          if named option "RANK" then
            if (value =? 0) || (value =? min_int64) then inl (err "ERR RANK can't be zero")
            else lpos_options rest value count maxLen countSpecified
          else if named option "COUNT" then
            if value <? 0 then inl (err "ERR COUNT can't be negative")
            else lpos_options rest rank value maxLen true
          else if named option "MAXLEN" then
            if value <? 0 then inl (err "ERR MAXLEN can't be negative")
            else lpos_options rest rank count value countSpecified
          else inl (err "ERR syntax error")
      end
  end.

Definition handleListPosition (clk : clock) (args : list gostring) (s : S) : option (Value * S) :=
  match args with
  | key :: value :: opts =>
      match lpos_options opts 1 1 0 false with
      | inl e => Some (e, s)
      | inr (rank, count, maxLen, countSpecified) =>
          '(r, s) ← op_ListPosition clk key value rank count maxLen s;
          Some (match r with
                | inl e => storageError e
                | inr positions =>
                    if negb countSpecified || (count =? 1) then
                      match positions with [] => NewNullBulkString | p :: _ => NewInteger p end
                    else NewArray (NewInteger <$> positions)
                end, s)
      end
  | _ => Some (err "ERR wrong number of arguments for 'lpos' command", s)
  end.

Definition parseListDirection (value : gostring) : option bool :=
  let value := GoLib.ToUpper value in
  if named value "LEFT" then Some true else if named value "RIGHT" then Some false else None.

(** The reply of [LMOVE] and [RPOPLPUSH]. *)
Definition list_move (clk : clock) (src dst : gostring) (fromLeft toLeft : bool) (s : S)
    : option (Value * S) :=
  '(r, s) ← op_ListMove clk src dst fromLeft toLeft s;
  Some (match r with inl e => storageError e | inr v => bulkOrNull v end, s).

Definition statusReply (e : option storeErr) : Value :=
  match e with Some e => storageError e | None => NewSimpleString (str "OK") end.

Definition handleListCommand (clk : clock) (name : gostring) (args : list gostring) (s : S)
    : option (Value * S) :=
  if one_of name ["LPUSH"; "RPUSH"; "LPUSHX"; "RPUSHX"] then handleListPush clk name args s
  else if one_of name ["LPOP"; "RPOP"] then handleListPop clk name args s
  else if named name "LLEN" then
    match args with
    | [key] =>
        '(r, s) ← op_ListLen clk key s;
        Some (match r with inl e => storageError e | inr length => NewInteger length end, s)
    | _ => Some (wrongArgs name, s)
    end
  else if named name "LRANGE" then
    match args with
    | [key; a; b] =>
        match parseListInteger a with
        | inl e => Some (NewError e, s)
        | inr start =>
            match parseListInteger b with
            | inl e => Some (NewError e, s)
            | inr stop =>
                '(r, s) ← op_ListRange clk key start stop s;
                Some (match r with inl e => storageError e | inr values => stringArray values end, s)
            end
        end
    | _ => Some (err "ERR wrong number of arguments for 'lrange' command", s)
    end
  else if named name "LINDEX" then
    match args with
    | [key; a] =>
        match parseListInteger a with
        | inl e => Some (NewError e, s)
        | inr index =>
            '(r, s) ← op_ListIndex clk key index s;
            Some (match r with inl e => storageError e | inr v => bulkOrNull v end, s)
        end
    | _ => Some (err "ERR wrong number of arguments for 'lindex' command", s)
    end
  else if named name "LSET" then
    match args with
    | [key; a; value] =>
        match parseListInteger a with
        | inl e => Some (NewError e, s)
        | inr index => '(r, s) ← op_ListSet clk key index value s; Some (statusReply r, s)
        end
    | _ => Some (err "ERR wrong number of arguments for 'lset' command", s)
    end
  else if named name "LTRIM" then
    match args with
    | [key; a; b] =>
        match parseListInteger a with
        | inl e => Some (NewError e, s)
        | inr start =>
            match parseListInteger b with
            | inl e => Some (NewError e, s)
            | inr stop => '(r, s) ← op_ListTrim clk key start stop s; Some (statusReply r, s)
            end
        end
    | _ => Some (err "ERR wrong number of arguments for 'ltrim' command", s)
    end
  else if named name "LREM" then
    match args with
    | [key; a; value] =>
        match parseListInteger a with
        | inl e => Some (NewError e, s)
        | inr count =>
            '(r, s) ← op_ListRem clk key count value s;
            Some (match r with inl e => storageError e | inr removed => NewInteger removed end, s)
        end
    | _ => Some (err "ERR wrong number of arguments for 'lrem' command", s)
    end
  else if named name "LINSERT" then
    match args with
    | [key; where_; pivot; value] =>
        let before := GoLib.EqualFold where_ (str "BEFORE") in
        if negb before && negb (GoLib.EqualFold where_ (str "AFTER"))
        then Some (err "ERR syntax error", s)
        else
          '(r, s) ← op_ListInsert clk key pivot value before s;
          Some (match r with inl e => storageError e | inr length => NewInteger length end, s)
    | _ => Some (err "ERR wrong number of arguments for 'linsert' command", s)
    end
  else if named name "LMOVE" then
    match args with
    | [src; dst; a; b] =>
        match parseListDirection a with
        | None => Some (err "ERR syntax error", s)
        | Some fromLeft =>
            match parseListDirection b with
            | None => Some (err "ERR syntax error", s)
            | Some toLeft => list_move clk src dst fromLeft toLeft s
            end
        end
    | _ => Some (err "ERR wrong number of arguments for 'lmove' command", s)
    end
  else if named name "RPOPLPUSH" then
    match args with
    | [src; dst] => list_move clk src dst false true s
    | _ => Some (err "ERR wrong number of arguments for 'rpoplpush' command", s)
    end
  else if named name "LPOS" then handleListPosition clk args s
  else Some (NewError (str "ERR unknown list command " ++ GoLib.Quote name), s).

(** ** executor.go: dispatch *)
Definition execute (clk : clock) (cmd : Command) (s : S) : option (Value * S) :=
  let name := cName cmd in
  if named name "PING" then Some (handlePing (cArgs cmd), s)
  else if named name "GET" then handleGet clk (cArgs cmd) s
  else if named name "SET" then handleSet clk (cArgs cmd) s
  else if named name "TTL" then handleTTL clk (cArgs cmd) s
  else if named name "DEL" then handleDel clk (cArgs cmd) s
  else if named name "EXPIRE" then handleExpire clk (cArgs cmd) s
  else if named name "PEXPIREAT" then handleExpireAt clk (cArgs cmd) s
  else if one_of name ["LPUSH"; "RPUSH"; "LPUSHX"; "RPUSHX";
                       "LPOP"; "RPOP"; "LLEN"; "LRANGE"; "LINDEX"; "LSET"; "LTRIM";
                       "LREM"; "LINSERT"; "LMOVE"; "RPOPLPUSH"; "LPOS"]
  then handleListCommand clk name (cArgs cmd) s
  else Some (NewError (str "ERR unknown command '" ++ GoLib.ToLower name ++ str "'"), s).
End handlers.

Definition IsMutation (name : gostring) : bool :=
  one_of name ["SET"; "DEL"; "EXPIRE"; "PEXPIREAT";
               "LPUSH"; "RPUSH"; "LPUSHX"; "RPUSHX"; "LPOP"; "RPOP";
               "LSET"; "LTRIM"; "LREM"; "LINSERT"; "LMOVE"; "RPOPLPUSH"].

(** memory.go *)
Definition growsMemory (name : gostring) : bool :=
  one_of name ["SET"; "LPUSH"; "RPUSH"; "LPUSHX"; "RPUSHX"; "LINSERT"; "LSET"; "LMOVE"; "RPOPLPUSH"].

End Cmd.
