(* ===== verification/CommandProof.v ===== *)
(** * Commands on the engine and on the abstract database

    [execute] is written against [StoreOps]; here it is shown to be determined
    by what the interface promises: over any two implementations related by
    [StoreRefines] it answers the same and never panics. *)

From S2P Require Import Prelude GoTime GoLib GoIO Resp ListValue Store StoreSpec StoreProof.
From S2P Require Import StoreRefine Command.

Module CommandProof.
Import Cmd.

(** Commands one after the other, each with its own clock readings. *)
Fixpoint run `{Unicode} {S : Type} `{StoreOps S} (clk : clock) (cmds : list Command) (s : S)
    : option (list Value * S) :=
  match cmds with
  | [] => Some ([], s)
  | cmd :: cmds' =>
      '(v, s) ← execute (fork1 clk) cmd s;
      '(vs, s) ← run (fork2 clk) cmds' s;
      Some (v :: vs, s)
  end.

Section refine.
Context `{Unicode} {S T : Type} `{StoreOps S} `{StoreOps T} (R : S -> T -> Prop).
Context `{!StoreRefines S T R}.

Ltac sim_done := do 3 eexists; split_and!; [reflexivity|reflexivity|eassumption].
(** Runs the next store operation on both sides. *)
Ltac sim_op :=
  match goal with
  | HR : R ?s ?t |- context [op_Set ?a ?b ?c ?d ?s] =>
      destruct (ref_Set (R := R) a b c d s t HR) as (? & ? & ? & -> & -> & ?)
  | HR : R ?s ?t |- context [op_SetAt ?a ?b ?c ?d ?s] =>
      destruct (ref_SetAt (R := R) a b c d s t HR) as (? & ? & ? & -> & -> & ?)
  | HR : R ?s ?t |- context [op_GetString ?a ?b ?s] =>
      destruct (ref_GetString (R := R) a b s t HR) as (? & ? & ? & -> & -> & ?)
  | HR : R ?s ?t |- context [op_TTL ?a ?b ?s] =>
      destruct (ref_TTL (R := R) a b s t HR) as (? & ? & ? & -> & -> & ?)
  | HR : R ?s ?t |- context [op_Del ?a ?b ?s] =>
      destruct (ref_Del (R := R) a b s t HR) as (? & ? & ? & -> & -> & ?)
  | HR : R ?s ?t |- context [op_Expire ?a ?b ?c ?s] =>
      destruct (ref_Expire (R := R) a b c s t HR) as (? & ? & ? & -> & -> & ?)
  | HR : R ?s ?t |- context [op_ExpireAt ?a ?b ?c ?s] =>
      destruct (ref_ExpireAt (R := R) a b c s t HR) as (? & ? & ? & -> & -> & ?)
  | HR : R ?s ?t |- context [op_ListLen ?a ?b ?s] =>
      destruct (ref_ListLen (R := R) a b s t HR) as (? & ? & ? & -> & -> & ?)
  | HR : R ?s ?t |- context [op_ListRange ?a ?b ?c ?d ?s] =>
      destruct (ref_ListRange (R := R) a b c d s t HR) as (? & ? & ? & -> & -> & ?)
  | HR : R ?s ?t |- context [op_ListIndex ?a ?b ?c ?s] =>
      destruct (ref_ListIndex (R := R) a b c s t HR) as (? & ? & ? & -> & -> & ?)
  | HR : R ?s ?t |- context [op_ListSet ?a ?b ?c ?d ?s] =>
      destruct (ref_ListSet (R := R) a b c d s t HR) as (? & ? & ? & -> & -> & ?)
  | HR : R ?s ?t |- context [op_ListTrim ?a ?b ?c ?d ?s] =>
      destruct (ref_ListTrim (R := R) a b c d s t HR) as (? & ? & ? & -> & -> & ?)
  | HR : R ?s ?t |- context [op_ListRem ?a ?b ?c ?d ?s] =>
      destruct (ref_ListRem (R := R) a b c d s t HR) as (? & ? & ? & -> & -> & ?)
  | HR : R ?s ?t |- context [op_ListInsert ?a ?b ?c ?d ?e ?s] =>
      destruct (ref_ListInsert (R := R) a b c d e s t HR) as (? & ? & ? & -> & -> & ?)
  | HR : R ?s ?t |- context [op_ListPosition ?a ?b ?c ?d ?e ?f ?s] =>
      destruct (ref_ListPosition (R := R) a b c d e f s t HR) as (? & ? & ? & -> & -> & ?)
  | HR : R ?s ?t |- context [op_ListMove ?a ?b ?c ?d ?e ?s] =>
      destruct (ref_ListMove (R := R) a b c d e s t HR) as (? & ? & ? & -> & -> & ?)
  end; cbn [mbind option_bind].

(** Case analysis on the arguments; the branches that reply without touching the
    store are closed. *)
Ltac sim_cases := repeat (case_match; try solve [sim_done]).

Lemma handleGet_sim clk args : sim R (handleGet clk args) (handleGet clk args).
Proof.
  intros s t HR. unfold handleGet. sim_cases.
  sim_op. sim_done.
Qed.

Lemma handleSet_sim clk args : sim R (handleSet clk args) (handleSet clk args).
Proof.
  intros s t HR. unfold handleSet. sim_cases.
  - sim_op. sim_done.
  - sim_op. sim_done.
Qed.

Lemma del_loop_sim clk keys n : sim R (del_loop clk keys n) (del_loop clk keys n).
Proof.
  revert clk n. induction keys as [|k keys IH]; intros clk n s t HR; [sim_done|]. simpl.
  sim_op. by apply IH.
Qed.

Lemma handleDel_sim clk args : sim R (handleDel clk args) (handleDel clk args).
Proof.
  intros s t HR. unfold handleDel. destruct args as [|g args]; [sim_done|].
  destruct (del_loop_sim clk (g :: args) 0 s t HR) as (? & ? & ? & -> & -> & ?). sim_done.
Qed.

Lemma handleExpire_sim clk args : sim R (handleExpire clk args) (handleExpire clk args).
Proof.
  intros s t HR. unfold handleExpire. sim_cases.
  sim_op. sim_done.
Qed.

Lemma handleExpireAt_sim clk args : sim R (handleExpireAt clk args) (handleExpireAt clk args).
Proof.
  intros s t HR. unfold handleExpireAt. sim_cases.
  sim_op. sim_done.
Qed.

Lemma handleTTL_sim clk args : sim R (handleTTL clk args) (handleTTL clk args).
Proof.
  intros s t HR. unfold handleTTL. sim_cases. sim_op. sim_done.
Qed.

Lemma handleListPush_sim clk name args :
  sim R (handleListPush clk name args) (handleListPush clk name args).
Proof.
  intros s t HR. unfold handleListPush. destruct args as [|key [|v more]]; [sim_done..|].
  cbv zeta. eapply (ref_ListPush (R := R) clk key (v :: more)) in HR as (? & ? & ? & -> & -> & ?); [|done].
  sim_done.
Qed.

Lemma list_pop_sim clk name key n w :
  0 <= n -> sim R (list_pop clk name key n w) (list_pop clk name key n w).
Proof.
  intros Hn s t HR. unfold list_pop.
  destruct (ref_ListPop (R := R) clk key (named name "LPOP") n Hn s t HR) as (? & ? & ? & -> & -> & ?).
  sim_done.
Qed.

Lemma handleListPop_sim clk name args :
  sim R (handleListPop clk name args) (handleListPop clk name args).
Proof.
  intros s t HR. unfold handleListPop. sim_cases; (apply list_pop_sim; [|done]); bool_prop; lia.
Qed.

Lemma handleListPosition_sim clk args :
  sim R (handleListPosition clk args) (handleListPosition clk args).
Proof.
  intros s t HR. unfold handleListPosition. sim_cases.
  all: sim_op; sim_done.
Qed.

Lemma list_move_sim clk a b f t : sim R (list_move clk a b f t) (list_move clk a b f t).
Proof.
  intros s u HR. unfold list_move. sim_op. sim_done.
Qed.

Lemma handleListCommand_sim clk name args :
  sim R (handleListCommand clk name args) (handleListCommand clk name args).
Proof.
  intros s t HR. unfold handleListCommand.
  destruct (one_of name _); [by apply handleListPush_sim|].
  destruct (one_of name _); [by apply handleListPop_sim|].
  destruct (named name "LLEN").
  { sim_cases. sim_op. sim_done. }
  destruct (named name "LRANGE").
  { sim_cases. sim_op. sim_done. }
  destruct (named name "LINDEX").
  { sim_cases. sim_op. sim_done. }
  destruct (named name "LSET").
  { sim_cases. sim_op. sim_done. }
  destruct (named name "LTRIM").
  { sim_cases. sim_op. sim_done. }
  destruct (named name "LREM").
  { sim_cases. sim_op. sim_done. }
  destruct (named name "LINSERT").
  { destruct args as [|key [|w [|pivot [|value []]]]]; try solve [sim_done]. cbv zeta.
    destruct (_ && _); [sim_done|].
    sim_op. sim_done. }
  destruct (named name "LMOVE"); [sim_cases; by apply list_move_sim|].
  destruct (named name "RPOPLPUSH"); [sim_cases; by apply list_move_sim|].
  destruct (named name "LPOS"); [by apply handleListPosition_sim|sim_done].
Qed.

Lemma execute_sim clk cmd : sim R (execute clk cmd) (execute clk cmd).
Proof.
  intros s t HR. unfold execute.
  destruct (named _ "PING"); [sim_done|]. destruct (named _ "GET"); [by apply handleGet_sim|].
  destruct (named _ "SET"); [by apply handleSet_sim|].
  destruct (named _ "TTL"); [by apply handleTTL_sim|].
  destruct (named _ "DEL"); [by apply handleDel_sim|].
  destruct (named _ "EXPIRE"); [by apply handleExpire_sim|].
  destruct (named _ "PEXPIREAT"); [by apply handleExpireAt_sim|].
  destruct (one_of _ _); [by apply handleListCommand_sim|sim_done].
Qed.

Lemma run_sim clk cmds : sim R (run clk cmds) (run clk cmds).
Proof.
  revert clk. induction cmds as [|cmd cmds IH]; intros clk s t HR; [sim_done|]. simpl.
  destruct (execute_sim (fork1 clk) cmd s t HR) as (v & s1 & t1 & -> & -> & HR1). simpl.
  destruct (IH (fork2 clk) s1 t1 HR1) as (vs & s2 & t2 & -> & -> & HR2). simpl. sim_done.
Qed.

End refine.

End CommandProof.
