(* ===== verification/CommandEffects.v ===== *)
(** * Which commands change the database

    The journal records only successful mutations of [IsMutation]; that is sound
    because a read-only command, and any command that answers with an error,
    changes nothing a reader can see: at most it drops entries that have expired. *)

From S2P Require Import Prelude GoTime GoLib GoIO Resp ListValue Store StoreSpec StoreProof.
From S2P Require Import StoreRefine StoreMaint StoreMaintProof Command CommandProof.
Import StoreSpec.

Module CommandEffects.
Import Cmd StoreProof StoreMaintProof.

(** [e'] is [e], or nothing because [e] has expired. *)
Definition quiet (clk : clock) (e e' : option entry) : Prop :=
  e' = e \/ (e' = None /\ exists n x, e = Some x /\ expired (clk n) x = true).

(** A list is never stored empty. *)
Definition filled (e : entry) : Prop := eVal e <> VList [].
Definition db_filled (db : DB) : Prop := map_Forall (fun _ => filled) db.

Lemma abs_filled s : wf s -> db_filled (abs s).
Proof.
  intros Hw k e He. destruct (wf_shard_of s k Hw) as [sh Hsh].
  rewrite -> (abs_lookup s k sh), shard_abs_lookup in He by done.
  apply fmap_Some in He as (o & Ho & ->).
  pose proof (sw_objs _ _ (wf_shards s Hw _ _ Hsh) k o Ho) as Hobj. unfold obj_wf in Hobj.
  unfold filled, obj_entry. simpl. destruct (oKind o); [done|]. destruct Hobj as (_ & Hl & Hpos).
  intros [= Hc]. pose proof (ListValue.contents_len (oList o) (proj1 Hl)) as Hlen.
  rw Hc len_nil in Hlen. lia.
Qed.

Lemma live_quiet clk n e : quiet clk e (live (clk n) e).
Proof.
  unfold live. destruct e as [x|]; [|by left]. destruct (expired (clk n) x) eqn:Hx; [|by left].
  right. eauto.
Qed.

Lemma quiet_purged clk db db' : (forall k, quiet clk (db !! k) (db' !! k)) -> purged clk db db'.
Proof.
  intros Hq k. destruct (Hq k) as [->|(-> & n & x & Hx & He)]; [by left|right]. split; [done|].
  exists n, x. done.
Qed.

Lemma on_entry_purged {A} clk key (g : entry_op A) db r db' :
  on_entry key g db = Some (r, db') ->
  (forall e', g (db !! key) = (r, e') -> quiet clk (db !! key) e') -> purged clk db db'.
Proof.
  unfold on_entry. destruct (g (db !! key)) as [r1 e1]. intros Ho Hq. simplify_eq.
  apply quiet_purged. intros k. destruct (decide (k = key)) as [->|Hne].
  - rw lookup_partial_alter_eq. by apply Hq.
  - rewrite -> lookup_partial_alter_ne by done. by left.
Qed.

(** A list operation whose answer [r] means that it left the list alone. *)
Lemma list_op_quiet {A} clk n (missing wrong : A) f e r e' :
  (forall x, e = Some x -> filled x) -> list_op (clk n) missing wrong f e = (r, e') ->
  (forall l l', l <> [] -> f l = (r, l') -> l' = l) -> quiet clk e e'.
Proof.
  intros Hfill Ho Hf. pose proof (live_quiet clk n e) as Hq. unfold list_op in Ho.
  destruct (live (clk n) e) as [[[v|l] exp]|] eqn:Hl; simplify_eq; [done| |done].
  destruct (f l) as [r1 l1] eqn:Hfl. simplify_eq.
  assert (He : e = Some (mkEntry (VList l) exp)).
  { destruct Hq as [->|[? _]]; done. }
  specialize (Hfill _ He). unfold filled in Hfill. simpl in Hfill.
  assert (Hne : l <> []) by congruence. rw (Hf l l1 Hne Hfl).
  unfold list_entry. destruct l; [done|]. by left.
Qed.

Section effects.
Context `{Unicode} (clk : clock) (db : DB) (Hdb : db_filled db).

Definition no_effect (mutation : bool) (r : option (Value * DB)) : Prop :=
  forall v db', r = Some (v, db') -> mutation = false \/ vType v = Error -> purged clk db db'.

Lemma no_effect_reply b v : no_effect b (Some (v, db)).
Proof. intros v' db' Hr _. simplify_eq. apply purged_refl. Qed.

(** An operation on one key followed by a reply. *)
Lemma no_effect_bind {A} b key (g : entry_op A) (reply : A -> Value) :
  (forall r e', g (db !! key) = (r, e') -> b = false \/ vType (reply r) = Error ->
     quiet clk (db !! key) e') ->
  no_effect b ('(r, s) ← on_entry key g db; Some (reply r, s)).
Proof.
  intros Hg v db' Hr Hb. destruct (on_entry key g db) as [[r db1]|] eqn:Ho; [|done]. simpl in Hr.
  simplify_eq. eapply on_entry_purged; [exact Ho|]. intros e' He. by eapply Hg.
Qed.

Lemma no_effect_list {A} b key n (missing wrong : A) f (reply : A -> Value) :
  (forall l l' r, l <> [] -> f l = (r, l') -> b = false \/ vType (reply r) = Error -> l' = l) ->
  no_effect b ('(r, s) ← on_entry key (list_op (clk n) missing wrong f) db; Some (reply r, s)).
Proof.
  intros Hf. apply no_effect_bind. intros r e' Hg Hb.
  eapply list_op_quiet; [|exact Hg|]; [intros x Hx; by eapply Hdb|]. intros l l' Hne Hfl. by eapply Hf.
Qed.

Ltac refuse := repeat (case_match; try apply no_effect_reply).

Lemma handleGet_effect args : no_effect false (handleGet clk args db).
Proof.
  unfold handleGet. destruct args as [|key [|]]; try apply no_effect_reply.
  apply no_effect_bind. intros r e' Hg _.
  pose proof (live_quiet clk 0 (db !! key)) as Hq. unfold spec_GetString in Hg.
  destruct (live (clk 0%nat) (db !! key)) as [[[] ?]|]; by simplify_eq.
Qed.

Lemma handleTTL_effect args : no_effect false (handleTTL clk args db).
Proof.
  unfold handleTTL. destruct args as [|key [|]]; try apply no_effect_reply.
  apply no_effect_bind. intros r e' Hg _.
  pose proof (live_quiet clk 0 (db !! key)) as Hq. unfold spec_TTL in Hg.
  destruct (live (clk 0%nat) (db !! key)) as [[[] ?]|]; by simplify_eq.
Qed.

Lemma handleSet_effect args : no_effect true (handleSet clk args db).
Proof.
  unfold handleSet. refuse; apply no_effect_bind; intros r e' _ [?|?]; done.
Qed.

Lemma handleDel_effect args : no_effect true (handleDel clk args db).
Proof.
  unfold handleDel. destruct args as [|key keys]; [apply no_effect_reply|].
  intros v db' Hr [?|Hv]; [done|]. destruct (del_loop clk (key :: keys) 0 db) as [[n db1]|]; [|done]. simpl in Hr. by simplify_eq.
Qed.

Lemma handleExpire_effect args : no_effect true (handleExpire clk args db).
Proof.
  unfold handleExpire. refuse. apply no_effect_bind. intros r e' _ [?|Hv]; [done|]. by destruct r.
Qed.

Lemma handleExpireAt_effect args : no_effect true (handleExpireAt clk args db).
Proof.
  unfold handleExpireAt. refuse. apply no_effect_bind. intros r e' _ [?|Hv]; [done|]. by destruct r.
Qed.

Lemma handleListPush_effect name args : no_effect true (handleListPush clk name args db).
Proof.
  unfold handleListPush. destruct args as [|key [|v more]]; try apply no_effect_reply.
  apply no_effect_bind. intros r e' Hg [?|Hv]; [done|].
  destruct r as [er|n]; [|done]. pose proof (live_quiet clk 0 (db !! key)) as Hq.
  unfold spec_ListPush in Hg.
  destruct (live (clk 0%nat) (db !! key)) as [[[] ?]|]; [by simplify_eq|done|].
  destruct (one_of name ["LPUSHX"; "RPUSHX"]); simplify_eq.
Qed.

Lemma list_pop_effect name key n w : no_effect true (list_pop clk name key n w db).
Proof.
  unfold list_pop. apply no_effect_list. intros l l' r _ Hf [?|Hv]; [done|].
  destruct (pop_list _ _ l) as [vs l1]. simplify_eq. simpl in Hv. destruct w; [done|]. by destruct vs.
Qed.

Lemma handleListPop_effect name args : no_effect true (handleListPop clk name args db).
Proof. unfold handleListPop. refuse; apply list_pop_effect. Qed.

Lemma handleListPosition_effect args : no_effect false (handleListPosition clk args db).
Proof.
  unfold handleListPosition. destruct args as [|key [|value opts]]; try apply no_effect_reply.
  destruct (lpos_options opts 1 1 0 false) as [e|[[[rank count] maxLen] sp]]; [apply no_effect_reply|].
  apply no_effect_bind. intros r e' Hg _. unfold spec_ListPosition in Hg.
  destruct (rank =? min_int64); [simplify_eq; by left|].
  eapply (list_op_quiet clk 0); [intros x Hx; by eapply Hdb|exact Hg|]. intros l l' _ Hf. by injection Hf.
Qed.

Lemma clean_purged clk' n key d : drawn clk clk' -> purged clk d (clean (clk' n) key d).
Proof.
  intros Hd. apply quiet_purged. intros k. unfold clean. destruct (decide (k = key)) as [->|Hne].
  - rw lookup_partial_alter_eq. destruct (Hd n) as [m ->]. apply live_quiet.
  - rewrite -> lookup_partial_alter_ne by done. by left.
Qed.

Lemma list_move_effect src dst f t : no_effect true (list_move clk src dst f t db).
Proof.
  unfold list_move. intros v db' Hr [?|Hv]; [done|]. cbn [op_ListMove DB_ops] in Hr.
  unfold spec_ListMove in Hr. pose proof (clean_purged clk 0 src db (drawn_refl clk)) as Hp.
  set (db1 := clean (clk 0%nat) src db) in *. clearbody db1. cbv zeta in Hr.
  destruct (db1 !! src) as [[[s|l] exp]|]; simpl in Hr; simplify_eq; try done.
  destruct (pop_list f 1 l) as [vs l']. case_bool_decide; simpl in Hr; simplify_eq; try done.
  pose proof (clean_purged clk 1 dst db1 (drawn_refl clk)) as Hp2.
  destruct (clean (clk 1%nat) dst db1 !! dst) as [[[s|dl] dexp]|]; simpl in Hr; simplify_eq; try done.
  by eapply purged_trans.
Qed.

Lemma no_effect_sub b b' r : no_effect b r -> (b' = false -> b = false) -> no_effect b' r.
Proof. intros Hn Hb v db' Hr [?|?]; eapply Hn; eauto. Qed.

Lemma read_only b r : no_effect false r -> no_effect b r.
Proof. intros. by eapply no_effect_sub. Qed.

(** Which names mutate, by computation on the names of a [switch] case. *)
Lemma one_of_mutation name names :
  one_of name names = true -> forallb (fun n => IsMutation (str n)) names = true -> IsMutation name = true.
Proof.
  intros Hn%bool_decide_eq_true Hall. apply list_elem_of_fmap in Hn as (n & -> & Hin).
  eapply forallb_forall in Hall; [exact Hall|]. by apply list_elem_of_In.
Qed.

Lemma named_eq name s : named name s = true -> name = str s.
Proof. apply bool_decide_eq_true. Qed.

Ltac list_effect := refuse; apply no_effect_list; intros ??? _ Hf Hv; by injection Hf.

Lemma handleListCommand_effect name args :
  no_effect (IsMutation name) (handleListCommand clk name args db).
Proof.
  unfold handleListCommand.
  destruct (one_of name ["LPUSH"; "RPUSH"; "LPUSHX"; "RPUSHX"]) eqn:Hp.
  { rewrite -> (one_of_mutation _ _ Hp) by done. apply handleListPush_effect. }
  destruct (one_of name ["LPOP"; "RPOP"]) eqn:Hq.
  { rewrite -> (one_of_mutation _ _ Hq) by done. apply handleListPop_effect. }
  clear Hp Hq. destruct (named name "LLEN") eqn:E1; [apply read_only; list_effect|].
  destruct (named name "LRANGE") eqn:E2; [apply read_only; list_effect|].
  destruct (named name "LINDEX") eqn:E3; [apply read_only; list_effect|].
  destruct (named name "LSET") eqn:E4.
  { apply named_eq in E4 as ->. refuse. apply no_effect_list. intros ?? e _ Hf [?|Hv]; [done|].
    destruct e; [|done]. by destruct (norm_index _ _); injection Hf. }
  destruct (named name "LTRIM") eqn:E5.
  { apply named_eq in E5 as ->. refuse. apply no_effect_list. intros ?? e _ Hf [?|Hv]; [done|].
    by injection Hf as <- _. }
  destruct (named name "LREM") eqn:E6.
  { apply named_eq in E6 as ->. refuse. apply no_effect_list. intros ?? e _ Hf [?|Hv]; [done|].
    by injection Hf as <- _. }
  destruct (named name "LINSERT") eqn:E7.
  { apply named_eq in E7 as ->. destruct args as [|key [|w [|pivot [|value []]]]]; try apply no_effect_reply.
    cbv zeta. destruct (_ && _); [apply no_effect_reply|]. apply no_effect_list.
    intros l l' r _ Hf [?|Hv]; [done|]. unfold insert_list in Hf.
    destruct (index_of pivot l); injection Hf as <- _; done. }
  destruct (named name "LMOVE") eqn:E8.
  { apply named_eq in E8 as ->. refuse. apply list_move_effect. }
  destruct (named name "RPOPLPUSH") eqn:E9.
  { apply named_eq in E9 as ->. refuse. apply list_move_effect. }
  destruct (named name "LPOS"); [apply read_only, handleListPosition_effect|apply no_effect_reply].
Qed.

Lemma execute_effect cmd : no_effect (IsMutation (cName cmd)) (execute clk cmd db).
Proof.
  unfold execute. destruct (named (cName cmd) "PING"); [apply no_effect_reply|].
  destruct (named _ "GET"); [apply read_only, handleGet_effect|].
  destruct (named _ "SET") eqn:E1; [apply named_eq in E1 as ->; apply handleSet_effect|].
  destruct (named _ "TTL"); [apply read_only, handleTTL_effect|].
  destruct (named _ "DEL") eqn:E2; [apply named_eq in E2 as ->; apply handleDel_effect|].
  destruct (named _ "EXPIRE") eqn:E3; [apply named_eq in E3 as ->; apply handleExpire_effect|].
  destruct (named _ "PEXPIREAT") eqn:E4; [apply named_eq in E4 as ->; apply handleExpireAt_effect|].
  destruct (one_of _ _); [apply handleListCommand_effect|apply no_effect_reply].
Qed.

End effects.
End CommandEffects.
