(* ===== verification/CommandTheorems.v ===== *)
(** * What the commands guarantee

    The theorems of the command component: a client of the engine sees the
    abstract database, the commands outside [IsMutation] and the refused ones have
    no effect, expirations are honoured to the nanosecond of the clock, and moving
    list elements loses none. *)

From S2P Require Import Prelude GoTime GoLib GoIO Resp RespTheorems ListValue KeyIndex Store.
From S2P Require Import StoreSpec StoreProof StoreRefine StoreMaint StoreMaintProof StoreTheorems.
From S2P Require Import Command CommandProof CommandEffects.
Import StoreSpec.

Module CommandTheorems.
Import Store StoreProof StoreMaint Cmd CommandProof CommandEffects.

(** A command on the engine is the command on the database. *)
Lemma execute_abs `{Unicode} clk cmd s :
  wf s -> exists v s', execute clk cmd s = Some (v, s') /\ wf s' /\
    execute clk cmd (abs s) = Some (v, abs s').
Proof.
  intros Hw. destruct (execute_sim rel clk cmd s (abs s) (conj Hw eq_refl)) as (v & s' & db & He & Hd & Hw' & Ha).
  subst db. by exists v, s'.
Qed.

(** C2.  From an empty engine every sequence of commands, at any clock readings,
    runs without a panic and gives the replies of the abstract database; the engine
    it leaves is well formed and stands for the database left, the indexes of every
    shard list exactly its keys and at least those with a deadline, and the byte
    counter is the sum of the sizes of the stored objects, modulo [2^64]. *)
Theorem commands_on_engine `{Unicode} (clk : clock) (cmds : list Command) :
  exists vs s, run clk cmds NewStore = Some (vs, s) /\
    run clk cmds (∅ : DB) = Some (vs, abs s) /\
    UsedMemory s = int64 (total_bytes (shards s)) /\
    forall i sh, shards s !! i = Some sh ->
      KeyIndex.wf (sall sh) /\ KeyIndex.keys_of (sall sh) = dom (sdata sh) /\
      KeyIndex.wf (svolatile sh) /\ KeyIndex.keys_of (svolatile sh) ⊆ dom (sdata sh) /\
      forall k o, sdata sh !! k = Some o ->
        getShardIndex k = i /\ (GoTime.IsZero (oExpiresAt o) = false -> k ∈ KeyIndex.keys_of (svolatile sh)).
Proof.
  destruct (run_sim rel clk cmds NewStore ∅ StoreProof.NewStore_rel) as (vs & s & db & Hs & Hd & Hw & Ha).
  subst db. exists vs, s. split_and!; [done..|apply (wf_used s Hw)|]. intros i sh Hsh.
  destruct (wf_shards s Hw i sh Hsh) as [W1 W2 D1 D2 V Hh _]. split_and!; try done.
  intros k o Hk. split; [apply Hh; by eapply elem_of_dom_2|by eapply V].
Qed.

(** C23.  A command that is not a mutation, and any command that answers with an
    error, leaves the database as it was except that entries that had expired may
    be gone; so only acknowledged mutations need to be journaled. *)
Theorem only_mutations_mutate `{Unicode} (clk : clock) (cmd : Command) (s s' : Store) (v : Value)
    (Hs : wf s) (Hrun : execute clk cmd s = Some (v, s'))
    (Hcmd : IsMutation (cName cmd) = false \/ vType v = Error) :
  forall k, abs s' !! k = abs s !! k \/
    (abs s' !! k = None /\ exists n e, abs s !! k = Some e /\ expired (clk n) e = true).
Proof.
  destruct (execute_abs clk cmd s Hs) as (v1 & s1 & He & _ & Hd). rw Hrun in He. simplify_eq.
  pose proof (execute_effect clk (abs s) (abs_filled s Hs) cmd _ _ Hd Hcmd) as Hp.
  intros k. destruct (Hp k) as [?|(? & n & e & ? & ?)]; [by left|right]. eauto.
Qed.

Lemma only_mutations_mutate_witness :
  exists v s', @execute asciiOnly Store _ (fun _ => 12) (mkCommand (str "LSET") [str "b"; str "7"; str "z"])
      StoreTheorems.demoStore = Some (v, s') /\
    forall k, abs s' !! k = abs StoreTheorems.demoStore !! k \/
      (abs s' !! k = None /\ exists (n : nat) e, abs StoreTheorems.demoStore !! k = Some e /\ expired 12 e = true).
Proof.
  destruct (@execute asciiOnly Store _ (fun _ => 12) (mkCommand (str "LSET") [str "b"; str "7"; str "z"])
      StoreTheorems.demoStore) as [[v s']|] eqn:He; [|by vm_compute in He].
  exists v, s'. split; [done|].
  apply (@only_mutations_mutate asciiOnly (fun _ => 12) (mkCommand (str "LSET") [str "b"; str "7"; str "z"])
    StoreTheorems.demoStore s' v StoreTheorems.demo_wf He).
  right. vm_compute in He. by simplify_eq.
Defined.

(** C24.  [SET key value PX ms] makes [value] the answer of [GET key] exactly until
    [ms] milliseconds after the reading of the clock at which it ran. *)
Theorem set_expires `{Unicode} (clk clk' : clock) (key value : gostring) (ms : Z) (s : Store)
    (Hs : wf s) (Hclk : 0 <= clk 0%nat) (Hms : 0 < ms <= maxMilliseconds) :
  exists s1 s2,
    execute clk (mkCommand (str "SET") [key; value; str "PX"; GoLib.FormatInt ms]) s =
      Some (NewSimpleString (str "OK"), s1) /\
    execute clk' (mkCommand (str "GET") [key]) s1 =
      Some (if clk' 0%nat <? clk 0%nat + ms * GoTime.Millisecond
            then NewBulkString value else NewNullBulkString, s2).
Proof.
  destruct (execute_abs clk (mkCommand (str "SET") [key; value; str "PX"; GoLib.FormatInt ms]) s Hs)
    as (v1 & s1 & He1 & Hw1 & Hd1).
  destruct (execute_abs clk' (mkCommand (str "GET") [key]) s1 Hw1) as (v2 & s2 & He2 & _ & Hd2).
  exists s1, s2. rw He1 He2.
  assert (Hms' : ms * GoTime.Millisecond <= max_int64).
  { rw Z.mul_comm. etrans; [|by apply (Z.mul_div_le max_int64 GoTime.Millisecond)].
    apply Z.mul_le_mono_nonneg_l; [done|apply Hms]. }
  assert (Ho : set_options [str "PX"; GoLib.FormatInt ms] 0 GoTime.zeroTime false =
               inr (ms * GoTime.Millisecond, GoTime.zeroTime, false)).
  { cbn [set_options]. change (GoLib.ToUpper (str "PX")) with (str "PX").
    change (named (str "PX") "EX") with false. change (named (str "PX") "PX") with true. cbv iota.
    rewrite -> GoLib.ParseInt_FormatInt by (unfold in_int64, min_int64, GoTime.Millisecond in *; lia).
    rewrite -> (proj2 (Z.leb_gt _ _)), (proj2 (Z.ltb_ge _ _)) by lia. simpl. do 3 f_equal.
    apply int64_id. unfold in_int64, min_int64, GoTime.Millisecond in *. lia. }
  unfold execute in Hd1, Hd2. cbn [cName cArgs] in Hd1, Hd2.
  change (handleSet clk [key; value; str "PX"; GoLib.FormatInt ms] (abs s) = Some (v1, abs s1)) in Hd1.
  change (handleGet clk' [key] (abs s1) = Some (v2, abs s2)) in Hd2.
  unfold handleSet in Hd1. rw Ho in Hd1. cbn in Hd1. injection Hd1 as <- Ha1. split; [done|].
  unfold handleGet in Hd2. cbn in Hd2. rw -Ha1 in Hd2. unfold on_entry in Hd2.
  rw lookup_partial_alter_eq in Hd2. rewrite -> (proj2 (Z.ltb_lt _ _)) in Hd2
    by (unfold GoTime.Millisecond; lia).
  unfold spec_GetString, live, expired, GoTime.IsZero, GoTime.Before, GoTime.Add in Hd2. cbn [eExp] in Hd2.
  rewrite -> (proj2 (Z.eqb_neq _ _)) in Hd2 by (unfold GoTime.zeroTime, GoTime.Second, GoTime.Millisecond; lia).
  cbn [negb andb] in Hd2. destruct (clk' 0%nat <? _); cbn in Hd2; by injection Hd2 as <- _.
Qed.

Lemma set_expires_witness :
  exists s1 s2,
    @execute asciiOnly Store _ (fun n => 1000 + Z.of_nat n)
      (mkCommand (str "SET") [str "k"; str "v"; str "PX"; GoLib.FormatInt 3]) StoreTheorems.demoStore =
      Some (NewSimpleString (str "OK"), s1) /\
    @execute asciiOnly Store _ (fun _ => 3001000) (mkCommand (str "GET") [str "k"]) s1 =
      Some (NewNullBulkString, s2).
Proof.
  apply (@set_expires asciiOnly (fun n => 1000 + Z.of_nat n) (fun _ => 3001000) (str "k") (str "v") 3
    StoreTheorems.demoStore StoreTheorems.demo_wf); [done|]. split; [done|vm_compute; done].
Defined.

(** The list a reader finds, if any. *)
Definition held (e : option entry) : list gostring :=
  match e with Some (mkEntry (VList l) _) => l | _ => [] end.

Lemma pop_list_perm left n l : (pop_list left n l).1 ++ (pop_list left n l).2 ≡ₚ l.
Proof.
  unfold pop_list. destruct left; simpl; [by rw take_drop|].
  rewrite -> (Permutation_app_comm (reverse _)), (reverse_Permutation (drop _ l)). by rw take_drop.
Qed.

Lemma push_list_perm left vs l : push_list left vs l ≡ₚ vs ++ l.
Proof.
  unfold push_list. destruct left; [by rw reverse_Permutation|]. apply Permutation_app_comm.
Qed.

Lemma held_list_entry l exp : held (list_entry l exp) = l.
Proof. by destruct l. Qed.

(** Taking one element from a list that is not empty. *)
Lemma pop_one left l : l <> [] -> exists y l', pop_list left 1 l = ([y], l') /\ y :: l' ≡ₚ l.
Proof.
  intros Hl. pose proof (pop_list_perm left 1 l) as Hp. destruct (pop_list left 1 l) as [vs l'] eqn:He.
  simpl in Hp. assert (Hlen : length vs = 1%nat).
  { unfold pop_list in He. destruct l as [|z l]; [done|]. destruct left; injection He as <- <-; [done|].
    rw length_reverse length_drop. simpl. lia. }
  destruct vs as [|y [|]]; try done. by exists y, l'.
Qed.

Lemma spec_ListMove_conserves (now now' : Z) (src dst : gostring) (f t : bool) (db db' : DB) x :
  db_filled db -> src <> dst -> spec_ListMove now now' src dst f t db = Some (inr (Some x), db') ->
  held (db' !! src) ++ held (db' !! dst) ≡ₚ held (live now (db !! src)) ++ held (live now' (db !! dst)) /\
  x ∈ held (db' !! dst).
Proof.
  intros Hdb Hne Hm. unfold spec_ListMove in Hm.
  assert (Hsrc : clean now src db !! src = live now (db !! src)) by (unfold clean; by rw lookup_partial_alter_eq).
  assert (Hdst : clean now' dst (clean now src db) !! dst = live now' (db !! dst)).
  { unfold clean at 1. rw lookup_partial_alter_eq. unfold clean. by rewrite -> lookup_partial_alter_ne by done. }
  rw Hsrc in Hm. destruct (live now (db !! src)) as [[[sv|l] exp]|] eqn:Hl; [done| |done].
  assert (Hfill : l <> []).
  { unfold live in Hl. destruct (db !! src) as [e|] eqn:Hk; [|done]. destruct (expired now e); [done|].
    simplify_eq. specialize (Hdb _ _ Hk). unfold filled in Hdb. simpl in Hdb. congruence. }
  destruct (pop_one f l Hfill) as (y & l' & Hp & Hperm). rw Hp in Hm. cbn [head default from_option id] in Hm.
  rewrite -> bool_decide_eq_false_2 in Hm by done. rw Hdst in Hm.
  assert (Hfin : forall (dl : list gostring) dexp,
    <[dst:=mkEntry (VList (push_list t [y] dl)) dexp]>
      (partial_alter (λ _, list_entry l' exp) src (clean now' dst (clean now src db))) = db' -> y = x ->
    held (db' !! src) ++ held (db' !! dst) ≡ₚ l ++ dl /\ x ∈ held (db' !! dst)).
  { intros dl dexp <- <-. rw lookup_insert_eq. rewrite -> lookup_insert_ne by done.
    rw lookup_partial_alter_eq held_list_entry. cbn [held eVal].
    split; rw push_list_perm; [|set_solver]. rw -Hperm. simpl. by rw -Permutation_middle. }
  destruct (live now' (db !! dst)) as [[[dv|dl] dexp]|]; simplify_eq; cbn [held]; by eapply Hfin.
Qed.

(** C25.  [LMOVE] and [RPOPLPUSH] between two lists lose and duplicate nothing:
    when an element is returned, the two lists together hold the elements they
    held before, and the element is in the destination. *)
Theorem list_move_conserves `{Unicode} (clk : clock) (src dst : gostring) (fromLeft toLeft : bool)
    (s s' : Store) (x : gostring)
    (Hs : wf s) (Hne : src <> dst)
    (Hrun : list_move clk src dst fromLeft toLeft s = Some (NewBulkString x, s')) :
  held (abs s' !! src) ++ held (abs s' !! dst) ≡ₚ
    held (live (clk 0%nat) (abs s !! src)) ++ held (live (clk 1%nat) (abs s !! dst)) /\
  x ∈ held (abs s' !! dst).
Proof.
  destruct (list_move_sim rel clk src dst fromLeft toLeft s (abs s) (conj Hs eq_refl))
    as (v & s1 & db & He & Hd & _ & Ha). rw Hrun in He. injection He as <- <-. subst db.
  unfold list_move in Hd. cbn [op_ListMove DB_ops] in Hd.
  destruct (spec_ListMove _ _ src dst fromLeft toLeft (abs s)) as [[r db]|] eqn:Hm; [|done].
  cbn in Hd. injection Hd as Hr <-. destruct r as [[]|[y|]]; simplify_eq/=.
  by apply (spec_ListMove_conserves _ _ _ _ _ _ _ _ _ (abs_filled s Hs) Hne Hm).
Qed.

Lemma list_move_conserves_witness :
  exists s', list_move (fun _ => 30) (str "b") (str "c") true false StoreTheorems.demoStore =
      Some (NewBulkString (str "x"), s') /\
    held (abs s' !! str "b") ++ held (abs s' !! str "c") ≡ₚ
      held (live 30 (abs StoreTheorems.demoStore !! str "b")) ++
      held (live 30 (abs StoreTheorems.demoStore !! str "c")) /\
    str "x" ∈ held (abs s' !! str "c").
Proof.
  destruct (list_move (fun _ => 30) (str "b") (str "c") true false StoreTheorems.demoStore)
    as [[v s']|] eqn:He; [|by vm_compute in He].
  assert (Hv : v = NewBulkString (str "x")) by (vm_compute in He; by simplify_eq). subst v.
  exists s'. split; [done|].
  apply (@list_move_conserves asciiOnly (fun _ => 30) (str "b") (str "c") true false StoreTheorems.demoStore s' (str "x")
    StoreTheorems.demo_wf); [done|exact He].
Defined.

End CommandTheorems.
