(* ===== verification/Executor.v ===== *)
(** * The command executor

    [internal/command/executor.go] and [memory.go]: the memory limit, the order
    of journaling and applying a mutation, group commit, active expiration under
    the journal, and the AOF rewrite status.  The journal is the interface
    [Journal], which [internal/aof] implements.  Go errors are their texts.

    The mutation lock is held over the whole of [commitMutationBatch],
    [journalAndDeleteExpired], [startAOFRewriteNow] and the completion of a
    rewrite, so each is one step from an [Executor] to an [Executor]. *)

From S2P Require Import Prelude GoTime GoLib GoIO Resp ListValue KeyIndex Store StoreSpec.
From S2P Require Import StoreRefine StoreMaint Command.

Abbreviation goerr := gostring.

(** [AsyncJournalRewriter]. *)
Record AsyncRewriter (J : Type) := mkAsync {
  arStart : list SnapshotEntry -> J -> option goerr * J;
  arComplete : J -> option goerr * J;
  arAbort : goerr -> J -> option goerr * J;
}.
Arguments mkAsync {J}.
Arguments arStart {J}.
Arguments arComplete {J}.
Arguments arAbort {J}.

(** [Journal] with the interfaces a journal may also implement: [BatchJournal],
    [JournalRewriter] and [AsyncJournalRewriter]. *)
Class Journal (J : Type) := {
  jAppend : clock -> Command -> J -> (goerr + Command) * J;
  jBatch : option (clock -> list Command -> J -> (goerr + list Command) * J);
  jRewrite : option (clock -> Store -> J -> option goerr * J);
  jAsync : option (AsyncRewriter J);
}.

Record Executor (J : Type) := mkExec {
  eStore : Store;
  maxMemory : Z;
  evictLRU : bool;
  journal : option J;
  rewriteStatus : gostring;
  rewriteError : gostring;
}.
Arguments mkExec {J}.
Arguments eStore {J}.
Arguments maxMemory {J}.
Arguments evictLRU {J}.
Arguments journal {J}.
Arguments rewriteStatus {J}.
Arguments rewriteError {J}.

Module Exec.
Import StoreMaint.

Definition NewExecutor {J} (store : Store) : Executor J := mkExec store 0 false None [] [].

Definition set_store {J} (s : Store) (e : Executor J) : Executor J :=
  mkExec s (maxMemory e) (evictLRU e) (journal e) (rewriteStatus e) (rewriteError e).
Definition SetJournal {J} (j : option J) (e : Executor J) : Executor J :=
  mkExec (eStore e) (maxMemory e) (evictLRU e) j (rewriteStatus e) (rewriteError e).
Definition SetMemoryLimit {J} (maxBytes : Z) (policy : gostring) (e : Executor J) : Executor J :=
  mkExec (eStore e) maxBytes (bool_decide (policy = str "allkeys-lru")) (journal e)
    (rewriteStatus e) (rewriteError e).
Definition set_status {J} (status error : gostring) (e : Executor J) : Executor J :=
  mkExec (eStore e) (maxMemory e) (evictLRU e) (journal e) status error.

Section executor.
Context `{Unicode} {J : Type} `{Journal J}.

(** ** memory.go *)

(** A journal that is not batched stops at the first error. *)
Fixpoint append_each (clk : clock) (commands : list Command) (j : J) : option goerr * J :=
  match commands with
  | [] => (None, j)
  | cmd :: commands' =>
      match jAppend (fork1 clk) cmd j with
      | (inl e, j) => (Some e, j)
      | (inr _, j) => append_each (fork2 clk) commands' j
      end
  end.

Definition appendCommands (clk : clock) (commands : list Command) (j : J) : option goerr * J :=
  match jBatch with
  | Some AppendBatch =>
      let '(r, j) := AppendBatch clk commands j in
      (match r with inl e => Some e | inr _ => None end, j)
  | None => append_each clk commands j
  end.

Definition delCommand (key : gostring) : Command := mkCommand (str "DEL") [key].

(** [appendCommands] on the installed journal, if any. *)
Definition journal_first (clk : clock) (commands : list Command) (e : Executor J)
    : option goerr * Executor J :=
  match journal e with
  | None => (None, e)
  | Some j => let '(r, j) := appendCommands clk commands j in (r, SetJournal (Some j) e)
  end.

(** Turns of the eviction loop; [None] when the fuel runs out. *)
Fixpoint admit_loop (fuel : nat) (rnd : nat -> nat) (clk : clock) (e : Executor J)
    : option ((goerr + bool) * Executor J) :=
  match fuel with
  | O => None
  | S fuel' =>
      if maxMemory e <? UsedMemory (eStore e) then
        if negb (evictLRU e) then Some (inr false, e)
        else
          victim ← LRUVictim (fork1 rnd) (eStore e);
          match victim with
          | None => Some (inr false, e)
          | Some key =>
              match journal_first (fork1 (fork1 clk)) [delCommand key] e with
              | (Some err, e) => Some (inl (str "persist eviction: " ++ err), e)
              | (None, e) =>
                  '(_, s) ← Store.Del (fork2 (fork1 clk)) key (eStore e);
                  admit_loop fuel' (fork2 rnd) (fork2 clk) (set_store s e)
              end
          end
      else Some (inr true, e)
  end.

(** Every turn deletes a key, so the number of keys plus one turns are enough. *)
Definition key_count (s : Store) : nat := sum_list ((fun sh => base.size (sdata sh)) <$> shards s).

Definition admit_ (rnd : nat -> nat) (clk : clock) (cmd : Command) (e : Executor J)
    : option ((goerr + bool) * Executor J) :=
  if (maxMemory e <=? 0) || negb (Cmd.growsMemory (cName cmd)) then Some (inr true, e)
  else admit_loop (S (key_count (eStore e))) rnd clk e.

Definition oomMessage : gostring := str "OOM command not allowed when used memory > 'maxmemory'".

(** [inr None] lets the command run, [inr (Some reply)] refuses it. *)
Definition admitOrReject (rnd : nat -> nat) (clk : clock) (cmd : Command) (e : Executor J)
    : option ((goerr + option Value) * Executor J) :=
  '(r, e) ← admit_ rnd clk cmd e;
  Some (match r with
        | inl err => inl err
        | inr true => inr None
        | inr false => inr (Some (NewError oomMessage))
        end, e).

(** ** executor.go: applying and group commit *)
Definition apply (clk : clock) (cmd : Command) (e : Executor J) : option (Value * Executor J) :=
  '(v, s) ← Cmd.execute clk cmd (eStore e); Some (v, set_store s e).

Definition executionResult : Type := (goerr + Value).

(** The admission loop: for each request its refusal, or [None] when accepted. *)
Fixpoint admit_all (rnd : nat -> nat) (clk : clock) (batch : list Command) (e : Executor J)
    : option (list (option executionResult) * Executor J) :=
  match batch with
  | [] => Some ([], e)
  | cmd :: batch' =>
      '(r, e) ← admitOrReject (fork1 rnd) (fork1 clk) cmd e;
      '(rs, e) ← admit_all (fork2 rnd) (fork2 clk) batch' e;
      Some (match r with
            | inl err => Some (inl err)
            | inr (Some reply) => Some (inr reply)
            | inr None => None
            end :: rs, e)
  end.

(** The last loop: refusals keep their result, the others take the next persisted
    command, or the error of the journal. *)
Fixpoint apply_all (clk : clock) (decisions : list (option executionResult))
    (persisted : goerr + list Command) (e : Executor J)
    : option (list executionResult * Executor J) :=
  match decisions with
  | [] => Some ([], e)
  | Some r :: ds => '(rs, e) ← apply_all clk ds persisted e; Some (r :: rs, e)
  | None :: ds =>
      match persisted with
      | inl err =>
          '(rs, e) ← apply_all clk ds persisted e;
          Some (inl (str "persist command before applying it: " ++ err) :: rs, e)
      | inr [] => None
      | inr (cmd :: cmds) =>
          '(v, e) ← apply (fork1 clk) cmd e;
          '(rs, e) ← apply_all (fork2 clk) ds (inr cmds) e;
          Some (inr v :: rs, e)
      end
  end.

(** The commands the limit let through. *)
Fixpoint accepted (batch : list Command) (decisions : list (option executionResult)) : list Command :=
  match batch, decisions with
  | cmd :: batch', None :: ds => cmd :: accepted batch' ds
  | _ :: batch', Some _ :: ds => accepted batch' ds
  | _, _ => []
  end.

Definition lengthError (got want : list Command) : goerr :=
  str "journal returned " ++ GoLib.FormatInt (len got) ++ str " commands for batch of " ++
  GoLib.FormatInt (len want).

Definition append_accepted (AppendBatch : clock -> list Command -> J -> (goerr + list Command) * J)
    (clk : clock) (commands : list Command) (e : Executor J)
    : (goerr + list Command) * Executor J :=
  match commands, journal e with
  | [], _ | _, None => (inr [], e)
  | _, Some j =>
      let '(r, j) := AppendBatch clk commands j in
      (match r with
       | inl err => inl err
       | inr persisted =>
           if length persisted =? length commands then inr persisted
           else inl (lengthError persisted commands)
       end, SetJournal (Some j) e)
  end%nat.

Definition commitMutationBatch
    (AppendBatch : clock -> list Command -> J -> (goerr + list Command) * J)
    (rnd : nat -> nat) (clk : clock) (batch : list Command) (e : Executor J)
    : option (list executionResult * Executor J) :=
  '(decisions, e) ← admit_all rnd (fork1 clk) batch e;
  let '(persisted, e) := append_accepted AppendBatch (fork1 (fork2 clk)) (accepted batch decisions) e in
  apply_all (fork2 (fork2 clk)) decisions persisted e.

(** A request that finds the queue empty is committed as a batch of its own; how
    the write loop groups concurrent requests is in [WriteLoop]. *)
Definition submitMutation
    (AppendBatch : clock -> list Command -> J -> (goerr + list Command) * J)
    (rnd : nat -> nat) (clk : clock) (cmd : Command) (e : Executor J)
    : option (executionResult * Executor J) :=
  '(rs, e) ← commitMutationBatch AppendBatch rnd clk [cmd] e;
  r ← head rs;
  Some (r, e).

(** ** AOF rewrite *)
Definition aofRewriteStatus (e : Executor J) : Value :=
  let status := match rewriteStatus e with [] => str "idle" | s => s end in
  NewArray [NewBulkString status; NewBulkString (rewriteError e)].

Definition setRewriteResult (status : gostring) (err : option goerr) (e : Executor J) : Executor J :=
  set_status status (default [] err) e.

(** With an asynchronous rewriter the snapshot is handed over and the rewrite is
    left running; otherwise it is done on the spot. *)
Definition startAOFRewriteNow (ord : gset gostring -> list gostring) (clk : clock) (e : Executor J)
    : option (option goerr * Executor J) :=
  match journal e with
  | None => Some (Some (str "AOF rewrite is unavailable because persistence is disabled"), e)
  | Some j =>
      if Cmd.named (rewriteStatus e) "running"
      then Some (Some (str "AOF rewrite is already in progress"), e)
      else match jRewrite with
           | None => Some (Some (str "configured journal does not support rewrite"), e)
           | Some Rewrite =>
               let e := set_status (str "running") [] e in
               match jAsync with
               | Some async =>
                   entries ← SnapshotEntries ord clk (eStore e);
                   match entries with
                   | inl _ =>
                       let err := str "snapshot store for AOF rewrite: " in
                       Some (Some err, setRewriteResult (str "failed") (Some err) e)
                   | inr entries =>
                       let '(r, j) := arStart async entries j in
                       let e := SetJournal (Some j) e in
                       match r with
                       | Some err => Some (Some err, setRewriteResult (str "failed") (Some err) e)
                       | None => Some (None, e)
                       end
                   end
               | None =>
                   let '(r, j) := Rewrite clk (eStore e) j in
                   let e := SetJournal (Some j) e in
                   match r with
                   | Some err => Some (Some err, setRewriteResult (str "failed") (Some err) e)
                   | None => Some (None, setRewriteResult (str "completed") None e)
                   end
               end
           end
  end.

(** The background worker reports [ready]; [AbortRewrite] joins the cause with
    its own cleanup error, which becomes the recorded failure. *)
Definition finishAOFRewrite (async : AsyncRewriter J) (ready : option goerr) (e : Executor J)
    : Executor J :=
  match journal e with
  | None => e
  | Some j =>
      match ready with
      | Some err =>
          let '(r, j) := arAbort async err j in
          setRewriteResult (str "failed") r (SetJournal (Some j) e)
      | None =>
          let '(r, j) := arComplete async j in
          let e := SetJournal (Some j) e in
          match r with
          | Some err => setRewriteResult (str "failed") (Some err) e
          | None => setRewriteResult (str "completed") None e
          end
      end
  end.

(** [RewriteAOF] when nothing else is queued: start, wait for the background worker,
    which reports [ready], and look at the status. *)
Definition RewriteAOF (ord : gset gostring -> list gostring) (clk : clock) (ready : option goerr)
    (e : Executor J) : option (option goerr * Executor J) :=
  '(err, e) ← startAOFRewriteNow ord clk e;
  match err with
  | Some err => Some (Some err, e)
  | None =>
      let e := match journal e, jRewrite, jAsync with
               | Some _, Some _, Some async => finishAOFRewrite async ready e
               | _, _, _ => e
               end in
      Some (if Cmd.named (rewriteStatus e) "failed"
            then Some (str "AOF rewrite failed: " ++ rewriteError e) else None, e)
  end.

(** The checks made when the command is received; the start itself is queued
    behind the mutations already submitted. *)
Definition enqueueAOFRewrite (e : Executor J) : option goerr * Executor J :=
  match journal e with
  | None => (Some (str "AOF rewrite is unavailable because persistence is disabled"), e)
  | Some _ =>
      match jRewrite with
      | None => (Some (str "configured journal does not support rewrite"), e)
      | Some _ =>
          if Cmd.named (rewriteStatus e) "running" || Cmd.named (rewriteStatus e) "queued"
          then (Some (str "AOF rewrite is already in progress"), e)
          else (None, set_status (str "queued") [] e)
      end
  end.

(** ** Execute *)
Definition executeRewrite (ord : gset gostring -> list gostring) (clk : clock)
    (args : list gostring) (e : Executor J) : option (executionResult * Executor J) :=
  let start :=
    match args with
    | [] =>
        match journal e, jBatch with
        | Some _, Some _ =>
            let '(err, e) := enqueueAOFRewrite e in
            Some (match err with Some err => inl err | None => inr (NewSimpleString (str "OK")) end, e)
        | _, _ =>
            '(err, e) ← startAOFRewriteNow ord clk e;
            Some (match err with Some err => inl err | None => inr (NewSimpleString (str "OK")) end, e)
        end
    | _ => Some (inr (Cmd.err "ERR wrong number of arguments for 'aofrewrite' command"), e)
    end in
  match args with
  | [a] => if GoLib.EqualFold a (str "STATUS") then Some (inr (aofRewriteStatus e), e) else start
  | _ => start
  end.

(** Admission, then the command as given. *)
Definition admitAndApply (rnd : nat -> nat) (clk : clock) (cmd : Command) (e : Executor J)
    : option (executionResult * Executor J) :=
  '(r, e) ← admitOrReject rnd (fork1 clk) cmd e;
  match r with
  | inl err => Some (inl err, e)
  | inr (Some reply) => Some (inr reply, e)
  | inr None => '(v, e) ← apply (fork2 clk) cmd e; Some (inr v, e)
  end.

Definition Execute (ord : gset gostring -> list gostring) (rnd : nat -> nat) (clk : clock)
    (cmd : Command) (e : Executor J) : option (executionResult * Executor J) :=
  if Cmd.named (cName cmd) "AOFREWRITE" then executeRewrite ord clk (cArgs cmd) e
  else if Cmd.IsMutation (cName cmd) then
    match journal e, jBatch with
    | Some _, Some AppendBatch => submitMutation AppendBatch rnd clk cmd e
    | Some _, None =>
        '(r, e) ← admitOrReject rnd (fork1 clk) cmd e;
        match r with
        | inl err => Some (inl err, e)
        | inr (Some reply) => Some (inr reply, e)
        | inr None =>
            j ← journal e;
            let '(p, j) := jAppend (fork1 (fork2 clk)) cmd j in
            let e := SetJournal (Some j) e in
            match p with
            | inl err => Some (inl (str "persist command before applying it: " ++ err), e)
            | inr persisted => '(v, e) ← apply (fork2 (fork2 clk)) persisted e; Some (inr v, e)
            end
        end
    | None, _ => admitAndApply rnd clk cmd e
    end
  else admitAndApply rnd clk cmd e.

(** ** Active expiration under the journal

    [journalAndDeleteExpired] holds the mutation lock, so that only readers use the store
    meanwhile; all they change is to remove what has expired. *)
Definition journalAndDeleteExpired (clk : clock) (candidates : list gostring) (es : Executor J * Store)
    : option ((Z * bool) * (Executor J * Store)) :=
  let e := set_store es.2 es.1 in
  match journal e with
  | None => '(n, es) ← DeleteExpired alone (fork1 clk) candidates (e, eStore e); Some ((n, false), es)
  | Some j =>
      expired ← FilterExpired (fork1 clk) candidates (eStore e);
      match expired with
      | [] => Some ((0, false), (e, eStore e))
      | _ =>
          let '(r, j) := appendCommands (fork1 (fork2 clk)) (delCommand <$> expired) j in
          let e := SetJournal (Some j) e in
          match r with
          | Some _ => Some ((0, true), (e, eStore e))
          | None => '(n, es) ← DeleteExpired alone (fork2 (fork2 clk)) expired (e, eStore e); Some ((n, false), es)
          end
      end
  end.

(** What other goroutines do to the executor between the critical sections. *)
Definition on_executor (others : nat -> Executor J -> Executor J) : interference (Executor J) :=
  fun n es => let e := others n (set_store es.2 es.1) in (e, eStore e).

(** Whether there is a journal is looked at before the first sample. *)
Definition ActiveExpire (rnd : nat -> nat) (others : nat -> Executor J -> Executor J) (clk : clock) (e : Executor J)
    : option (Z * Executor J) :=
  let cycle :=
    match journal e with
    | None => ActiveExpireCycle
    | Some _ => ActiveExpireCycleWith (Some journalAndDeleteExpired)
    end in
  '(n, (e, s)) ← cycle rnd (on_executor others) clk (e, eStore e);
  Some (n, set_store s e).

End executor.

End Exec.
