(* ===== verification/ExecutorProof.v ===== *)
(** * The executor: admission, journaling order, group commit

    Admission always terminates and leaves the store within its limit or
    untouched; a mutation reaches the store only after the journal took it; a
    committed batch is the sequence of its commands. *)

From S2P Require Import Prelude GoTime GoLib GoIO Resp ListValue KeyIndex Store StoreSpec.
From S2P Require Import StoreProof StoreRefine StoreMaint StoreMaintProof Command CommandProof.
From S2P Require Import Executor.
Import StoreSpec.

Module ExecutorProof.
Import StoreProof StoreMaint StoreMaintProof Exec.

(** ** Counting keys *)
Lemma size_union_le (m1 m2 : DB) : (base.size (m1 ∪ m2) <= base.size m1 + base.size m2)%nat.
Proof.
  rw -!size_dom dom_union_L. rw size_union_alt.
  pose proof (subseteq_size (dom m2 ∖ dom m1) (dom m2) ltac:(set_solver)). lia.
Qed.

Lemma size_abs s : (base.size (abs s) <= key_count s)%nat.
Proof.
  unfold abs, key_count. induction (shards s) as [|sh l IH]; [done|]. csimpl.
  etrans; [apply size_union_le|]. unfold shard_abs at 1. rw map_size_fmap. lia.
Qed.

Lemma empty_used s : wf s -> abs s = ∅ -> UsedMemory s = 0.
Proof.
  intros Hw He. unfold UsedMemory. rw (wf_used s Hw).
  assert (total_bytes (shards s) = 0) as ->; [|done].
  assert (Hd : forall i sh, shards s !! i = Some sh -> sdata sh = ∅).
  { intros i sh Hsh. apply map_empty. intros k. destruct (sdata sh !! k) as [o|] eqn:Hk; [|done].
    destruct (index_key_abs s i sh k Hw Hsh (elem_of_dom_2 _ _ _ Hk)) as [e He']. rw He lookup_empty in He'. done. }
  clear Hw He. induction (shards s) as [|sh l IH]; [done|]. simpl.
  rewrite -> IH by (intros i; apply (Hd (S i))). unfold shard_bytes, map_bytes.
  by rewrite -> (Hd 0%nat sh), map_fold_empty.
Qed.

Section executor.
Context `{Unicode} {J : Type} `{Journal J}.

(** The fields evictions do not touch. *)
Definition same_settings (e e' : Executor J) : Prop :=
  maxMemory e' = maxMemory e /\ evictLRU e' = evictLRU e /\
  rewriteStatus e' = rewriteStatus e /\ rewriteError e' = rewriteError e /\
  (journal e' = None <-> journal e = None).

Lemma same_settings_refl e : same_settings e e.
Proof. by split_and!. Qed.

Lemma same_settings_trans a b c : same_settings a b -> same_settings b c -> same_settings a c.
Proof. unfold same_settings. intuition congruence. Qed.

Lemma journal_first_spec clk cmds e r e' :
  journal_first clk cmds e = (r, e') ->
  eStore e' = eStore e /\ same_settings e e' /\ (r <> None -> journal e <> None).
Proof.
  unfold journal_first. destruct (journal e) as [j|] eqn:Hj.
  - destruct (appendCommands clk cmds j) as [r1 j1]. intros. simplify_eq.
    unfold same_settings. simpl. rw Hj. naive_solver.
  - intros. simplify_eq. split_and!; [done|apply same_settings_refl|done].
Qed.

Lemma Del_store clk key s :
  wf s -> exists b s', Store.Del clk key s = Some (b, s') /\ wf s' /\ abs s' = delete key (abs s).
Proof.
  intros Hw. destruct (StoreRefine.Del_sim clk key s (abs s) (conj Hw eq_refl))
    as (b & s' & db & -> & Hg & Hw' & Ha). exists b, s'. split_and!; [done..|].
  unfold on_entry, spec_Del in Hg. injection Hg as _ Hdb. by rw Ha -Hdb.
Qed.

Lemma admit_loop_spec fuel rnd clk e :
  wf (eStore e) -> 0 <= maxMemory e -> (base.size (abs (eStore e)) < fuel)%nat ->
  exists r e', admit_loop fuel rnd clk e = Some (r, e') /\ wf (eStore e') /\
    abs (eStore e') ⊆ abs (eStore e) /\ same_settings e e' /\
    match r with
    | inr true => UsedMemory (eStore e') <= maxMemory e
    | inr false => evictLRU e = false /\ e' = e /\ maxMemory e < UsedMemory (eStore e)
    | inl _ => journal e <> None /\ evictLRU e = true
    end.
Proof.
  revert rnd clk e. induction fuel as [|fuel IH]; intros rnd clk e Hw Hm Hf; [lia|]. simpl.
  destruct (Z.ltb_spec (maxMemory e) (UsedMemory (eStore e))) as [Hu|Hu]; cycle 1.
  { exists (inr true), e. split_and!; [done..|apply same_settings_refl|lia]. }
  destruct (evictLRU e) eqn:Hev; cycle 1.
  { exists (inr false), e. split_and!; [done..|apply same_settings_refl|done|done|done]. }
  destruct (LRUVictim_spec (fork1 rnd) (eStore e) Hw) as (v & -> & Hv). simpl.
  destruct v as [key|]; [|pose proof (empty_used _ Hw Hv); lia].
  destruct (journal_first _ _ e) as [r1 e1] eqn:Hj.
  apply journal_first_spec in Hj as (Hs1 & Hset & Hr1). destruct r1 as [err|].
  { eexists (inl _), e1. rw Hs1. split_and!; [done..|naive_solver|done]. }
  rw Hs1. destruct (Del_store (fork2 (fork1 clk)) key (eStore e) Hw) as (b & s' & -> & Hw' & Ha'). simpl.
  destruct (IH (fork2 rnd) (fork2 clk) (set_store s' e1)) as (r & e' & -> & Hw2 & Ha2 & Hset2 & Hr).
  - done.
  - simpl. destruct Hset as [-> _]. lia.
  - simpl. rw Ha'. destruct Hv as [x Hx].
    pose proof (map_size_delete_Some key (abs (eStore e)) (mk_is_Some _ _ Hx)).
    assert (base.size (abs (eStore e)) <> 0%nat); [|lia].
    intros Hz%map_size_empty_inv. rw Hz lookup_empty in Hx. done.
  - exists r, e'. split_and!; [done..| | |].
    + simpl in Ha2. rw Ha' in Ha2. etrans; [exact Ha2|]. apply delete_subseteq.
    + eapply same_settings_trans; [exact Hset|]. exact Hset2.
    + destruct Hset as (Hm1 & He1 & _ & _ & Hj1). simpl in Hr. rw Hm1 He1 Hev in Hr.
      destruct r as [err|[]]; [naive_solver|done|naive_solver].
Qed.

Lemma admit_spec rnd clk cmd e :
  wf (eStore e) ->
  exists r e', admit_ rnd clk cmd e = Some (r, e') /\ wf (eStore e') /\
    abs (eStore e') ⊆ abs (eStore e) /\ same_settings e e' /\
    match r with
    | inr true => e' = e /\ (maxMemory e <= 0 \/ Cmd.growsMemory (cName cmd) = false) \/
                  UsedMemory (eStore e') <= maxMemory e
    | inr false => evictLRU e = false /\ e' = e /\ maxMemory e < UsedMemory (eStore e)
    | inl _ => journal e <> None /\ evictLRU e = true
    end.
Proof.
  intros Hw. unfold admit_. destruct (Z.leb_spec (maxMemory e) 0) as [Hm|Hm]; simpl.
  { exists (inr true), e. split_and!; [done..|apply same_settings_refl|]. left. auto. }
  destruct (Cmd.growsMemory (cName cmd)); simpl.
  - destruct (admit_loop_spec (S (key_count (eStore e))) rnd clk e Hw) as (r & e' & Hr & ? & ? & ? & Hc);
      [lia|pose proof (size_abs (eStore e)); lia|].
    exists r, e'. split_and!; try done. destruct r as [|[]]; [done|by right|done].
  - exists (inr true), e. split_and!; [done..|apply same_settings_refl|]. left. auto.
Qed.

Lemma admitOrReject_spec rnd clk cmd e :
  wf (eStore e) ->
  exists r e', admitOrReject rnd clk cmd e = Some (r, e') /\ wf (eStore e') /\
    abs (eStore e') ⊆ abs (eStore e) /\ same_settings e e' /\
    (maxMemory e <= 0 -> r = inr None /\ e' = e).
Proof.
  intros Hw. unfold admitOrReject. destruct (decide (maxMemory e <= 0)) as [Hm|Hm].
  - unfold admit_. rewrite -> (proj2 (Z.leb_le _ _)) by done. simpl. do 2 eexists.
    split_and!; [done..|apply same_settings_refl|done].
  - destruct (admit_spec rnd clk cmd e Hw) as (r & e' & -> & ? & ? & ? & _). simpl.
    do 2 eexists. split_and!; [done..|]. lia.
Qed.

(** A command applied to the engine is the command applied to the database. *)
Lemma apply_spec clk cmd (e : Executor J) :
  wf (eStore e) ->
  exists v s', apply clk cmd e = Some (v, set_store s' e) /\ wf s' /\
    Cmd.execute clk cmd (abs (eStore e)) = Some (v, abs s').
Proof.
  intros Hw. unfold apply.
  destruct (CommandProof.execute_sim rel clk cmd (eStore e) (abs (eStore e)) (conj Hw eq_refl))
    as (v & s' & db & -> & Hdb & Hw' & Ha). subst db. simpl. by exists v, s'.
Qed.

(** ** Group commit *)
Fixpoint undecided (ds : list (option executionResult)) : nat :=
  match ds with [] => 0 | None :: ds => S (undecided ds) | Some _ :: ds => undecided ds end.

Lemma admit_all_spec rnd clk batch e :
  wf (eStore e) ->
  exists ds e', admit_all rnd clk batch e = Some (ds, e') /\ wf (eStore e') /\
    abs (eStore e') ⊆ abs (eStore e) /\ same_settings e e' /\ length ds = length batch /\
    length (accepted batch ds) = undecided ds /\
    (maxMemory e <= 0 -> ds = replicate (length batch) None /\ e' = e).
Proof.
  revert rnd clk e. induction batch as [|cmd batch IH]; intros rnd clk e Hw; simpl.
  { exists [], e. split_and!; try done; apply same_settings_refl. }
  destruct (admitOrReject_spec (fork1 rnd) (fork1 clk) cmd e Hw) as (r & e1 & -> & Hw1 & Ha1 & Hs1 & Hl1). simpl.
  destruct (IH (fork2 rnd) (fork2 clk) e1 Hw1) as (ds & e2 & -> & Hw2 & Ha2 & Hs2 & Hlen & Hacc & Hl2). simpl.
  do 2 eexists. split_and!; [done|done|by etrans|by eapply same_settings_trans|simpl; lia| |].
  - destruct r as [|[]]; simpl; lia.
  - intros Hm. destruct (Hl1 Hm) as [-> ->]. destruct (Hl2 Hm) as [-> ->]. done.
Qed.

Lemma apply_all_spec clk ds p (e : Executor J) :
  wf (eStore e) -> (forall cmds, p = inr cmds -> length cmds = undecided ds) ->
  exists rs s', apply_all clk ds p e = Some (rs, set_store s' e) /\ wf s' /\ length rs = length ds /\
    match p with
    | inl err => abs s' = abs (eStore e)
    | inr cmds => True
    end.
Proof.
  revert clk p e. induction ds as [|[r|] ds IH]; intros clk p e Hw Hp; simpl.
  - exists [], (eStore e). split_and!; try done; [by destruct e|by destruct p].
  - destruct (IH clk p e Hw) as (rs & s' & -> & ? & ? & ?).
    { intros cmds Hc. by apply Hp. }
    simpl. do 2 eexists. split_and!; [done|done|simpl; lia|done].
  - destruct p as [err|[|cmd cmds]].
    + destruct (IH clk (inl err) e Hw) as (rs & s' & -> & ? & ? & ?); [done|]. simpl.
      do 2 eexists. split_and!; [done|done|simpl; lia|done].
    + by specialize (Hp [] eq_refl).
    + destruct (apply_spec (fork1 clk) cmd e Hw) as (v & s1 & -> & Hw1 & _). simpl.
      destruct (IH (fork2 clk) (inr cmds) (set_store s1 e)) as (rs & s' & -> & ? & ? & _); [done| |].
      { intros ? [= <-]. specialize (Hp _ eq_refl). simpl in Hp. lia. }
      simpl. do 2 eexists. split_and!; [done|done|simpl; lia|done].
Qed.

(** With nothing refused, the persisted commands run in order. *)
Lemma apply_all_run clk cmds (e : Executor J) :
  wf (eStore e) ->
  exists vs s', apply_all clk (replicate (length cmds) None) (inr cmds) e = Some (inr <$> vs, set_store s' e) /\
    wf s' /\ CommandProof.run clk cmds (abs (eStore e)) = Some (vs, abs s').
Proof.
  revert clk e. induction cmds as [|cmd cmds IH]; intros clk e Hw; simpl.
  { exists [], (eStore e). split_and!; try done. by destruct e. }
  destruct (apply_spec (fork1 clk) cmd e Hw) as (v & s1 & -> & Hw1 & Hx). simpl. rw Hx /=.
  destruct (IH (fork2 clk) (set_store s1 e) Hw1) as (vs & s' & -> & Hw' & Hrun). simpl in *.
  rw Hrun /=. by exists (v :: vs), s'.
Qed.

Lemma apply_all_error clk n err (e : Executor J) :
  apply_all clk (replicate n None) (inl err) e =
    Some (replicate n (inl (str "persist command before applying it: " ++ err)), e).
Proof. induction n as [|n IH]; [done|]. simpl. by rw IH. Qed.

Lemma accepted_all batch : accepted batch (replicate (length batch) None) = batch.
Proof. induction batch as [|cmd batch IH]; [done|]. simpl. by rw IH. Qed.

Lemma append_accepted_spec AppendBatch clk cmds (e : Executor J) p e' :
  journal e <> None -> append_accepted AppendBatch clk cmds e = (p, e') ->
  eStore e' = eStore e /\ same_settings e e' /\ (forall ps, p = inr ps -> length ps = length cmds).
Proof.
  unfold append_accepted. intros Hj. destruct cmds as [|c cmds].
  { intros. simplify_eq. split_and!; [done|apply same_settings_refl|by intros ? [= <-]]. }
  destruct (journal e) as [j|] eqn:Hje; [|done].
  destruct (AppendBatch clk (c :: cmds) j) as [[err|ps] j1]; intros; simplify_eq.
  - split_and!; [done|unfold same_settings; simpl; rw Hje; naive_solver|done].
  - split_and!; [done|unfold same_settings; simpl; rw Hje; naive_solver|].
    intros qs Hq. destruct (Nat.eqb_spec (length ps) (length (c :: cmds))); by simplify_eq.
Qed.

Lemma commit_total AppendBatch rnd clk batch (e : Executor J) :
  wf (eStore e) -> journal e <> None ->
  exists rs e', commitMutationBatch AppendBatch rnd clk batch e = Some (rs, e') /\ wf (eStore e') /\
    length rs = length batch /\ same_settings e e'.
Proof.
  intros Hw Hj. unfold commitMutationBatch.
  destruct (admit_all_spec rnd (fork1 clk) batch e Hw) as (ds & e1 & -> & Hw1 & _ & Hs1 & Hl & Hacc & _).
  simpl. destruct (append_accepted _ _ _ e1) as [p e2] eqn:Hp.
  apply append_accepted_spec in Hp as (Hst & Hs2 & Hps); [|by intros ?%Hs1].
  destruct (apply_all_spec (fork2 (fork2 clk)) ds p e2) as (rs & s' & -> & Hw' & Hrs & _).
  - by rw Hst.
  - intros ps Heq. rw (Hps ps Heq). done.
  - do 2 eexists. split_and!; [done|done|lia|]. eapply same_settings_trans; [exact Hs1|].
    eapply same_settings_trans; [exact Hs2|]. by split_and!.
Qed.

(** Without a memory limit a batch is all or nothing: the journal's error for
    every request and an untouched store, or the persisted commands in order. *)
Lemma commit_nolimit AppendBatch rnd clk batch (e : Executor J) j :
  wf (eStore e) -> maxMemory e <= 0 -> journal e = Some j -> batch <> [] ->
  exists rs e', commitMutationBatch AppendBatch rnd clk batch e = Some (rs, e') /\ wf (eStore e') /\
    match AppendBatch (fork1 (fork2 clk)) batch j with
    | (inl err, j') =>
        rs = replicate (length batch) (inl (str "persist command before applying it: " ++ err)) /\
        eStore e' = eStore e /\ journal e' = Some j'
    | (inr ps, j') =>
        journal e' = Some j' /\
        if decide (length ps = length batch)
        then exists vs, rs = inr <$> vs /\
               CommandProof.run (fork2 (fork2 clk)) ps (abs (eStore e)) = Some (vs, abs (eStore e'))
        else eStore e' = eStore e
    end.
Proof.
  intros Hw Hm Hj Hb. unfold commitMutationBatch.
  destruct (admit_all_spec rnd (fork1 clk) batch e Hw) as (ds & e1 & -> & _ & _ & _ & _ & _ & Hl).
  destruct (Hl Hm) as [-> ->]. simpl. rw accepted_all. unfold append_accepted. rw Hj.
  destruct batch as [|c batch]; [done|]. remember (c :: batch) as cmds eqn:Hcmds. clear Hcmds.
  destruct (AppendBatch _ cmds j) as [[err|ps] j1]; [rw apply_all_error; by do 2 eexists|].
  destruct (Nat.eqb_spec (length ps) (length cmds)) as [Heq|Hne].
  - rw -Heq. destruct (apply_all_run (fork2 (fork2 clk)) ps (SetJournal (Some j1) e)) as (vs & s' & -> & Hw' & Hrun);
      [done|]. do 2 eexists. split_and!; [done..|]. rewrite -> decide_True by done. by exists vs.
  - rw apply_all_error. do 2 eexists. split_and!; [done..|]. by rewrite -> decide_False by done.
Qed.

(** ** Execute never panics *)
Definition safe {A} (r : option (A * Executor J)) : Prop :=
  exists a e', r = Some (a, e') /\ wf (eStore e').

Lemma admitAndApply_safe rnd clk cmd (e : Executor J) :
  wf (eStore e) -> safe (admitAndApply rnd clk cmd e).
Proof.
  intros Hw. unfold admitAndApply.
  destruct (admitOrReject_spec rnd (fork1 clk) cmd e Hw) as ([err|[reply|]] & e1 & -> & Hw1 & _); simpl;
    [by do 2 eexists..|].
  destruct (apply_spec (fork2 clk) cmd e1 Hw1) as (v & s' & -> & Hw' & _). by do 2 eexists.
Qed.

Lemma startAOFRewriteNow_safe ord clk (e : Executor J) :
  (forall X, ord X ≡ₚ elements X) -> wf (eStore e) -> safe (startAOFRewriteNow ord clk e).
Proof.
  intros Hord Hw. unfold startAOFRewriteNow. destruct (journal e) as [j|]; [|by do 2 eexists].
  destruct (Cmd.named _ _); [by do 2 eexists|]. destruct jRewrite as [Rw|]; [|by do 2 eexists].
  destruct jAsync as [async|].
  - destruct (SnapshotEntries_spec ord Hord clk (eStore e) Hw) as (es & Hes & _). cbn [eStore set_status].
    rw Hes /=. destruct (arStart async es j) as [[err|] j1]; by do 2 eexists.
  - cbv zeta. destruct (Rw clk _ j) as [[err|] j1]; by do 2 eexists.
Qed.

Lemma finishAOFRewrite_store async ready (e : Executor J) : eStore (finishAOFRewrite async ready e) = eStore e.
Proof.
  unfold finishAOFRewrite. destruct (journal e) as [j|]; [|done].
  destruct ready as [err|]; [by destruct (arAbort async err j)|by destruct (arComplete async j) as [[?|] ?]].
Qed.

Lemma RewriteAOF_safe ord clk ready (e : Executor J) :
  (forall X, ord X ≡ₚ elements X) -> wf (eStore e) -> safe (RewriteAOF ord clk ready e).
Proof.
  intros Hord Hw. unfold RewriteAOF. destruct (startAOFRewriteNow_safe ord clk e Hord Hw) as (err & e' & -> & Hw').
  simpl. destruct err; [by do 2 eexists|]. do 2 eexists. split; [done|].
  destruct (journal e'), jRewrite, jAsync; try done. by rw finishAOFRewrite_store.
Qed.

Lemma executeRewrite_safe ord clk args (e : Executor J) :
  (forall X, ord X ≡ₚ elements X) -> wf (eStore e) -> safe (executeRewrite ord clk args e).
Proof.
  intros Hord Hw. unfold executeRewrite.
  destruct (startAOFRewriteNow_safe ord clk e Hord Hw) as (r & e' & Hr & Hw').
  destruct args as [|a [|b args]]; [|case_match; by do 2 eexists|by do 2 eexists].
  rw Hr. destruct (journal e) as [j|] eqn:Hj; [destruct jBatch|]; [|by do 2 eexists..].
  unfold enqueueAOFRewrite. rw Hj. repeat case_match; simplify_eq; by do 2 eexists.
Qed.

Lemma Execute_safe ord rnd clk cmd (e : Executor J) :
  (forall X, ord X ≡ₚ elements X) -> wf (eStore e) -> safe (Execute ord rnd clk cmd e).
Proof.
  intros Hord Hw. unfold Execute. destruct (Cmd.named _ _); [by apply executeRewrite_safe|].
  destruct (Cmd.IsMutation _); [|by apply admitAndApply_safe].
  destruct (journal e) as [j|] eqn:Hj; [|by apply admitAndApply_safe].
  destruct jBatch as [AB|].
  - unfold submitMutation. destruct (commit_total AB rnd clk [cmd] e Hw) as (rs & e' & -> & Hw' & Hl & _); [congruence|].
    simpl. destruct rs as [|r rs]; [done|]. by do 2 eexists.
  - destruct (admitOrReject_spec rnd (fork1 clk) cmd e Hw) as ([err|[reply|]] & e1 & -> & Hw1 & _ & Hs & _);
      simpl; [by do 2 eexists..|].
    destruct (journal e1) as [j1|] eqn:Hj1; [|by apply Hs in Hj1; congruence]. simpl.
    destruct (jAppend _ cmd j1) as [[err|p] j2]; [by do 2 eexists|].
    destruct (apply_spec (fork2 (fork2 clk)) p (SetJournal (Some j2) e1) Hw1) as (v & s' & -> & Hw' & _).
    by do 2 eexists.
Qed.

(** ** Active expiration *)

(** What a step of the expiry loop does to an executor: nothing that can be seen; or,
    without a journal, remove entries that have expired; or hand deletions of expired
    keys to the journal and remove such keys, if the journal has taken them; or nothing
    if it has refused them.  [unjournaled]: the cycle began without a journal. *)
Inductive expiry_step (unjournaled : Prop) (clk : clock) (a b : Executor J) : Prop :=
  | expiry_quiet : journal b = journal a -> abs (eStore b) = abs (eStore a) -> expiry_step unjournaled clk a b
  | expiry_direct :
      journal a = None \/ unjournaled -> journal b = journal a -> purged clk (abs (eStore a)) (abs (eStore b)) ->
      expiry_step unjournaled clk a b
  | expiry_journaled clk' keys j j' :
      journal a = Some j -> appendCommands clk' (delCommand <$> keys) j = (None, j') -> journal b = Some j' ->
      purged clk (abs (eStore a)) (abs (eStore b)) -> (forall k, k ∉ keys -> abs (eStore b) !! k = abs (eStore a) !! k) ->
      expiry_step unjournaled clk a b
  | expiry_refused clk' keys j err j' :
      journal a = Some j -> appendCommands clk' (delCommand <$> keys) j = (Some err, j') -> journal b = Some j' ->
      abs (eStore b) = abs (eStore a) -> expiry_step unjournaled clk a b.

(** What becomes of the candidates depends on what the journal answers. *)
Lemma journalAndDelete_outcome clk keys (e : Executor J) s :
  wf s ->
  match journal e with
  | None =>
      exists n s', journalAndDeleteExpired clk keys (e, s) = Some ((n, false), (set_store s e, s')) /\ wf s' /\
        forall k, abs s' !! k = if decide (k ∈ keys) then live (fork1 clk 0%nat) (abs s !! k) else abs s !! k
  | Some j =>
      exists expired, FilterExpired (fork1 clk) keys s = Some expired /\
        (forall k, k ∈ expired <-> k ∈ keys /\ expired_key (abs s) (fork1 clk 0%nat) k) /\
        if decide (expired = []) then journalAndDeleteExpired clk keys (e, s) = Some ((0, false), (set_store s e, s))
        else
          match appendCommands (fork1 (fork2 clk)) (delCommand <$> expired) j with
          | (Some _, j') =>
              journalAndDeleteExpired clk keys (e, s) = Some ((0, true), (SetJournal (Some j') (set_store s e), s))
          | (None, j') =>
              exists n s', journalAndDeleteExpired clk keys (e, s) =
                  Some ((n, false), (SetJournal (Some j') (set_store s e), s')) /\ wf s' /\
                forall k, abs s' !! k =
                  if decide (k ∈ expired) then live (fork2 (fork2 clk) 0%nat) (abs s !! k) else abs s !! k
          end
  end.
Proof.
  intros Hw. unfold journalAndDeleteExpired. cbn [fst snd]. change (journal (set_store s e)) with (journal e).
  destruct (journal e) as [j|].
  - destruct (FilterExpired_spec (fork1 clk) keys s Hw) as (out & Hout & Hin). exists out. split_and!; [done..|].
    change (eStore (set_store s e)) with s. rw Hout. cbn [mbind option_bind].
    destruct out as [|k out]; [by rewrite -> decide_True|]. rewrite -> decide_False by done.
    destruct (appendCommands _ _ j) as [[err|] j1]; [done|].
    destruct (DeleteExpired_alone (fork2 (fork2 clk)) (k :: out) (SetJournal (Some j1) (set_store s e)) s Hw)
      as (m & s' & Hd & Hw' & Ha). change (eStore (SetJournal (Some j1) (set_store s e))) with s. rw Hd. by do 2 eexists.
  - destruct (DeleteExpired_alone (fork1 clk) keys (set_store s e) s Hw) as (m & s' & Hd & Hw' & Ha).
    change (eStore (set_store s e)) with s. rw Hd. by do 2 eexists.
Qed.

Lemma set_store_twice s s' (e : Executor J) : set_store s (set_store s' e) = set_store s e.
Proof. done. Qed.
Lemma set_store_id (e : Executor J) : set_store (eStore e) e = e.
Proof. by destruct e. Qed.

Lemma journalAndDeleteExpired_spec u clk clk' keys (es : Executor J * Store) :
  drawn clk clk' -> wf es.2 ->
  exists n failed es', journalAndDeleteExpired clk' keys es = Some ((n, failed), es') /\ wf es'.2 /\
    expiry_step u clk (set_store es.2 es.1) (set_store es'.2 es'.1).
Proof.
  destruct es as [e s]. cbn [fst snd]. intros Hd Hw. pose proof (journalAndDelete_outcome clk' keys e s Hw) as Ho.
  destruct (journal e) as [j|] eqn:Hj.
  - destruct Ho as (out & _ & Hin & Ho). case_decide as Hne.
    { rw Ho. do 3 eexists. split_and!; [done..|]. by apply expiry_quiet. }
    destruct (appendCommands _ _ j) as [[err|] j'] eqn:Ha.
    { rw Ho. do 3 eexists. split_and!; [done..|]. by eapply expiry_refused. }
    destruct Ho as (n & s' & -> & Hw' & Habs). do 3 eexists. split_and!; [done..|].
    eapply expiry_journaled; [exact Hj|exact Ha|done| |].
    + apply (purged_keys clk (fork2 (fork2 clk')) out); [auto with carrot|done].
    + intros k Hk. cbn [eStore set_store snd]. rw Habs. by rewrite -> decide_False.
  - destruct Ho as (n & s' & -> & Hw' & Habs). do 3 eexists. split_and!; [done..|].
    apply expiry_direct; [by left|done|]. apply (purged_keys clk (fork1 clk') keys); [auto with carrot|done].
Qed.

Definition expiry_action (u : Prop) (others : nat -> Executor J -> Executor J) (clk : clock) (a b : Executor J) : Prop :=
  (exists i, b = others i a) \/ expiry_step u clk a b.

Lemma ActiveExpire_spec rnd others clk (e : Executor J) :
  (forall n a, wf (eStore a) -> wf (eStore (others n a))) -> wf (eStore e) ->
  exists n e', ActiveExpire rnd others clk e = Some (n, e') /\ wf (eStore e') /\
    rtc (expiry_action (journal e = None) others clk) e e'.
Proof.
  intros Ho Hw. set (u := journal e = None). set (R := expiry_action u others clk).
  set (Q := fun a b : Executor J * Store => rtc R (set_store a.2 a.1) (set_store b.2 b.1)).
  assert (Q_abs : forall x s s', abs s' = abs s -> Q (x, s) (x, s')).
  { intros x s s' Ha. apply rtc_once. right. by apply expiry_quiet. }
  assert (Q_refl : forall a, Q a a) by (intros a; apply rtc_refl).
  assert (Q_trans : forall a b c, Q a b -> Q b c -> Q a c) by (intros a b c; unfold Q; by etrans).
  assert (Hharm : harmless Q (on_executor others)).
  { intros n es Hes. split; [by apply Ho|]. apply rtc_once. left. exists n. cbn [snd fst]. apply set_store_id. }
  assert (Hcycle : exists n es', (match journal e with
                     | None => ActiveExpireCycle
                     | Some _ => ActiveExpireCycleWith (Some journalAndDeleteExpired)
                     end) rnd (on_executor others) clk (e, eStore e) = Some (n, es') /\ wf es'.2 /\ Q (e, eStore e) es').
  { destruct (journal e) as [j|] eqn:Hj.
    - apply (cycle_spec clk Q); [exact Q_refl|exact Q_trans|exact Q_abs| |exact Hharm|exact Hw].
      intros oth clk' [|k exp] es Hoth Hd Hes; [by do 3 eexists|]. cbn [remove_batch].
      destruct (Hoth 0%nat es Hes) as [Hes1 HQ1].
      destruct (journalAndDeleteExpired_spec u clk clk' (k :: exp) (oth 0%nat es) Hd Hes1) as (n & failed & es' & Hx & Hes' & Hst).
      do 3 eexists. split_and!; [exact Hx|done|]. apply (Q_trans _ _ _ HQ1). apply rtc_once. by right.
    - apply (ActiveExpireCycle_spec clk Q); [exact Q_refl|exact Q_trans|exact Q_abs| |exact Hharm|exact Hw].
      intros clk' key x s s' Hd Ha. apply rtc_once. right. apply expiry_direct; [by right|done|].
      apply (purged_keys clk clk' [key]); [done|]. intros k. cbn [eStore set_store snd fst]. rw Ha.
      repeat case_decide; set_solver. }
  destruct Hcycle as (n & [e' s'] & Hc & Hw' & HQ). unfold ActiveExpire. rw Hc. cbn [mbind option_bind].
  exists n, (set_store s' e'). split_and!; [done..|]. unfold Q in HQ. cbn [fst snd] in HQ. by rewrite -> set_store_id in HQ.
Qed.

(** ** An installed journal stays installed *)
Lemma journal_first_journal clk cmds (e e' : Executor J) err :
  journal_first clk cmds e = (err, e') -> journal e <> None -> journal e' <> None.
Proof.
  unfold journal_first. destruct (journal e) as [j|] eqn:Hj; [|by intros; simplify_eq].
  destruct (appendCommands clk cmds j) as [r j']. by intros; simplify_eq.
Qed.

Lemma admit_loop_journal fuel rnd clk (e e' : Executor J) r :
  admit_loop fuel rnd clk e = Some (r, e') -> journal e <> None -> journal e' <> None.
Proof.
  revert rnd clk e. induction fuel as [|fuel IH]; intros rnd clk e; cbn [admit_loop]; [done|].
  destruct (_ <? _); [|by intros; simplify_eq]. destruct (negb _); [by intros; simplify_eq|].
  destruct (LRUVictim _ _) as [[key|]|]; cbn [mbind option_bind]; [|by intros; simplify_eq|done].
  destruct (journal_first _ _ e) as [[err|] e1] eqn:Hf; intros Hr Hj; apply journal_first_journal in Hf; try done.
  - by simplify_eq.
  - destruct (Store.Del _ key _) as [[n s]|]; [|done]. cbn [mbind option_bind] in Hr. by apply IH in Hr.
Qed.

Lemma admitOrReject_journal rnd clk cmd (e e' : Executor J) r :
  admitOrReject rnd clk cmd e = Some (r, e') -> journal e <> None -> journal e' <> None.
Proof.
  unfold admitOrReject, admit_. destruct (_ || _); [by cbn [mbind option_bind]; intros; simplify_eq|].
  destruct (admit_loop _ rnd clk e) as [[r' e1]|] eqn:Ha; cbn [mbind option_bind]; [|done].
  intros. simplify_eq. by eapply admit_loop_journal.
Qed.

Lemma admit_all_journal rnd clk batch (e e' : Executor J) ds :
  admit_all rnd clk batch e = Some (ds, e') -> journal e <> None -> journal e' <> None.
Proof.
  revert rnd clk e ds. induction batch as [|cmd batch IH]; intros rnd clk e ds; cbn [admit_all]; [by intros; simplify_eq|].
  destruct (admitOrReject _ _ cmd e) as [[d e1]|] eqn:Ha; [|done]. cbn [mbind option_bind].
  destruct (admit_all _ _ batch e1) as [[ds' e2]|] eqn:Hb; [|done]. cbn [mbind option_bind]. intros. simplify_eq.
  by eapply IH, admitOrReject_journal.
Qed.

Lemma append_accepted_journal AppendBatch clk cmds (e e' : Executor J) p :
  append_accepted AppendBatch clk cmds e = (p, e') -> journal e <> None -> journal e' <> None.
Proof. intros Ha Hj. by destruct (append_accepted_spec _ _ _ _ _ _ Hj Ha) as (_ & Hs & _); intros ?%Hs. Qed.

Lemma apply_journal clk cmd (e e' : Executor J) v : apply clk cmd e = Some (v, e') -> journal e' = journal e.
Proof. unfold apply. destruct (Cmd.execute clk cmd (eStore e)) as [[w s]|]; cbn [mbind option_bind]; intros; by simplify_eq. Qed.

Lemma apply_all_journal clk ds p (e e' : Executor J) rs : apply_all clk ds p e = Some (rs, e') -> journal e' = journal e.
Proof.
  revert clk p e rs. induction ds as [|[r|] ds IH]; intros clk p e rs; cbn [apply_all]; [by intros; simplify_eq| |].
  - destruct (apply_all clk ds p e) as [[rs' e1]|] eqn:Hr; [|done]. cbn [mbind option_bind]. intros. simplify_eq. by eapply IH.
  - destruct p as [err|[|cmd cmds]]; [|done|].
    + destruct (apply_all clk ds _ e) as [[rs' e1]|] eqn:Hr; [|done]. cbn [mbind option_bind]. intros. simplify_eq. by eapply IH.
    + destruct (apply (fork1 clk) cmd e) as [[v e1]|] eqn:Hap; [|done]. cbn [mbind option_bind].
      destruct (apply_all (fork2 clk) ds _ e1) as [[rs' e2]|] eqn:Hr; [|done]. cbn [mbind option_bind]. intros. simplify_eq.
      etrans; [by eapply IH|by eapply apply_journal].
Qed.

Lemma admitAndApply_journal rnd clk cmd (e e' : Executor J) r :
  admitAndApply rnd clk cmd e = Some (r, e') -> journal e <> None -> journal e' <> None.
Proof.
  unfold admitAndApply. destruct (admitOrReject _ _ cmd e) as [[d e1]|] eqn:Ha; [|done]. cbn [mbind option_bind].
  intros Hr Hj. apply admitOrReject_journal in Ha; [|done]. destruct d as [err|[v|]]; [by simplify_eq..|].
  destruct (apply _ cmd e1) as [[v e2]|] eqn:Hap; [|done]. cbn [mbind option_bind] in Hr. simplify_eq.
  apply apply_journal in Hap. by rw Hap.
Qed.

Lemma startAOFRewriteNow_journal ord clk (e e' : Executor J) r :
  startAOFRewriteNow ord clk e = Some (r, e') -> journal e <> None -> journal e' <> None.
Proof.
  unfold startAOFRewriteNow. destruct (journal e) as [j|] eqn:Hj; [|done]. destruct (Cmd.named _ _); [by intros; simplify_eq; congruence|].
  destruct jRewrite as [Rw|]; [|by intros; simplify_eq; congruence]. destruct jAsync as [async|].
  - destruct (SnapshotEntries _ _ _) as [[err|es]|]; cbn [mbind option_bind]; [intros; simplify_eq; cbn; congruence| |done].
    destruct (arStart async es j) as [[err|] j1]; by intros; simplify_eq.
  - cbv zeta. destruct (Rw clk _ j) as [[err|] j1]; by intros; simplify_eq.
Qed.

Lemma executeRewrite_journal ord clk args (e e' : Executor J) r :
  executeRewrite ord clk args e = Some (r, e') -> journal e <> None -> journal e' <> None.
Proof.
  assert (Hnow : ('(err, e) ← startAOFRewriteNow ord clk e;
            Some (match err with Some err => inl err | None => inr (NewSimpleString (str "OK")) end, e)) = Some (r, e') ->
            journal e <> None -> journal e' <> None).
  { destruct (startAOFRewriteNow ord clk e) as [[err e1]|] eqn:Hs; cbn [mbind option_bind]; [|done]. intros. simplify_eq.
    by eapply startAOFRewriteNow_journal. }
  unfold executeRewrite. destruct args as [|a [|b args]]; [|case_match; by intros; simplify_eq|by intros; simplify_eq].
  destruct (journal e) as [j|] eqn:Hj; [|done]. destruct jBatch; [|exact Hnow].
  unfold enqueueAOFRewrite. rw Hj. repeat case_match; intros; simplify_eq; cbn; congruence.
Qed.

Lemma Execute_journal ord rnd clk cmd (e e' : Executor J) r :
  Execute ord rnd clk cmd e = Some (r, e') -> journal e <> None -> journal e' <> None.
Proof.
  unfold Execute. destruct (Cmd.named _ _); [apply executeRewrite_journal|].
  destruct (Cmd.IsMutation _); [|apply admitAndApply_journal].
  destruct (journal e) as [j|] eqn:Hj; [|done]. rw -Hj. destruct jBatch as [AB|].
  - unfold submitMutation, commitMutationBatch. destruct (admit_all _ _ [cmd] e) as [[ds e1]|] eqn:Ha; [|done]. cbn [mbind option_bind].
    destruct (append_accepted _ _ _ e1) as [p e2] eqn:Hp. destruct (apply_all _ ds p e2) as [[rs e3]|] eqn:Hr; [|done].
    cbn [mbind option_bind]. destruct rs as [|r' rs]; [done|]. cbn [head mbind option_bind]. intros. simplify_eq.
    apply apply_all_journal in Hr. rw Hr. by eapply append_accepted_journal, admit_all_journal.
  - destruct (admitOrReject _ _ cmd e) as [[d e1]|] eqn:Ha; [|done]. cbn [mbind option_bind].
    intros Hr Hne. apply admitOrReject_journal in Ha; [|done]. destruct d as [err|[v|]]; [by simplify_eq..|].
    destruct (journal e1) as [j1|]; [|done]. cbn [mbind option_bind] in Hr.
    destruct (jAppend _ cmd j1) as [[err|p] j2]; [by simplify_eq|]. destruct (apply _ p _) as [[v e2]|] eqn:Hap; [|done].
    cbn [mbind option_bind] in Hr. simplify_eq. apply apply_journal in Hap. by rw Hap.
Qed.

Lemma expiry_journal u others clk (e e' : Executor J) :
  (forall n a, journal a <> None -> journal (others n a) <> None) ->
  rtc (expiry_action u others clk) e e' -> journal e <> None -> journal e' <> None.
Proof.
  intros Ho. induction 1 as [|a b c [[n ->]|Hs] _ IH]; [done| |]; intros Hj; apply IH; [by apply Ho|].
  destruct Hs; congruence.
Qed.

End executor.

End ExecutorProof.
