(* ===== verification/ExecTheorems.v ===== *)
(** * What the executor guarantees

    The theorems of the executor component, for any journal: it never panics, the
    memory limit holds or the command is refused, a batch is all or nothing with
    respect to its journal, and active expiration deletes only what has expired.
    The witnesses use a journal that keeps at most three commands. *)

From S2P Require Import Prelude GoTime GoLib GoIO Resp RespTheorems ListValue KeyIndex Store.
From S2P Require Import StoreSpec StoreProof StoreRefine StoreMaint StoreMaintProof StoreTheorems.
From S2P Require Import Command CommandProof CommandEffects Executor ExecutorProof.
Import StoreSpec.

(** A journal in memory with room for three commands. *)
Record memJournal := mkMemJournal { mjCommands : list Command }.

Definition memAppend (cmds : list Command) (j : memJournal) : (goerr + list Command) * memJournal :=
  if len (mjCommands j ++ cmds) <=? 3 then (inr cmds, mkMemJournal (mjCommands j ++ cmds))
  else (inl (str "journal full"), j).

#[export] Instance memJournal_journal : Journal memJournal := {|
  jAppend _ cmd j := let '(r, j) := memAppend [cmd] j in (match r with inl e => inl e | inr _ => inr cmd end, j);
  jBatch := Some (fun _ cmds j => memAppend cmds j);
  jRewrite := None;
  jAsync := None;
|}.

Module ExecTheorems.
Import StoreProof StoreMaint StoreMaintProof Exec ExecutorProof.

Definition demoExec (limit : Z) (policy : gostring) : Executor memJournal :=
  SetMemoryLimit limit policy
    (SetJournal (Some (mkMemJournal [])) (NewExecutor StoreTheorems.demoStore)).

(** Commands executed one after the other. *)
Fixpoint execute_all `{Unicode} `{Journal J} (ord : gset gostring -> list gostring) (rnd : nat -> nat)
    (clk : clock) (cmds : list Command) (e : Executor J) : option (list executionResult * Executor J) :=
  match cmds with
  | [] => Some ([], e)
  | cmd :: cmds' =>
      '(r, e) ← Execute ord (fork1 rnd) (fork1 clk) cmd e;
      '(rs, e) ← execute_all ord (fork2 rnd) (fork2 clk) cmds' e;
      Some (r :: rs, e)
  end.

Lemma execute_all_safe `{Unicode} `{Journal J} ord rnd clk cmds (e : Executor J) :
  (forall X, ord X ≡ₚ elements X) -> wf (eStore e) ->
  exists rs e', execute_all ord rnd clk cmds e = Some (rs, e') /\ wf (eStore e') /\ length rs = length cmds.
Proof.
  intros Hord. revert rnd clk e. induction cmds as [|cmd cmds IH]; intros rnd clk e Hw; [by exists [], e|].
  simpl. destruct (Execute_safe ord (fork1 rnd) (fork1 clk) cmd e Hord Hw) as (r & e1 & -> & Hw1). simpl.
  destruct (IH (fork2 rnd) (fork2 clk) e1 Hw1) as (rs & e2 & -> & Hw2 & Hl). simpl.
  do 2 eexists. split_and!; [done..|simpl; lia].
Qed.

(** C26.  The executor never panics: with any journal, memory limit, eviction
    policy, clock, random draws and map iteration order, every sequence of commands
    from an empty store is executed to the end, one result per command, leaving a
    well-formed store. *)
Theorem executor_never_panics `{Unicode} `{Journal J} (ord : gset gostring -> list gostring)
    (rnd : nat -> nat) (clk : clock) (j : option J) (limit : Z) (policy : gostring) (cmds : list Command)
    (Hord : forall X, ord X ≡ₚ elements X) :
  exists rs e,
    execute_all ord rnd clk cmds (SetMemoryLimit limit policy (SetJournal j (NewExecutor Store.NewStore))) =
      Some (rs, e) /\
    length rs = length cmds /\ wf (eStore e).
Proof.
  destruct (execute_all_safe ord rnd clk cmds
    (SetMemoryLimit limit policy (SetJournal j (NewExecutor Store.NewStore)))) as (rs & e & He & Hw & Hl);
    [done|apply StoreProof.NewStore_wf|]. by exists rs, e.
Qed.

Lemma executor_never_panics_witness :
  exists rs e,
    @execute_all asciiOnly memJournal _ elements (fun n => n) (fun n => Z.of_nat n)
      [mkCommand (str "RPUSH") [str "q"; str "1"]; mkCommand (str "LLEN") [str "q"]]
      (SetMemoryLimit 1000 (str "allkeys-lru") (SetJournal (Some (mkMemJournal [])) (NewExecutor Store.NewStore))) =
      Some (rs, e) /\
    length rs = 2%nat /\ wf (eStore e).
Proof.
  exact (@executor_never_panics asciiOnly memJournal _ elements (fun n => n) (fun n => Z.of_nat n)
    (Some (mkMemJournal [])) 1000 (str "allkeys-lru")
    [mkCommand (str "RPUSH") [str "q"; str "1"]; mkCommand (str "LLEN") [str "q"]] (fun X => reflexivity _)).
Defined.

(** C27.  The memory limit: admitting a command that grows memory terminates; it
    lets the command run only with the store within the limit, it refuses it only
    without an eviction policy and then touches nothing, and it fails only when the
    journal refused an eviction; all it does to the store is to drop entries. *)
Theorem admission_respects_limit `{Unicode} `{Journal J} (rnd : nat -> nat) (clk : clock) (cmd : Command)
    (e : Executor J)
    (He : wf (eStore e)) (Hlimit : 0 < maxMemory e) (Hgrow : Cmd.growsMemory (cName cmd) = true) :
  exists r e', admit_ rnd clk cmd e = Some (r, e') /\ wf (eStore e') /\ abs (eStore e') ⊆ abs (eStore e) /\
    match r with
    | inr true => UsedMemory (eStore e') <= maxMemory e
    | inr false => evictLRU e = false /\ maxMemory e < UsedMemory (eStore e) /\ e' = e
    | inl _ => evictLRU e = true /\ journal e <> None
    end.
Proof.
  destruct (admit_spec rnd clk cmd e He) as (r & e' & Ha & Hw & Hs & _ & Hr). exists r, e'.
  split_and!; [done..|]. destruct r as [|[]]; [naive_solver| |naive_solver].
  destruct Hr as [[_ [?|?]]|?]; [lia|congruence|done].
Qed.

Lemma admission_respects_limit_witness :
  wf (eStore (demoExec 450 (str "allkeys-lru"))) /\
  exists r e', @admit_ memJournal _ (fun n => n) (fun n => Z.of_nat n) (mkCommand (str "SET") [])
      (demoExec 450 (str "allkeys-lru")) = Some (r, e') /\
    wf (eStore e') /\ abs (eStore e') ⊆ abs StoreTheorems.demoStore /\
    match r with
    | inr true => UsedMemory (eStore e') <= 450
    | inr false => evictLRU (demoExec 450 (str "allkeys-lru")) = false /\
        450 < UsedMemory StoreTheorems.demoStore /\ e' = demoExec 450 (str "allkeys-lru")
    | inl _ => evictLRU (demoExec 450 (str "allkeys-lru")) = true /\
        journal (demoExec 450 (str "allkeys-lru")) <> None
    end.
Proof.
  split; [apply StoreTheorems.demo_wf|].
  apply (@admission_respects_limit asciiOnly memJournal _ (fun n => n) (fun n => Z.of_nat n) (mkCommand (str "SET") [])
    (demoExec 450 (str "allkeys-lru"))); [apply StoreTheorems.demo_wf|done|vm_compute; done].
Defined.

(** C8.  Group commit without a memory limit is all or nothing: when the journal
    refuses the batch every request gets its error and the store is untouched; when
    it takes it, the store and the replies are those of the persisted commands
    executed one after the other; a journal that answers with the wrong number of
    commands changes nothing. *)
Theorem group_commit_all_or_nothing `{Unicode} `{Journal J}
    (AppendBatch : clock -> list Command -> J -> (goerr + list Command) * J)
    (rnd : nat -> nat) (clk : clock) (batch : list Command) (e : Executor J) (j : J)
    (He : wf (eStore e)) (Hlimit : maxMemory e <= 0) (Hj : journal e = Some j) (Hb : batch <> []) :
  exists rs e', commitMutationBatch AppendBatch rnd clk batch e = Some (rs, e') /\ wf (eStore e') /\
    match AppendBatch (fork1 (fork2 clk)) batch j with
    | (inl err, j') =>
        rs = replicate (length batch) (inl (str "persist command before applying it: " ++ err)) /\
        eStore e' = eStore e /\ journal e' = Some j'
    | (inr persisted, j') =>
        journal e' = Some j' /\
        if decide (length persisted = length batch)
        then exists vs, rs = inr <$> vs /\
               CommandProof.run (fork2 (fork2 clk)) persisted (abs (eStore e)) = Some (vs, abs (eStore e'))
        else eStore e' = eStore e
    end.
Proof. by apply commit_nolimit. Qed.

Definition demoBatch : list Command :=
  [mkCommand (str "RPUSH") [str "b"; str "z"]; mkCommand (str "DEL") [str "a"]].

Lemma group_commit_all_or_nothing_witness :
  exists rs e', @commitMutationBatch asciiOnly memJournal _ (fun _ => memAppend) (fun n => n) (fun _ => 12) demoBatch
      (demoExec 0 []) = Some (rs, e') /\ wf (eStore e') /\
    match memAppend demoBatch (mkMemJournal []) with
    | (inl err, j') =>
        rs = replicate 2 (inl (str "persist command before applying it: " ++ err)) /\
        eStore e' = StoreTheorems.demoStore /\ journal e' = Some j'
    | (inr persisted, j') =>
        journal e' = Some j' /\
        if decide (length persisted = 2%nat)
        then exists vs, rs = inr <$> vs /\
               @CommandProof.run asciiOnly DB _ (fork2 (fork2 (fun _ => 12))) persisted (abs StoreTheorems.demoStore) =
                 Some (vs, abs (eStore e'))
        else eStore e' = StoreTheorems.demoStore
    end.
Proof.
  exact (@group_commit_all_or_nothing asciiOnly memJournal _ (fun _ => memAppend) (fun n => n) (fun _ => 12) demoBatch
    (demoExec 0 []) (mkMemJournal []) StoreTheorems.demo_wf (Z.le_refl 0) eq_refl ltac:(done)).
Defined.

(** C28.  Active expiration and the journal.  Whatever other goroutines do to the
    executor between the critical sections of a cycle, as long as they keep its store
    well formed, the cycle never panics and is a sequence of their actions and of its
    own steps ([expiry_step]): removals of entries that have expired, each covered,
    unless another goroutine has removed the journal, by deletions the journal has
    taken just before; what the journal refuses is not removed.  And of one batch of candidates
    exactly those that have expired are handed to the journal: if it answers with an
    error the batch fails and the store is untouched, otherwise they are removed. *)
Theorem active_expiration_journaled `{Unicode} `{Journal J} (rnd : nat -> nat)
    (others : nat -> Executor J -> Executor J) (clk : clock) (candidates : list gostring) (e : Executor J) (j : J)
    (He : wf (eStore e)) (Hothers : forall n a, wf (eStore a) -> wf (eStore (others n a))) (Hj : journal e = Some j) :
  (exists n e', ActiveExpire rnd others clk e = Some (n, e') /\ wf (eStore e') /\
     rtc (fun a b => (exists i, b = others i a) \/ expiry_step False clk a b) e e') /\
  exists expired, (forall k, k ∈ expired <-> k ∈ candidates /\ expired_key (abs (eStore e)) (clk 0%nat) k) /\
    (expired <> [] ->
     match appendCommands (fork1 (fork2 clk)) (delCommand <$> expired) j with
     | (Some _, j') =>
         journalAndDeleteExpired clk candidates (e, eStore e) = Some ((0, true), (SetJournal (Some j') e, eStore e))
     | (None, j') =>
         exists n s', journalAndDeleteExpired clk candidates (e, eStore e) =
             Some ((n, false), (SetJournal (Some j') e, s')) /\ wf s' /\
           forall k, abs s' !! k =
             if decide (k ∈ expired) then live (clk 3%nat) (abs (eStore e) !! k) else abs (eStore e) !! k
     end).
Proof.
  split.
  - destruct (ActiveExpire_spec rnd others clk e Hothers He) as (n & e' & Hx & Hw & Hr). exists n, e'. split_and!; [done..|].
    eapply rtc_subrel; [|exact Hr]. intros a b [Ho|Hs]; [by left|right]. rw Hj in Hs.
    destruct Hs as [Hq Ha|[Hn|Hn] Hb Hp|clk' keys j1 j' Ha Happ Hb Hp Hk|clk' keys j1 err j' Ha Happ Hb Hp]; [by apply expiry_quiet| |done| |].
    + apply expiry_direct; [by left|done..].
    + by eapply expiry_journaled.
    + by eapply expiry_refused.
  - pose proof (journalAndDelete_outcome clk candidates e (eStore e) He) as Ho. rw Hj in Ho.
    destruct Ho as (expired & _ & Hin & Ho). exists expired. split; [exact Hin|]. intros Hne.
    rewrite -> decide_False in Ho by done. by rewrite -> set_store_id in Ho.
Qed.

(** The store of one expired key and one that stays. *)
Lemma active_expiration_journaled_witness :
  (exists n e', @ActiveExpire memJournal _ (fun n => n) (fun _ e => e) (fun _ => 100) (demoExec 0 []) = Some (n, e') /\
    wf (eStore e') /\
    rtc (fun a b => (exists i : nat, b = a) \/ expiry_step False (fun _ => 100) a b) (demoExec 0 []) e') /\
  exists expired, (forall k, k ∈ expired <-> k ∈ [str "a"; str "b"] /\ expired_key (abs (eStore (demoExec 0 []))) 100 k) /\
    (expired <> [] ->
     match appendCommands (fun _ => 100) (delCommand <$> expired) (mkMemJournal []) with
     | (Some _, j') =>
         journalAndDeleteExpired (fun _ => 100) [str "a"; str "b"] (demoExec 0 [], eStore (demoExec 0 [])) =
           Some ((0, true), (SetJournal (Some j') (demoExec 0 []), eStore (demoExec 0 [])))
     | (None, j') =>
         exists n s', journalAndDeleteExpired (fun _ => 100) [str "a"; str "b"] (demoExec 0 [], eStore (demoExec 0 [])) =
             Some ((n, false), (SetJournal (Some j') (demoExec 0 []), s')) /\ wf s' /\
           forall k, abs s' !! k =
             if decide (k ∈ expired) then live 100 (abs (eStore (demoExec 0 [])) !! k) else abs (eStore (demoExec 0 [])) !! k
     end).
Proof.
  exact (@active_expiration_journaled asciiOnly memJournal _ (fun n => n) (fun _ e => e) (fun _ => 100) [str "a"; str "b"]
    (demoExec 0 []) (mkMemJournal []) StoreTheorems.demo_wf (fun n a Ha => Ha) eq_refl).
Defined.

End ExecTheorems.
