(* ===== verification/CommandTypes.v ===== *)
(** * The types of replies

    Each command answers with an error or with a value of the RESP types its name
    promises, so that every reply can be encoded. *)

From Stdlib Require Import Wf_nat.
From S2P Require Import Prelude GoTime GoLib GoIO Resp RespProof RespEncode ListValue Store StoreSpec.
From S2P Require Import StoreRefine Command Executor ExecutorProof.

Module CommandTypes.
Import Cmd RespEncode.

(** The RESP types of a value, as far as the commands use them. *)
Definition is_error (v : Value) : bool := bool_decide (vType v = Error).
Definition is_simple (v : Value) : bool := bool_decide (vType v = SimpleString).
Definition is_integer (v : Value) : bool := bool_decide (vType v = Integer).
Definition is_bulk (v : Value) : bool := bool_decide (vType v = BulkString).
Definition is_array (elem : Value -> bool) (v : Value) : bool :=
  bool_decide (vType v = Array) && forallb elem (vArray v).

(** What a command may answer besides an error. *)
Definition result_type (name : gostring) (v : Value) : bool :=
  if named name "PING" then is_simple v || is_bulk v
  else if one_of name ["SET"; "LSET"; "LTRIM"] then is_simple v
  else if one_of name ["GET"; "LINDEX"; "LMOVE"; "RPOPLPUSH"] then is_bulk v
  else if one_of name ["TTL"; "DEL"; "EXPIRE"; "PEXPIREAT"; "LPUSH"; "RPUSH"; "LPUSHX"; "RPUSHX"; "LLEN";
                       "LREM"; "LINSERT"] then is_integer v
  else if one_of name ["LPOP"; "RPOP"] then is_bulk v || is_array is_bulk v
  else if named name "LRANGE" then is_array is_bulk v
  else if named name "LPOS" then is_bulk v || is_integer v || is_array is_integer v
  else if named name "AOFREWRITE" then is_simple v || is_array is_bulk v
  else false.

Definition reply_type (name : gostring) (v : Value) : bool := is_error v || result_type name v.

Lemma is_array_encodable elem v :
  (forall x, elem x = true -> encodable x = true) -> is_array elem v = true -> encodable v = true.
Proof.
  intros He Hv. unfold is_array in Hv. bool_prop. destruct v as [t nul s n vs]. cbn [vType vArray] in *.
  subst t. cbn [encodable vType vArray]. rewrite -> (bool_decide_eq_true_2 (Array = Array)) by done.
  apply orb_true_iff. right. cbn [andb]. apply forallb_forall. intros x Hx. apply He. by apply (proj1 (forallb_forall _ _) H0).
Qed.

Lemma leaf_encodable v : vType v ∈ [SimpleString; Error; Integer; BulkString] -> encodable v = true.
Proof. intros Hv. destruct v as [t nul s n vs]. cbn [encodable vType] in *. by rewrite -> bool_decide_eq_true_2. Qed.

Lemma basic_encodable v :
  is_error v || is_simple v || is_integer v || is_bulk v = true -> encodable v = true.
Proof.
  unfold is_error, is_simple, is_integer, is_bulk. intros Hv. apply leaf_encodable.
  repeat (apply orb_true_iff in Hv as [Hv|Hv]); apply bool_decide_eq_true in Hv; rw Hv; set_solver.
Qed.

Lemma is_bulk_encodable v : is_bulk v = true -> encodable v = true.
Proof. intros Hv. apply basic_encodable. by rw Hv !orb_true_r. Qed.
Lemma is_integer_encodable v : is_integer v = true -> encodable v = true.
Proof. intros Hv. apply basic_encodable. by rw Hv !orb_true_r. Qed.
Lemma is_simple_encodable v : is_simple v = true -> encodable v = true.
Proof. intros Hv. apply basic_encodable. by rw Hv !orb_true_r. Qed.
Lemma is_error_encodable v : is_error v = true -> encodable v = true.
Proof. intros Hv. apply basic_encodable. by rw Hv. Qed.

#[local] Hint Resolve is_bulk_encodable is_integer_encodable is_simple_encodable is_error_encodable : carrot.

Lemma reply_encodable name v : reply_type name v = true -> encodable v = true.
Proof.
  unfold reply_type, result_type. intros Hv.
  repeat match type of Hv with
  | (if ?b then _ else _) = true => destruct b
  | _ || (if ?b then _ else _) = true => destruct b
  end; repeat (apply orb_true_iff in Hv as [Hv|Hv]); eauto using is_array_encodable with carrot; done.
Qed.

(** ** The handlers *)
Lemma bulks_array values : is_array is_bulk (stringArray values) = true.
Proof.
  unfold is_array, stringArray. cbn [vType vArray NewArray]. apply forallb_forall. intros x Hx.
  apply list_elem_of_In, list_elem_of_fmap in Hx as (y & -> & _). done.
Qed.

Lemma integers_array values : is_array is_integer (NewArray (NewInteger <$> values)) = true.
Proof.
  unfold is_array. cbn [vType vArray NewArray]. apply forallb_forall. intros x Hx.
  apply list_elem_of_In, list_elem_of_fmap in Hx as (y & -> & _). done.
Qed.

Lemma storageError_error e : is_error (storageError e) = true.
Proof. by destruct e. Qed.

Lemma bulkOrNull_bulk v : is_bulk (bulkOrNull v) = true.
Proof. by destruct v. Qed.

(** A named error, whatever the command. *)
Lemma error_reply name s : reply_type name (NewError s) = true.
Proof. done. Qed.

Section handlers.
Context `{Unicode} {S : Type} `{StoreOps S}.

(** The replies a handler can give. *)
Definition replies (P : Value -> bool) (m : option (Value * S)) : Prop :=
  forall v s, m = Some (v, s) -> is_error v || P v = true.

Lemma replies_ret (P : Value -> bool) v s : is_error v || P v = true -> replies P (Some (v, s)).
Proof. intros Hv w s' Hw. by simplify_eq. Qed.

Lemma replies_bind {A} P (m : option (A * S)) (k : A -> S -> option (Value * S)) :
  (forall a s, replies P (k a s)) -> replies P ('(a, s) ← m; k a s).
Proof. intros Hk v s Hv. destruct m as [[a s1]|]; [|done]. by apply Hk in Hv. Qed.

Ltac reply_step :=
  match goal with
  | |- replies _ (Some (NewError _, _)) => by apply replies_ret
  | |- replies _ (Some (err _, _)) => by apply replies_ret
  | |- replies _ (Some (wrongArgs _, _)) => by apply replies_ret
  | |- replies _ (match ?x with _ => _ end) => destruct x
  | |- replies _ (option_bind _ _ _ _) => apply replies_bind; intros
  | |- replies _ (mbind _ _) => apply replies_bind; intros
  | |- replies _ (Some (match ?x with _ => _ end, _)) => destruct x
  | |- replies _ (Some (storageError _, _)) => apply replies_ret; by rw storageError_error
  | |- replies _ (Some (_, _)) =>
      apply replies_ret; cbv beta; rw ?bulkOrNull_bulk ?bulks_array ?integers_array ?orb_true_r; reflexivity
  end.

Lemma handlePing_reply args : is_error (handlePing args) || (is_simple (handlePing args) || is_bulk (handlePing args)) = true.
Proof. by destruct args as [|? [|]]. Qed.

Lemma handleGet_reply clk args s : replies is_bulk (handleGet clk args s).
Proof. unfold handleGet. repeat reply_step. Qed.

Lemma set_options_error args ttl at_ abs v : set_options args ttl at_ abs = inl v -> is_error v = true.
Proof.
  revert ttl at_ abs. induction args as [args IH] using (well_founded_induction (well_founded_ltof _ length)).
  intros ttl at_ abs. destruct args as [|opt rest]; [done|]. cbn [set_options].
  destruct (named _ "EX"); [|destruct (named _ "PX"); [|destruct (named _ "PXAT")]];
    destruct rest as [|a rest]; try (intros; by simplify_eq); destruct (GoLib.ParseInt a); try (intros; by simplify_eq);
    try (case_match; [intros; by simplify_eq|]); apply IH; unfold ltof; simpl; lia.
Qed.

Lemma handleSet_reply clk args s : replies is_simple (handleSet clk args s).
Proof.
  unfold handleSet. destruct args as [|key [|val opts]]; try by reply_step.
  destruct (set_options opts 0 GoTime.zeroTime false) as [e|[[ttl at_] abs]] eqn:Ho.
  - apply replies_ret. by rewrite -> (set_options_error _ _ _ _ _ Ho).
  - apply (replies_bind is_simple (if abs then _ else _)). intros. by apply replies_ret.
Qed.

Lemma handleTTL_reply clk args s : replies is_integer (handleTTL clk args s).
Proof. unfold handleTTL. repeat reply_step. Qed.
Lemma handleDel_reply clk args s : replies is_integer (handleDel clk args s).
Proof. unfold handleDel. repeat reply_step. Qed.
Lemma handleExpire_reply clk args s : replies is_integer (handleExpire clk args s).
Proof. unfold handleExpire, boolInteger. repeat reply_step. Qed.
Lemma handleExpireAt_reply clk args s : replies is_integer (handleExpireAt clk args s).
Proof. unfold handleExpireAt, boolInteger. repeat reply_step. Qed.
Lemma handleListPush_reply clk name args s : replies is_integer (handleListPush clk name args s).
Proof. unfold handleListPush. repeat reply_step. Qed.

Lemma handleListPop_reply clk name args s :
  replies (fun v => is_bulk v || is_array is_bulk v) (handleListPop clk name args s).
Proof. unfold handleListPop, list_pop. repeat reply_step. Qed.

Lemma lpos_options_error args rank count maxLen sp v : lpos_options args rank count maxLen sp = inl v -> is_error v = true.
Proof.
  revert rank count maxLen sp. induction args as [args IH] using (well_founded_induction (well_founded_ltof _ length)).
  intros rank count maxLen sp. destruct args as [|opt [|a rest]]; try (intros; by simplify_eq/=).
  cbn [lpos_options]. destruct (parseListInteger a) as [e|value]; [intros; by simplify_eq|].
  repeat (case_match; try (intros; by simplify_eq); try (apply IH; unfold ltof; simpl; lia)).
Qed.

Lemma handleListPosition_reply clk args s :
  replies (fun v => is_bulk v || is_integer v || is_array is_integer v) (handleListPosition clk args s).
Proof.
  unfold handleListPosition. destruct args as [|key [|val opts]]; try by reply_step.
  destruct (lpos_options opts 1 1 0 false) as [e|[[[rank count] maxLen] sp]] eqn:Ho.
  - apply replies_ret. by rewrite -> (lpos_options_error _ _ _ _ _ _ Ho).
  - repeat reply_step.
Qed.

Lemma list_move_reply clk src dst a b s : replies is_bulk (list_move clk src dst a b s).
Proof. unfold list_move. repeat reply_step. Qed.

(** ** Dispatch *)
Lemma replies_type name P m :
  (forall v, P v = true -> result_type name v = true) -> replies P m -> replies (result_type name) m.
Proof. intros HP Hm v s Hv. apply Hm in Hv. apply orb_true_iff in Hv as [->|Hv]; [done|]. by rw (HP v Hv) orb_true_r. Qed.

(** A command of the list [names] is one of them. *)
Lemma one_of_cases name names : one_of name names = true -> exists s, s ∈ names /\ name = str s.
Proof. unfold one_of. intros Hn. apply bool_decide_eq_true, list_elem_of_fmap in Hn as (s & -> & Hs). eauto. Qed.

Ltac name_cases :=
  repeat match goal with
  | H : named _ _ = true |- _ => apply bool_decide_eq_true in H; subst
  | H : one_of _ _ = true |- _ => apply one_of_cases in H as (? & H & ->)
  | H : _ ∈ _ :: _ |- _ => apply elem_of_cons in H as [->|H]
  | H : _ ∈ [] |- _ => by apply elem_of_nil in H
  end.

Lemma handleListCommand_reply clk name args s :
  replies (result_type name) (handleListCommand clk name args s).
Proof.
  unfold handleListCommand.
  destruct (one_of name ["LPUSH"; "RPUSH"; "LPUSHX"; "RPUSHX"]) eqn:E1.
  { apply replies_type with is_integer; [|apply handleListPush_reply]. by name_cases. }
  destruct (one_of name ["LPOP"; "RPOP"]) eqn:E2.
  { apply (replies_type _ (fun v => is_bulk v || is_array is_bulk v)); [|apply handleListPop_reply]. by name_cases. }
  destruct (named name "LLEN") eqn:E3; [apply replies_type with is_integer; [by name_cases|repeat reply_step]|].
  destruct (named name "LRANGE") eqn:E4; [apply replies_type with (is_array is_bulk); [by name_cases|repeat reply_step]|].
  destruct (named name "LINDEX") eqn:E5; [apply replies_type with is_bulk; [by name_cases|repeat reply_step]|].
  destruct (named name "LSET") eqn:E6; [apply replies_type with is_simple; [by name_cases|unfold statusReply; repeat reply_step]|].
  destruct (named name "LTRIM") eqn:E7; [apply replies_type with is_simple; [by name_cases|unfold statusReply; repeat reply_step]|].
  destruct (named name "LREM") eqn:E8; [apply replies_type with is_integer; [by name_cases|repeat reply_step]|].
  destruct (named name "LINSERT") eqn:E9; [apply replies_type with is_integer; [by name_cases|repeat reply_step]|].
  destruct (named name "LMOVE") eqn:E10.
  { apply replies_type with is_bulk; [by name_cases|]. repeat first [apply list_move_reply|reply_step]. }
  destruct (named name "RPOPLPUSH") eqn:E11.
  { apply replies_type with is_bulk; [by name_cases|]. repeat first [apply list_move_reply|reply_step]. }
  destruct (named name "LPOS") eqn:E12.
  { apply (replies_type _ (fun v => is_bulk v || is_integer v || is_array is_integer v)); [by name_cases|].
    apply handleListPosition_reply. }
  by apply replies_ret.
Qed.

Lemma execute_reply clk cmd s : replies (result_type (cName cmd)) (execute clk cmd s).
Proof.
  destruct cmd as [name args]. unfold execute. cbn [cName cArgs].
  destruct (named name "PING") eqn:E1.
  { apply replies_ret. name_cases. apply handlePing_reply. }
  destruct (named name "GET") eqn:E2; [apply replies_type with is_bulk; [by name_cases|apply handleGet_reply]|].
  destruct (named name "SET") eqn:E3; [apply replies_type with is_simple; [by name_cases|apply handleSet_reply]|].
  destruct (named name "TTL") eqn:E4; [apply replies_type with is_integer; [by name_cases|apply handleTTL_reply]|].
  destruct (named name "DEL") eqn:E5; [apply replies_type with is_integer; [by name_cases|apply handleDel_reply]|].
  destruct (named name "EXPIRE") eqn:E6; [apply replies_type with is_integer; [by name_cases|apply handleExpire_reply]|].
  destruct (named name "PEXPIREAT") eqn:E7; [apply replies_type with is_integer; [by name_cases|apply handleExpireAt_reply]|].
  destruct (one_of name _); [apply handleListCommand_reply|by apply replies_ret].
Qed.

End handlers.

(** ** Through the executor *)
(** A journal persists a command as another one that promises the same replies: what
    it answers for [cmd] is a command [p] whose replies are replies to [cmd]. *)
Definition retyped (cmd p : Command) : Prop :=
  forall v, reply_type (cName p) v = true -> reply_type (cName cmd) v = true.

Class TypedJournal (J : Type) `{Journal J} : Prop := {
  append_typed (clk : clock) (cmd : Command) (j : J) (p : Command) (j' : J) :
    jAppend clk cmd j = (inr p, j') -> retyped cmd p;
  batch_typed AppendBatch (clk : clock) (cmds : list Command) (j : J) (ps : list Command) (j' : J) :
    jBatch = Some AppendBatch -> AppendBatch clk cmds j = (inr ps, j') -> Forall2 retyped cmds ps;
}.

Section executor.
Context `{Unicode} {J : Type} `{Journal J}.
Import Exec ExecutorProof.

(** The replies the executor can give to a command. *)
Definition typed (name : gostring) (r : executionResult) : Prop :=
  match r with inl _ => True | inr v => reply_type name v = true end.

Definition encodes (r : executionResult) : Prop := match r with inl _ => True | inr v => encodable v = true end.

Lemma error_encodes v : is_error v = true -> encodes (inr v).
Proof. apply is_error_encodable. Qed.

Lemma apply_reply clk cmd (e e' : Executor J) v : apply clk cmd e = Some (v, e') -> reply_type (cName cmd) v = true.
Proof.
  unfold apply. destruct (Cmd.execute clk cmd (eStore e)) as [[w s]|] eqn:Hx; [|done]. cbn [mbind option_bind].
  intros. simplify_eq. by apply (execute_reply clk cmd (eStore e) v s).
Qed.

Lemma apply_encodes clk cmd (e e' : Executor J) v : apply clk cmd e = Some (v, e') -> encodes (inr v).
Proof. intros Ha. apply apply_reply in Ha. by apply reply_encodable in Ha. Qed.

Lemma admitOrReject_reply rnd clk cmd (e e' : Executor J) v :
  admitOrReject rnd clk cmd e = Some (inr (Some v), e') -> is_error v = true.
Proof.
  unfold admitOrReject. destruct (admit_ rnd clk cmd e) as [[[err|[]] e1]|]; cbn [mbind option_bind]; intros; by simplify_eq.
Qed.

Lemma admitAndApply_reply rnd clk cmd (e e' : Executor J) r :
  admitAndApply rnd clk cmd e = Some (r, e') -> typed (cName cmd) r.
Proof.
  unfold admitAndApply.
  destruct (admitOrReject rnd _ cmd e) as [[[err|[v|]] e1]|] eqn:Ha; cbn [mbind option_bind]; [by intros; simplify_eq| | |done].
  - apply admitOrReject_reply in Ha. intros. simplify_eq. unfold typed, reply_type. by rw Ha.
  - destruct (apply (fork2 clk) cmd e1) as [[v e2]|] eqn:Hap; cbn [mbind option_bind]; [|done]. intros. simplify_eq.
    by apply apply_reply in Hap.
Qed.

Lemma typed_encodes name r : typed name r -> encodes r.
Proof. destruct r; [done|]. apply reply_encodable. Qed.

Lemma admit_all_encodes rnd clk batch (e e' : Executor J) ds :
  admit_all rnd clk batch e = Some (ds, e') -> Forall (fun d => forall r, d = Some r -> encodes r) ds.
Proof.
  revert rnd clk e ds. induction batch as [|cmd batch IH]; intros rnd clk e ds; cbn [admit_all].
  { intros. simplify_eq. constructor. }
  destruct (admitOrReject (fork1 rnd) (fork1 clk) cmd e) as [[d e1]|] eqn:Ha; [|done]. cbn [mbind option_bind].
  destruct (admit_all (fork2 rnd) (fork2 clk) batch e1) as [[ds' e2]|] eqn:Hb; [|done]. cbn [mbind option_bind].
  intros. simplify_eq. constructor; [|by eapply IH]. intros r Hr.
  destruct d as [err|[v|]]; simplify_eq; [done|]. apply error_encodes. by eapply admitOrReject_reply.
Qed.

Lemma apply_all_encodes clk ds p (e e' : Executor J) rs :
  Forall (fun d => forall r, d = Some r -> encodes r) ds -> apply_all clk ds p e = Some (rs, e') -> Forall encodes rs.
Proof.
  intros Hds. revert clk p e rs. induction Hds as [|d ds Hd _ IH]; intros clk p e rs; cbn [apply_all].
  { intros. simplify_eq. constructor. }
  destruct d as [r|].
  - destruct (apply_all clk ds p e) as [[rs' e1]|] eqn:Hr; [|done]. cbn [mbind option_bind]. intros. simplify_eq.
    constructor; [by apply Hd|by eapply IH].
  - destruct p as [err|[|cmd cmds]]; [|done|].
    + destruct (apply_all clk ds _ e) as [[rs' e1]|] eqn:Hr; [|done]. cbn [mbind option_bind]. intros. simplify_eq.
      constructor; [done|by eapply IH].
    + destruct (apply (fork1 clk) cmd e) as [[v e1]|] eqn:Hap; [|done]. cbn [mbind option_bind].
      destruct (apply_all (fork2 clk) ds (inr cmds) e1) as [[rs' e2]|] eqn:Hr; [|done]. cbn [mbind option_bind].
      intros. simplify_eq. constructor; [by eapply apply_encodes|by eapply IH].
Qed.

Lemma submitMutation_encodes AppendBatch rnd clk cmd (e e' : Executor J) r :
  submitMutation AppendBatch rnd clk cmd e = Some (r, e') -> encodes r.
Proof.
  unfold submitMutation, commitMutationBatch.
  destruct (admit_all rnd (fork1 clk) [cmd] e) as [[ds e1]|] eqn:Ha; [|done]. cbn [mbind option_bind].
  destruct (append_accepted _ _ _ e1) as [p e2].
  destruct (apply_all _ ds p e2) as [[rs e3]|] eqn:Hr; [|done]. cbn [mbind option_bind].
  apply admit_all_encodes in Ha. apply (apply_all_encodes _ _ _ _ _ _ Ha) in Hr.
  destruct rs as [|r' rs]; [done|]. cbn [head mbind option_bind]. intros. simplify_eq. by inversion Hr.
Qed.

Lemma executeRewrite_reply ord clk args (e e' : Executor J) r :
  executeRewrite ord clk args e = Some (r, e') -> typed (str "AOFREWRITE") r.
Proof.
  assert (Hnow : forall r e', ('(err, e) ← startAOFRewriteNow ord clk e;
            Some (match err with Some err => inl err | None => inr (NewSimpleString (str "OK")) end, e)) = Some (r, e') ->
            typed (str "AOFREWRITE") r).
  { intros r2 e2. destruct (startAOFRewriteNow ord clk e) as [[[err|] e3]|]; cbn [mbind option_bind]; intros; by simplify_eq. }
  unfold executeRewrite. destruct args as [|a [|b args]].
  - destruct (journal e); [|apply Hnow]. destruct jBatch; [|apply Hnow].
    destruct (enqueueAOFRewrite e) as [[err|] e3]; intros; by simplify_eq.
  - destruct (GoLib.EqualFold a _); intros; by simplify_eq.
  - intros; by simplify_eq.
Qed.

(** Every result of the executor can be encoded. *)
Lemma Execute_encodes ord rnd clk cmd (e e' : Executor J) r :
  Execute ord rnd clk cmd e = Some (r, e') -> encodes r.
Proof.
  unfold Execute. destruct (named (cName cmd) "AOFREWRITE").
  { intros Hr. by apply executeRewrite_reply, typed_encodes in Hr. }
  assert (Hplain : admitAndApply rnd clk cmd e = Some (r, e') -> encodes r).
  { intros Hr. by apply admitAndApply_reply, typed_encodes in Hr. }
  destruct (IsMutation (cName cmd)); [|done]. destruct (journal e) as [j|] eqn:Hj; [|done].
  destruct jBatch as [AppendBatch|]; [by apply submitMutation_encodes|].
  destruct (admitOrReject rnd _ cmd e) as [[[err|[v|]] e1]|] eqn:Ha; cbn [mbind option_bind]; [by intros; simplify_eq| | |done].
  - apply admitOrReject_reply in Ha. intros. simplify_eq. by apply error_encodes.
  - destruct (journal e1) as [j1|]; [|done]. cbn [mbind option_bind].
    destruct (jAppend _ cmd j1) as [[err|persisted] j2]; [by intros; simplify_eq|].
    destruct (apply _ persisted _) as [[v e2]|] eqn:Hap; [|done]. cbn [mbind option_bind]. intros. simplify_eq.
    by eapply apply_encodes.
Qed.

Lemma apply_all_typed clk cmd d p (e e' : Executor J) rs :
  (forall r, d = Some r -> typed (cName cmd) r) ->
  (forall ps, d = None -> p = inr ps -> Forall2 retyped [cmd] ps) ->
  apply_all clk [d] p e = Some (rs, e') -> Forall (typed (cName cmd)) rs.
Proof.
  intros Hd Hp. cbn [apply_all]. destruct d as [r|]; [cbn [mbind option_bind]; intros; simplify_eq; by repeat constructor; apply Hd|].
  destruct p as [err|ps]; [cbn [mbind option_bind]; intros; simplify_eq; by repeat constructor|].
  specialize (Hp ps eq_refl eq_refl). apply Forall2_cons_inv_l in Hp as (q & ps' & Hq & _ & ->).
  destruct (apply (fork1 clk) q e) as [[v e1]|] eqn:Hap; cbn [mbind option_bind]; [|done]. intros. simplify_eq.
  repeat constructor. cbn [typed]. apply Hq. by eapply apply_reply.
Qed.

Lemma append_accepted_typed `{!TypedJournal J} AppendBatch clk cmds (e e' : Executor J) ps :
  jBatch = Some AppendBatch -> cmds <> [] -> journal e <> None ->
  append_accepted AppendBatch clk cmds e = (inr ps, e') -> Forall2 retyped cmds ps.
Proof.
  intros Hb Hne Hj. unfold append_accepted. destruct cmds as [|cmd cmds]; [done|]. destruct (journal e) as [j|]; [|done].
  destruct (AppendBatch clk (cmd :: cmds) j) as [[err|got] j'] eqn:Ha; [by intros; simplify_eq|].
  destruct (_ =? _)%nat; [|by intros; simplify_eq]. intros. simplify_eq. by eapply batch_typed.
Qed.

Lemma submitMutation_typed `{!TypedJournal J} AppendBatch rnd clk cmd (e e' : Executor J) r :
  jBatch = Some AppendBatch -> journal e <> None ->
  submitMutation AppendBatch rnd clk cmd e = Some (r, e') -> typed (cName cmd) r.
Proof.
  intros Hb Hj. unfold submitMutation, commitMutationBatch. cbn [admit_all].
  destruct (admitOrReject (fork1 rnd) (fork1 (fork1 clk)) cmd e) as [[d e1]|] eqn:Ha; [|done]. cbn [mbind option_bind].
  match goal with |- context [accepted _ [?x]] => set (d' := x) end.
  assert (Hj1 : journal e1 <> None) by (by eapply admitOrReject_journal).
  assert (Hd : forall x, d' = Some x -> typed (cName cmd) x).
  { subst d'. intros x Hx. destruct d as [err|[v|]]; simplify_eq; [done|]. apply admitOrReject_reply in Ha.
    unfold typed, reply_type. by rw Ha. }
  clearbody d'. destruct (append_accepted _ _ _ e1) as [p e2] eqn:Hp.
  destruct (apply_all _ _ p e2) as [[rs e3]|] eqn:Hr; cbn [mbind option_bind]; [|done].
  apply (apply_all_typed _ cmd) in Hr; [|done|].
  - destruct rs as [|r' rs]; [done|]. cbn [head mbind option_bind]. intros. simplify_eq. by inversion Hr.
  - intros ps Hn ->. rw Hn in Hp. by eapply append_accepted_typed.
Qed.

(** A reply has the type its command promises, with a typed journal or with none. *)
Lemma Execute_typed `{!TypedJournal J} ord rnd clk cmd (e e' : Executor J) r :
  Execute ord rnd clk cmd e = Some (r, e') -> typed (cName cmd) r.
Proof.
  unfold Execute. destruct (named (cName cmd) "AOFREWRITE") eqn:Hn.
  { intros Hr. apply bool_decide_eq_true in Hn. rw Hn. by apply executeRewrite_reply in Hr. }
  destruct (IsMutation (cName cmd)); [|apply admitAndApply_reply].
  destruct (journal e) as [j|] eqn:Hj; [|apply admitAndApply_reply].
  destruct jBatch as [AppendBatch|] eqn:Hb; [apply submitMutation_typed; [done|congruence]|].
  destruct (admitOrReject rnd _ cmd e) as [[[err|[v|]] e1]|] eqn:Ha; cbn [mbind option_bind]; [by intros; simplify_eq| | |done].
  - apply admitOrReject_reply in Ha. intros. simplify_eq. unfold typed, reply_type. by rw Ha.
  - destruct (journal e1) as [j1|]; [|done]. cbn [mbind option_bind].
    destruct (jAppend _ cmd j1) as [[err|persisted] j2] eqn:Hap; [by intros; simplify_eq|].
    destruct (apply _ persisted _) as [[v e2]|] eqn:Hv; [|done]. cbn [mbind option_bind]. intros. simplify_eq.
    cbn [typed]. apply (append_typed _ _ _ _ _ Hap). by eapply apply_reply.
Qed.

End executor.
End CommandTypes.
