(* ===== verification/WriteLoop.v ===== *)
(** * The write loop

    [enqueue] and [writeLoop] of [internal/command/executor.go] as a transition
    system.  The goroutine that collects group commits runs beside its clients: a
    client appends a request to [writeQueue] and starts the loop when it is not
    running; the loop takes requests one at a time, gathers up to 64 mutations into
    a batch, commits it, and handles a request to start a rewrite between batches.
    Every label of a step that is not the loop's own is something another goroutine
    does at that point. *)

From S2P Require Import Prelude GoTime GoLib GoIO Resp ListValue Store StoreMaint Command Executor.

(** [executorRequest] with a number of its own; a rewrite request is [queued] when
    it comes from the [AOFREWRITE] command, whose goroutine records a failure. *)
Inductive request := ReqMutation (id : nat) (cmd : Command) | ReqRewrite (id : nat) (queued : bool).

Definition req_id (r : request) : nat :=
  match r with ReqMutation id _ => id | ReqRewrite id _ => id end.

(** What is sent on [result] and on [rewriteStart]. *)
Inductive answer := AnsResult (r : Exec.executionResult) | AnsStarted (err : option goerr).

(** Where the loop is.  In [Idling] the timer has fired and the loop waits for
    [dispatchMu]; [Committing] is past the label [commit]. *)
Inductive phase :=
  | Stopped
  | Receiving
  | Idling
  | Collecting (batch : list (nat * Command))
  | Committing (batch : list (nat * Command)).

(** [wSender] is the request of the client that holds [dispatchMu], which it keeps
    while it waits for room in the queue; [wPending] the rewrite the loop has set
    aside; [dispatching] is [wPhase <> Stopped]; [wNotices] are the failures that the
    goroutines started by [enqueueAOFRewrite] have still to record. *)
Record writeState (J : Type) := mkWrite {
  wSender : option request;
  wQueue : list request;
  wPending : option (nat * bool);
  wPhase : phase;
  wNotices : list goerr;
  wExec : Executor J;
  wAnswers : list (nat * answer);
}.
Arguments mkWrite {J}.
Arguments wSender {J}.
Arguments wQueue {J}.
Arguments wPending {J}.
Arguments wPhase {J}.
Arguments wNotices {J}.
Arguments wExec {J}.
Arguments wAnswers {J}.

(** A client's two halves of [enqueue], the turns of the loop, its idle timer, the
    check the timer leads to, and other goroutines. *)
Inductive label := LEnqueue (r : request) | LSend | LLoop | LTimer | LIdle | LOther.

Module WriteLoop.
Import Exec.

Definition queueCapacity : nat := Z.to_nat 1024.
Definition maxBatch : nat := 64.
#[global] Arguments queueCapacity : simpl never.
#[global] Arguments maxBatch : simpl never.

Section loop.
Context `{Unicode} {J : Type} `{Journal J}.
Variable AppendBatch : clock -> list Command -> J -> (goerr + list Command) * J.
(** [GroupCommitDelay]. *)
Variable delay : Z.
Variable ord : gset gostring -> list gostring.

Definition set_phase (p : phase) (w : writeState J) : writeState J :=
  mkWrite (wSender w) (wQueue w) (wPending w) p (wNotices w) (wExec w) (wAnswers w).
Definition set_queue (q : list request) (w : writeState J) : writeState J :=
  mkWrite (wSender w) q (wPending w) (wPhase w) (wNotices w) (wExec w) (wAnswers w).
Definition set_pending (r : option (nat * bool)) (w : writeState J) : writeState J :=
  mkWrite (wSender w) (wQueue w) r (wPhase w) (wNotices w) (wExec w) (wAnswers w).
Definition set_exec (e : Executor J) (w : writeState J) : writeState J :=
  mkWrite (wSender w) (wQueue w) (wPending w) (wPhase w) (wNotices w) e (wAnswers w).
Definition reply (answers : list (nat * answer)) (w : writeState J) : writeState J :=
  mkWrite (wSender w) (wQueue w) (wPending w) (wPhase w) (wNotices w) (wExec w) (wAnswers w ++ answers).
Definition notify (errs : list goerr) (w : writeState J) : writeState J :=
  mkWrite (wSender w) (wQueue w) (wPending w) (wPhase w) (wNotices w ++ errs) (wExec w) (wAnswers w).

Definition start (e : Executor J) : writeState J := mkWrite None [] None Stopped [] e [].

(** [enqueue] starts the loop under [dispatchMu] and sends under it. *)
Definition enqueue (r : request) (w : writeState J) : writeState J :=
  mkWrite (Some r) (wQueue w) (wPending w)
    (match wPhase w with Stopped => Receiving | p => p end) (wNotices w) (wExec w) (wAnswers w).
Definition send (r : request) (w : writeState J) : writeState J :=
  mkWrite None (wQueue w ++ [r]) (wPending w) (wPhase w) (wNotices w) (wExec w) (wAnswers w).

(** The idle timer leads to the end of the loop only when the queue is empty. *)
Definition idle (w : writeState J) : writeState J :=
  set_phase (match wQueue w with [] => Stopped | _ => Receiving end) w.

(** The request the loop takes next: the one it set aside, or the head of the queue. *)
Definition next_request (w : writeState J) : option (request * writeState J) :=
  match wPending w with
  | Some (id, queued) => Some (ReqRewrite id queued, set_pending None w)
  | None =>
      match wQueue w with
      | [] => None
      | r :: q => Some (r, set_queue q w)
      end
  end.

(** The failure of a start goes to the goroutine waiting on [rewriteStart]. *)
Definition started (id : nat) (queued : bool) (err : option goerr) (e : Executor J) (w : writeState J)
    : writeState J :=
  notify (match err with Some err => if queued then [err] else [] | None => [] end)
    (reply [(id, AnsStarted err)] (set_exec e w)).

Definition committed (batch : list (nat * Command)) (results : list executionResult) (e : Executor J)
    (w : writeState J) : writeState J :=
  reply (zip (fst <$> batch) (AnsResult <$> results)) (set_phase Receiving (set_exec e w)).

(** The batch may be closed: it is full, the timer may fire, or there is no delay
    and nothing is queued. *)
Definition may_close (batch : list (nat * Command)) (w : writeState J) : Prop :=
  (maxBatch <= length batch)%nat \/ 0 < delay \/ (delay = 0 /\ wQueue w = []).

(** What other goroutines do to the executor. *)
Inductive other_step : Executor J -> Executor J -> Prop :=
  | OtherRead rnd clk cmd r e e' :
      Cmd.IsMutation (cName cmd) = false -> Cmd.named (cName cmd) "AOFREWRITE" = false ->
      Execute ord rnd clk cmd e = Some (r, e') -> other_step e e'
  | OtherQueued e e' : enqueueAOFRewrite e = (None, e') -> other_step e e'
  | OtherSample rnd clk limit i sampled expired c r e s :
      StoreMaint.sample_loop rnd StoreMaint.alone (clk 0%nat) limit [i] sampled expired c (tt, eStore e) = Some (r, (tt, s)) ->
      (i < Store.numShards)%nat -> other_step e (set_store s e)
  | OtherExpire clk candidates r e e' s :
      journalAndDeleteExpired clk candidates (e, eStore e) = Some (r, (e', s)) -> other_step e (set_store s e')
  | OtherReport clk n e : other_step e (set_store (StoreMaint.reportActiveExpiration clk n (eStore e)) e)
  | OtherFinish async ready e : other_step e (finishAOFRewrite async ready e).

Inductive step : writeState J -> label -> writeState J -> Prop :=
  | StepEnqueue r w : wSender w = None -> step w (LEnqueue r) (enqueue r w)
  | StepSend r w :
      wSender w = Some r -> (length (wQueue w) < queueCapacity)%nat -> step w LSend (send r w)
  | StepTimer w : wPhase w = Receiving -> wPending w = None -> step w LTimer (set_phase Idling w)
  | StepIdle w : wPhase w = Idling -> wSender w = None -> step w LIdle (idle w)
  | StepReceive id cmd w w' :
      wPhase w = Receiving -> next_request w = Some (ReqMutation id cmd, w') ->
      step w LLoop (set_phase (Collecting [(id, cmd)]) w')
  | StepStart id queued clk err e w w' :
      wPhase w = Receiving -> next_request w = Some (ReqRewrite id queued, w') ->
      startAOFRewriteNow ord clk (wExec w') = Some (err, e) ->
      step w LLoop (started id queued err e w')
  | StepCollect batch id cmd q w :
      wPhase w = Collecting batch -> (length batch < maxBatch)%nat ->
      wQueue w = ReqMutation id cmd :: q ->
      step w LLoop (set_phase (Collecting (batch ++ [(id, cmd)])) (set_queue q w))
  | StepAside batch id queued q w :
      wPhase w = Collecting batch -> (length batch < maxBatch)%nat ->
      wQueue w = ReqRewrite id queued :: q ->
      step w LLoop (set_phase (Committing batch) (set_pending (Some (id, queued)) (set_queue q w)))
  | StepClose batch w :
      wPhase w = Collecting batch -> may_close batch w -> step w LLoop (set_phase (Committing batch) w)
  | StepCommit batch rnd clk rs e w :
      wPhase w = Committing batch ->
      commitMutationBatch AppendBatch rnd clk (snd <$> batch) (wExec w) = Some (rs, e) ->
      step w LLoop (committed batch rs e w)
  | StepNotice err errs w :
      wNotices w = err :: errs ->
      step w LOther (mkWrite (wSender w) (wQueue w) (wPending w) (wPhase w) errs
                       (setRewriteResult (str "failed") (Some err) (wExec w)) (wAnswers w))
  | StepOther e w : other_step (wExec w) e -> step w LOther (set_exec e w).

Inductive steps : writeState J -> list label -> writeState J -> Prop :=
  | steps_refl w : steps w [] w
  | steps_next w l w1 ls w2 : step w l w1 -> steps w1 ls w2 -> steps w (l :: ls) w2.

(** ** What is in flight *)
Definition phase_batch (p : phase) : list (nat * Command) :=
  match p with Collecting b | Committing b => b | _ => [] end.

Definition pending_ids (w : writeState J) : list nat :=
  match wPending w with Some (id, _) => [id] | None => [] end.

(** Requests not answered yet, in the order they will be. *)
Definition in_flight (w : writeState J) : list nat :=
  (fst <$> phase_batch (wPhase w)) ++ pending_ids w ++ (req_id <$> wQueue w) ++
  (req_id <$> option_list (wSender w)).

Definition answered (w : writeState J) : list nat := fst <$> wAnswers w.

Definition submitted (ls : list label) : list nat :=
  omap (fun l => match l with LEnqueue r => Some (req_id r) | _ => None end) ls.

(** ** Infinite executions *)
Definition enabled (w : writeState J) (l : label) : Prop := exists w', step w l w'.

Definition infinitely_often (P : nat -> Prop) : Prop := forall i, exists j, (i <= j)%nat /\ P j.

(** Strong fairness for the steps with label [l]. *)
Definition fair (run : nat -> writeState J) (lab : nat -> label) (l : label) : Prop :=
  infinitely_often (fun i => enabled (run i) l) -> infinitely_often (fun i => lab i = l).

(** A run of the loop, its mutexes and channels fair, in which no more requests are
    in flight at any time than the queue can hold. *)
Record execution (e : Executor J) (run : nat -> writeState J) (lab : nat -> label) : Prop := {
  run_start : run 0%nat = start e;
  run_step i : step (run i) (lab i) (run (S i));
  run_fair_send : fair run lab LSend;
  run_fair_loop : fair run lab LLoop;
  run_fair_idle : fair run lab LIdle;
  run_room i : (length (in_flight (run i)) <= queueCapacity)%nat;
}.

(** The loop waits for [dispatchMu], whose holder waits for room in the queue. *)
Definition deadlocked (w : writeState J) : Prop :=
  wPhase w = Idling /\ wSender w <> None /\ length (wQueue w) = queueCapacity.
End loop.

End WriteLoop.
