(* ===== verification/WriteLoopProof.v ===== *)
(** * Invariants and progress of the write loop

    Every state the loop reaches is well formed ([sound]), requests leave it in the
    order they entered, a step of the loop is enabled whenever it can make progress,
    and in a fair execution the loop takes another turn while a request waits. *)

From S2P Require Import Prelude GoTime GoLib GoIO Resp ListValue Store StoreSpec StoreProof StoreMaint.
From S2P Require Import StoreMaintProof Command CommandEffects Executor ExecutorProof WriteLoop.
From Stdlib Require Import Classical.

Module WriteLoopProof.
Import StoreMaint StoreMaintProof StoreProof CommandEffects Exec ExecutorProof WriteLoop.

Section loop.
Context `{Unicode} {J : Type} `{Journal J}.
Variable AppendBatch : clock -> list Command -> J -> (goerr + list Command) * J.
Variable delay : Z.
Variable ord : gset gostring -> list gostring.
Hypothesis ord_ok : forall X, ord X ≡ₚ elements X.
Hypothesis delay_ok : 0 <= delay.

Abbreviation step := (step AppendBatch delay ord).
Abbreviation steps := (steps AppendBatch delay ord).
Abbreviation enabled := (enabled AppendBatch delay ord).
Abbreviation execution := (execution AppendBatch delay ord).

(** ** The executor under the loop *)
Definition live (e : Executor J) : Prop := wf (eStore e) /\ journal e <> None.

Lemma live_same e e' : same_settings e e' -> wf (eStore e') -> live e -> live e'.
Proof. intros (_ & _ & _ & _ & Hj) Hw [_ ?]. split; [done|]. by rw Hj. Qed.

Lemma start_live clk e :
  live e -> exists err e', startAOFRewriteNow ord clk e = Some (err, e') /\ live e'.
Proof.
  intros [Hw Hj]. destruct (startAOFRewriteNow_safe ord clk e ord_ok Hw) as (err & e' & He & Hw').
  exists err, e'. split_and!; [done|split; [done|]]. revert He. unfold startAOFRewriteNow.
  destruct (journal e) as [j|] eqn:Hje; [|done].
  destruct (Cmd.named _ _); [by intros; simplify_eq; congruence|].
  destruct jRewrite as [Rw|]; [|by intros; simplify_eq; congruence].
  destruct jAsync as [async|].
  - destruct (SnapshotEntries _ _ _) as [[?|es]|]; simpl; [|destruct (arStart async es j) as [[?|] j']|];
      intros; simplify_eq; simpl; congruence.
  - destruct (Rw clk _ j) as [[?|] j']; intros; by simplify_eq.
Qed.

Lemma finish_live async ready e : live e -> live (finishAOFRewrite async ready e).
Proof.
  unfold finishAOFRewrite, live. intros [Hw Hj]. destruct (journal e) as [j|] eqn:Hje; [|done].
  destruct ready as [err|]; [destruct (arAbort async err j) as [r j']|destruct (arComplete async j) as [[r|] j']];
    done.
Qed.

Lemma sample_live clk rnd limit i sampled exp c r e s :
  sample_loop rnd alone (clk 0%nat) limit [i] sampled exp c (tt, eStore e) = Some (r, (tt, s)) ->
  (i < numShards)%nat -> live e -> live (set_store s e).
Proof.
  intros Hs Hi [Hw Hj]. split; [|done].
  destruct (sample_loop_spec (E := unit) (fun _ _ => True)) with (rnd := rnd) (others := alone (E := unit))
    (now := clk 0%nat) (limit := limit) (order := [i]) (sampled := sampled) (exp := exp) (c := c) (es := (tt, eStore e))
    as (n & exp' & es' & He & Hw' & _); try done.
  { by apply Forall_singleton. }
  rw Hs in He. by simplify_eq.
Qed.

Lemma expire_live clk candidates r e e' s :
  journalAndDeleteExpired clk candidates (e, eStore e) = Some (r, (e', s)) -> live e -> live (set_store s e').
Proof.
  intros He [Hw Hj]. pose proof (journalAndDelete_outcome clk candidates e (eStore e) Hw) as Ho.
  destruct (journal e) as [j|] eqn:Hje; [|done].
  destruct Ho as (expired & _ & _ & Ho). case_decide; [rw Ho in He; simplify_eq; split; [done|cbn [journal set_store]; congruence]|].
  destruct (appendCommands _ _ j) as [[err|] j']; [rw Ho in He; simplify_eq; by split|].
  destruct Ho as (n & s' & Ho & Hw' & _). rw Ho in He. simplify_eq. by split.
Qed.

Lemma report_live clk n e : live e -> live (set_store (reportActiveExpiration clk n (eStore e)) e).
Proof. intros [Hw Hj]. split; [|done]. by apply report_wf. Qed.

Lemma other_live e e' : other_step ord e e' -> live e -> live e'.
Proof.
  intros Ho Hl. destruct Ho as [rnd clk cmd r e e' Hm Hn He|e e' He|rnd clk limit i sampled exp c r e s Hs Hi|clk keys r e e' s He|clk n e|async ready e].
  - unfold Execute in He. rw Hn Hm in He. unfold admitAndApply in He.
    destruct (admitOrReject_spec rnd (fork1 clk) cmd e (proj1 Hl)) as (d & e1 & Hd & Hw1 & _ & Hs & _).
    rw Hd /= in He. pose proof (live_same e e1 Hs Hw1 Hl) as Hl1.
    destruct d as [err|[reply|]]; [by simplify_eq..|].
    destruct (apply_spec (fork2 clk) cmd e1 Hw1) as (v & s' & Ha & Hw' & _). rw Ha /= in He. simplify_eq.
    split; [done|apply Hl1].
  - unfold enqueueAOFRewrite in He. repeat case_match; by simplify_eq.
  - by eapply sample_live.
  - by eapply expire_live.
  - by apply report_live.
  - by apply finish_live.
Qed.

Lemma commit_live rnd clk batch e :
  live e -> exists rs e', commitMutationBatch AppendBatch rnd clk batch e = Some (rs, e') /\ live e' /\
    length rs = length batch.
Proof.
  intros [Hw Hj]. destruct (commit_total AppendBatch rnd clk batch e Hw Hj) as (rs & e' & ? & Hw' & Hl & Hs).
  exists rs, e'. split_and!; [done| |done]. by eapply live_same.
Qed.

(** ** The invariant *)
Definition batch_ok (b : list (nat * Command)) : Prop := (1 <= length b <= maxBatch)%nat.

Definition phase_ok (w : writeState J) : Prop :=
  match wPhase w with
  | Stopped => wSender w = None /\ wQueue w = [] /\ wPending w = None
  | Receiving => True
  | Idling => wPending w = None
  | Collecting b => wPending w = None /\ batch_ok b
  | Committing b => batch_ok b
  end.

Record sound (w : writeState J) : Prop := {
  sound_exec : live (wExec w);
  sound_queue : (length (wQueue w) <= queueCapacity)%nat;
  sound_phase : phase_ok w;
}.

Lemma start_sound e : live e -> sound (start e).
Proof. intros. split; [done| |by split_and!]. unfold queueCapacity. simpl. lia. Qed.

Lemma next_request_inv (w w' : writeState J) r :
  next_request w = Some (r, w') ->
  wPhase w' = wPhase w /\ wExec w' = wExec w /\ wAnswers w' = wAnswers w /\ wSender w' = wSender w /\
  wNotices w' = wNotices w /\ wPending w' = None /\ (length (wQueue w') <= length (wQueue w))%nat /\
  pending_ids w ++ (req_id <$> wQueue w) = req_id r :: (req_id <$> wQueue w').
Proof.
  unfold next_request, pending_ids. destruct (wPending w) as [[id queued]|] eqn:Hp.
  - intros. by simplify_eq.
  - destruct (wQueue w) as [|r1 q] eqn:Hq; [done|]. intros. simplify_eq. split_and!; try done. simpl. lia.
Qed.

Lemma step_sound w l w' : sound w -> step w l w' -> sound w'.
Proof.
  intros [Hl Hq Hp] Hs. unfold phase_ok in Hp.
  destruct Hs as [r w Hn|r w Hr Hc|w Hph Hpe|w Hph Hn|id cmd w w1 Hph Hnx|id qd clk err e w w1 Hph Hnx Hst
    |b id cmd q w Hph Hb Hqu|b id qd q w Hph Hb Hqu|b w Hph Hm|b rnd clk rs e w Hph Hcm|err errs w Hno|e w Ho].
  - split; [done..|]. unfold phase_ok. simpl. destruct (wPhase w); naive_solver.
  - split; [done| |].
    + simpl. rw length_app. simpl. lia.
    + unfold phase_ok in *. simpl. destruct (wPhase w); [|done..]. destruct Hp as (Hs0 & _). congruence.
  - split; [done..|]. unfold phase_ok. simpl. done.
  - split; [done..|]. rw Hph in Hp. unfold phase_ok, idle. simpl. by destruct (wQueue w).
  - apply next_request_inv in Hnx as (_ & He & _ & _ & _ & Hpe & Hle & _).
    split; simpl; [by rw He|lia|]. unfold phase_ok. simpl. split; [done|]. unfold batch_ok, maxBatch. simpl. lia.
  - apply next_request_inv in Hnx as (Hph' & He & _ & _ & _ & Hpe & Hle & _). rw He in Hst.
    destruct (start_live clk (wExec w) Hl) as (err' & e' & Hst' & Hl'). rw Hst in Hst'. simplify_eq.
    split; simpl; [done|lia|]. unfold phase_ok. simpl. by rw Hph' Hph.
  - rw Hph in Hp. rw Hqu in Hq. split; simpl; [done|simpl in Hq; lia|]. unfold phase_ok. simpl.
    destruct Hp as [? Hbk]. split; [done|]. unfold batch_ok in *. rw length_app. simpl. lia.
  - rw Hph in Hp. rw Hqu in Hq. split; simpl; [done|simpl in Hq; lia|]. unfold phase_ok. simpl. apply Hp.
  - rw Hph in Hp. split; [done..|]. unfold phase_ok. simpl. apply Hp.
  - destruct (commit_live rnd clk (snd <$> b) (wExec w) Hl) as (rs' & e' & Hcm' & Hl' & _).
    rw Hcm in Hcm'. simplify_eq. split; [done..|]. unfold phase_ok. by simpl.
  - split; done.
  - split; [by eapply other_live|done..].
Qed.

Lemma steps_sound w ls w' : sound w -> steps w ls w' -> sound w'.
Proof. intros Hw Hs. induction Hs; eauto using step_sound. Qed.

(** ** Requests leave in the order they entered *)
Definition flow (w : writeState J) : list nat := answered w ++ in_flight w.

Lemma fst_zip_answers (ids : list nat) (rs : list executionResult) :
  length rs = length ids -> fst <$> zip ids (AnsResult <$> rs) = ids.
Proof. intros Hl. apply fst_zip. rw length_fmap. lia. Qed.

Ltac flat := simpl; autorewrite with flat; done.
Create Rewrite HintDb flat.
#[local] Hint Rewrite @fmap_app @app_nil_r : flat.
#[local] Hint Rewrite <- @app_assoc : flat.

Lemma step_flow w l w' : sound w -> step w l w' -> flow w' = flow w ++ submitted [l].
Proof.
  intros [Hl Hq Hp] Hs. unfold phase_ok in Hp. unfold flow, in_flight, answered.
  destruct Hs as [r w Hn|r w Hr Hc|w Hph Hpe|w Hph Hn|id cmd w w1 Hph Hnx|id qd clk err e w w1 Hph Hnx Hst
    |b id cmd q w Hph Hb Hqu|b id qd q w Hph Hb Hqu|b w Hph Hm|b rnd clk rs e w Hph Hcm|err errs w Hno|e w Ho];
    simpl; try flat.
  - unfold pending_ids. simpl. rw Hn. destruct (wPhase w); flat.
  - unfold pending_ids. simpl. rw Hr. flat.
  - rw Hph. flat.
  - rw Hph. unfold pending_ids, idle. destruct (wQueue w); flat.
  - apply next_request_inv in Hnx as (_ & _ & Ha & Hse & _ & Hpe & _ & Hids). rw Hph Ha Hse.
    unfold pending_ids at 1. simpl. rewrite -> Hpe, (app_assoc (pending_ids w)), Hids. flat.
  - apply next_request_inv in Hnx as (Hph' & _ & Ha & Hse & _ & Hpe & _ & Hids).
    rewrite -> Hph', Hph, Ha, Hse. unfold pending_ids at 1. simpl.
    rewrite -> Hpe, (app_assoc (pending_ids w)), Hids. flat.
  - rw Hph in Hp |- *. rw Hqu. unfold pending_ids. simpl. rw (proj1 Hp). flat.
  - rw Hph in Hp |- *. rw Hqu. unfold pending_ids. simpl. rw (proj1 Hp). flat.
  - rw Hph. flat.
  - destruct (commit_live rnd clk (snd <$> b) (wExec w) Hl) as (rs' & e' & Hcm' & _ & Hlen).
    rw Hcm in Hcm'. simplify_eq. rw length_fmap in Hlen.
    rewrite -> fmap_app, fst_zip_answers by by rewrite -> length_fmap. rw Hph. flat.
Qed.

Lemma steps_flow w ls w' : sound w -> steps w ls w' -> flow w' = flow w ++ submitted ls.
Proof.
  intros Hw Hs. induction Hs as [w|w l w1 ls w2 Hs Hss IH]; [by rw app_nil_r|].
  rw (IH (step_sound _ _ _ Hw Hs)) (step_flow _ _ _ Hw Hs) -app_assoc. f_equal.
  unfold submitted. simpl. by destruct l.
Qed.

Lemma step_answered w l w' : step w l w' -> exists k, answered w' = answered w ++ k.
Proof.
  intros Hs. unfold answered. destruct Hs; simpl; try (exists []; by rw app_nil_r).
  - apply next_request_inv in H2 as (_ & _ & Ha & _). rw Ha. exists []. by rw app_nil_r.
  - apply next_request_inv in H2 as (_ & _ & Ha & _). rw Ha fmap_app. eauto.
  - rw fmap_app. eauto.
Qed.

(** ** Where the loop can make a turn *)
Definition ready (w : writeState J) : Prop :=
  match wPhase w with
  | Stopped | Idling => False
  | Receiving => next_request w <> None
  | Collecting _ | Committing _ => True
  end.

Lemma ready_enabled w : sound w -> ready w -> enabled w LLoop.
Proof.
  intros Hw Hr. unfold ready in Hr. pose proof (sound_phase w Hw) as Hp. unfold phase_ok in Hp.
  destruct (wPhase w) as [| | |b|b] eqn:Hph; [done| |done| |].
  - destruct (next_request w) as [[[id cmd|id qd] w1]|] eqn:Hn; [| |done].
    + eexists. by eapply StepReceive.
    + pose proof (next_request_inv _ _ _ Hn) as (_ & He & _).
      destruct (start_live (fun _ => 0) (wExec w1)) as (err & e & Hst & _); [rw He; apply Hw|].
      eexists. by eapply StepStart.
  - destruct (decide (length b < maxBatch)%nat) as [Hb|Hb].
    + destruct (wQueue w) as [|[id cmd|id qd] q] eqn:Hq.
      * eexists. eapply StepClose; [done|]. unfold may_close. destruct (decide (0 < delay)); [auto|].
        right. right. split; [lia|done].
      * eexists. by eapply StepCollect.
      * eexists. by eapply StepAside.
    + eexists. eapply StepClose; [done|]. left. lia.
  - destruct (commit_live (fun _ => 0%nat) (fun _ => 0) (snd <$> b) (wExec w) (sound_exec w Hw)) as (rs & e & Hc & _).
    eexists. by eapply StepCommit.
Qed.

(** Turns the loop can take before it answers someone. *)
Definition rank (w : writeState J) : nat :=
  match wPhase w with
  | Collecting b => maxBatch + 2 - length b
  | Committing _ => 1
  | _ => maxBatch + 3
  end.

Definition is_turn (l : label) : nat := match l with LLoop => 1 | _ => 0 end.

Lemma step_rank w l w' :
  sound w -> step w l w' -> length (answered w') = length (answered w) ->
  (rank w' + is_turn l <= rank w)%nat.
Proof.
  intros Hw Hs Ha. pose proof (sound_phase w Hw) as Hp. unfold phase_ok in Hp. unfold rank.
  destruct Hs as [r w Hn|r w Hr Hc|w Hph Hpe|w Hph Hn|id cmd w w1 Hph Hnx|id qd clk err e w w1 Hph Hnx Hst
    |b id cmd q w Hph Hb Hqu|b id qd q w Hph Hb Hqu|b w Hph Hm|b rnd clk rs e w Hph Hcm|err errs w Hno|e w Ho];
    simpl in *; try lia.
  - destruct (wPhase w); simpl; lia.
  - rw Hph. lia.
  - rw Hph. destruct (wQueue w); simpl; lia.
  - rw Hph. unfold maxBatch. lia.
  - apply next_request_inv in Hnx as (_ & _ & Ha' & _). unfold answered in Ha. simpl in Ha.
    rw Ha' fmap_app length_app /= in Ha. lia.
  - rw Hph in Hp |- *. unfold batch_ok in Hp. rewrite -> length_app. unfold maxBatch in *. simpl. lia.
  - rw Hph in Hp |- *. unfold batch_ok, maxBatch in *. lia.
  - rw Hph in Hp |- *. unfold batch_ok, maxBatch in *. lia.
  - rw Hph in Hp. destruct (commit_live rnd clk (snd <$> b) (wExec w) (sound_exec w Hw)) as (rs' & e' & Hcm' & _ & Hlen).
    rw Hcm in Hcm'. simplify_eq. rw length_fmap in Hlen. unfold answered in Ha. simpl in Ha.
    rw fmap_app length_app fst_zip_answers ?length_fmap in Ha; [|done].
    unfold batch_ok in Hp. lia.
Qed.

Lemma turn_ready w w' : step w LLoop w' -> ready w.
Proof.
  intros Hs. unfold ready. inversion Hs; subst;
    match goal with Hp : wPhase _ = _ |- _ => rw Hp end; first [done|congruence].
Qed.

Lemma idle_step w w' : step w LIdle w' -> wPhase w = Idling /\ wSender w = None /\ w' = idle w.
Proof. by inversion 1. Qed.

Lemma send_step w w' : step w LSend w' -> wSender w' = None.
Proof. by inversion 1. Qed.

(** ** Fair executions *)
Section executions.
Variables (e : Executor J) (run : nat -> writeState J) (lab : nat -> label).
Hypothesis Hx : execution e run lab.
Hypothesis Hlive : live e.

Lemma run_sound i : sound (run i).
Proof.
  induction i as [|i IH].
  - rw (run_start _ _ _ _ _ _ Hx). by apply start_sound.
  - eapply step_sound; [exact IH|apply (run_step _ _ _ _ _ _ Hx)].
Qed.

Lemma run_prefix (f : writeState J -> list nat) i j :
  (forall i, exists k, f (run (S i)) = f (run i) ++ k) -> (i <= j)%nat -> exists k, f (run j) = f (run i) ++ k.
Proof.
  intros Hf Hij. induction Hij as [|j Hij [k Hk]]; [exists []; by rw app_nil_r|].
  destruct (Hf j) as [k' Hk']. exists (k ++ k'). by rw Hk' Hk -app_assoc.
Qed.

Lemma run_answered i j : (i <= j)%nat -> exists k, answered (run j) = answered (run i) ++ k.
Proof. apply run_prefix. intros i'. eapply step_answered, (run_step _ _ _ _ _ _ Hx). Qed.

Lemma run_flow i j : (i <= j)%nat -> exists k, flow (run j) = flow (run i) ++ k.
Proof.
  apply run_prefix. intros i'. eexists. eapply step_flow; [apply run_sound|apply (run_step _ _ _ _ _ _ Hx)].
Qed.

(** A request keeps the sender's place only as long as it is not sent. *)
Lemma sender_clears i : exists j, (i <= j)%nat /\ wSender (run j) = None.
Proof.
  apply NNPP. intros Hno.
  assert (Hs : forall j, (i <= j)%nat -> enabled (run j) LSend).
  { intros j Hij. destruct (wSender (run j)) as [r|] eqn:Hr; [|by destruct Hno; eauto].
    eexists. eapply StepSend; [done|]. pose proof (run_room _ _ _ _ _ _ Hx j) as Hroom.
    unfold in_flight in Hroom. rw Hr !length_app !length_fmap in Hroom. simpl in Hroom. lia. }
  destruct (run_fair_send _ _ _ _ _ _ Hx) with (i := i) as (j & Hij & Hl).
  { intros m. exists (i + m)%nat. split; [lia|]. apply Hs. lia. }
  destruct Hno. exists (S j). split; [lia|]. pose proof (run_step _ _ _ _ _ _ Hx j) as Hst. rw Hl in Hst.
  by apply send_step in Hst.
Qed.

Lemma waiting_cases i :
  in_flight (run i) <> [] -> wSender (run i) = None -> ready (run i) \/
  wPhase (run i) = Idling /\ wQueue (run i) <> [].
Proof.
  intros Hf Hs. pose proof (sound_phase _ (run_sound i)) as Hp. unfold phase_ok, ready, in_flight in *.
  rw Hs in Hf. unfold next_request, pending_ids in *.
  destruct (wPhase (run i)); simpl in *; [by destruct Hp as (_ & Hq & Hpe); rw Hq Hpe in Hf| | |tauto|tauto].
  - left. destruct (wPending (run i)) as [[]|], (wQueue (run i)); done.
  - right. rw Hp in Hf. by destruct (wQueue (run i)).
Qed.

(** The loop cannot miss its turn for ever: when its timer takes it away, the check
    of the queue brings it back. *)
Lemma ready_again i :
  (forall j, (i <= j)%nat -> in_flight (run j) <> []) -> exists j, (i <= j)%nat /\ ready (run j).
Proof.
  intros Hf. apply NNPP. intros Hno.
  assert (Hidle : infinitely_often (fun m => enabled (run m) LIdle)).
  { intros m. destruct (sender_clears (i + m)) as (j & Hij & Hs). exists j. split; [lia|].
    destruct (waiting_cases j) as [Hr|[Hph Hq]]; [apply Hf; lia|done| |].
    - destruct Hno. exists j. split; [lia|done].
    - eexists. by eapply StepIdle. }
  destruct (run_fair_idle _ _ _ _ _ _ Hx Hidle i) as (j & Hij & Hl).
  pose proof (run_step _ _ _ _ _ _ Hx j) as Hst. rw Hl in Hst. apply idle_step in Hst as (Hph & Hs & Hn).
  destruct (waiting_cases j) as [Hr|[_ Hq]]; [by apply Hf|done|unfold ready in Hr; by rw Hph in Hr|].
  destruct Hno. exists (S j). split; [lia|]. rw Hn. unfold ready, idle, next_request. simpl.
  destruct (wQueue (run j)); [done|]. simpl.
  by destruct (wPending (run j)) as [[]|].
Qed.

Lemma rank_run i k :
  (forall j, (i <= j)%nat -> length (answered (run j)) = length (answered (run i))) ->
  (rank (run (i + k)) <= rank (run i))%nat.
Proof.
  intros Ha. induction k as [|k IH]; [by rw Nat.add_0_r|]. etrans; [|exact IH]. rw Nat.add_succ_r.
  pose proof (step_rank (run (i + k)) (lab (i + k)) (run (S (i + k))) (run_sound _)
    (run_step _ _ _ _ _ _ Hx _)) as Hr.
  rw !Ha in Hr; [|lia|lia]. specialize (Hr eq_refl). lia.
Qed.

(** While a request waits, another answer is sent. *)
Lemma answers_grow i :
  in_flight (run i) <> [] -> exists j, (i <= j)%nat /\ (length (answered (run i)) < length (answered (run j)))%nat.
Proof.
  intros Hf. apply NNPP. intros Hno.
  assert (Ha : forall j, (i <= j)%nat -> answered (run j) = answered (run i)).
  { intros j Hij. destruct (run_answered i j Hij) as [[|a k] Hk]; [by rw app_nil_r in Hk|].
    destruct Hno. exists j. split; [done|]. rw Hk length_app /=. lia. }
  assert (Hw : forall j, (i <= j)%nat -> in_flight (run j) <> []).
  { intros j Hij Hn. destruct (run_flow i j Hij) as [k Hk]. unfold flow in Hk.
    rw (Ha j Hij) Hn app_nil_r in Hk. destruct (in_flight (run i)); [done|].
    apply (f_equal length) in Hk. rw !length_app in Hk. simpl in Hk. lia. }
  assert (Hturns : infinitely_often (fun m => lab m = LLoop)).
  { apply (run_fair_loop _ _ _ _ _ _ Hx). intros m. destruct (ready_again (i + m)) as (j & Hj & Hr).
    - intros j Hj. apply Hw. lia.
    - exists j. split; [lia|]. apply ready_enabled; [apply run_sound|done]. }
  assert (Hdown : forall n, exists j, (i <= j)%nat /\ (rank (run j) + n <= rank (run i))%nat).
  { induction n as [|n (j & Hij & Hr)]; [exists i; lia|]. destruct (Hturns j) as (m & Hjm & Hl).
    exists (S m). split; [lia|].
    pose proof (step_rank (run m) (lab m) (run (S m)) (run_sound _) (run_step _ _ _ _ _ _ Hx _)) as Hs.
    rw !Ha in Hs; [|lia|lia]. specialize (Hs eq_refl). rw Hl /= in Hs.
    assert (rank (run (j + (m - j))) <= rank (run j))%nat as Hd.
    { apply rank_run. intros j' Hj'. rw !Ha; [done|lia|lia]. }
    replace (j + (m - j))%nat with m in Hd by lia. lia. }
  destruct (Hdown (S (rank (run i)))) as (j & _ & Hj). lia.
Qed.

Lemma answered_at n i p id :
  (p < length (answered (run i)) + n)%nat -> flow (run i) !! p = Some id ->
  exists j, (i <= j)%nat /\ id ∈ answered (run j).
Proof.
  revert i. induction n as [|n IH]; intros i Hn Hp;
  destruct (decide (p < length (answered (run i)))%nat) as [Hlt|Hge]; try lia;
    try (exists i; split; [done|]; unfold flow in Hp; rw lookup_app_l in Hp; [by eapply list_elem_of_lookup_2|done]).
  - assert (in_flight (run i) <> []) as Hf.
    { intros Hf. unfold flow in Hp. rw Hf app_nil_r in Hp. apply lookup_lt_Some in Hp. lia. }
    destruct (answers_grow i Hf) as (j & Hij & Hlt). destruct (run_flow i j Hij) as [k Hk].
    destruct (IH j) as (m & Hjm & Hin).
    + lia.
    + rw Hk. by apply lookup_app_l_Some.
    + exists m. split; [lia|done].
Qed.
End executions.
End loop.

End WriteLoopProof.
