(* ===== verification/WriteLoopTheorems.v ===== *)
(** * What the write loop guarantees

    Requests are answered in order and once; in a fair execution with no more
    requests than the queue holds every request is answered; with more of them the
    loop and a client can wait for each other for ever. *)

From S2P Require Import Prelude GoTime GoLib GoIO Resp RespTheorems ListValue Store StoreSpec StoreProof.
From S2P Require Import StoreMaint StoreMaintProof StoreTheorems Command CommandEffects Executor.
From S2P Require Import ExecutorProof ExecTheorems WriteLoop WriteLoopProof.

Module WriteLoopTheorems.
Import StoreProof StoreMaint Exec ExecTheorems WriteLoop WriteLoopProof.

Lemma demo_live : live (demoExec 0 []).
Proof. split; [exact StoreTheorems.demo_wf|done]. Qed.

(** A client that asks once, and a loop that answers, stops, and reads on. *)
Section demo.
Context `{Unicode} {J : Type} `{Journal J}.
Variables (AppendBatch : clock -> list Command -> J -> (goerr + list Command) * J) (delay : Z).
Variable ord : gset gostring -> list gostring.
Hypothesis delay_ok : 0 <= delay.

Definition demoCmd : Command := mkCommand (str "DEL") [str "k"].

Definition demo_run (e e' : Executor J) (rs : list executionResult) (i : nat) : writeState J :=
  let b := [(7%nat, demoCmd)] in
  match i with
  | 0%nat => start e
  | 1%nat => mkWrite (Some (ReqMutation 7 demoCmd)) [] None Receiving [] e []
  | 2%nat => mkWrite None [ReqMutation 7 demoCmd] None Receiving [] e []
  | 3%nat => mkWrite None [] None (Collecting b) [] e []
  | 4%nat => mkWrite None [] None (Committing b) [] e []
  | 5%nat => mkWrite None [] None Receiving [] e' (zip [7%nat] (AnsResult <$> rs))
  | 6%nat => mkWrite None [] None Idling [] e' (zip [7%nat] (AnsResult <$> rs))
  | _ => mkWrite None [] None Stopped [] e' (zip [7%nat] (AnsResult <$> rs))
  end.

Definition demo_label (i : nat) : label :=
  match i with
  | 0%nat => LEnqueue (ReqMutation 7 demoCmd)
  | 1%nat => LSend
  | 2%nat | 3%nat | 4%nat => LLoop
  | 5%nat => LTimer
  | 6%nat => LIdle
  | _ => LOther
  end.

Lemma PING_same (e : Executor J) :
  Execute ord (fun n => n) (fun _ => 0) (mkCommand (str "PING") []) e = Some (inr (NewSimpleString (str "PONG")), e).
Proof.
  unfold Execute, admitAndApply, admitOrReject, admit_. simpl. rw orb_true_r. by destruct e.
Qed.

Lemma demo_execution e :
  live e -> exists run lab, execution AppendBatch delay ord e run lab /\ 7%nat ∈ in_flight (run 1%nat).
Proof.
  intros He. destruct (commit_live AppendBatch (fun n => n) (fun _ => 0) [demoCmd] e He) as (rs & e' & Hc & _ & _).
  exists (demo_run e e' rs), demo_label. split; [|apply list_elem_of_In; by left].
  assert (Hend : forall l, l <> LOther -> (forall r, l <> LEnqueue r) ->
    fair AppendBatch delay ord (demo_run e e' rs) demo_label l).
  { intros l H1 H2 Hinf. destruct (Hinf 7%nat) as (j & Hj & w & Hs).
    do 7 (destruct j as [|j]; [lia|]). inversion Hs; subst; naive_solver. }
  split; [done| |by apply Hend..|].
  - intros i. do 7 try destruct i as [|i]; cbn [demo_run demo_label].
    + by apply (StepEnqueue _ _ _ (ReqMutation 7 demoCmd) (start e)).
    + refine (StepSend _ _ _ _ _ _ _); [done|]. unfold queueCapacity. simpl. lia.
    + by refine (StepReceive _ _ _ 7 demoCmd _ (mkWrite None [] None Receiving [] e []) _ _).
    + refine (StepClose _ _ _ [(7%nat, demoCmd)] _ _ _); [done|]. unfold may_close. simpl.
      destruct (decide (0 < delay)); [auto|]. right. right. split; [lia|done].
    + exact (StepCommit AppendBatch delay ord [(7%nat, demoCmd)] _ _ rs e'
        (mkWrite None [] None (Committing [(7%nat, demoCmd)]) [] e []) eq_refl Hc).
    + by refine (StepTimer _ _ _ _ _ _).
    + by refine (StepIdle _ _ _ _ _ _).
    + refine (StepOther _ _ _ _ _ _). eapply OtherRead; [..|apply PING_same]; done.
  - intros i. unfold queueCapacity. do 7 try destruct i as [|i]; unfold in_flight; simpl; lia.
Qed.
End demo.

(** C9.  Requests are answered in the order in which they took [dispatchMu], each
    exactly once: after any run of the write loop beside any clients, reads, active
    expirations and rewrites, the requests answered followed by those still in the
    batch, set aside, queued or being sent are the requests submitted.  The queue
    never exceeds its capacity, a batch never exceeds 64, and when the loop has
    stopped no request is stranded. *)
Theorem requests_answered_in_order `{Unicode} `{Journal J}
    (AppendBatch : clock -> list Command -> J -> (goerr + list Command) * J) (delay : Z)
    (ord : gset gostring -> list gostring) (e : Executor J) (ls : list label) (w : writeState J)
    (Hord : forall X, ord X ≡ₚ elements X) (Hw : wf (eStore e)) (Hj : journal e <> None)
    (Hs : steps AppendBatch delay ord (start e) ls w) :
  answered w ++ in_flight w = submitted ls /\
  (length (wQueue w) <= 1024)%nat /\ (length (phase_batch (wPhase w)) <= 64)%nat /\
  (wPhase w = Stopped -> answered w = submitted ls).
Proof.
  pose proof (start_sound e (conj Hw Hj)) as H0s.
  pose proof (steps_sound AppendBatch delay ord Hord _ _ _ H0s Hs) as [_ Hq Hp].
  pose proof (steps_flow AppendBatch delay ord Hord _ _ _ H0s Hs) as Hf.
  change (answered w ++ in_flight w = submitted ls) in Hf.
  unfold phase_ok, batch_ok, maxBatch in Hp. split_and!.
  - done.
  - unfold queueCapacity in Hq. lia.
  - destruct (wPhase w); simpl; lia.
  - intros Hst. rw Hst in Hp. destruct Hp as (Hn & Hqe & Hpe). rw -Hf.
    unfold in_flight, pending_ids. by rw Hst Hn Hqe Hpe /= app_nil_r.
Qed.

Lemma requests_answered_in_order_witness :
  exists w, @steps asciiOnly memJournal _ (fun _ => memAppend) 0 elements (start (demoExec 0 []))
      [LEnqueue (ReqMutation 7 demoCmd); LSend; LEnqueue (ReqRewrite 8 true); LLoop] w /\
    answered w ++ in_flight w = [7; 8]%nat.
Proof.
  eexists. match goal with |- ?S /\ _ => assert (Hs : S) end.
  { eapply steps_next; [by apply StepEnqueue|].
    eapply steps_next; [apply (StepSend _ _ _ (ReqMutation 7 demoCmd)); [done|]; unfold queueCapacity; simpl; lia|].
    eapply steps_next; [by apply StepEnqueue|].
    eapply steps_next; [|apply steps_refl]. by apply (StepReceive _ _ _ 7 demoCmd). }
  split; [exact Hs|].
  exact (proj1 (@requests_answered_in_order asciiOnly memJournal _ _ _ _ _ _ _ (fun X => reflexivity _)
    (proj1 demo_live) (proj2 demo_live) Hs)).
Defined.

(** C10.  No request waits for ever: in every infinite execution in which the turns
    of the loop, its check after the idle timer and the clients' sends are scheduled
    fairly and at most 1024 requests are in flight at a time, each request submitted
    is eventually answered, whatever the journal, the clock and the other goroutines
    do. *)
Theorem every_request_answered `{Unicode} `{Journal J}
    (AppendBatch : clock -> list Command -> J -> (goerr + list Command) * J) (delay : Z)
    (ord : gset gostring -> list gostring) (e : Executor J)
    (run : nat -> writeState J) (lab : nat -> label) (i id : nat)
    (Hord : forall X, ord X ≡ₚ elements X) (Hd : 0 <= delay) (Hw : wf (eStore e)) (Hj : journal e <> None)
    (Hx : execution AppendBatch delay ord e run lab) (Hid : id ∈ in_flight (run i)) :
  exists j, (i <= j)%nat /\ id ∈ answered (run j).
Proof.
  assert (id ∈ flow (run i)) as Hf by (apply elem_of_app; auto).
  apply list_elem_of_lookup in Hf as [p Hp].
  apply (answered_at AppendBatch delay ord Hord Hd e run lab Hx (conj Hw Hj) (S p) i p id); [lia|done].
Qed.

Lemma every_request_answered_witness :
  exists run lab, @execution asciiOnly memJournal _ (fun _ => memAppend) 0 elements (demoExec 0 []) run lab /\
    7%nat ∈ in_flight (run 1%nat) /\ exists j, (1 <= j)%nat /\ 7%nat ∈ answered (run j).
Proof.
  destruct (@demo_execution asciiOnly memJournal _ (fun _ => memAppend) 0 elements
    ltac:(lia) (demoExec 0 []) demo_live) as (run & lab & Hx & Hid).
  exists run, lab. split; [exact Hx|]. split; [exact Hid|].
  exact (@every_request_answered asciiOnly memJournal _ (fun _ => memAppend) 0 elements (demoExec 0 []) run lab 1 7
    (fun X => reflexivity _) ltac:(lia) (proj1 demo_live) (proj2 demo_live) Hx Hid).
Defined.

(** ** The deadlock *)
Section deadlock.
Context `{Unicode} {J : Type} `{Journal J}.
Variables (AppendBatch : clock -> list Command -> J -> (goerr + list Command) * J) (delay : Z).
Variable ord : gset gostring -> list gostring.

Lemma steps_app w1 l1 w2 l2 w3 :
  steps AppendBatch delay ord w1 l1 w2 -> steps AppendBatch delay ord w2 l2 w3 ->
  steps AppendBatch delay ord w1 (l1 ++ l2) w3.
Proof. induction 1; intros; [done|]. simpl. econstructor; eauto. Qed.

(** Clients queue requests while the loop is busy. *)
Lemma fill_queue r n w :
  wPhase w <> Stopped -> wSender w = None -> (length (wQueue w) + n <= queueCapacity)%nat ->
  exists ls, steps AppendBatch delay ord w ls (set_queue (wQueue w ++ replicate n r) w).
Proof.
  intros Hp. revert w Hp. induction n as [|n IH]; intros w Hp Hs Hn.
  { exists []. rw app_nil_r. destruct w. constructor. }
  set (w1 := send r (enqueue r w)).
  assert (Hw1 : wPhase w1 = wPhase w) by (simpl; by destruct (wPhase w)).
  destruct (IH w1) as [ls Hls]; [by rw Hw1|done|simpl; rw length_app; simpl; lia|].
  exists (LEnqueue r :: LSend :: ls). eapply steps_next; [by apply StepEnqueue|].
  eapply steps_next; [apply (StepSend _ _ _ r); [done|simpl; lia]|].
  replace (set_queue (wQueue w ++ replicate (S n) r) w) with (set_queue (wQueue w1 ++ replicate n r) w1); [done|].
  unfold set_queue. simpl in Hw1 |- *. rw Hw1 Hs -app_assoc. done.
Qed.

Lemma deadlocked_step w l w' :
  step AppendBatch delay ord w l w' -> deadlocked w ->
  l = LOther /\ deadlocked w' /\ answered w' = answered w /\ in_flight w' = in_flight w.
Proof.
  intros Hs (Hp & Hn & Hq). destruct Hs; try congruence; try lia; by split_and!.
Qed.
End deadlock.

(** C31.  A write loop with more than 1024 requests waiting can stop for good: from
    any executor there is a run in which the loop commits a batch and then takes its
    idle timer while the queue is full and a client holds [dispatchMu] to send; the
    loop waits for the mutex, the client for room, and from then on nobody is
    answered and no new request is accepted, whatever anyone does. *)
Theorem full_queue_deadlock `{Unicode} `{Journal J}
    (AppendBatch : clock -> list Command -> J -> (goerr + list Command) * J) (delay : Z)
    (ord : gset gostring -> list gostring) (e : Executor J) (cmd : Command)
    (Hd : 0 <= delay) (Hw : wf (eStore e)) (Hj : journal e <> None) :
  exists ls w, steps AppendBatch delay ord (start e) ls w /\ deadlocked w /\
    answered w = [0%nat] /\ length (in_flight w) = 1025%nat /\
    forall ls' w', steps AppendBatch delay ord w ls' w' ->
      submitted ls' = [] /\ answered w' = answered w /\ in_flight w' = in_flight w.
Proof.
  destruct (commit_live AppendBatch (fun n => n) (fun _ => 0) [cmd] e (conj Hw Hj)) as (rs & e' & Hc & _ & Hl).
  destruct rs as [|res [|]]; [done| |done]. set (r := ReqMutation 1 cmd). set (b := [(0%nat, cmd)]).
  set (w0 := mkWrite None [] None (Committing b) [] e []).
  assert (Hs0 : exists ls, steps AppendBatch delay ord (start e) ls w0).
  { eexists. eapply steps_next; [by apply (StepEnqueue _ _ _ (ReqMutation 0 cmd))|].
    eapply steps_next; [apply (StepSend _ _ _ (ReqMutation 0 cmd)); [done|]; unfold queueCapacity; simpl; lia|].
    eapply steps_next; [by apply (StepReceive _ _ _ 0 cmd)|].
    eapply steps_next; [apply (StepClose _ _ _ b); [done|]|apply steps_refl].
    unfold may_close. simpl. destruct (decide (0 < delay)); [auto|]. right. right. split; [lia|done]. }
  destruct Hs0 as [ls0 Hs0].
  destruct (fill_queue AppendBatch delay ord r queueCapacity w0) as [ls1 Hs1]; [done|done|simpl; lia|].
  set (w2 := set_phase Idling (committed b [res] e' (enqueue r (set_queue (replicate queueCapacity r) w0)))).
  assert (Hs2 : exists ls, steps AppendBatch delay ord (start e) ls w2).
  { eexists. eapply steps_app; [exact Hs0|]. eapply steps_app; [exact Hs1|].
    eapply steps_next; [by apply (StepEnqueue _ _ _ r)|].
    eapply steps_next; [by apply (StepCommit _ _ _ b (fun n => n) (fun _ => 0) [res] e')|].
    eapply steps_next; [by apply StepTimer|apply steps_refl]. }
  destruct Hs2 as [ls Hs2]. exists ls, w2.
  assert (Hdead : deadlocked w2).
  { split_and!; [done..|]. exact (length_replicate queueCapacity r). }
  split_and!; [done|done|done| |].
  - unfold in_flight. rewrite -> !length_app, !length_fmap.
    change (wQueue w2) with (replicate queueCapacity r). by rw length_replicate.
  - clear Hs2. intros ls' w' Hs. revert Hdead. induction Hs as [w|w l wa ls' wb Hst _ IH]; intros Hdead; [done|].
    destruct (deadlocked_step _ _ _ _ _ _ Hst Hdead) as (-> & Hdead' & Ha & Hf).
    destruct (IH Hdead') as (Hsub & Ha' & Hf'). by rw Ha' Hf' Ha Hf.
Qed.

Lemma full_queue_deadlock_witness :
  exists ls w, @steps asciiOnly memJournal _ (fun _ => memAppend) 250000 elements (start (demoExec 0 [])) ls w /\
    deadlocked w.
Proof.
  destruct (@full_queue_deadlock asciiOnly memJournal _ (fun _ => memAppend) 250000 elements (demoExec 0 []) demoCmd
    ltac:(lia) (proj1 demo_live) (proj2 demo_live)) as (ls & w & Hs & Hd & _).
  by exists ls, w.
Defined.

End WriteLoopTheorems.
