(* ===== verification/Aof.v ===== *)
(** * The append-only file

    [internal/aof/aof.go]: canonical commands, records, the append path with its
    rollback, and recovery; the rewrite is in [AofRewrite].  The disk is the class [Disk]: every
    file operation takes the next outcome, and a failing write may have written
    part of its bytes.  A file is its bytes, its offset and the bytes known to be
    on stable storage.  Each method runs under [Log.mu], so it is one step. *)

From S2P Require Import Prelude GoTime GoLib GoIO Resp RespEncode ListValue Store StoreSpec.
From S2P Require Import StoreMaint Command Executor.

(** Outcome number [n] of the disk: success, or an error after some bytes. *)
Class Disk := { disk_fault : nat -> option nat; disk_error : gostring }.

Record file := mkFile { fData : gostring; fPos : nat; fSynced : gostring; fOps : nat }.

(** Reads and writes of one file go through its own outcomes, from [fOps] on. *)
#[export] Instance file_writer `{Disk} : Writer file := fun p f =>
  let n := match disk_fault (fOps f) with None => length p | Some n => Nat.min n (length p) end in
  let data := take (fPos f) (fData f) ++ take n p ++ drop (fPos f + n) (fData f) in
  ((n, match disk_fault (fOps f) with None => false | Some _ => true end),
   mkFile data (fPos f + n) (fSynced f) (S (fOps f))).

Module AofFile.
Section file.
Context `{Disk}.

Definition next (f : file) : file := mkFile (fData f) (fPos f) (fSynced f) (S (fOps f)).

(** [None] is a nil error. *)
Definition attempt (g : file -> file) (f : file) : option goerr * file :=
  match disk_fault (fOps f) with
  | None => (None, next (g f))
  | Some _ => (Some disk_error, next f)
  end.

Definition Sync : file -> option goerr * file :=
  attempt (fun f => mkFile (fData f) (fPos f) (fData f) (fOps f)).
Definition Truncate (offset : nat) : file -> option goerr * file :=
  attempt (fun f => mkFile (take offset (fData f)) (fPos f) (fSynced f) (fOps f)).
Definition Seek (offset : nat) : file -> option goerr * file :=
  attempt (fun f => mkFile (fData f) offset (fSynced f) (fOps f)).
Definition SeekCurrent (f : file) : (goerr + nat) * file :=
  match attempt (fun f => f) f with (Some e, f) => (inl e, f) | (None, f) => (inr (fPos f), f) end.
End file.
End AofFile.

(** maxRecordBytes *)
Definition maxRecordBytes : Z := 4 * 2 ^ 20.

(** [limitedRecordBuffer]: all of a write or none of it. *)
Record limitedRecordBuffer := mkRecordBuffer { rbBytes : gostring }.

#[export] Instance record_writer : Writer limitedRecordBuffer := fun p b =>
  if maxRecordBytes - len (rbBytes b) <? len p then ((0%nat, true), b)
  else ((length p, false), mkRecordBuffer (rbBytes b ++ p)).

Module Aof.
Import AofFile.

(** ** Canonical commands *)
Section canonical.
Context `{Unicode}.

Definition deadline_text (now d : Z) : gostring := GoLib.FormatInt (GoTime.UnixMilli (GoTime.Add now d)).

(** The option loop of [SET], two arguments at a time. *)
Fixpoint canonical_options (args : list gostring) (now : Z) : option (list gostring) :=
  match args with
  | [] => Some []
  | [_] => None
  | opt :: a :: rest =>
      let option := GoLib.ToUpper opt in
      if Cmd.named option "EX" then
        seconds ← GoLib.ParseInt a;
        if (seconds <=? 0) || (Cmd.maxSeconds <? seconds) then None
        else rest ← canonical_options rest now;
             Some (str "PXAT" :: deadline_text now (int64 (seconds * GoTime.Second)) :: rest)
      else if Cmd.named option "PX" then
        milliseconds ← GoLib.ParseInt a;
        if (milliseconds <=? 0) || (Cmd.maxMilliseconds <? milliseconds) then None
        else rest ← canonical_options rest now;
             Some (str "PXAT" :: deadline_text now (int64 (milliseconds * GoTime.Millisecond)) :: rest)
      else if Cmd.named option "PXAT" then
        _ ← GoLib.ParseInt a;
        rest ← canonical_options rest now; Some (opt :: a :: rest)
      else None
  end.

(** [(cmd, false)] is [None]. *)
Definition canonicalCommand (cmd : Command) (now : Z) : option Command :=
  if Cmd.named (cName cmd) "SET" then
    match cArgs cmd with
    | key :: value :: options =>
        options ← canonical_options options now; Some (mkCommand (cName cmd) (key :: value :: options))
    | _ => None
    end
  else if Cmd.named (cName cmd) "EXPIRE" then
    match cArgs cmd with
    | [key; a] =>
        seconds ← GoLib.ParseInt a;
        if Cmd.maxSeconds <? seconds then None
        else
          let deadline := if 0 <? seconds then GoTime.Add now (int64 (seconds * GoTime.Second)) else now in
          Some (mkCommand (str "PEXPIREAT") [key; GoLib.FormatInt (GoTime.UnixMilli deadline)])
    | _ => None
    end
  else if Cmd.named (cName cmd) "DEL" then
    match cArgs cmd with [] => None | _ => Some cmd end
  else if Cmd.IsMutation (cName cmd) then Some cmd else None.
End canonical.

(** ** Records *)
Definition command_value (cmd : Command) : Value :=
  NewArray (NewBulkString (cName cmd) :: (NewBulkString <$> cArgs cmd)).

Definition recordLimitError : goerr := str "snapshot command exceeds AOF record limit of 4194304 bytes".

(** The bytes of one record, or the error of the encoder or of its flush. *)
Definition encodeRecord (cmd : Command) : goerr + gostring :=
  match Resp.Encode (command_value cmd) (GoIO.NewWriter (mkRecordBuffer [])) with
  | (Some _, _) => inl (str "encode snapshot command " ++ cName cmd ++ str ": " ++ recordLimitError)
  | (None, w) =>
      let w := GoIO.Flush w in
      if GoIO.bwErr w
      then inl (str "flush encoded snapshot command " ++ cName cmd ++ str ": " ++ recordLimitError)
      else inr (rbBytes (GoIO.bwSink w))
  end.

Section log.
Context `{Disk}.

Definition writeRecord (cmd : Command) (w : GoIO.bufWriter file) : option goerr * GoIO.bufWriter file :=
  match encodeRecord cmd with
  | inl e => (Some e, w)
  | inr record =>
      let w := GoIO.Write record w in
      (if GoIO.bwErr w
       then Some (str "write snapshot command " ++ cName cmd ++ str ": " ++ disk_error) else None, w)
  end.

(** Stops at the first error. *)
Fixpoint writeRecords (cmds : list Command) (w : GoIO.bufWriter file)
    : option (Command * goerr) * GoIO.bufWriter file :=
  match cmds with
  | [] => (None, w)
  | cmd :: cmds' =>
      match writeRecord cmd w with
      | (Some e, w) => (Some (cmd, e), w)
      | (None, w) => writeRecords cmds' w
      end
  end.

Definition snapshot_commands (entry : SnapshotEntry) : list Command :=
  let deadline := GoLib.FormatInt (GoTime.UnixMilli (snExpiresAt entry)) in
  match snKind entry with
  | StringKind =>
      [mkCommand (str "SET")
         (snKey entry :: snValue entry ::
          (if GoTime.IsZero (snExpiresAt entry) then [] else [str "PXAT"; deadline]))]
  | ListKind =>
      ((fun value => mkCommand (str "RPUSH") [snKey entry; value]) <$> snList entry) ++
      (if GoTime.IsZero (snExpiresAt entry) then []
       else [mkCommand (str "PEXPIREAT") [snKey entry; deadline]])
  end.

Definition writeSnapshotEntry (entry : SnapshotEntry) (w : GoIO.bufWriter file)
    : option goerr * GoIO.bufWriter file :=
  let '(r, w) := writeRecords (snapshot_commands entry) w in (snd <$> r, w).
End log.

(** ** The log *)
Inductive syncPolicy := SyncAlways | SyncEverysec | SyncNo.

#[global] Instance syncPolicy_eq_dec : EqDecision syncPolicy.
Proof. solve_decision. Defined.

(** The snapshot file, the sidecar of mutations made meanwhile, its first error,
    and what the goroutine that writes the snapshot has still to write; [tempFile]
    and [deltaFile] are the sinks of the writers. *)
Record rewriteJob := mkJob {
  tempWriter : GoIO.bufWriter file;
  deltaWriter : GoIO.bufWriter file;
  deltaErr : option goerr;
  jobEntries : list SnapshotEntry;
}.

(** [l.file] is the sink of [l.writer]. *)
Record Log := mkLog {
  lWriter : GoIO.bufWriter file;
  lPolicy : syncPolicy;
  lClosed : bool;
  lClosing : bool;
  lFailed : option goerr;
  lRewrite : option rewriteJob;
}.

Definition lFile (l : Log) : file := GoIO.bwSink (lWriter l).

Definition with_writer (w : GoIO.bufWriter file) (l : Log) : Log :=
  mkLog w (lPolicy l) (lClosed l) (lClosing l) (lFailed l) (lRewrite l).
Definition with_file (f : file) (l : Log) : Log :=
  with_writer (GoIO.mkBW (GoIO.bwSize (lWriter l)) (GoIO.bwBuf (lWriter l)) (GoIO.bwErr (lWriter l)) f) l.
Definition with_failed (e : option goerr) (l : Log) : Log :=
  mkLog (lWriter l) (lPolicy l) (lClosed l) (lClosing l) e (lRewrite l).
Definition with_rewrite (j : option rewriteJob) (l : Log) : Log :=
  mkLog (lWriter l) (lPolicy l) (lClosed l) (lClosing l) (lFailed l) j.

(** [errors.Join] of two errors. *)
Definition joinErr (a b : goerr) : goerr := a ++ [LF] ++ b.

Section log.
Context `{Unicode} `{Disk}.

(** An operation on [l.file] behind the writer's back. *)
Definition on_file {A} (op : file -> A * file) (l : Log) : A * Log :=
  let '(a, f) := op (lFile l) in (a, with_file f l).

Definition rollback (offset : nat) (cause : goerr) (l : Log) : goerr * Log :=
  match on_file (Truncate offset) l with
  | (Some e, l) =>
      let e := joinErr cause (str "truncate failed AOF append: " ++ e) in (e, with_failed (Some e) l)
  | (None, l) =>
      match on_file (Seek offset) l with
      | (Some e, l) =>
          let e := joinErr cause (str "seek after failed AOF append: " ++ e) in (e, with_failed (Some e) l)
      | (None, l) =>
          let l := with_writer (GoIO.NewWriterSize (lFile l) (GoIO.bwSize (lWriter l))) l in
          match on_file Sync l with
          | (Some e, l) =>
              let e := joinErr cause (str "sync AOF rollback: " ++ e) in (e, with_failed (Some e) l)
          | (None, l) => (cause, with_failed (Some cause) l)
          end
      end
  end.

(** One reading of the clock per command; an invalid command is passed on as it
    is and not written. *)
Fixpoint canonicalize (clk : clock) (commands : list Command) : list (Command * bool) :=
  match commands with
  | [] => []
  | cmd :: commands' =>
      match canonicalCommand cmd (clk 0%nat) with
      | Some c => (c, true)
      | None => (cmd, false)
      end :: canonicalize (skip 1 clk) commands'
  end.

Definition valid_of (persisted : list (Command * bool)) : list Command :=
  fst <$> filter (fun c => c.2 = true) persisted.

(** The sidecar stops recording at its first error. *)
Definition record_delta (cmds : list Command) (l : Log) : Log :=
  match lRewrite l with
  | Some job =>
      match deltaErr job with
      | None =>
          let '(r, w) := writeRecords cmds (deltaWriter job) in
          with_rewrite (Some (mkJob (tempWriter job) w (snd <$> r) (jobEntries job))) l
      | Some _ => l
      end
  | None => l
  end.

Definition AppendBatch (clk : clock) (commands : list Command) (l : Log)
    : (goerr + list Command) * Log :=
  let persisted := canonicalize clk commands in
  if lClosed l || lClosing l then (inl (str "AOF is closed"), l)
  else match lFailed l with
  | Some e => (inl (str "AOF is unhealthy: " ++ e), l)
  | None =>
      match commands with
      | [] => (inr [], l)
      | _ =>
          match on_file SeekCurrent l with
          | (inl e, l) => (inl (str "get AOF append offset: " ++ e), with_failed (Some e) l)
          | (inr offset, l) =>
              let valid := valid_of persisted in
              let '(r, w) := writeRecords valid (lWriter l) in
              let l := with_writer w l in
              match r with
              | Some (cmd, e) =>
                  let '(e, l) := rollback offset (str "encode AOF command " ++ cName cmd ++ str ": " ++ e) l in
                  (inl e, l)
              | None =>
                  let l := if bool_decide (valid = []) then l else with_writer (GoIO.Flush (lWriter l)) l in
                  if negb (bool_decide (valid = [])) && GoIO.bwErr (lWriter l) then
                    let '(e, l) := rollback offset (str "append AOF command batch: " ++ disk_error) l in
                    (inl e, l)
                  else
                    let '(r, l) :=
                      if negb (bool_decide (valid = [])) && bool_decide (lPolicy l = SyncAlways)
                      then on_file Sync l else (None, l) in
                    match r with
                    | Some e =>
                        let '(e, l) := rollback offset (str "sync AOF command batch: " ++ e) l in (inl e, l)
                    | None => (inr (fst <$> persisted), record_delta valid l)
                    end
              end
          end
      end
  end.

Definition Append (clk : clock) (cmd : Command) (l : Log) : (goerr + Command) * Log :=
  match AppendBatch clk [cmd] l with
  | (inl e, l) => (inl e, l)
  | (inr [], l) => (inr cmd, l)
  | (inr (c :: _), l) => (inr c, l)
  end.

(** One tick of the everysec loop. *)
Definition syncTick (l : Log) : Log :=
  if negb (lClosed l) && bool_decide (lFailed l = None) then
    match on_file Sync l with (Some e, l) => with_failed (Some e) l | (None, l) => l end
  else l.

End log.

(** ** Recovery *)
Section replay.
Context `{Unicode} {S : Type} `{StoreOps S}.

(** The loop of [replay] over the rest of the file.  [goodOffset] bytes are
    complete records already applied; at the end of the file the result is the
    number of bytes to keep and the offset the decoder stopped at.  Every decoded
    command takes at least one byte, so the length of the input bounds the turns. *)
Inductive replayErr :=
  | RDecode (offset : Z) (e : decErr) | RNoProgress (offset : Z) | RParse (offset : Z) (e : gostring)
  | RNonMutation (offset : Z) (name : gostring).

Fixpoint replay_loop (fuel : nat) (clk : clock) (total : Z) (d : Decoder) (goodOffset : Z) (s : S)
    : option ((replayErr + Z * Z) * S) :=
  match fuel with
  | O => None
  | Datatypes.S fuel' =>
      let '(r, d) := Resp.Decode d in
      let offset := total - len (dreader d) in
      match r with
      | inl e => Some (if incomplete e then inr (goodOffset, offset) else inl (RDecode goodOffset e), s)
      | inr value =>
          if offset <=? goodOffset then Some (inl (RNoProgress goodOffset), s)
          else
            match Cmd.Parse value with
            | inl e => Some (inl (RParse goodOffset e), s)
            | inr parsed =>
                if negb (Cmd.IsMutation (cName parsed))
                then Some (inl (RNonMutation goodOffset (cName parsed)), s)
                else
                  '(_, s) ← Cmd.execute (fork1 clk) parsed s;
                  replay_loop fuel' (fork2 clk) total d offset s
            end
      end
  end.

Definition replay (clk : clock) (data : gostring) (s : S) : option ((replayErr + Z * Z) * S) :=
  replay_loop (Datatypes.S (length data)) clk (len data) (NewDecoderWithLimit data maxRecordBytes) 0 s.

(** What can go wrong in [Open] once the file is locked. *)
Inductive openErr := OFile (e : goerr) | OReplay (e : replayErr).

(** Reading the file from its start takes one outcome of the disk: its whole content,
    or an error after its first bytes. *)
Definition readAll `{Disk} (f : file) : (gostring * option goerr) * file :=
  (match disk_fault (fOps f) with
   | None => (fData f, None)
   | Some n => (take n (fData f), Some disk_error)
   end, next f).

(** [replay(file, store)]: an incomplete tail is truncated, unless it is a read that
    failed that cut it off. *)
Definition recover `{Disk} (clk : clock) (f : file) (s : S) : option (option openErr * (file * S)) :=
  match Seek 0 f with
  | (Some e, f) => Some (Some (OFile e), (f, s))
  | (None, f) =>
      let '((data, failed), f) := readAll f in
      '(r, s) ← replay clk data s;
      match r, failed with
      | inl e, _ => Some (Some (OReplay e), (f, s))
      | inr _, Some e => Some (Some (OFile e), (f, s))
      | inr (goodOffset, offset), None =>
          if offset =? goodOffset then Some (None, (f, s))
          else
            let '(e, f) := Truncate (Z.to_nat goodOffset) f in
            Some (OFile <$> e, (f, s))
      end
  end.

(** [Open] on a locked file; [created] when the file did not exist, and
    [syncDirectory] then takes the next outcome of the disk. *)
Definition Open `{Disk} (policy : syncPolicy) (created : bool) (clk : clock) (f : file) (s : S)
    : option ((openErr + Log) * (file * S)) :=
  '(e, (f, s)) ← recover clk f s;
  match e with
  | Some e => Some (inl e, (f, s))
  | None =>
      match Seek (length (fData f)) f with
      | (Some e, f) => Some (inl (OFile e), (f, s))
      | (None, f) =>
          let '(e, f) := if (created : bool) then attempt (fun f => f) f else (None, f) in
          match e with
          | Some e => Some (inl (OFile e), (f, s))
          | None => Some (inr (mkLog (GoIO.NewWriter f) policy false false None None), (f, s))
          end
      end
  end.
End replay.

End Aof.
