(* ===== verification/AofRecords.v ===== *)
(** * Records and recovery

    A record is the wire format of its command; recovery of a file of records,
    complete or cut short anywhere in the last one, runs exactly the complete
    commands and keeps exactly their bytes. *)

From S2P Require Import Prelude GoTime GoLib GoIO Resp RespStream RespProof RespLimits RespEncode.
From S2P Require Import ListValue Store StoreSpec Command CommandProof Executor Aof.

#[export] Instance record_bounded : BoundedWriter limitedRecordBuffer.
Proof.
  refine (Build_BoundedWriter _ _ rbBytes (fun b => maxRecordBytes - len (rbBytes b)) _ _).
  - intros p b Hp. unfold w_write, record_writer. rewrite -> (proj2 (Z.ltb_ge _ _)) by lia.
    eexists. split_and!; [done..|]. simpl. rw len_app. lia.
  - intros p b Hp. unfold w_write, record_writer. by rewrite -> (proj2 (Z.ltb_lt _ _)) by lia.
Defined.

Module AofRecords.
Import Resp RespStream RespProof RespEncode Aof CommandProof.

Definition record (cmd : Command) : gostring := wire (command_value cmd).

Lemma command_encodable cmd : encodable (command_value cmd) = true.
Proof.
  simpl. apply forallb_forall. by intros x (y & -> & _)%list_elem_of_In%list_elem_of_fmap.
Qed.

(** [writeRecord] encodes a command as its wire format, up to 4 MiB. *)
Lemma encodeRecord_spec cmd :
  if decide (len (record cmd) <= maxRecordBytes)
  then encodeRecord cmd = inr (record cmd) else exists e, encodeRecord cmd = inl e.
Proof.
  unfold encodeRecord. pose proof (Encode_Flush (command_value cmd) (mkRecordBuffer []) 4096
    (command_encodable cmd) ltac:(lia)) as He. unfold GoIO.NewWriter.
  destruct (Encode _ _) as [e b]. cbv zeta in He |- *. fold (record cmd) in He.
  change (room (mkRecordBuffer [])) with maxRecordBytes in He. case_decide as Hd.
  - destruct He as (-> & He & Hc). rw He.
    change (rbBytes (GoIO.bwSink (GoIO.Flush b)) = record cmd) in Hc. by rw Hc.
  - destruct e as [e|]; [by eexists|]. destruct He as [|He]; [done|]. rw He. by eexists.
Qed.

(** What recovery can read back: the decoder's limits, an upper-case name. *)
Record recordable `{Unicode} (cmd : Command) : Prop := {
  rc_args : len (cArgs cmd) + 1 <= maxArrayLength;
  rc_strings : Forall (fun s => len s <= maxBulkStringLength) (cName cmd :: cArgs cmd);
  rc_size : charge (command_value cmd) <= maxRecordBytes;
  rc_upper : GoLib.ToUpper (cName cmd) = cName cmd;
  rc_mutation : Cmd.IsMutation (cName cmd) = true;
}.

(** What a decoder with the message limit [max] reads back, and the parser leaves as
    it is: the commands a client may send. *)
Record sendable `{Unicode} (max : Z) (cmd : Command) : Prop := {
  sd_args : len (cArgs cmd) + 1 <= maxArrayLength;
  sd_strings : Forall (fun s => len s <= maxBulkStringLength) (cName cmd :: cArgs cmd);
  sd_size : charge (command_value cmd) <= max;
  sd_upper : GoLib.ToUpper (cName cmd) = cName cmd;
}.

Section unicode.
Context `{Unicode}.

Lemma recordable_sendable cmd : recordable cmd -> sendable maxRecordBytes cmd.
Proof. intros [Ha Hs Hz Hu _]. by split. Qed.

Lemma command_transportable max cmd : sendable max cmd -> transportable (command_value cmd).
Proof.
  intros [Ha Hs _ _]. apply Forall_cons in Hs as [Hn Hs]. constructor.
  - rw len_cons. unfold len in *. rw length_fmap. lia.
  - constructor; [by constructor|]. apply Forall_fmap. eapply Forall_impl; [exact Hs|].
    intros s Hlen. by constructor.
Qed.

Lemma command_nesting cmd : nesting (command_value cmd) <= 2.
Proof.
  apply (RespLimits.nesting_array _ 1); [lia|]. constructor; [simpl; lia|].
  apply Forall_fmap, Forall_true. intros s. simpl. lia.
Qed.

Lemma decode_sent max cmd rest b :
  sendable max cmd ->
  Decode (mkDecoder (record cmd ++ rest) max b 0) =
    (inr (command_value cmd), mkDecoder rest max (charge (command_value cmd)) 0).
Proof.
  intros Hs. pose proof (command_nesting cmd). pose proof (sd_size _ _ Hs).
  pose proof (DecodeF_wire 65 (command_value cmd) rest max b 0 (command_transportable max cmd Hs)) as Hd.
  change (0 =? 0) with true in Hd. cbv iota in Hd. rw Z.add_0_l in Hd.
  change (DecodeF 65) with Decode in Hd. fold (record cmd) in Hd.
  apply Hd; unfold maxRESPDepth; lia.
Qed.

Lemma decode_record cmd rest b :
  recordable cmd ->
  Decode (mkDecoder (record cmd ++ rest) maxRecordBytes b 0) =
    (inr (command_value cmd), mkDecoder rest maxRecordBytes (charge (command_value cmd)) 0).
Proof. intros Hr. by apply decode_sent, recordable_sendable. Qed.

Lemma parse_args_bulk args : Cmd.parse_args (NewBulkString <$> args) = inr args.
Proof. induction args as [|a args IH]; [done|]. csimpl. by rw IH. Qed.

Lemma parse_sent max cmd : sendable max cmd -> Cmd.Parse (command_value cmd) = inr cmd.
Proof.
  intros Hs. unfold Cmd.Parse, command_value. simpl. rw parse_args_bulk (sd_upper _ _ Hs).
  by destruct cmd.
Qed.

Lemma parse_record cmd : recordable cmd -> Cmd.Parse (command_value cmd) = inr cmd.
Proof. intros Hr. by eapply parse_sent, recordable_sendable. Qed.

(** The beginning of a record, not all of it. *)
Definition torn (t : gostring) : Prop :=
  t = [] \/ exists cmd u, recordable cmd /\ u <> [] /\ t ++ u = record cmd.

Lemma decode_torn_record t b :
  torn t -> exists e d, Decode (mkDecoder t maxRecordBytes b 0) = (inl e, d) /\ incomplete e = true /\
    (t = [] <-> len (dreader d) = len t).
Proof.
  intros [->|(cmd & u & Hr & Hu & Heq)]; [by do 2 eexists|].
  assert (Htake : t = [] <-> len (dreader (Decode (mkDecoder t maxRecordBytes b 0)).2) = len t).
  { destruct t as [|c t]; [done|]. assert (Hc : c = Array) by (by injection Heq as -> _).
    pose proof (RespLimits.Decode_takes_prefix t maxRecordBytes b) as Hd. rw Hc.
    split; [done|]. intros He. rw He in Hd. lia. }
  pose proof (local_Decode (mkDecoder t maxRecordBytes b 0) u) as Hl.
  change (feed u (mkDecoder t maxRecordBytes b 0)) with (mkDecoder (t ++ u) maxRecordBytes b 0) in Hl.
  pose proof (decode_record cmd [] b Hr) as Hd. rw app_nil_r in Hd. rw Heq Hd in Hl.
  destruct (Decode (mkDecoder t maxRecordBytes b 0)) as [[e|v] d1].
  - destruct Hl as [Hi _]. by exists e, d1.
  - destruct Hl as [Hf _]. injection Hf as _ Hrd _ _ _.
    apply (f_equal length) in Hrd. rw length_app in Hrd. simpl in Hrd. destruct u; [done|simpl in Hrd; lia].
Qed.

Lemma record_pos cmd : 0 < len (record cmd).
Proof.
  pose proof (wire_nonempty (command_value cmd)) as Hw. fold (record cmd) in Hw.
  destruct (record cmd) as [|c r]; [done|]. rw len_cons. pose proof (len_nonneg r). lia.
Qed.

Definition records (cmds : list Command) : gostring := concat (record <$> cmds).

Lemma records_app a b : records (a ++ b) = records a ++ records b.
Proof. unfold records. by rw fmap_app concat_app. Qed.

Section replay.
Context {S : Type} `{StoreOps S}.

Lemma replay_loop_records fuel clk total cmds t b good (s : S) vs s' :
  Forall recordable cmds -> torn t -> (length cmds < fuel)%nat ->
  good = total - len (records cmds ++ t) ->
  run clk cmds s = Some (vs, s') ->
  exists offset, replay_loop fuel clk total (mkDecoder (records cmds ++ t) maxRecordBytes b 0) good s =
    Some (inr (total - len t, offset), s') /\ (t = [] <-> offset = total - len t).
Proof.
  intros Hc Ht. revert fuel clk b good s vs. induction Hc as [|cmd cmds Hr Hc IH];
    intros fuel clk b good s vs Hf -> Hrun; (destruct fuel as [|fuel]; [simpl in Hf; lia|]).
  - simpl in *. simplify_eq. destruct (decode_torn_record t b Ht) as (e & d & -> & -> & Hd).
    eexists. split; [done|]. rw Hd. lia.
  - change (records (cmd :: cmds)) with (record cmd ++ records cmds).
    cbn [replay_loop]. rw -app_assoc. rewrite -> decode_record by done. cbn [dreader].
    pose proof (record_pos cmd). rewrite -> (proj2 (Z.leb_gt _ _)) by (rw !len_app; lia).
    rewrite -> parse_record by done. rw (rc_mutation _ Hr). cbn [negb].
    cbn [run] in Hrun. destruct (Cmd.execute (fork1 clk) cmd s) as [[v s1]|]; [|done]. simpl in *.
    destruct (run (fork2 clk) cmds s1) as [[vs1 s2]|] eqn:Hrun2; [|done]. simpl in *. simplify_eq.
    eapply IH; [lia|done|exact Hrun2].
Qed.

Lemma records_length cmds : (length cmds <= length (records cmds))%nat.
Proof.
  induction cmds as [|cmd cmds IH]; [done|]. change (records (cmd :: cmds)) with (record cmd ++ records cmds).
  rw length_app. pose proof (record_pos cmd). unfold len in *. simpl. lia.
Qed.

Lemma replay_records clk cmds t (s : S) vs s' :
  Forall recordable cmds -> torn t -> run clk cmds s = Some (vs, s') ->
  exists offset, replay clk (records cmds ++ t) s = Some (inr (len (records cmds), offset), s') /\
    (t = [] <-> offset = len (records cmds)).
Proof.
  intros Hc Ht Hrun. unfold replay.
  replace (len (records cmds)) with (len (records cmds ++ t) - len t) by (rw len_app; lia).
  eapply replay_loop_records; try done.
  - rw length_app. pose proof (records_length cmds). lia.
  - lia.
Qed.

End replay.
End unicode.

End AofRecords.
