(* ===== verification/AofLog.v ===== *)
(** * Appending to the log

    What one call of [AppendBatch] leaves in the file, for every pattern of disk
    errors, and what any history of calls leaves: the records of the batches that
    were acknowledged, followed by nothing or by a beginning of the one batch that
    failed. *)

From S2P Require Import Prelude GoTime GoLib GoIO GoIOProof Resp RespStream RespProof RespLimits.
From S2P Require Import RespEncode ListValue Store StoreSpec Command CommandProof Executor Aof.
From S2P Require Import AofRecords.

Module AofLog.
Import Aof AofFile AofRecords.

(** ** The file as a sink *)
Section sink.
Context `{Disk} (f0 : file).
Let base : gostring := fData f0.

(** The file is written at its end. *)
Definition at_end (f : file) : Prop := fPos f = length (fData f).

(** [x] was written to [f0] and not synced. *)
Definition appended (x : gostring) (f : file) : Prop :=
  at_end f /\ fData f = base ++ x /\ (fOps f0 <= fOps f)%nat /\ fSynced f = fSynced f0.
Definition cut (c : gostring) (f : file) : Prop := exists x, x `prefix_of` c /\ appended x f.

Lemma file_write p c f :
  appended c f ->
  let '(n, err, f') := w_write p f in
  if err then cut (c ++ p) f' else n = length p /\ appended (c ++ p) f'.
Proof.
  intros (He & Hd & Hn & Hy). unfold w_write, file_writer.
  assert (Hdrop : forall n, drop (fPos f + n) (fData f) = []) by (intros n; apply drop_ge; rw He; lia).
  assert (Htake : take (fPos f) (fData f) = fData f) by (apply take_ge; rw He; lia).
  destruct (disk_fault (fOps f)) as [n|]; rw Hdrop Htake app_nil_r.
  - exists (c ++ take (Nat.min n (length p)) p). split; [apply prefix_app, prefix_take|].
    split_and!; [|by rw /= Hd app_assoc|simpl; lia|done].
    unfold at_end in *. simpl. rw length_app length_take He. lia.
  - split; [done|]. rw firstn_all. split_and!; [|by rw /= Hd app_assoc|simpl; lia|done].
    unfold at_end in *. simpl. rw length_app He. lia.
Qed.

Lemma cut_app p c f : cut c f -> cut (c ++ p) f.
Proof. intros (x & Hx & Ha). exists x. split; [by apply prefix_app_r|done]. Qed.

Definition wrote : gostring -> GoIO.bufWriter file -> Prop := GoIOProof.holds appended cut.

Lemma wrote_cut total w : wrote total w -> cut total (GoIO.bwSink w).
Proof.
  intros (_ & _ & Hw). destruct (GoIO.bwErr w); [done|]. destruct Hw as (out & Ha & <-).
  exists out. split; [|done]. rw app_nil_r. by apply prefix_app_r.
Qed.

Lemma writeRecord_spec cmd total w r w' :
  wrote total w -> writeRecord cmd w = (r, w') ->
  match r with
  | None => wrote (total ++ record cmd) w' /\ GoIO.bwErr w' = false
  | Some _ => cut (total ++ record cmd) (GoIO.bwSink w')
  end.
Proof.
  intros Hw Hr. unfold writeRecord in Hr. pose proof (encodeRecord_spec cmd) as He. case_decide.
  - rw He in Hr. pose proof (GoIOProof.Write_holds appended cut file_write cut_app total (record cmd) w Hw) as Hw'.
    destruct (GoIO.bwErr (GoIO.Write (record cmd) w)) eqn:Hb; simplify_eq; [by apply wrote_cut|done].
  - destruct He as [e He]. rw He in Hr. simplify_eq. by apply cut_app, wrote_cut.
Qed.

Lemma writeRecords_spec cmds total w r w' :
  wrote total w -> GoIO.bwErr w = false -> writeRecords cmds w = (r, w') ->
  match r with
  | None => wrote (total ++ records cmds) w' /\ GoIO.bwErr w' = false
  | Some _ => cut (total ++ records cmds) (GoIO.bwSink w')
  end.
Proof.
  revert total w. induction cmds as [|cmd cmds IH]; intros total w Hw Hb Hr; simpl in Hr.
  { simplify_eq. by rw app_nil_r. }
  change (records (cmd :: cmds)) with (record cmd ++ records cmds). rw app_assoc.
  destruct (writeRecord cmd w) as [[e|] w1] eqn:H1; apply (writeRecord_spec cmd total) in H1; [|done| |done].
  - simplify_eq. by apply cut_app.
  - destruct H1 as [Hw1 Hb1]. exact (IH _ _ Hw1 Hb1 Hr).
Qed.

Lemma Flush_wrote total w :
  wrote total w ->
  if GoIO.bwErr (GoIO.Flush w) then cut total (GoIO.bwSink (GoIO.Flush w))
  else appended total (GoIO.bwSink (GoIO.Flush w)) /\ GoIO.bwBuf (GoIO.Flush w) = [].
Proof. apply GoIOProof.Flush_holds; [apply file_write|apply cut_app]. Qed.

End sink.

(** ** The writer is at rest *)
Record clean (l : Log) : Prop := {
  cl_size : 0 < GoIO.bwSize (lWriter l);
  cl_buf : GoIO.bwBuf (lWriter l) = [];
  cl_err : GoIO.bwErr (lWriter l) = false;
  cl_end : at_end (lFile l);
}.

Section append.
Context `{Unicode} `{Disk}.

Lemma clean_wrote f0 l :
  clean l -> fData (lFile l) = fData f0 -> (fOps f0 <= fOps (lFile l))%nat -> fSynced (lFile l) = fSynced f0 ->
  wrote f0 [] (lWriter l).
Proof.
  intros [Hs Hb He Hend] Hd Hn Hy. split_and!; [done|rw Hb len_nil; lia|]. rw He. exists [].
  rw Hb. split; [|done]. split_and!; [done|by rw app_nil_r|done|done].
Qed.

(** The settings of a log that appending does not touch. *)
Definition same_log (l l' : Log) : Prop :=
  lPolicy l' = lPolicy l /\ lClosed l' = lClosed l /\ lClosing l' = lClosing l.

(** After [rollback] the log has failed, and holds what it held at the offset
    unless the truncation failed. *)
Lemma rollback_spec f0 x cause l e l' :
  appended f0 x (lFile l) -> rollback (length (fData f0)) cause l = (e, l') ->
  lFailed l' = Some e /\ lRewrite l' = lRewrite l /\ same_log l l' /\
  (fData (lFile l') = fData f0 \/
   fData (lFile l') = fData f0 ++ x /\ exists n, (fOps f0 <= n)%nat /\ disk_fault n <> None) /\
  (fSynced (lFile l') = fSynced f0 \/ fSynced (lFile l') = fData f0).
Proof.
  intros (_ & Hd & Hn & Hy) Hr. set (base := fData f0) in *. assert (Hbase : take (length base) (fData (lFile l)) = base) by (rw Hd; apply take_app_length).
  unfold rollback, on_file, Truncate, Seek, Sync, attempt in Hr. unfold same_log.
  destruct (disk_fault (fOps (lFile l))) eqn:Hf; simplify_eq/=.
  { split_and!; [done..| |by left]. right. split; [done|]. exists (fOps (lFile l)). by rw Hf. }
  repeat (destruct (disk_fault _) in Hr); simplify_eq/=; split_and!; try done; by auto.
Qed.

(** ** One batch *)
Definition valid_commands (clk : clock) (cmds : list Command) : list Command :=
  valid_of (canonicalize clk cmds).

(** The log is closed, closing or failed: no batch is taken. *)
Definition refuses (l : Log) : Prop := lClosed l || lClosing l = true \/ lFailed l <> None.

Lemma AppendBatch_refused clk cmds l :
  refuses l -> exists e, AppendBatch clk cmds l = (inl e, l).
Proof.
  unfold AppendBatch. intros [->|Hf]; [by eexists|]. destruct (_ || _); [by eexists|].
  destruct (lFailed l); [by eexists|done].
Qed.

(** What a batch leaves. *)
Definition append_post (l l' : Log) (valid : list Command) (r : goerr + list Command)
    (out : list Command) : Prop :=
  same_log l l' /\
  match r with
  | inr cmds => cmds = out /\ clean l' /\ lFailed l' = None /\
      fData (lFile l') = fData (lFile l) ++ records valid /\
      (lPolicy l = SyncAlways -> valid <> [] \/ fSynced (lFile l) = fData (lFile l) ->
       fSynced (lFile l') = fData (lFile l'))
  | inl _ => lFailed l' <> None /\
      exists x, x `prefix_of` records valid /\ fData (lFile l') = fData (lFile l) ++ x /\
        (x = [] \/ exists n, (fOps (lFile l) <= n)%nat /\ disk_fault n <> None) /\
        (fSynced (lFile l') = fSynced (lFile l) \/ fSynced (lFile l') = fData (lFile l))
  end.

Lemma rollback_post cause l0 l valid out e l' :
  cut (lFile l0) (records valid) (lFile l) -> same_log l0 l ->
  rollback (length (fData (lFile l0))) cause l = (e, l') -> append_post l0 l' valid (inl e) out.
Proof.
  intros (x & Hx & Ha) (Hs1 & Hs2 & Hs3) Hr.
  destruct (rollback_spec _ _ _ _ _ _ Ha Hr) as (Hf & _ & (? & ? & ?) & Hd & Hy).
  split; [unfold same_log; split_and!; congruence|]. split; [congruence|]. destruct Hd as [Hd|[Hd Hn]].
  - exists []. split_and!; [apply prefix_nil|by rw app_nil_r Hd|by left|done].
  - exists x. split_and!; [done|by rw Hd|by right|done].
Qed.

Lemma record_delta_same cmds l :
  let l' := record_delta cmds l in
  lWriter l' = lWriter l /\ lFailed l' = lFailed l /\ same_log l l'.
Proof.
  unfold record_delta, same_log. destruct (lRewrite l) as [job|]; [|done].
  destruct (deltaErr job); [done|]. by destruct (writeRecords _ _).
Qed.

Lemma clean_writer l l' : lWriter l' = lWriter l -> clean l -> clean l'.
Proof. intros Hl [? ? ? ?]. by constructor; unfold lFile in *; rw Hl. Qed.

(** An acknowledged batch. *)
Lemma append_post_ok l0 l valid out :
  same_log l0 l -> clean l -> lFailed l = None -> fData (lFile l) = fData (lFile l0) ++ records valid ->
  (lPolicy l0 = SyncAlways -> valid <> [] \/ fSynced (lFile l0) = fData (lFile l0) ->
   fSynced (lFile l) = fData (lFile l)) ->
  append_post l0 (record_delta valid l) valid (inr out) out.
Proof.
  intros (? & ? & ?) Hc Hf Hd Hsync. destruct (record_delta_same valid l) as (Hw & Hf' & (? & ? & ?)).
  split; [unfold same_log; split_and!; congruence|].
  assert (Hfile : lFile (record_delta valid l) = lFile l) by (unfold lFile; by rw Hw).
  split_and!; [done|by eapply clean_writer|congruence|by rw Hfile|by rw Hfile].
Qed.

(** The flush and the required sync, once all the records are in the writer. *)
Definition finish_append (valid : list Command) (offset : nat) (out : list Command) (l : Log)
    : (goerr + list Command) * Log :=
  let l := with_writer (GoIO.Flush (lWriter l)) l in
  if GoIO.bwErr (lWriter l) then
    let '(e, l) := rollback offset (str "append AOF command batch: " ++ disk_error) l in (inl e, l)
  else
    match (if bool_decide (lPolicy l = SyncAlways) then on_file Sync l else (None, l)) with
    | (Some e, l) =>
        let '(e, l) := rollback offset (str "sync AOF command batch: " ++ e) l in (inl e, l)
    | (None, l) => (inr out, record_delta valid l)
    end.

Lemma Flush_size (w : GoIO.bufWriter file) : GoIO.bwSize (GoIO.Flush w) = GoIO.bwSize w.
Proof.
  unfold GoIO.Flush. destruct (GoIO.bwErr w); [done|]. destruct (GoIO.bwBuf w); [done|].
  by destruct (w_write _ _) as [[??]?].
Qed.

Lemma finish_append_spec l0 l valid out :
  wrote (lFile l0) (records valid) (lWriter l) ->
  same_log l0 l -> lFailed l = None ->
  let '(r, l') := finish_append valid (length (fData (lFile l0))) out l in append_post l0 l' valid r out.
Proof.
  intros Hw Hs Hf. unfold finish_append. set (l1 := with_writer (GoIO.Flush (lWriter l)) l).
  apply Flush_wrote in Hw as Hfl. pose proof Hw as (Hsz & _). change (GoIO.bwSink (GoIO.Flush (lWriter l))) with (lFile l1) in Hfl.
  change (GoIO.Flush (lWriter l)) with (lWriter l1) in Hfl.
  assert (Hs1 : same_log l0 l1) by exact Hs. assert (Hf1 : lFailed l1 = None) by exact Hf.
  assert (Hsize : 0 < GoIO.bwSize (lWriter l1)) by (rewrite <- Flush_size in Hsz; exact Hsz).
  clearbody l1. destruct (GoIO.bwErr (lWriter l1)) eqn:Hb.
  { destruct (rollback _ _ l1) as [e l'] eqn:Hr. by eapply rollback_post. }
  destruct Hfl as [(Hend & Hd & Hn & Hy) Hbuf].
  assert (Hc : clean l1) by (by constructor).
  case_bool_decide as Hp; cycle 1.
  { apply append_post_ok; try done. intros Ha. destruct Hs1 as [Hp' _]. congruence. }
  unfold on_file, Sync, attempt. destruct (disk_fault (fOps (lFile l1))) as [n|] eqn:Hfault.
  - destruct (rollback _ _ _) as [e l'] eqn:Hr. eapply (rollback_post _ l0 (with_file (next (lFile l1)) l1)); [|exact Hs1|exact Hr].
    exists (records valid). split; [done|]. split_and!; [done|exact Hd|simpl; lia|done].
  - apply append_post_ok; try done.
Qed.

Lemma AppendBatch_spec clk cmds l :
  clean l -> ~ refuses l ->
  let '(r, l') := AppendBatch clk cmds l in
  append_post l l' (valid_commands clk cmds) r (fst <$> canonicalize clk cmds).
Proof.
  intros Hc Href. unfold AppendBatch. fold (valid_commands clk cmds).
  assert (Hopen : lClosed l || lClosing l = false /\ lFailed l = None).
  { unfold refuses in Href. destruct (_ || _); [naive_solver|]. destruct (lFailed l); naive_solver. }
  destruct Hopen as [-> Hfail]. rw Hfail.
  destruct cmds as [|c cmds].
  { split; [done|]. split_and!; try done. { by rw app_nil_r. } by intros _ [?|?]. }
  set (cs := c :: cmds). clearbody cs. set (valid := valid_commands clk cs). clearbody valid.
  unfold on_file at 1, SeekCurrent, attempt. destruct (disk_fault (fOps (lFile l))) as [n|] eqn:Hf.
  { cbv beta iota zeta. split; [done|]. split; [done|]. exists [].
    split_and!; [apply prefix_nil|by rw app_nil_r|by left|by left]. }
  cbv beta iota zeta. set (l1 := with_file (next (lFile l)) l).
  assert (Hc1 : clean l1) by (destruct Hc; by constructor).
  assert (Hw1 : wrote (lFile l) [] (lWriter l1)) by (apply (clean_wrote _ l1 Hc1); [done|simpl; lia|done]).
  replace (fPos (next (lFile l))) with (length (fData (lFile l))) by (symmetry; apply Hc).
  destruct (decide (valid = [])) as [->|Hv].
  { cbn [writeRecords]. rewrite -> bool_decide_eq_true_2 by done. cbn [negb andb].
    apply append_post_ok; try done; [by rw app_nil_r|]. by intros _ [?|?]. }
  rewrite -> (bool_decide_eq_false_2 _ Hv). cbn [negb andb].
  destruct (writeRecords valid (lWriter l1)) as [[[cmd e]|] w] eqn:Hr;
    apply (writeRecords_spec _ valid _ _ _ _ Hw1 (cl_err _ Hc1)) in Hr; rw app_nil_l in Hr.
  { destruct (rollback _ _ _) as [e' l'] eqn:Hrb. by eapply (rollback_post _ l (with_writer w l1)); [exact Hr| |exact Hrb]. }
  apply (finish_append_spec l (with_writer w l1) valid); [apply Hr|done..].
Qed.
End append.
End AofLog.
