(* ===== verification/AofRecovery.v ===== *)
(** * What survives a crash

    Any history of batches against any disk errors, then a crash, then recovery:
    the file is always complete records followed by at most one torn record, and
    recovery runs exactly the complete ones. *)

From S2P Require Import Prelude GoTime GoLib GoIO GoIOProof Resp RespStream RespProof RespLimits.
From S2P Require Import RespEncode ListValue Store StoreSpec StoreProof StoreRefine Command.
From S2P Require Import CommandProof Executor Aof AofRecords AofLog.

Module AofRecovery.
Import Aof AofFile AofRecords AofLog CommandProof.

Section history.
Context `{Unicode} `{Disk}.

(** Batches one after the other, each with its clock. *)
Fixpoint append_all (calls : list (clock * list Command)) (l : Log)
    : list (goerr + list Command) * Log :=
  match calls with
  | [] => ([], l)
  | (clk, cmds) :: calls' =>
      let '(r, l) := AppendBatch clk cmds l in
      let '(rs, l) := append_all calls' l in (r :: rs, l)
  end.

(** The canonical commands of the batches that were acknowledged. *)
Fixpoint acked (calls : list (clock * list Command)) (rs : list (goerr + list Command)) : list Command :=
  match calls, rs with
  | (clk, cmds) :: calls', inr _ :: rs' => valid_commands clk cmds ++ acked calls' rs'
  | _ :: calls', inl _ :: rs' => acked calls' rs'
  | _, _ => []
  end.

Lemma append_all_refused calls l :
  refuses l -> exists rs, append_all calls l = (rs, l) /\ acked calls rs = [].
Proof.
  intros Hr. induction calls as [|[clk cmds] calls (rs & IH & Ha)]; [by exists []|]. simpl.
  destruct (AppendBatch_refused clk cmds l Hr) as [e ->]. rw IH. by exists (inl e :: rs).
Qed.

(** A beginning of the records of one of the batches. *)
Definition partial (calls : list (clock * list Command)) (x : gostring) : Prop :=
  x = [] \/ exists clk cmds, (clk, cmds) ∈ calls /\ x `prefix_of` records (valid_commands clk cmds).

Lemma partial_prefix calls x y : partial calls x -> y `prefix_of` x -> partial calls y.
Proof.
  intros [->|(clk & cmds & Hin & Hx)] Hy; [left; by apply prefix_nil_inv|right].
  exists clk, cmds. split; [done|]. by etrans.
Qed.

Lemma history_spec calls l :
  clean l -> ~ refuses l ->
  let '(rs, l') := append_all calls l in
  exists x, fData (lFile l') = fData (lFile l) ++ records (acked calls rs) ++ x /\ partial calls x /\
    (lPolicy l = SyncAlways -> fSynced (lFile l) = fData (lFile l) ->
     fSynced (lFile l') = fData (lFile l) ++ records (acked calls rs)).
Proof.
  revert l. induction calls as [|[clk cmds] calls IH]; intros l Hc Href; simpl.
  { exists []. rw !app_nil_r. split_and!; [done|by left|done]. }
  pose proof (AppendBatch_spec clk cmds l Hc Href) as Hp.
  destruct (AppendBatch clk cmds l) as [r l1]. destruct Hp as [(Hpol & Hcl & Hcg) Hp].
  destruct r as [e|out].
  - destruct Hp as (Hf & x & Hx & Hd & _ & Hy).
    destruct (append_all_refused calls l1) as (rs & -> & Ha); [by right|]. rw Ha.
    exists x. rw app_nil_l. split_and!; [done|right; exists clk, cmds; split; [by left|done]|].
    intros _ Hs. rw app_nil_r. destruct Hy; congruence.
  - destruct Hp as (_ & Hc1 & Hf1 & Hd & Hs).
    assert (Href1 : ~ refuses l1).
    { intros [Hr|Hr]; [|done]. apply Href. left. congruence. }
    specialize (IH l1 Hc1 Href1). destruct (append_all calls l1) as [rs l'].
    destruct IH as (x & Hd' & Hx & Hs'). exists x. rw records_app Hd' Hd -!app_assoc. split_and!; [done| |].
    + destruct Hx as [?|(c & cs & ? & ?)]; [by left|right]. exists c, cs. split; [by right|done].
    + intros Hp Hsy. rw (app_assoc (fData (lFile l))) -Hd. apply Hs'; [congruence|]. apply Hs; [done|by right].
Qed.

(** ** Cutting a sequence of records *)
Lemma prefix_records cmds x :
  Forall recordable cmds -> x `prefix_of` records cmds ->
  exists ws t, ws `prefix_of` cmds /\ torn t /\ x = records ws ++ t.
Proof.
  intros Hc. revert x. induction Hc as [|cmd cmds Hr Hc IH]; intros x Hx.
  { apply prefix_nil_inv in Hx as ->. exists [], []. split_and!; [done|by left|done]. }
  change (records (cmd :: cmds)) with (record cmd ++ records cmds) in Hx. destruct Hx as [k Hk].
  symmetry in Hk. apply app_eq_inv in Hk as [(y & -> & Hk)|(u & Hu & Hk)].
  - destruct (IH y) as (ws & t & Hws & Ht & ->); [by exists k|]. exists (cmd :: ws), t.
    split_and!; [by apply prefix_cons|done|]. unfold records. csimpl. by rw app_assoc.
  - destruct u as [|c u].
    + exists [cmd], []. split_and!; [apply prefix_cons, prefix_nil|by left|].
      rw app_nil_r in Hu. unfold records. csimpl. by rw !app_nil_r.
    + exists [], x. split_and!; [apply prefix_nil| |done]. right. by exists cmd, (c :: u).
Qed.

(** Content between what is on stable storage and what was written. *)
Lemma between (a x c : gostring) :
  a `prefix_of` c -> c `prefix_of` a ++ x -> exists y, c = a ++ y /\ y `prefix_of` x.
Proof. intros [y ->] Hc. exists y. split; [done|]. by apply prefix_app_inv in Hc. Qed.

(** Running commands from an empty engine always succeeds. *)
Lemma run_total clk cmds : exists vs s, run clk cmds Store.NewStore = Some (vs, s).
Proof.
  destruct (run_sim StoreProof.rel clk cmds _ _ StoreProof.NewStore_rel) as (vs & s & _ & -> & _). eauto.
Qed.

Lemma acked_recordable calls rs :
  Forall (fun call => Forall recordable (valid_commands call.1 call.2)) calls -> Forall recordable (acked calls rs).
Proof.
  intros Hc. revert rs. induction Hc as [|[clk cmds] calls Hr Hc IH]; intros [|[e|out] rs]; simpl; try done.
  apply Forall_app. auto.
Qed.

Lemma records_fmap_app a b : records a ++ records b = records (a ++ b).
Proof. by rw records_app. Qed.

(** ** Opening a file *)

(** What [Open] makes of a file whose complete records are [cmds] and whose replay
    leaves [s]: a log at rest that holds exactly these records, or an error of the
    disk. *)
Definition opened {S} (policy : syncPolicy) (n : nat) (cmds : list Command) (s : S)
    (r : option ((openErr + Log) * (file * S))) : Prop :=
  match r with
  | Some (inr l, (f, s')) =>
      s' = s /\ f = lFile l /\ clean l /\ ~ refuses l /\ lPolicy l = policy /\ fData (lFile l) = records cmds
  | Some (inl (OFile _), _) => exists k, (n <= k)%nat /\ disk_fault k <> None
  | _ => False
  end.

Lemma attempt_spec g f (Hg : fOps (g f) = fOps f) :
  let '(e, f') := attempt g f in
  fOps f' = S (fOps f) /\
  match e with
  | None => fData f' = fData (g f) /\ fPos f' = fPos (g f)
  | Some _ => disk_fault (fOps f) <> None
  end.
Proof. unfold attempt. destruct (disk_fault (fOps f)); simpl; [done|]. by rw Hg. Qed.

Section open.
Context {S : Type} `{StoreOps S}.

Lemma run_beginning clk ws cmds (s : S) vs s' :
  ws `prefix_of` cmds -> run clk cmds s = Some (vs, s') -> exists vs1 s1, run clk ws s = Some (vs1, s1).
Proof.
  intros [us ->]. revert clk s vs s'. induction ws as [|w ws IH]; intros clk s vs s'; cbn [run app]; [by do 2 eexists|].
  destruct (Cmd.execute _ w s) as [[v s1]|]; cbn [mbind option_bind]; [|done].
  destruct (run _ (ws ++ us) s1) as [[vs2 s2]|] eqn:Hr; cbn [mbind option_bind]; [|done]. intros _.
  destruct (IH _ _ _ _ Hr) as (vs1 & s3 & ->). by do 2 eexists.
Qed.

(** What a failed read has got of the records is again records and a torn one. *)
Lemma take_records n cmds t :
  Forall recordable cmds -> torn t ->
  exists ws t', ws `prefix_of` cmds /\ torn t' /\ take n (records cmds ++ t) = records ws ++ t'.
Proof.
  intros Hc Ht. rewrite -> take_app. destruct (decide (length (records cmds) <= n)%nat) as [Hle|Hgt].
  - rewrite -> (take_ge (records cmds)) by done. exists cmds, (take (n - length (records cmds)) t). split_and!; [done| |done].
    destruct Ht as [->|(cmd & u & Hr & Hu & Htu)]; [left; apply take_nil|].
    right. exists cmd, (drop (n - length (records cmds)) t ++ u). split_and!; [done| |].
    + by intros [_ ?]%app_eq_nil.
    + by rw app_assoc take_drop.
  - replace (n - length (records cmds))%nat with 0%nat by lia. rw take_0 app_nil_r.
    destruct (prefix_records cmds (take n (records cmds)) Hc) as (ws & t' & Hws & Ht' & Heq); [|by exists ws, t'].
    exists (drop n (records cmds)). by rw take_drop.
Qed.

Lemma recover_spec clk f cmds t (s : S) vs s' :
  fData f = records cmds ++ t -> Forall recordable cmds -> torn t -> run clk cmds s = Some (vs, s') ->
  (exists e f', recover clk f s = Some (e, (f', s')) /\ (fOps f <= fOps f')%nat /\
    match e with
    | None => fData f' = records cmds
    | Some (OFile _) => exists k, (fOps f <= k)%nat /\ disk_fault k <> None
    | Some (OReplay _) => False
    end) \/
  exists e f' s1 k, recover clk f s = Some (Some (OFile e), (f', s1)) /\ (fOps f <= k)%nat /\ disk_fault k <> None.
Proof.
  intros Hd Hc Ht Hrun. unfold recover. unfold Seek.
  pose proof (attempt_spec (fun f => mkFile (fData f) 0 (fSynced f) (fOps f)) f eq_refl) as Hs.
  destruct (attempt _ f) as [[e|] f1]; destruct Hs as [Hn Hs]; [right; by exists e, f1, s, (fOps f)|]. destruct Hs as [Hd1 _].
  simpl in Hd1. unfold readAll. destruct (disk_fault (fOps f1)) as [n|] eqn:Hfault.
  { right. rw Hd1 Hd. destruct (take_records n cmds t Hc Ht) as (ws & t' & Hws & Ht' & ->).
    destruct (run_beginning _ _ _ _ _ _ Hws Hrun) as (vs1 & s1 & Hrun1).
    assert (Hc1 : Forall recordable ws) by (destruct Hws as [us ->]; by apply Forall_app in Hc as [? _]).
    destruct (replay_records clk ws t' s vs1 s1 Hc1 Ht' Hrun1) as (offset & -> & _). cbn [mbind option_bind].
    do 3 eexists. exists (fOps f1). split_and!; [done|lia|congruence]. }
  left. change (fData (next f1)) with (fData f1). rw Hd1 Hd.
  destruct (replay_records clk cmds t s vs s' Hc Ht Hrun) as (offset & -> & Hoff). simpl.
  destruct (Z.eqb_spec offset (len (records cmds))) as [Heq|Hne].
  { apply Hoff in Heq as ->. exists None, (next f1). cbn [fData fOps next]. rw Hd1 Hd app_nil_r. split_and!; [done|lia|done]. }
  unfold Truncate. pose proof (attempt_spec (fun f => mkFile (take (Z.to_nat (len (records cmds))) (fData f))
    (fPos f) (fSynced f) (fOps f)) (next f1) eq_refl) as Htr. cbn [fOps fData next] in Htr.
  destruct (attempt _ (next f1)) as [e f2]. destruct Htr as [Hn2 Htr]. do 2 eexists. split_and!; [done|lia|].
  destruct e as [e|]; simpl.
  - exists (Datatypes.S (fOps f1)). split; [lia|done].
  - destruct Htr as [-> _]. simpl. unfold len. rw Hd1 Hd Nat2Z.id. by rw take_app_length.
Qed.

Lemma Open_spec policy created clk f cmds t (s : S) vs s' :
  fData f = records cmds ++ t -> Forall recordable cmds -> torn t -> run clk cmds s = Some (vs, s') ->
  opened policy (fOps f) cmds s' (Open policy created clk f s).
Proof.
  intros Hd Hc Ht Hrun. unfold Open.
  destruct (recover_spec clk f cmds t s vs s' Hd Hc Ht Hrun) as [(e & f1 & -> & Hn & He)|(e & f1 & s1 & k & -> & He)];
    simpl; [|by exists k].
  destruct e as [[e|e]|]; [done..|]. unfold Seek.
  pose proof (attempt_spec (fun f => mkFile (fData f) (length (fData f1)) (fSynced f) (fOps f)) f1 eq_refl) as Hs.
  destruct (attempt _ f1) as [[e|] f2]; destruct Hs as [Hn2 Hs]; [exists (fOps f1); split; [lia|done]|].
  simpl in Hs. destruct Hs as [Hd2 Hp2].
  assert (Hok : forall f3, fData f3 = fData f2 -> fPos f3 = fPos f2 ->
    opened policy (fOps f) cmds s' (Some (inr (mkLog (GoIO.NewWriter f3) policy false false None None), (f3, s')))).
  { intros f3 Hd3 Hp3. split_and!; try done; [| |by rw /= Hd3 Hd2].
    - constructor; [done..|]. change (fPos f3 = length (fData f3)). congruence.
    - by intros [?|?]. }
  destruct created; [|by apply Hok].
  pose proof (attempt_spec (fun f => f) f2 eq_refl) as Hs3.
  destruct (attempt _ f2) as [[e|] f3]; destruct Hs3 as [Hn3 Hs3]; [exists (fOps f2); split; [lia|done]|].
  destruct Hs3. by apply Hok.
Qed.

End open.

(** ** After a crash *)

(** Whatever a crash leaves between the synced and the written bytes is complete
    records and a torn one. *)
Lemma recover_between cmds calls x c :
  Forall recordable cmds -> Forall (fun call => Forall recordable (valid_commands call.1 call.2)) calls ->
  partial calls x -> records cmds `prefix_of` c -> c `prefix_of` records cmds ++ x ->
  exists ws t, c = records (cmds ++ ws) ++ t /\ torn t /\ Forall recordable (cmds ++ ws) /\
    (ws = [] \/ exists clk batch, (clk, batch) ∈ calls /\ ws `prefix_of` valid_commands clk batch).
Proof.
  intros Hr Hcalls Hx Ha Hb. destruct (between _ _ _ Ha Hb) as (y & -> & Hy).
  apply (partial_prefix _ _ _ Hx) in Hy. destruct Hy as [->|(clk & batch & Hin & Hy)].
  { exists [], []. rw !app_nil_r. split_and!; [done|by left|done|by left]. }
  rw Forall_forall in Hcalls. specialize (Hcalls _ Hin). simpl in Hcalls.
  destruct (prefix_records _ _ Hcalls Hy) as (ws & t & Hws & Ht & ->). exists ws, t.
  rw records_app -app_assoc. split_and!; [done..| |by right; eauto].
  apply Forall_app. split; [done|]. destruct Hws as [k Hk]. rw Hk in Hcalls. by apply Forall_app in Hcalls as [? _].
Qed.

(** A history of batches, a crash, and [Open]. *)
Lemma history_reopened l cs calls created rclk f :
  clean l -> ~ refuses l -> lPolicy l = SyncAlways -> fData (lFile l) = records cs ->
  fSynced (lFile l) = fData (lFile l) -> Forall recordable cs ->
  Forall (fun call => Forall recordable (valid_commands call.1 call.2)) calls ->
  (let '(_, l') := append_all calls l in
   fSynced (lFile l') `prefix_of` fData f /\ fData f `prefix_of` fData (lFile l')) ->
  exists ws vs s,
    (ws = [] \/ exists clk batch, (clk, batch) ∈ calls /\ ws `prefix_of` valid_commands clk batch) /\
    run rclk (cs ++ acked calls (append_all calls l).1 ++ ws) Store.NewStore = Some (vs, s) /\
    opened SyncAlways (fOps f) (cs ++ acked calls (append_all calls l).1 ++ ws) s
      (Open SyncAlways created rclk f Store.NewStore).
Proof.
  intros Hl Hopen Hpolicy Hdata Hsync Hcs Hcalls Hcrash.
  pose proof (history_spec calls l Hl Hopen) as Hh. destruct (append_all calls l) as [rs l'].
  destruct Hh as (x & Hd & Hx & Hy). specialize (Hy Hpolicy Hsync).
  rw Hdata app_assoc -records_app in Hd. rw Hdata -records_app in Hy.
  rw Hd Hy in Hcrash. destruct Hcrash as [Ha Hb]. simpl.
  assert (Hr : Forall recordable (cs ++ acked calls rs)).
  { apply Forall_app. split; [done|]. by apply acked_recordable. }
  destruct (recover_between _ calls x (fData f) Hr Hcalls Hx Ha Hb) as (ws & t & Hf & Ht & Hws & Hsrc).
  rw -app_assoc in Hf. rw -app_assoc in Hws.
  destruct (run_total rclk (cs ++ acked calls rs ++ ws)) as (vs & s & Hrun).
  exists ws, vs, s. split_and!; [done..|]. by eapply Open_spec.
Qed.

End history.
End AofRecovery.
