(* ===== verification/AofTheorems.v ===== *)
(** * What the append-only file guarantees

    The theorems of the persistence component: acknowledged writes survive, a batch
    is all or nothing in the file whatever the disk does, what is journaled does
    not depend on when it is replayed; and two ways in which recovery differs from
    the state that was acknowledged. *)

From S2P Require Import Prelude GoTime GoLib GoIO GoIOProof Resp RespTheorems ListValue Store.
From S2P Require Import StoreSpec StoreProof StoreRefine StoreTheorems Command CommandProof.
From S2P Require Import Executor Aof AofRecords AofLog AofRecovery.

Module AofTheorems.
Import Aof AofFile AofRecords AofLog AofRecovery CommandProof.

(** A disk without faults, and one whose operations number [n] and [n + 1] fail,
    a write after [k] bytes. *)
Definition goodDisk : Disk := {| disk_fault _ := None; disk_error := str "disk" |}.
Definition badDisk (n k : nat) : Disk :=
  {| disk_fault m := if (m =? n)%nat || (m =? S n)%nat then Some k else None; disk_error := str "disk" |}.

(** The log of a file that has just been created. *)
Definition emptyLog (policy : syncPolicy) : Log :=
  mkLog (GoIO.NewWriter (mkFile [] 0 [] 0)) policy false false None None.

Lemma emptyLog_clean policy : clean (emptyLog policy).
Proof. by constructor. Qed.

Lemma emptyLog_open policy : ~ refuses (emptyLog policy).
Proof. by intros [?|?]. Qed.

(** C3.  Acknowledged writes survive.  Under [appendfsync always], starting from a
    log at rest whose file holds the records of [cs], for commands that recovery can
    read back ([recordable]: at most 1023 arguments and the decoder's size limits;
    [inline_record_unreadable] is a command that exceeds them): whatever batches of them are appended and whatever operations of the disk
    fail, if a crash leaves any content between
    what was synced and what was written, then opening the file runs the commands of
    [cs], of every acknowledged batch, and at most the first commands [ws] of one
    batch that was not acknowledged; it yields a log at rest that holds exactly
    their records, or reports an error of the disk. *)
Theorem acknowledged_writes_survive `{Unicode} `{Disk} (l : Log) (cs : list Command)
    (calls : list (clock * list Command)) (created : bool) (rclk : clock) (f : file)
    (Hl : clean l) (Hopen : ~ refuses l) (Hpolicy : lPolicy l = SyncAlways)
    (Hdata : fData (lFile l) = records cs) (Hsync : fSynced (lFile l) = fData (lFile l))
    (Hcs : Forall recordable cs)
    (Hcalls : Forall (fun call => Forall recordable (valid_commands call.1 call.2)) calls)
    (Hcrash : let '(_, l') := append_all calls l in
              fSynced (lFile l') `prefix_of` fData f /\ fData f `prefix_of` fData (lFile l')) :
  exists ws vs s,
    (ws = [] \/ exists clk batch, (clk, batch) ∈ calls /\ ws `prefix_of` valid_commands clk batch) /\
    run rclk (cs ++ acked calls (append_all calls l).1 ++ ws) Store.NewStore = Some (vs, s) /\
    opened SyncAlways (fOps f) (cs ++ acked calls (append_all calls l).1 ++ ws) s
      (Open SyncAlways created rclk f Store.NewStore).
Proof.
  by apply history_reopened.
Qed.

(** Two batches on a disk on which the second write fails after 40 bytes and its
    truncation too: the first batch is acknowledged, of the second one command is
    left. *)
Definition demoCalls : list (clock * list Command) :=
  [(fun _ => 0, [mkCommand (str "SET") [str "k"; str "v"]]);
   (fun _ => 5, [mkCommand (str "RPUSH") [str "q"; str "1"]; mkCommand (str "LSET") [str "q"; str "0"; str "2"]])].

Lemma demoCalls_recordable :
  Forall (fun call => Forall (@recordable asciiOnly) (@valid_commands asciiOnly call.1 call.2)) demoCalls.
Proof.
  repeat constructor; vm_compute; intuition congruence.
Qed.

Definition demoCrash : file :=
  mkFile (fData (lFile (@append_all asciiOnly (badDisk 4 40) demoCalls (emptyLog SyncAlways)).2)) 0 [] 100.

Lemma acknowledged_writes_survive_witness :
  exists ws vs s,
    (ws = [] \/ exists clk batch, (clk, batch) ∈ demoCalls /\ ws `prefix_of` @valid_commands asciiOnly clk batch) /\
    @run asciiOnly _ _ (fun _ => 9) ([mkCommand (str "SET") [str "k"; str "v"]] ++ ws) Store.NewStore = Some (vs, s) /\
    @opened (badDisk 4 40) Store SyncAlways 100 ([mkCommand (str "SET") [str "k"; str "v"]] ++ ws) s
      (@Open asciiOnly _ _ (badDisk 4 40) SyncAlways false (fun _ => 9) demoCrash Store.NewStore).
Proof.
  apply (@acknowledged_writes_survive asciiOnly (badDisk 4 40) (emptyLog SyncAlways) [] demoCalls false (fun _ => 9)
    demoCrash (emptyLog_clean _) (emptyLog_open _) eq_refl eq_refl eq_refl (Forall_nil_2 _) demoCalls_recordable).
  vm_compute. split; [eexists; reflexivity|exists []; reflexivity].
Defined.

(** C29.  A batch is all or nothing.  For any pattern of disk errors, appending a
    batch to a log at rest either answers with the canonical commands, the file
    then holding exactly their records more, on stable storage under [always]; or
    reports an error, the log then refusing every later batch and the file holding
    what it held, unless a disk operation failed, in which case a beginning of the
    batch's records may follow. *)
Theorem append_batch_atomic `{Unicode} `{Disk} (clk : clock) (cmds : list Command) (l : Log)
    (Hl : clean l) (Hopen : ~ refuses l) :
  let base := fData (lFile l) in
  match AppendBatch clk cmds l with
  | (inr persisted, l') =>
      persisted = fst <$> canonicalize clk cmds /\ clean l' /\ ~ refuses l' /\
      fData (lFile l') = base ++ records (valid_commands clk cmds) /\
      (lPolicy l = SyncAlways -> valid_commands clk cmds <> [] -> fSynced (lFile l') = fData (lFile l'))
  | (inl _, l') =>
      (forall clk' cmds', exists e, AppendBatch clk' cmds' l' = (inl e, l')) /\
      exists x, fData (lFile l') = base ++ x /\ x `prefix_of` records (valid_commands clk cmds) /\
        (x = [] \/ exists n, (fOps (lFile l) <= n)%nat /\ disk_fault n <> None)
  end.
Proof.
  pose proof (AppendBatch_spec clk cmds l Hl Hopen) as Hp. destruct (AppendBatch clk cmds l) as [[e|out] l'].
  - destruct Hp as [_ (Hf & x & Hx & Hd & Hn & _)]. split; [|by exists x].
    intros clk' cmds'. apply AppendBatch_refused. by right.
  - destruct Hp as [(Hpol & Hc1 & Hc2) (Hout & Hc & Hf & Hd & Hs)]. split_and!; try done; [|by auto].
    intros [Hr|Hr]; [|done]. apply Hopen. left. congruence.
Qed.

Lemma append_batch_atomic_witness :
  let l := emptyLog SyncAlways in
  match @AppendBatch asciiOnly (badDisk 1 7) (fun _ => 3) [mkCommand (str "SET") [str "k"; str "v"]] l with
  | (inr persisted, l') => False
  | (inl _, l') =>
      (forall clk' cmds', exists e, @AppendBatch asciiOnly (badDisk 1 7) clk' cmds' l' = (inl e, l')) /\
      exists x, fData (lFile l') = x /\
        x `prefix_of` records (@valid_commands asciiOnly (fun _ => 3) [mkCommand (str "SET") [str "k"; str "v"]]) /\
        (x = [] \/ exists n, (0 <= n)%nat /\ @disk_fault (badDisk 1 7) n <> None)
  end.
Proof.
  exact (@append_batch_atomic asciiOnly (badDisk 1 7) (fun _ => 3) [mkCommand (str "SET") [str "k"; str "v"]]
    (emptyLog SyncAlways) (emptyLog_clean _) (emptyLog_open _)).
Defined.

(** The canonical options of [SET] are canonical, at any time. *)
Lemma canonical_options_settled `{Unicode} args now now' out :
  canonical_options args now = Some out -> canonical_options out now' = Some out.
Proof.
  revert out. induction args as [args IH] using (induction_ltof1 _ (@length gostring)). unfold ltof in IH.
  destruct args as [|opt [|a rest]]; intros out Ho; simpl in Ho; [by simplify_eq|done|].
  assert (Hpxat : forall a' out', is_Some (GoLib.ParseInt a') -> canonical_options rest now = Some out' ->
    forall opt', Cmd.named (GoLib.ToUpper opt') "PXAT" = true ->
    canonical_options (opt' :: a' :: out') now' = Some (opt' :: a' :: out')).
  { intros a' out' [n Hn] Hrest opt' Hopt. apply IH in Hrest; [|simpl; lia]. cbn [canonical_options].
    apply bool_decide_eq_true in Hopt. rw Hopt.
    change (Cmd.named (str "PXAT") "EX") with false. change (Cmd.named (str "PXAT") "PX") with false.
    change (Cmd.named (str "PXAT") "PXAT") with true. cbv iota. rw Hn /= Hrest. done. }
  assert (Htext : forall d, is_Some (GoLib.ParseInt (deadline_text now d))).
  { intros d. eexists. apply GoLib.ParseInt_FormatInt. apply int64_range. }
  destruct (Cmd.named (GoLib.ToUpper opt) "EX"); [|destruct (Cmd.named (GoLib.ToUpper opt) "PX");
    [|destruct (Cmd.named (GoLib.ToUpper opt) "PXAT") eqn:Hopt; [|done]]].
  - destruct (GoLib.ParseInt a) as [n|]; [|done]. simpl in Ho. destruct (_ || _); [done|].
    destruct (canonical_options rest now) as [out'|]; [|done]. simpl in Ho. simplify_eq. by apply Hpxat.
  - destruct (GoLib.ParseInt a) as [n|]; [|done]. simpl in Ho. destruct (_ || _); [done|].
    destruct (canonical_options rest now) as [out'|]; [|done]. simpl in Ho. simplify_eq. by apply Hpxat.
  - destruct (GoLib.ParseInt a) as [n|] eqn:Hn; [|done]. simpl in Ho.
    destruct (canonical_options rest now) as [out'|]; [|done]. simpl in Ho. simplify_eq. apply Hpxat; eauto.
Qed.

(** What is journaled is settled: a canonical command is a mutation that
    canonicalizes to itself at any other time, so journaling it again later neither
    drops it nor moves its deadline. *)
Lemma canonical_is_settled `{Unicode} (cmd c : Command) (now now' : Z)
    (Hc : canonicalCommand cmd now = Some c) :
  canonicalCommand c now' = Some c /\ Cmd.IsMutation (cName c) = true.
Proof.
  destruct cmd as [name args]. unfold canonicalCommand in Hc. cbn [cName cArgs] in Hc.
  destruct (Cmd.named name "SET") eqn:Hset.
  { apply bool_decide_eq_true in Hset as ->. destruct args as [|key [|value options]]; try done.
    destruct (canonical_options options now) as [out|] eqn:Ho; [|done]. simpl in Hc. simplify_eq.
    apply (canonical_options_settled _ _ now') in Ho. split; [|done]. unfold canonicalCommand. simpl.
    by rw Ho. }
  destruct (Cmd.named name "EXPIRE") eqn:Hexp.
  { destruct args as [|key [|a []]]; try done. destruct (GoLib.ParseInt a) as [n|]; [|done].
    cbn [mbind option_bind] in Hc. destruct (_ <? n); [done|]. by simplify_eq. }
  destruct (Cmd.named name "DEL") eqn:Hdel.
  { apply bool_decide_eq_true in Hdel as ->. destruct args; by simplify_eq. }
  destruct (Cmd.IsMutation name) eqn:Hm; [|done]. simplify_eq. unfold canonicalCommand. cbn [cName cArgs].
  by rw Hset Hexp Hdel Hm.
Qed.

Lemma canonical_is_settled_witness :
  let c := mkCommand (str "SET") [str "k"; str "v"; str "PXAT"; str "90000"] in
  @canonicalCommand asciiOnly c 5 = Some c /\ Cmd.IsMutation (cName c) = true.
Proof.
  exact (@canonical_is_settled asciiOnly (mkCommand (str "SET") [str "k"; str "v"; str "ex"; str "30"])
    (mkCommand (str "SET") [str "k"; str "v"; str "PXAT"; str "90000"]) (60 * GoTime.Second) 5
    ltac:(vm_compute; reflexivity)).
Defined.

(** A command recovery cannot read.  Sent inline, [DEL] with 1024 keys is
    parsed and acknowledged by the journal; its record is an array of 1025
    elements, which the decoder refuses, so the file cannot be opened any more. *)
Lemma inline_record_unreadable `{Unicode} (clk : clock) :
  exists cmd l f s,
    match Resp.Decode (NewDecoder (str "DEL" ++ concat (replicate 1024 (str " a")) ++ CRLF)) with
    | (inr v, _) => Cmd.Parse v = inr cmd
    | (inl _, _) => False
    end /\
    @AppendBatch _ goodDisk clk [cmd] (emptyLog SyncAlways) = (inr [cmd], l) /\
    @Open _ _ _ goodDisk SyncAlways false clk (lFile l) Store.NewStore =
      Some (inl (OReplay (RDecode 0 (ErrArrayLimit 1025))), (f, s)).
Proof.
  exists (mkCommand (str "DEL") (replicate 1024 (str "a"))).
  set (l := (@AppendBatch _ goodDisk clk [mkCommand (str "DEL") (replicate 1024 (str "a"))] (emptyLog SyncAlways)).2).
  exists l. do 2 eexists. split_and!.
  - vm_compute. done.
  - vm_compute. done.
  - vm_compute. done.
Qed.

(** A list that is given some seconds to live and then grows, as it is sent and as it
    is journaled with the deadline [ms]. *)
Definition grown (key v w : gostring) (seconds : Z) : list Command :=
  [mkCommand (str "RPUSH") [key; v]; mkCommand (str "EXPIRE") [key; GoLib.FormatInt seconds];
   mkCommand (str "RPUSH") [key; w]].
Definition grown_journaled (key v w : gostring) (ms : Z) : list Command :=
  [mkCommand (str "RPUSH") [key; v]; mkCommand (str "PEXPIREAT") [key; GoLib.FormatInt ms];
   mkCommand (str "RPUSH") [key; w]].

(** The deadline in milliseconds of [EXPIRE] received at [now]. *)
Definition deadline_ms (now seconds : Z) : Z := GoTime.UnixMilli (GoTime.Add now (int64 (seconds * GoTime.Second))).

Section grown.
Import StoreSpec.
Context `{Unicode}.

Lemma deadline_ms_bounds now seconds :
  0 < seconds <= Cmd.maxSeconds -> 0 <= now <= max_int64 -> 0 <= deadline_ms now seconds <= max_int64.
Proof.
  intros Hs Hn. unfold deadline_ms, GoTime.UnixMilli, GoTime.Add.
  assert (Hm : 0 <= seconds * GoTime.Second <= max_int64).
  { unfold GoTime.Second. change Cmd.maxSeconds with 9223372036 in Hs. unfold max_int64 in *. lia. }
  rewrite -> (int64_id (seconds * GoTime.Second)) by (unfold in_int64, min_int64, max_int64 in *; lia).
  assert (Hq : 0 <= (now + seconds * GoTime.Second) / GoTime.Millisecond <= max_int64).
  { unfold GoTime.Millisecond, max_int64 in *. split; [apply Z.div_pos; lia|]. apply Z.div_le_upper_bound; lia. }
  rewrite -> int64_id by (unfold in_int64, min_int64; unfold max_int64 in *; lia). done.
Qed.

Lemma grown_canonical clk key v w seconds :
  0 < seconds <= Cmd.maxSeconds ->
  canonicalize clk (grown key v w seconds) =
    (fun cmd => (cmd, true)) <$> grown_journaled key v w (deadline_ms (clk 1%nat) seconds).
Proof.
  intros Hs. cbn [canonicalize grown]. unfold canonicalCommand at 2. cbn [cName cArgs].
  change (Cmd.named (str "EXPIRE") "SET") with false. change (Cmd.named (str "EXPIRE") "EXPIRE") with true. cbv iota.
  rewrite -> GoLib.ParseInt_FormatInt by (change Cmd.maxSeconds with 9223372036 in Hs; unfold in_int64, min_int64, max_int64; lia).
  cbn [mbind option_bind]. rewrite -> (proj2 (Z.ltb_ge _ _)) by lia. rewrite -> (proj2 (Z.ltb_lt _ _)) by lia. done.
Qed.

Lemma lookup_empty_DB (key : gostring) : (∅ : DB) !! key = None.
Proof. apply lookup_empty. Qed.

(** [RPUSH] and [PEXPIREAT] on the database. *)
Lemma rpush_db (clk : clock) (key v : gostring) (e : entry) (db : DB) :
  snd (spec_ListPush (clk 0%nat) [v] false false (db !! key)) = Some e ->
  exists r, Cmd.execute clk (mkCommand (str "RPUSH") [key; v]) db = Some (r, <[key := e]> db).
Proof.
  intros He. change (exists r, ('(r, s) ← on_entry key (spec_ListPush (clk 0%nat) [v] false false) db;
    Some (match r with inl e => Cmd.storageError e | inr length => NewInteger length end, s)) = Some (r, <[key := e]> db)).
  unfold on_entry. destruct (spec_ListPush _ _ _ _ _) as [r oe]. cbn [snd] in He. subst oe. by eexists.
Qed.

Lemma pexpireat_db (clk : clock) (key : gostring) (ms : Z) (db : DB) :
  in_int64 ms ->
  exists r, Cmd.execute clk (mkCommand (str "PEXPIREAT") [key; GoLib.FormatInt ms]) db =
    Some (r, partial_alter (fun _ => snd (spec_ExpireAt (clk 0%nat) (GoTime.ofUnixMilli ms) (db !! key))) key db).
Proof.
  intros Hms. unfold Cmd.execute. simpl. rewrite -> GoLib.ParseInt_FormatInt by done. cbn [mbind option_bind].
  unfold on_entry. destruct (spec_ExpireAt _ _ _) as [r oe]. by eexists.
Qed.

(** The three commands before the deadline, and after it. *)
Lemma run_grown (clk : clock) (key v w : gostring) (ms : Z) :
  0 <= ms <= max_int64 -> (forall i, clk i < GoTime.ofUnixMilli ms) ->
  exists vs, run clk (grown_journaled key v w ms) (∅ : DB) =
    Some (vs, {[ key := mkEntry (VList [v; w]) (GoTime.ofUnixMilli ms) ]}).
Proof.
  intros Hms Hb. assert (Hi : in_int64 ms) by (unfold in_int64, min_int64, max_int64 in *; lia).
  assert (Hz : GoTime.IsZero (GoTime.ofUnixMilli ms) = false).
  { apply Z.eqb_neq. unfold GoTime.ofUnixMilli, GoTime.zeroTime, GoTime.Millisecond, GoTime.Second. lia. }
  cbn [run grown_journaled].
  destruct (rpush_db (fork1 clk) key v (mkEntry (VList [v]) GoTime.zeroTime) ∅ ltac:(by rewrite -> lookup_empty_DB)) as [r1 ->]. cbn [mbind option_bind].
  destruct (pexpireat_db (fork1 (fork2 clk)) key ms (<[key := mkEntry (VList [v]) GoTime.zeroTime]> ∅) Hi) as [r2 ->].
  cbn [mbind option_bind]. rewrite -> lookup_insert_eq. unfold spec_ExpireAt, live, expired. cbn [eExp]. change (GoTime.IsZero GoTime.zeroTime) with true. cbn [negb andb snd eVal].
  rewrite -> (proj2 (Z.ltb_lt (fork1 (fork2 clk) 0%nat) _) (Hb _) : GoTime.Before _ _ = true). set (db := partial_alter _ key _).
  assert (Hdb : db = {[ key := mkEntry (VList [v]) (GoTime.ofUnixMilli ms) ]}).
  { unfold db. rw -insert_empty. exact (insert_insert_eq _ _ _ _). }
  rw Hdb. clear db Hdb.
  destruct (rpush_db (fork1 (fork2 (fork2 clk))) key w (mkEntry (VList [v; w]) (GoTime.ofUnixMilli ms))
              {[ key := mkEntry (VList [v]) (GoTime.ofUnixMilli ms) ]}) as [r3 Hr].
  { rw lookup_singleton_eq. unfold spec_ListPush, live, expired. cbn [eExp]. rw Hz.
    by rewrite -> (proj2 (Z.ltb_lt (fork1 (fork2 (fork2 clk)) 0%nat) _) (Hb _) : GoTime.Before _ _ = true). }
  rw Hr. cbn [mbind option_bind]. eexists. do 2 f_equal. rewrite -> insert_singleton_eq. done.
Qed.

Lemma run_grown_late (clk : clock) (key v w : gostring) (ms : Z) :
  0 <= ms <= max_int64 -> (forall i, GoTime.ofUnixMilli ms <= clk i) ->
  exists vs, run clk (grown_journaled key v w ms) (∅ : DB) = Some (vs, {[ key := mkEntry (VList [w]) GoTime.zeroTime ]}).
Proof.
  intros Hms Hb. assert (Hi : in_int64 ms) by (unfold in_int64, min_int64, max_int64 in *; lia).
  cbn [run grown_journaled].
  destruct (rpush_db (fork1 clk) key v (mkEntry (VList [v]) GoTime.zeroTime) ∅ ltac:(by rewrite -> lookup_empty_DB)) as [r1 ->]. cbn [mbind option_bind].
  destruct (pexpireat_db (fork1 (fork2 clk)) key ms (<[key := mkEntry (VList [v]) GoTime.zeroTime]> ∅) Hi) as [r2 ->].
  cbn [mbind option_bind]. rewrite -> lookup_insert_eq. unfold spec_ExpireAt, live, expired. cbn [eExp]. change (GoTime.IsZero GoTime.zeroTime) with true. cbn [negb andb snd eVal].
  rewrite -> (proj2 (Z.ltb_ge (fork1 (fork2 clk) 0%nat) _) (Hb _) : GoTime.Before _ _ = false). set (db := partial_alter _ key _).
  assert (Hdb : db = ∅).
  { unfold db. transitivity (delete key (<[key := mkEntry (VList [v]) GoTime.zeroTime]> (∅ : DB))); [done|].
    rewrite -> delete_insert_eq. apply delete_empty. }
  rw Hdb. clear db Hdb.
  destruct (rpush_db (fork1 (fork2 (fork2 clk))) key w (mkEntry (VList [w]) GoTime.zeroTime) ∅ ltac:(by rewrite -> lookup_empty_DB)) as [r3 Hr].
  rw Hr. cbn [mbind option_bind]. by eexists.
Qed.
(** A command on the engine answers as on its database. *)
Definition answer (clk : clock) (cmd : Command) (s : Store) : option Value := fst <$> Cmd.execute clk cmd s.

Lemma answer_db (clk : clock) (cmd : Command) (s : Store) (db : DB) : StoreProof.rel s db -> answer clk cmd s = fst <$> Cmd.execute clk cmd db.
Proof.
  intros Hr. destruct (execute_sim StoreProof.rel clk cmd s db Hr) as (v & s' & db' & Hs & Hdb & _).
  unfold answer. by rw Hs Hdb.
Qed.

Lemma grown_valid clk key v w seconds :
  0 < seconds <= Cmd.maxSeconds ->
  valid_commands clk (grown key v w seconds) = grown_journaled key v w (deadline_ms (clk 1%nat) seconds).
Proof. intros Hs. unfold valid_commands. by rw grown_canonical. Qed.

(** What a reader sees at a time [clk] in the two databases. *)
Lemma answer_gone (clk : clock) (key : gostring) (x : sval) (ms : Z) :
  0 <= ms -> (forall i, GoTime.ofUnixMilli ms <= clk i) ->
  fst <$> Cmd.execute clk (mkCommand (str "LLEN") [key]) ({[ key := mkEntry x (GoTime.ofUnixMilli ms) ]} : DB) =
    Some (NewInteger 0).
Proof.
  intros Hms Hlater. set (db := {[ key := _ ]} : DB).
  change (fst <$> ('(r, s) ← on_entry key (spec_ListLen (clk 0%nat)) db;
    Some (match r with inl e => Cmd.storageError e | inr n => NewInteger n end, s)) = Some (NewInteger 0)).
  unfold on_entry, spec_ListLen, list_op, db, live, expired. rewrite -> lookup_singleton_eq. cbn [eExp].
  assert (Hz : GoTime.IsZero (GoTime.ofUnixMilli ms) = false).
  { apply Z.eqb_neq. unfold GoTime.ofUnixMilli, GoTime.zeroTime, GoTime.Millisecond, GoTime.Second. lia. }
  rewrite -> (proj2 (Z.ltb_ge (clk 0%nat) _) (Hlater _) : GoTime.Before _ _ = false). by rw Hz.
Qed.

Lemma answer_back (clk : clock) (key w : gostring) :
  let db : DB := {[ key := mkEntry (VList [w]) GoTime.zeroTime ]} in
  fst <$> Cmd.execute clk (mkCommand (str "LRANGE") [key; str "0"; str "-1"]) db = Some (Cmd.stringArray [w]) /\
  fst <$> Cmd.execute clk (mkCommand (str "TTL") [key]) db = Some (NewInteger (-1)).
Proof.
  intros db. split.
  - change (fst <$> ('(r, s) ← on_entry key (spec_ListRange (clk 0%nat) 0 (-1)) db;
      Some (match r with inl e => Cmd.storageError e | inr l => Cmd.stringArray l end, s)) = Some (Cmd.stringArray [w])).
    unfold on_entry, spec_ListRange, list_op, db. by rewrite -> lookup_singleton_eq.
  - change (fst <$> ('(n, s) ← on_entry key (spec_TTL (clk 0%nat)) db; Some (NewInteger n, s)) = Some (NewInteger (-1))).
    unfold on_entry, spec_TTL, db. by rewrite -> lookup_singleton_eq.
Qed.

End grown.

(** C30.  Recovery after a deadline is not the state that was acknowledged.  A list is
    created, given some seconds to live, and grows; the log acknowledges the three
    commands and the engine runs them before the deadline.  If the file is opened
    after it, whatever the disk did, [PEXPIREAT] deletes the list where the original
    run kept it and the last push starts a new one: a key that is gone from the
    original engine is back, with the last element only, and never expires. *)
Theorem replay_resurrects_expired `{Unicode} `{Disk} (key v w : gostring) (seconds : Z) (jclk wclk rclk clk : clock)
    (persisted : list Command) (vs : list Value) (l l' : Log) (f : file) (original recovered : Store)
    (Hseconds : 0 < seconds <= Cmd.maxSeconds) (Hnow : 0 <= jclk 1%nat <= max_int64) :
  let batch := grown key v w seconds in
  let deadline := GoTime.ofUnixMilli (deadline_ms (jclk 1%nat) seconds) in
  Forall recordable (valid_commands jclk batch) ->
  AppendBatch jclk batch (emptyLog SyncAlways) = (inr persisted, l) ->
  run wclk persisted Store.NewStore = Some (vs, original) -> (forall i, wclk i < deadline) ->
  Open SyncAlways false rclk (lFile l) Store.NewStore = Some (inr l', (f, recovered)) ->
  (forall i, deadline <= rclk i) -> (forall i, deadline <= clk i) ->
  answer clk (mkCommand (str "LLEN") [key]) original = Some (NewInteger 0) /\
  answer clk (mkCommand (str "LRANGE") [key; str "0"; str "-1"]) recovered = Some (Cmd.stringArray [w]) /\
  answer clk (mkCommand (str "TTL") [key]) recovered = Some (NewInteger (-1)).
Proof.
  intros batch deadline Hrec Hack Hrun Hbefore Hopen Hafter Hlater. set (ms := deadline_ms (jclk 1%nat) seconds).
  pose proof (deadline_ms_bounds _ _ Hseconds Hnow) as Hms. fold ms in Hms.
  pose proof (grown_valid jclk key v w seconds Hseconds) as Hvalid. fold ms in Hvalid.
  pose proof (AppendBatch_spec jclk batch (emptyLog SyncAlways) (emptyLog_clean _) (emptyLog_open _)) as Hpost.
  rw Hack in Hpost. destruct Hpost as (_ & Hp & _ & _ & Hdata & _). rw Hvalid in Hdata. rw Hvalid in Hrec.
  assert (Hpers : persisted = grown_journaled key v w ms).
  { rw Hp. unfold batch. rewrite -> grown_canonical by done. fold ms. done. }
  destruct (run_sim StoreProof.rel wclk (grown_journaled key v w ms) _ _ StoreProof.NewStore_rel) as (vs1 & s1 & db1 & Hs1 & Hdb1 & Hr1).
  destruct (run_grown wclk key v w ms Hms Hbefore) as [vs2 Hg]. rw Hg in Hdb1. rw Hpers Hs1 in Hrun. simplify_eq.
  destruct (run_sim StoreProof.rel rclk (grown_journaled key v w ms) _ _ StoreProof.NewStore_rel) as (vs3 & s3 & db3 & Hs3 & Hdb3 & Hr3).
  destruct (run_grown_late rclk key v w ms Hms Hafter) as [vs4 Hl]. rw Hl in Hdb3. simplify_eq.
  assert (Hop : opened SyncAlways (fOps (lFile l)) (grown_journaled key v w ms) s3 (Open SyncAlways false rclk (lFile l) Store.NewStore)).
  { apply (Open_spec SyncAlways false rclk (lFile l) (grown_journaled key v w ms) [] Store.NewStore vs3 s3); [|done|by left|done].
    rw app_nil_r. exact Hdata. }
  rw Hopen in Hop. destruct Hop as (-> & _). rewrite -> !(answer_db _ _ _ _ Hr1), !(answer_db _ _ _ _ Hr3).
  split; [apply answer_gone; [lia|done]|apply answer_back].
Qed.

(** Ten seconds to live from time 0, opened a second after that. *)
Definition grownEleven : clock := fun _ => 11 * GoTime.Second.

Definition grownLog : Log := (@AppendBatch asciiOnly goodDisk (fun _ => 0) (grown (str "k") (str "a") (str "b") 10) (emptyLog SyncAlways)).2.

Definition grownRun : option (list Value * Store) :=
  @run asciiOnly _ _ (fun _ => 5) (grown_journaled (str "k") (str "a") (str "b") 10000) Store.NewStore.

Definition grownOpen : option ((openErr + Log) * (file * Store)) :=
  @Open asciiOnly _ _ goodDisk SyncAlways false grownEleven (lFile grownLog) Store.NewStore.

Lemma replay_resurrects_expired_witness :
  match grownRun, grownOpen with
  | Some (_, original), Some (inr _, (_, recovered)) =>
      @answer asciiOnly grownEleven (mkCommand (str "LLEN") [str "k"]) original = Some (NewInteger 0) /\
      @answer asciiOnly grownEleven (mkCommand (str "LRANGE") [str "k"; str "0"; str "-1"]) recovered =
        Some (Cmd.stringArray [str "b"]) /\
      @answer asciiOnly grownEleven (mkCommand (str "TTL") [str "k"]) recovered = Some (NewInteger (-1))
  | _, _ => False
  end.
Proof.
  assert (Hr : match grownRun with Some _ => true | None => false end = true) by (vm_compute; reflexivity).
  assert (Ho : match grownOpen with Some (inr _, _) => true | _ => false end = true) by (vm_compute; reflexivity).
  destruct grownRun as [[vs original]|] eqn:Hrun; [|discriminate Hr].
  destruct grownOpen as [[[e|l'] [f recovered]]|] eqn:Hopen; [discriminate Ho| |discriminate Ho].
  apply (@replay_resurrects_expired asciiOnly goodDisk (str "k") (str "a") (str "b") 10 (fun _ => 0) (fun _ => 5) grownEleven grownEleven
           (grown_journaled (str "k") (str "a") (str "b") 10000) vs grownLog l' f original recovered).
  - vm_compute. split; [reflexivity|discriminate].
  - vm_compute. split; discriminate.
  - repeat constructor; vm_compute; try reflexivity; try discriminate.
  - unfold grownLog. vm_compute. reflexivity.
  - exact Hrun.
  - intros i. vm_compute. reflexivity.
  - exact Hopen.
  - intros i. vm_compute. discriminate.
  - intros i. vm_compute. discriminate.
Defined.

End AofTheorems.
