(* ===== verification/Timeless.v ===== *)
(** * Commands that do not depend on when they run

    A canonical command names its deadlines, so its effect depends on the clock only
    through which deadlines have passed.  Two databases [agree] when a reader sees
    the same in both; a canonical command, run at two times between which no
    deadline passes, answers the same and keeps them in agreement. *)

From S2P Require Import Prelude GoTime GoLib GoIO Resp ListValue Store StoreSpec Command CommandProof.
From S2P Require Import Executor Aof.
Import StoreSpec.

Module Timeless.
Import Cmd CommandProof.

Section commands.
Context `{Unicode}.

(** The deadline a command names. *)
Definition deadline_of (cmd : Command) : option Z :=
  if named (cName cmd) "SET" then
    match cArgs cmd with
    | _ :: _ :: opts =>
        match set_options opts 0 GoTime.zeroTime false with inr (_, exp, true) => Some exp | _ => None end
    | _ => None
    end
  else if named (cName cmd) "PEXPIREAT" then
    match cArgs cmd with [_; a] => GoTime.ofUnixMilli <$> GoLib.ParseInt a | _ => None end
  else None.

(** The command computes a deadline from the clock. *)
Definition relative (cmd : Command) : bool :=
  named (cName cmd) "EXPIRE" ||
  named (cName cmd) "SET" &&
    match cArgs cmd with
    | _ :: _ :: opts =>
        match set_options opts 0 GoTime.zeroTime false with inr (ttl, _, false) => 0 <? ttl | _ => false end
    | _ => false
    end.

Record timeless (cmd : Command) : Prop := {
  tl_mutation : IsMutation (cName cmd) = true;
  tl_absolute : relative cmd = false;
}.

(** ** Canonical commands are timeless *)
Inductive absolute : list gostring -> Prop :=
  | absolute_nil : absolute []
  | absolute_cons opt a rest :
      GoLib.ToUpper opt = str "PXAT" -> is_Some (GoLib.ParseInt a) -> absolute rest -> absolute (opt :: a :: rest).

Lemma deadline_text_parses now d : is_Some (GoLib.ParseInt (Aof.deadline_text now d)).
Proof. eexists. apply GoLib.ParseInt_FormatInt, int64_range. Qed.

Lemma canonical_options_absolute args now out : Aof.canonical_options args now = Some out -> absolute out.
Proof.
  revert out. induction args as [args IH] using (induction_ltof1 _ (@length gostring)). unfold ltof in IH.
  destruct args as [|opt [|a rest]]; intros out Ho; simpl in Ho; [simplify_eq; constructor|done|].
  assert (Hrest : forall out', Aof.canonical_options rest now = Some out' -> absolute out') by (apply IH; simpl; lia).
  assert (Htext : forall d out', Aof.canonical_options rest now = Some out' ->
    absolute (str "PXAT" :: Aof.deadline_text now d :: out')).
  { intros d out' Hr. constructor; [done|apply deadline_text_parses|auto]. }
  destruct (named (GoLib.ToUpper opt) "EX"); [|destruct (named (GoLib.ToUpper opt) "PX");
    [|destruct (named (GoLib.ToUpper opt) "PXAT") eqn:Hopt; [|done]]].
  - destruct (GoLib.ParseInt a); [|done]. simpl in Ho. destruct (_ || _); [done|].
    destruct (Aof.canonical_options rest now) as [out'|]; [|done]. simpl in Ho. simplify_eq. by apply Htext.
  - destruct (GoLib.ParseInt a); [|done]. simpl in Ho. destruct (_ || _); [done|].
    destruct (Aof.canonical_options rest now) as [out'|]; [|done]. simpl in Ho. simplify_eq. by apply Htext.
  - destruct (GoLib.ParseInt a) eqn:Hn; [|done]. simpl in Ho.
    destruct (Aof.canonical_options rest now) as [out'|]; [|done]. simpl in Ho. simplify_eq.
    constructor; [by apply bool_decide_eq_true in Hopt|by rw Hn|auto].
Qed.

(** Absolute options leave no relative expiration. *)
Lemma set_options_absolute opts :
  absolute opts -> forall ttl exp b, ttl <= 0 ->
  exists ttl' exp' b', set_options opts ttl exp b = inr (ttl', exp', b') /\ ttl' <= 0.
Proof.
  induction 1 as [|opt a rest Hopt [n Hn] _ IH]; intros ttl exp b Httl; [by do 3 eexists|].
  cbn [set_options]. rw Hopt. change (named (str "PXAT") "EX") with false.
  change (named (str "PXAT") "PX") with false. change (named (str "PXAT") "PXAT") with true. cbv iota.
  rw Hn. by apply IH.
Qed.

Lemma canonical_timeless cmd now c : Aof.canonicalCommand cmd now = Some c -> timeless c.
Proof.
  destruct cmd as [name args]. unfold Aof.canonicalCommand. cbn [cName cArgs].
  destruct (named name "SET") eqn:Hset.
  { apply bool_decide_eq_true in Hset as ->. destruct args as [|key [|value options]]; try done.
    destruct (Aof.canonical_options options now) as [out|] eqn:Ho; [|done]. simpl. intros. simplify_eq.
    apply canonical_options_absolute in Ho. split; [done|]. unfold relative. simpl.
    destruct (set_options_absolute out Ho 0 GoTime.zeroTime false) as (ttl & exp & b & -> & Httl); [done|].
    destruct b; [done|]. by apply Z.ltb_ge. }
  destruct (named name "EXPIRE") eqn:Hexp.
  { destruct args as [|key [|a []]]; try done. destruct (GoLib.ParseInt a) as [n|]; [|done].
    cbn [mbind option_bind]. destruct (_ <? n); [done|]. intros. by simplify_eq. }
  destruct (named name "DEL") eqn:Hdel.
  { apply bool_decide_eq_true in Hdel as ->. destruct args; intros; by simplify_eq. }
  destruct (IsMutation name) eqn:Hm; [|done]. intros. simplify_eq. split; [done|].
  unfold relative. simpl. by rw Hset Hexp.
Qed.

(** ** Agreement *)
Section agree.
(** All readings of the clock are on the same side as [T] of every deadline of [D]. *)
Variables (T : Z) (D : Z -> Prop).

Definition steady (clk : clock) : Prop := forall i d, D d -> (clk i <? d) = (T <? d).

Definition covered (e : option entry) : Prop :=
  forall x, e = Some x -> GoTime.IsZero (eExp x) = true \/ D (eExp x).

Record agree (db db' : DB) : Prop := {
  ag_visible k : live T (db !! k) = live T (db' !! k);
  ag_left k : covered (db !! k);
  ag_right k : covered (db' !! k);
}.

Lemma live_steady clk i e : steady clk -> covered e -> live (clk i) e = live T e.
Proof.
  intros Hc He. unfold live. destruct e as [x|]; [|done]. unfold expired.
  destruct (He x eq_refl) as [->|Hd]; [done|]. unfold GoTime.Before. by rw (Hc i _ Hd).
Qed.

Lemma live_covered t e : covered e -> covered (live t e).
Proof. intros He x. unfold live. destruct e as [y|]; [|done]. destruct (expired t y); [done|]. apply He. Qed.

Lemma live_twice t e : live t (live t e) = live t e.
Proof. unfold live. destruct e as [x|]; [|done]. destruct (expired t x) eqn:Hx; [done|]. by rw Hx. Qed.

Lemma covered_None : covered None.
Proof. by intros x. Qed.

Lemma covered_list l exp : covered (Some (mkEntry (VList []) exp)) -> covered (list_entry l exp).
Proof. intros He x Hx. destruct l; [done|]. injection Hx as <-. apply (He _ eq_refl). Qed.

Lemma agree_alter k e db db' :
  agree db db' -> covered e -> agree (partial_alter (fun _ => e) k db) (partial_alter (fun _ => e) k db').
Proof.
  intros [Hv Hl Hr] He. split; intros k'; (destruct (decide (k' = k)) as [->|Hne];
    [rw !lookup_partial_alter_eq; done|rewrite -> !lookup_partial_alter_ne by done; done]).
Qed.

Lemma sim_on_entry {A} k (g g' : entry_op A) :
  (forall e e', live T e = live T e' -> covered e -> covered e' -> g e = g' e' /\ covered (g e).2) ->
  sim agree (on_entry k g) (on_entry k g').
Proof.
  intros Hg db db' Ha. destruct (Hg (db !! k) (db' !! k)) as [He Hc]; [apply Ha..|].
  unfold on_entry. rw -He. destruct (g (db !! k)) as [a e]. do 3 eexists. split_and!; [done..|].
  by apply agree_alter.
Qed.

Lemma sim_list_op {A} k clk clk' i j (missing wrong : A) f :
  steady clk -> steady clk' ->
  sim agree (on_entry k (list_op (clk i) missing wrong f)) (on_entry k (list_op (clk' j) missing wrong f)).
Proof.
  intros Hc Hc'. apply sim_on_entry. intros e e' Hv He He'. unfold list_op.
  rewrite -> (live_steady clk), (live_steady clk'), Hv by done. split; [done|].
  pose proof (live_covered T e' He') as Hl. destruct (live T e') as [[[v|l] exp]|]; [done| |by apply covered_None].
  destruct (f l) as [r l']. apply covered_list. intros x [= <-]. apply (Hl _ eq_refl).
Qed.

(** ** Operations *)
Section operations.
Variables (clk clk' : clock).
Hypothesis (Hc : steady clk) (Hc' : steady clk').

Ltac on_live e e' :=
  rewrite -> (live_steady clk _ e), (live_steady clk' _ e') by done.

Lemma agree_Set k v ttl : ttl <= 0 -> sim agree (op_Set clk k v ttl) (op_Set clk' k v ttl).
Proof.
  intros Ht. apply sim_on_entry. intros e e' _ _ _. unfold spec_Set.
  rewrite -> (proj2 (Z.ltb_ge 0 ttl)) by done. split; [done|]. intros x [= <-]. by left.
Qed.

Lemma agree_SetAt k v exp : D exp -> sim agree (op_SetAt clk k v exp) (op_SetAt clk' k v exp).
Proof.
  intros Hd. apply sim_on_entry. intros e e' _ _ _. unfold spec_SetAt, GoTime.Before.
  rw (Hc _ _ Hd) (Hc' _ _ Hd). split; [done|]. simpl.
  destruct (T <? exp); [|apply covered_None]. intros x [= <-]. by right.
Qed.

Lemma agree_Del k : sim agree (op_Del clk k) (op_Del clk' k).
Proof.
  apply sim_on_entry. intros e e' Hv He He'. unfold spec_Del. on_live e e'. rw Hv.
  split; [done|apply covered_None].
Qed.

Lemma agree_ExpireAt k exp : D exp -> sim agree (op_ExpireAt clk k exp) (op_ExpireAt clk' k exp).
Proof.
  intros Hd. apply sim_on_entry. intros e e' Hv He He'. unfold spec_ExpireAt, GoTime.Before.
  on_live e e'. rw Hv. rw (Hc _ _ Hd) (Hc' _ _ Hd). split; [done|].
  destruct (live T e') as [x|]; [|apply covered_None]. simpl.
  destruct (T <? exp); [|apply covered_None]. intros y [= <-]. by right.
Qed.

Lemma agree_ListPush k vs left only : sim agree (op_ListPush clk k vs left only) (op_ListPush clk' k vs left only).
Proof.
  apply sim_on_entry. intros e e' Hv He He'. unfold spec_ListPush. on_live e e'. rw Hv. split; [done|].
  pose proof (live_covered T e' He') as Hl. destruct (live T e') as [[[v|l] exp]|]; [done| |].
  - apply covered_list. intros x [= <-]. apply (Hl _ eq_refl).
  - destruct only; [apply covered_None|]. apply covered_list. intros x [= <-]. by left.
Qed.

Lemma agree_ListMove src dst b1 b2 : sim agree (op_ListMove clk src dst b1 b2) (op_ListMove clk' src dst b1 b2).
Proof.
  intros db db' Ha. simpl. unfold spec_ListMove.
  assert (Hclean : forall i j k db db', agree db db' -> agree (clean (clk i) k db) (clean (clk' j) k db') /\
    clean (clk i) k db !! k = live T (db !! k) /\ clean (clk' j) k db' !! k = live T (db !! k)).
  { clear Ha db db'. intros i j k db db' Ha. unfold clean. rewrite -> (live_steady clk _ (db !! k)), (live_steady clk' _ (db' !! k));
      [|done|apply Ha|done|apply Ha]. rw -(ag_visible _ _ Ha). rw !lookup_partial_alter_eq.
    split_and!; [|done..]. apply agree_alter; [done|]. apply live_covered, Ha. }
  destruct (Hclean 0%nat 0%nat src db db' Ha) as (Ha1 & -> & ->).
  pose proof (live_covered T (db !! src) (ag_left _ _ Ha src)) as Hs. clear Ha.
  set (db1 := clean (clk 0) src db) in *. set (db1' := clean (clk' 0) src db') in *. clearbody db1 db1'.
  destruct (live T (db !! src)) as [[[v|l] exp]|]; [by do 3 eexists| |by do 3 eexists].
  assert (Hl : forall l', covered (Some (mkEntry (VList l') exp))) by (intros l' x [= <-]; apply (Hs _ eq_refl)).
  destruct (pop_list b1 1 l) as [vs l'].
  case_bool_decide as Heq.
  { do 3 eexists. split_and!; [done..|]. by apply agree_alter. }
  destruct (Hclean 1%nat 1%nat dst db1 db1' Ha1) as (Ha2 & -> & ->).
  pose proof (live_covered T (db1 !! dst) (ag_left _ _ Ha1 dst)) as Hd. clear Hs.
  set (db2 := clean (clk 1) dst db1) in *. set (db2' := clean (clk' 1) dst db1') in *. clearbody db2 db2'.
  destruct (live T (db1 !! dst)) as [[[v|dl] dexp]|]; [by do 3 eexists| |]; do 3 eexists; (split_and!; [done..|]);
    apply agree_alter; try (apply agree_alter; [done|by apply covered_list]).
  - intros x [= <-]. apply (Hd _ eq_refl).
  - intros x [= <-]. by left.
Qed.

Lemma agree_ListPop k left n : sim agree (op_ListPop clk k left n) (op_ListPop clk' k left n).
Proof. by apply sim_list_op. Qed.
Lemma agree_ListSet k i v : sim agree (op_ListSet clk k i v) (op_ListSet clk' k i v).
Proof. by apply sim_list_op. Qed.
Lemma agree_ListTrim k a b : sim agree (op_ListTrim clk k a b) (op_ListTrim clk' k a b).
Proof. by apply sim_list_op. Qed.
Lemma agree_ListRem k n v : sim agree (op_ListRem clk k n v) (op_ListRem clk' k n v).
Proof. by apply sim_list_op. Qed.
Lemma agree_ListInsert k p v b : sim agree (op_ListInsert clk k p v b) (op_ListInsert clk' k p v b).
Proof. by apply sim_list_op. Qed.
Lemma agree_ListLen k : sim agree (op_ListLen clk k) (op_ListLen clk' k).
Proof. by apply sim_list_op. Qed.
Lemma agree_ListRange k a b : sim agree (op_ListRange clk k a b) (op_ListRange clk' k a b).
Proof. by apply sim_list_op. Qed.
Lemma agree_ListIndex k i : sim agree (op_ListIndex clk k i) (op_ListIndex clk' k i).
Proof. by apply sim_list_op. Qed.

Lemma agree_GetString k : sim agree (op_GetString clk k) (op_GetString clk' k).
Proof.
  apply sim_on_entry. intros e e' Hv He He'. unfold spec_GetString. on_live e e'. rw Hv. split; [done|].
  pose proof (live_covered T e' He') as Hl. destruct (live T e') as [[[v|l] exp]|]; done.
Qed.

Lemma on_entry_raw {A} k (a : A) db : on_entry k (fun e => (a, e)) db = Some (a, db).
Proof. unfold on_entry. by rw partial_alter_self. Qed.

Lemma agree_ListPosition k v rank n m : sim agree (op_ListPosition clk k v rank n m) (op_ListPosition clk' k v rank n m).
Proof.
  destruct (rank =? min_int64) eqn:Hr.
  - intros db db' Ha. simpl. unfold spec_ListPosition. rw Hr !on_entry_raw. by do 3 eexists.
  - intros db db' Ha. simpl. unfold spec_ListPosition. rw Hr. by apply sim_list_op.
Qed.
End operations.

Lemma steady_skip n clk : steady clk -> steady (skip n clk).
Proof. intros Hc i d Hd. apply (Hc _ d Hd). Qed.
Lemma steady_fork1 clk : steady clk -> steady (fork1 clk).
Proof. intros Hc i d Hd. apply (Hc _ d Hd). Qed.
Lemma steady_fork2 clk : steady clk -> steady (fork2 clk).
Proof. intros Hc i d Hd. apply (Hc _ d Hd). Qed.
(** ** Commands *)
Ltac done_op := do 3 eexists; split_and!; [reflexivity|reflexivity|eassumption].
Ltac use L := destruct L as (? & ? & ? & -> & -> & ?); cbn [mbind option_bind]; done_op.
Ltac op Hc Hc' :=
  match goal with
  | HR : agree ?s ?t |- context [op_GetString _ ?k ?s] => use (agree_GetString _ _ Hc Hc' k s t HR)
  | HR : agree ?s ?t |- context [op_ListPush _ ?k ?a ?b ?c ?s] => use (agree_ListPush _ _ Hc Hc' k a b c s t HR)
  | HR : agree ?s ?t |- context [op_ListPop _ ?k ?a ?b ?s] => use (agree_ListPop _ _ Hc Hc' k a b s t HR)
  | HR : agree ?s ?t |- context [op_ListLen _ ?k ?s] => use (agree_ListLen _ _ Hc Hc' k s t HR)
  | HR : agree ?s ?t |- context [op_ListRange _ ?k ?a ?b ?s] => use (agree_ListRange _ _ Hc Hc' k a b s t HR)
  | HR : agree ?s ?t |- context [op_ListIndex _ ?k ?a ?s] => use (agree_ListIndex _ _ Hc Hc' k a s t HR)
  | HR : agree ?s ?t |- context [op_ListSet _ ?k ?a ?b ?s] => use (agree_ListSet _ _ Hc Hc' k a b s t HR)
  | HR : agree ?s ?t |- context [op_ListTrim _ ?k ?a ?b ?s] => use (agree_ListTrim _ _ Hc Hc' k a b s t HR)
  | HR : agree ?s ?t |- context [op_ListRem _ ?k ?a ?b ?s] => use (agree_ListRem _ _ Hc Hc' k a b s t HR)
  | HR : agree ?s ?t |- context [op_ListInsert _ ?k ?a ?b ?c ?s] => use (agree_ListInsert _ _ Hc Hc' k a b c s t HR)
  | HR : agree ?s ?t |- context [op_ListPosition _ ?k ?a ?b ?c ?d ?s] =>
      use (agree_ListPosition _ _ Hc Hc' k a b c d s t HR)
  | HR : agree ?s ?t |- context [op_ListMove _ ?a ?b ?c ?d ?s] => use (agree_ListMove _ _ Hc Hc' a b c d s t HR)
  end.
Ltac cases := repeat (case_match; try solve [done_op]).

Lemma agree_del_loop keys : forall n clk clk', steady clk -> steady clk' ->
  sim agree (del_loop clk keys n) (del_loop clk' keys n).
Proof.
  induction keys as [|k keys IH]; intros n clk clk' Hc Hc'; [apply sim_ret|].
  refine (sim_bind agree (op_Del clk k) (op_Del clk' k) (fun b => del_loop (skip 1 clk) keys (if b then n + 1 else n))
    (fun b => del_loop (skip 1 clk') keys (if b then n + 1 else n)) _ _); [by apply agree_Del|].
  intros b. apply IH; by apply steady_skip.
Qed.

Section handlers.
Variables (clk clk' : clock).
Hypothesis (Hc : steady clk) (Hc' : steady clk').

Lemma agree_list name args : sim agree (handleListCommand clk name args) (handleListCommand clk' name args).
Proof.
  intros db db' Ha. unfold handleListCommand, handleListPush, handleListPop, handleListPosition, list_pop, list_move.
  destruct (one_of name _); [cases; op Hc Hc'|]. destruct (one_of name _); [cases; op Hc Hc'|].
  repeat (destruct (named name _); [cases; op Hc Hc'|]). done_op.
Qed.

Lemma agree_set args :
  (forall k v opts ttl exp b, args = k :: v :: opts -> set_options opts 0 GoTime.zeroTime false = inr (ttl, exp, b) ->
   if b then D exp else ttl <= 0) ->
  sim agree (handleSet clk args) (handleSet clk' args).
Proof.
  intros Hargs db db' Ha. unfold handleSet. destruct args as [|k [|v opts]]; [done_op..|].
  destruct (set_options _ _ _ _) as [e|[[ttl exp] b]] eqn:Ho; [done_op|]. specialize (Hargs _ _ _ _ _ _ eq_refl Ho).
  destruct b.
  - use (agree_SetAt clk clk' Hc Hc' k v exp Hargs db db' Ha).
  - use (agree_Set clk clk' k v ttl Hargs db db' Ha).
Qed.

Lemma agree_expireat args :
  (forall k a ms, args = [k; a] -> GoLib.ParseInt a = Some ms -> D (GoTime.ofUnixMilli ms)) ->
  sim agree (handleExpireAt clk args) (handleExpireAt clk' args).
Proof.
  intros Hargs db db' Ha. unfold handleExpireAt. destruct args as [|k [|a []]]; try done_op.
  destruct (GoLib.ParseInt a) as [ms|] eqn:Hms; [|done_op].
  use (agree_ExpireAt clk clk' Hc Hc' k _ (Hargs _ _ _ eq_refl Hms) db db' Ha).
Qed.

(** Every command but [TTL] and those that compute a deadline. *)
Lemma agree_execute cmd :
  relative cmd = false -> named (cName cmd) "TTL" = false -> (forall d, deadline_of cmd = Some d -> D d) ->
  sim agree (execute clk cmd) (execute clk' cmd).
Proof.
  destruct cmd as [name args]. unfold relative, deadline_of, execute. cbn [cName cArgs]. intros Hr Ht Hd.
  apply orb_false_iff in Hr as [Hexp Hset]. rw Ht Hexp.
  destruct (named name "PING"); [apply sim_ret|].
  destruct (named name "GET"). { intros db db' Ha. unfold handleGet. cases; op Hc Hc'. }
  destruct (named name "SET").
  { apply agree_set. intros k v opts ttl exp b -> Ho. rw Ho in Hset. rw Ho in Hd. destruct b; [by apply Hd|].
    by apply Z.ltb_ge in Hset. }
  destruct (named name "DEL").
  { intros db db' Ha. unfold handleDel. destruct args as [|k args]; [done_op|].
    use (agree_del_loop (k :: args) 0 clk clk' Hc Hc' db db' Ha). }
  destruct (named name "PEXPIREAT").
  { apply agree_expireat. intros k a ms -> Hms. apply Hd. by rw Hms. }
  destruct (one_of name _); [apply agree_list|apply sim_ret].
Qed.
End handlers.

Lemma agree_run cmds : forall clk clk', steady clk -> steady clk' ->
  Forall (fun cmd => relative cmd = false /\ named (cName cmd) "TTL" = false /\
    forall d, deadline_of cmd = Some d -> D d) cmds ->
  sim agree (run clk cmds) (run clk' cmds).
Proof.
  induction cmds as [|cmd cmds IH]; intros clk clk' Hc Hc' Hall; [apply sim_ret|].
  apply Forall_cons in Hall as [(Hr & Ht & Hd) Hall]. intros db db' Ha. simpl.
  destruct (agree_execute (fork1 clk) (fork1 clk') (steady_fork1 _ Hc) (steady_fork1 _ Hc') cmd Hr Ht Hd db db' Ha)
    as (v & db1 & db1' & -> & -> & Ha1). simpl.
  destruct (IH (fork2 clk) (fork2 clk') (steady_fork2 _ Hc) (steady_fork2 _ Hc') Hall db1 db1' Ha1)
    as (vs & db2 & db2' & -> & -> & Ha2). simpl. done_op.
Qed.
End agree.
End commands.
End Timeless.
