(* ===== verification/AofRewrite.v ===== *)
(** * Rewriting and closing the append-only file

    The rest of [internal/aof/aof.go]: [StartRewrite] with the goroutine that
    writes the snapshot, [CompleteRewrite], [AbortRewrite], the synchronous
    [Rewrite], and [Close].  The new files of a rewrite take their own outcomes of
    the disk.  The goroutine touches only the snapshot file, so its run is one step
    between the start and the completion, which waits for it. *)

From S2P Require Import Prelude GoTime GoLib GoIO Resp ListValue Store StoreSpec StoreMaint Command.
From S2P Require Import Executor Aof.

Module AofRewrite.
Import AofFile Aof.

(** [errors.Join]. *)
Definition Join (errs : list (option goerr)) : option goerr :=
  match omap id errs with
  | [] => None
  | e :: es => Some (foldl joinErr e es)
  end.

Definition wrapIfError (err : option goerr) (operation : string) : option goerr :=
  (fun e => str operation ++ str ": " ++ e) <$> err.

Section rewrite.
Context `{Unicode} `{Disk}.

(** A call that does not touch the bytes of a file: [Chmod], [Close], [lockFile],
    [unlockFile], the rename or the removal of its name. *)
Definition syscall : file -> option goerr * file := attempt (fun f => f).

(** [os.CreateTemp]: an empty file whose outcomes start at [n]. *)
Definition CreateTemp (n : nat) : option goerr * file := syscall (mkFile [] 0 [] n).

Definition rewriteBuffer : Z := 64 * 2 ^ 10.

(** [cleanupTemp]. *)
Definition cleanupTemp (temp : file) : option goerr :=
  let '(e1, temp) := syscall temp in
  let '(e2, _) := syscall temp in
  Join [e1; e2].

(** The two files of a rewrite, created, and locked when they replace the log. *)
Definition createFiles (temp delta : nat) : goerr + file * file :=
  let failed err cleanup := inl (default [] (Join [Some err; cleanup])) in
  match CreateTemp temp with
  | (Some e, _) => inl (str "create AOF rewrite file: " ++ e)
  | (None, temp) =>
      match syscall temp with
      | (Some e, temp) => failed (str "set AOF rewrite file permissions: " ++ e) (cleanupTemp temp)
      | (None, temp) =>
          match syscall temp with
          | (Some e, temp) => failed (str "lock AOF rewrite file: " ++ e) (cleanupTemp temp)
          | (None, temp) =>
              match CreateTemp delta with
              | (Some e, _) =>
                  let '(_, temp) := syscall temp in
                  failed (str "create AOF rewrite delta: " ++ e) (cleanupTemp temp)
              | (None, delta) =>
                  match syscall delta with
                  | (Some e, _) =>
                      let '(_, temp) := syscall temp in
                      failed (str "set AOF rewrite delta permissions: " ++ e) (cleanupTemp temp)
                  | (None, delta) => inr (temp, delta)
                  end
              end
          end
      end
  end.

Definition StartRewrite (temp delta : nat) (entries : list SnapshotEntry) (l : Log) : option goerr * Log :=
  if lClosed l || lClosing l then (Some (str "AOF is closed"), l)
  else match lFailed l with
  | Some e => (Some (str "AOF is unhealthy: " ++ e), l)
  | None =>
      match lRewrite l with
      | Some _ => (Some (str "AOF rewrite already in progress"), l)
      | None =>
          match createFiles temp delta with
          | inl e => (Some e, l)
          | inr (temp, delta) =>
              (None, with_rewrite (Some (mkJob (GoIO.NewWriterSize temp rewriteBuffer)
                       (GoIO.NewWriterSize delta rewriteBuffer) None entries)) l)
          end
      end
  end.

Fixpoint writeEntries (entries : list SnapshotEntry) (w : GoIO.bufWriter file)
    : option goerr * GoIO.bufWriter file :=
  match entries with
  | [] => (None, w)
  | entry :: entries' =>
      match writeSnapshotEntry entry w with
      | (Some e, w) => (Some e, w)
      | (None, w) => writeEntries entries' w
      end
  end.

(** The goroutine of [StartRewrite]: what it sends on [ready]. *)
Definition writeSnapshot (job : rewriteJob) : option goerr * rewriteJob :=
  match writeEntries (jobEntries job) (tempWriter job) with
  | (Some e, w) => (Some (str "write AOF rewrite snapshot: " ++ e), mkJob w (deltaWriter job) (deltaErr job) [])
  | (None, w) =>
      let w := GoIO.Flush w in
      (if GoIO.bwErr w then Some (str "flush AOF rewrite snapshot: " ++ disk_error) else None,
       mkJob w (deltaWriter job) (deltaErr job) [])
  end.

Definition snapshotWorker (l : Log) : option goerr * Log :=
  match lRewrite l with
  | Some job => let '(ready, job) := writeSnapshot job in (ready, with_rewrite (Some job) l)
  | None => (None, l)
  end.

(** [cleanupRewriteLocked] with both files still open. *)
Definition cleanupRewriteLocked (job : rewriteJob) : option goerr :=
  let '(e1, temp) := syscall (GoIO.bwSink (tempWriter job)) in
  let '(e2, temp) := syscall temp in
  let '(e3, delta) := syscall (GoIO.bwSink (deltaWriter job)) in
  let '(e4, _) := syscall temp in
  let '(e5, _) := syscall delta in
  Join [e1; e2; e3; e4; e5].

(** [io.Copy(tempWriter, deltaFile)]: with nothing buffered the writer hands the
    copy to its file; one outcome stands for the reads, one for the writes. *)
Definition copyDelta (delta : file) (w : GoIO.bufWriter file) : (bool * file) * GoIO.bufWriter file :=
  if GoIO.bwErr w then ((true, delta), w)
  else match syscall delta with
  | (Some _, delta) => ((true, delta), GoIO.mkBW (GoIO.bwSize w) (GoIO.bwBuf w) true (GoIO.bwSink w))
  | (None, delta) =>
      let data := drop (fPos delta) (fData delta) in
      let delta := mkFile (fData delta) (length (fData delta)) (fSynced delta) (fOps delta) in
      match GoIO.bwBuf w, data with
      | _, [] => ((false, delta), w)
      | [], _ =>
          let '(n, err, f) := w_write data (GoIO.bwSink w) in
          ((err, delta), GoIO.mkBW (GoIO.bwSize w) [] err f)
      | _, _ => let w := GoIO.Write data w in ((GoIO.bwErr w, delta), w)
      end
  end.

(** [job] with what an attempt to complete it made of its files. *)
Definition job_files (temp delta : GoIO.bufWriter file) (job : rewriteJob) : rewriteJob :=
  mkJob temp delta (deltaErr job) (jobEntries job).
Definition with_sink (f : file) (w : GoIO.bufWriter file) : GoIO.bufWriter file :=
  GoIO.mkBW (GoIO.bwSize w) (GoIO.bwBuf w) (GoIO.bwErr w) f.

(** From the flush of the sidecar to the sync of the snapshot file: nothing the
    running log depends on. *)
Definition prepareRewrite (job : rewriteJob) : option goerr * rewriteJob :=
  let dw := GoIO.Flush (deltaWriter job) in
  let job := job_files (tempWriter job) dw job in
  if GoIO.bwErr dw then (Some (str "flush AOF rewrite delta: " ++ disk_error), job)
  else match Seek 0 (GoIO.bwSink dw) with
  | (Some e, d) => (Some (str "seek AOF rewrite delta: " ++ e), job_files (tempWriter job) (with_sink d dw) job)
  | (None, d) =>
      let '((err, d), tw) := copyDelta d (tempWriter job) in
      let job := job_files tw (with_sink d dw) job in
      if (err : bool) then (Some (str "append AOF rewrite delta: " ++ disk_error), job)
      else
        let tw := GoIO.Flush tw in
        let job := job_files tw (deltaWriter job) job in
        if GoIO.bwErr tw then (Some (str "flush completed AOF rewrite: " ++ disk_error), job)
        else match Sync (GoIO.bwSink tw) with
        | (Some e, t) =>
            (Some (str "sync completed AOF rewrite: " ++ e), job_files (with_sink t tw) (deltaWriter job) job)
        | (None, t) => (None, job_files (with_sink t tw) (deltaWriter job) job)
        end
  end.

(** [cleanupRewriteLocked] once both files are closed: a name that is gone is no
    error. *)
Definition cleaned (delta : file) (err : option goerr) : option goerr :=
  match err with
  | None => None
  | Some e =>
      let '(e1, delta) := syscall delta in
      let '(e2, _) := syscall delta in
      Join [Some e; Join [e1; e2]]
  end.

(** After the rename: the log goes on in the new file; the directory is synced, the
    replaced log and the sidecar are closed, the sidecar is removed. *)
Definition installRewrite (temp : file) (job : rewriteJob) (l : Log) : option goerr * Log :=
  let old := lFile l in
  let '(directorySyncErr, temp) := syscall temp in
  let l := mkLog (GoIO.NewWriter temp) (lPolicy l) (lClosed l) (lClosing l)
             (match directorySyncErr with
              | Some e => Some (str "sync AOF directory after replacement: " ++ e)
              | None => lFailed l
              end) (lRewrite l) in
  let '(unlockErr, old) := syscall old in
  let '(closeErr, _) := syscall old in
  let '(deltaCloseErr, delta) := syscall (GoIO.bwSink (deltaWriter job)) in
  let '(deltaRemoveErr, delta) := syscall delta in
  (cleaned delta (Join [wrapIfError directorySyncErr "sync AOF directory after replacement";
         wrapIfError unlockErr "unlock replaced AOF";
         wrapIfError closeErr "close replaced AOF";
         wrapIfError deltaCloseErr "close AOF rewrite delta";
         wrapIfError deltaRemoveErr "remove AOF rewrite delta"]), l).

(** [CompleteRewrite]; the deferred function ends the rewrite on every path, and
    cleans up after an error. *)
Definition CompleteRewrite (l : Log) : option goerr * Log :=
  match lRewrite l with
  | None => (Some (str "AOF rewrite is not active"), l)
  | Some job =>
      let failed e job l := (Join [Some e; cleanupRewriteLocked job], with_rewrite None l) in
      if lClosed l then failed (str "AOF is closed") job l
      else match lFailed l with
      | Some e => failed (str "AOF is unhealthy: " ++ e) job l
      | None =>
          match deltaErr job with
          | Some e => failed (str "record AOF rewrite delta: " ++ e) job l
          | None =>
              let l := with_writer (GoIO.Flush (lWriter l)) l in
              if GoIO.bwErr (lWriter l) then
                let e := str "flush current AOF before replacement: " ++ disk_error in
                failed e job (with_failed (Some e) l)
              else
                match prepareRewrite job with
                | (Some e, job) => failed e job l
                | (None, job) =>
                    match syscall (GoIO.bwSink (tempWriter job)) with
                    | (Some e, t) =>
                        failed (str "atomically replace AOF: " ++ e)
                          (job_files (with_sink t (tempWriter job)) (deltaWriter job) job) l
                    | (None, t) => let '(r, l) := installRewrite t job l in (r, with_rewrite None l)
                    end
                end
          end
      end
  end.

Definition AbortRewrite (cause : goerr) (l : Log) : option goerr * Log :=
  match lRewrite l with
  | None => (None, l)
  | Some job => (Join [Some cause; cleanupRewriteLocked job], with_rewrite None l)
  end.

(** [Rewrite]: the three steps on the spot.  [StoreMaint.SnapshotEntries] cannot
    fail on a well-formed store, and the kinds of entries are the two known ones. *)
Definition Rewrite (ord : gset gostring -> list gostring) (temp delta : nat) (clk : clock) (s : Store) (l : Log)
    : option (option goerr * Log) :=
  entries ← StoreMaint.SnapshotEntries ord clk s;
  Some (match entries with
  | inl _ => (Some [], l)
  | inr entries =>
      match StartRewrite temp delta entries l with
      | (Some e, l) => (Some e, l)
      | (None, l) =>
          match snapshotWorker l with
          | (Some e, l) => AbortRewrite e l
          | (None, l) => CompleteRewrite l
          end
      end
  end).

(** ** Close

    [Close] first refuses further work, then waits for a running rewrite to end,
    then closes: two steps with other steps in between. *)
Definition closeBegin (l : Log) : Log :=
  mkLog (lWriter l) (lPolicy l) (lClosed l) true (lFailed l) (lRewrite l).

Definition closeEnd (l : Log) : option goerr * Log :=
  let l := mkLog (lWriter l) (lPolicy l) true (lClosing l) (lFailed l) (lRewrite l) in
  let l := with_writer (GoIO.Flush (lWriter l)) l in
  let '(e, l) :=
    if GoIO.bwErr (lWriter l) then (Some (str "flush AOF: " ++ disk_error), l)
    else let '(e, l) := on_file Sync l in (wrapIfError e "sync AOF on close", l) in
  let '(e2, l) := on_file syscall l in
  let '(e3, l) := on_file syscall l in
  (Join [Join [Join [lFailed l; e]; wrapIfError e2 "unlock AOF"]; wrapIfError e3 "close AOF"], l).

End rewrite.

(** Group commit waits only when every batch is synced. *)
Definition GroupCommitDelay (l : Log) : Z :=
  if bool_decide (lPolicy l = SyncAlways) then 250 * 1000 else 0.

(** ** The log as the executor's journal *)
Section journal.
Context `{Unicode} `{Disk}.
(** Map iteration order, and where the outcomes of the files of a rewrite start. *)
Variables (ord : gset gostring -> list gostring) (fresh : Log -> nat * nat).

Definition Log_async : AsyncRewriter Log := {|
  arStart entries l := StartRewrite (fst (fresh l)) (snd (fresh l)) entries l;
  arComplete := CompleteRewrite;
  arAbort := AbortRewrite;
|}.

(** A panic of the snapshot would end the process; it does not happen on a
    well-formed store. *)
Definition Log_journal : Journal Log := {|
  jAppend := Append;
  jBatch := Some AppendBatch;
  jRewrite := Some (fun clk s l => default (None, l) (Rewrite ord (fst (fresh l)) (snd (fresh l)) clk s l));
  jAsync := Some Log_async;
|}.
End journal.

End AofRewrite.
