(* ===== verification/AofRewriteProof.v ===== *)
(** * The rewrite of the append-only file

    The sidecar holds the records of the batches acknowledged while the snapshot is
    written; a rewrite that completes installs the snapshot followed by them, synced;
    one that does not leaves the running log alone. *)

From S2P Require Import Prelude GoTime GoLib GoIO GoIOProof Resp RespStream RespProof ListValue.
From S2P Require Import Store StoreSpec StoreMaint Command CommandProof Executor Aof AofRecords AofLog.
From S2P Require Import AofRecovery AofRewrite.

Module AofRewriteProof.
Import AofFile Aof AofRecords AofLog AofRecovery AofRewrite.

Section rewrite.
Context `{Unicode} `{Disk}.

(** ** The sidecar *)
Definition job_delta (cmds : list Command) (job : rewriteJob) : rewriteJob :=
  match deltaErr job with
  | None =>
      let '(r, w) := writeRecords cmds (deltaWriter job) in
      mkJob (tempWriter job) w (snd <$> r) (jobEntries job)
  | Some _ => job
  end.

Lemma job_delta_nil (j : option rewriteJob) : job_delta [] <$> j = j.
Proof. destruct j as [[? ? [?|] ?]|]; done. Qed.

Lemma record_delta_job cmds l : lRewrite (record_delta cmds l) = job_delta cmds <$> lRewrite l.
Proof.
  unfold record_delta, job_delta. destruct (lRewrite l) as [job|] eqn:Hl; [|done].
  simpl. destruct (deltaErr job) eqn:He; [by rw Hl|]. by destruct (writeRecords _ _).
Qed.

Lemma on_file_rewrite {A} (op : file -> A * file) l a l' : on_file op l = (a, l') -> lRewrite l' = lRewrite l.
Proof. unfold on_file. destruct (op (lFile l)). intros. by simplify_eq. Qed.

Lemma rollback_rewrite offset cause l e l' : rollback offset cause l = (e, l') -> lRewrite l' = lRewrite l.
Proof.
  unfold rollback, on_file, Truncate, Seek, Sync, attempt.
  repeat (destruct (disk_fault _)); intros; by simplify_eq.
Qed.

Lemma AppendBatch_job clk cmds l r l' :
  AppendBatch clk cmds l = (r, l') ->
  lRewrite l' = match r with inr _ => job_delta (valid_commands clk cmds) <$> lRewrite l | inl _ => lRewrite l end.
Proof.
  unfold AppendBatch. fold (valid_commands clk cmds). set (valid := valid_commands clk cmds).
  destruct (_ || _); [intros; by simplify_eq|].
  destruct (lFailed l); [intros; by simplify_eq|].
  destruct cmds as [|c cmds]; [intros; simplify_eq; by rw job_delta_nil|].
  destruct (on_file SeekCurrent l) as [[e|offset] l1] eqn:Hseek; apply on_file_rewrite in Hseek.
  { intros. by simplify_eq. }
  intros Hr. rw -Hseek. clear Hseek. revert Hr.
  destruct (writeRecords valid (lWriter l1)) as [[[cmd e]|] w].
  { destruct (rollback _ _ _) as [e' l2] eqn:Hrb. apply rollback_rewrite in Hrb. intros. by simplify_eq. }
  set (l2 := if bool_decide _ then _ else _). assert (lRewrite l2 = lRewrite l1) as Hl2 by (unfold l2; by case_bool_decide).
  destruct (_ && _).
  { destruct (rollback _ _ _) as [e' l3] eqn:Hrb. apply rollback_rewrite in Hrb. intros. simplify_eq. congruence. }
  destruct (if _ && _ then _ else _) as [r1 l3] eqn:Hsync.
  assert (lRewrite l3 = lRewrite l1) as Hl3.
  { revert Hsync. destruct (_ && _); intros Hs; [|by simplify_eq]. apply on_file_rewrite in Hs. congruence. }
  destruct r1 as [e|].
  { destruct (rollback _ _ _) as [e' l4] eqn:Hrb. apply rollback_rewrite in Hrb. intros. simplify_eq. congruence. }
  intros. simplify_eq. by rw record_delta_job Hl3.
Qed.
(** The sidecar [d0] holds the records of [cmds], as long as it has no error. *)
Definition delta_ok (d0 : file) (cmds : list Command) (job : rewriteJob) : Prop :=
  deltaErr job = None -> wrote d0 (records cmds) (deltaWriter job) /\ GoIO.bwErr (deltaWriter job) = false.

Lemma job_delta_ok d0 cmds new job :
  delta_ok d0 cmds job -> delta_ok d0 (cmds ++ new) (job_delta new job).
Proof.
  unfold delta_ok, job_delta. intros Hd. destruct (deltaErr job) as [e|] eqn:He; [congruence|].
  destruct (Hd eq_refl) as [Hw Hb]. pose proof (writeRecords_spec d0 new (records cmds) (deltaWriter job)) as Hr.
  destruct (writeRecords new (deltaWriter job)) as [r w]. specialize (Hr r w Hw Hb eq_refl).
  destruct r as [[c e]|]; [done|]. intros _. by rw records_app.
Qed.

(** The part of a job the appends leave alone. *)
Definition same_snapshot (job job' : rewriteJob) : Prop :=
  tempWriter job' = tempWriter job /\ jobEntries job' = jobEntries job.

Lemma job_delta_same cmds job : same_snapshot job (job_delta cmds job).
Proof. unfold job_delta, same_snapshot. destruct (deltaErr job); [done|]. by destruct (writeRecords _ _). Qed.

Lemma append_all_job calls l rs l' d0 cmds job :
  append_all calls l = (rs, l') -> lRewrite l = Some job -> delta_ok d0 cmds job ->
  exists job', lRewrite l' = Some job' /\ same_snapshot job job' /\ delta_ok d0 (cmds ++ acked calls rs) job'.
Proof.
  revert l rs cmds job. induction calls as [|[clk batch] calls IH]; intros l rs cmds job; simpl.
  { intros. simplify_eq. exists job. by rw app_nil_r. }
  destruct (AppendBatch clk batch l) as [r l1] eqn:Ha. apply AppendBatch_job in Ha as Hj.
  destruct (append_all calls l1) as [rs1 l2] eqn:Hall. intros [= <- <-] Hl Hd. rw Hl in Hj.
  destruct r as [e|out].
  - by apply (IH l1 rs1 cmds job).
  - simpl in Hj. destruct (IH l1 rs1 _ _ Hall Hj (job_delta_ok _ _ (valid_commands clk batch) _ Hd))
      as (job' & Hl' & [Ht He] & Hd').
    destruct (job_delta_same (valid_commands clk batch) job) as [Ht0 He0].
    exists job'. split_and!; [done|split; congruence|]. by rw -app_assoc in Hd'.
Qed.

(** The log between batches: failed, or at rest and healthy. *)
Lemma append_all_live calls l rs l' :
  append_all calls l = (rs, l') -> clean l -> ~ refuses l ->
  lFailed l' <> None \/
  clean l' /\ ~ refuses l' /\ fData (lFile l') = fData (lFile l) ++ records (acked calls rs).
Proof.
  revert l rs. induction calls as [|[clk batch] calls IH]; intros l rs; simpl.
  { intros. simplify_eq. right. by rw app_nil_r. }
  destruct (AppendBatch clk batch l) as [r l1] eqn:Ha.
  destruct (append_all calls l1) as [rs1 l2] eqn:Hall. intros [= <- <-] Hc Hr.
  pose proof (AppendBatch_spec clk batch l Hc Hr) as Hp. rw Ha in Hp. destruct Hp as [(_ & Hcl & Hcg) Hp].
  destruct r as [e|out].
  - destruct Hp as (Hf & _). assert (refuses l1) as Hr1 by by right.
    destruct (append_all_refused calls l1 Hr1) as (rs' & Hall' & _). left. congruence.
  - destruct Hp as (_ & Hc1 & Hf1 & Hd & _).
    assert (Hr1 : ~ refuses l1) by (intros [?|?]; [apply Hr; left; congruence|done]).
    destruct (IH l1 rs1 Hall Hc1 Hr1) as [?|(? & ? & Hd2)]; [by left|right]. split_and!; [done..|].
    by rw Hd2 Hd records_app -app_assoc.
Qed.

(** ** The snapshot *)
Definition snapshot (entries : list SnapshotEntry) : list Command := mjoin (snapshot_commands <$> entries).

Lemma writeEntries_spec f0 entries total w r w' :
  wrote f0 total w -> GoIO.bwErr w = false -> writeEntries entries w = (r, w') -> r = None ->
  wrote f0 (total ++ records (snapshot entries)) w' /\ GoIO.bwErr w' = false.
Proof.
  revert total w. induction entries as [|en entries IH]; intros total w Hw He; simpl.
  { intros. simplify_eq. change (records (snapshot [])) with (@nil ascii). by rw app_nil_r. }
  unfold writeSnapshotEntry. pose proof (writeRecords_spec f0 (snapshot_commands en) total w) as Hr.
  destruct (writeRecords (snapshot_commands en) w) as [r1 w1]. specialize (Hr r1 w1 Hw He eq_refl).
  destruct r1 as [[c e]|]; simpl; [intros; by simplify_eq|]. destruct Hr as [Hw1 He1]. intros Hall Hn.
  destruct (IH _ _ Hw1 He1 Hall Hn) as [Hw2 He2]. split; [|done].
  unfold snapshot. csimpl. by rw records_app app_assoc.
Qed.

Definition fresh_file (n : nat) : file := mkFile [] 0 [] n.

Lemma NewWriterSize_wrote f size : 0 < size -> at_end f -> wrote f [] (GoIO.NewWriterSize f size).
Proof. intros Hs He. split_and!; [done|simpl; rw len_nil; lia|]. exists [].
  split; [|done]. split_and!; [done| |done..]. by rw app_nil_r.
Qed.

(** A snapshot written out: [t] holds its records and nothing is buffered. *)
Definition written (t0 : file) (cmds : list Command) (w : GoIO.bufWriter file) : Prop :=
  appended t0 (records cmds) (GoIO.bwSink w) /\ GoIO.bwBuf w = [] /\ GoIO.bwErr w = false /\ 0 < GoIO.bwSize w.

Lemma writeSnapshot_spec t0 job job' :
  tempWriter job = GoIO.NewWriterSize t0 rewriteBuffer -> at_end t0 -> writeSnapshot job = (None, job') ->
  written t0 (snapshot (jobEntries job)) (tempWriter job') /\
  deltaWriter job' = deltaWriter job /\ deltaErr job' = deltaErr job.
Proof.
  intros Ht He. unfold writeSnapshot. rw Ht.
  destruct (writeEntries _ _) as [r w] eqn:Hw. destruct r as [e|]; [done|].
  destruct (writeEntries_spec t0 _ [] _ _ _ (NewWriterSize_wrote t0 rewriteBuffer ltac:(done) He) eq_refl Hw eq_refl)
    as [Hwr Herr]. pose proof (Flush_wrote _ _ _ Hwr) as Hf. rw app_nil_l in Hf. pose proof Hwr as (Hsz & _).
  destruct (GoIO.bwErr (GoIO.Flush w)) eqn:Hfe; [done|]. destruct Hf as [Ha Hb]. intros. simplify_eq. simpl.
  split; [|done]. split_and!; [done..|]. by rw Flush_size.
Qed.
(** ** Completion *)
Lemma attempt_same g f : fst (attempt g f) = None -> snd (attempt g f) = next (g f).
Proof. unfold attempt. by destruct (disk_fault _). Qed.

Lemma syscall_data f : fData (snd (syscall f)) = fData f /\ fSynced (snd (syscall f)) = fSynced f /\
  fPos (snd (syscall f)) = fPos f.
Proof. unfold syscall, attempt. by destruct (disk_fault _). Qed.

Lemma copyDelta_spec t0 d c x w d' w' :
  written t0 c w -> fPos d = 0%nat -> fData d = records x -> copyDelta d w = ((false, d'), w') ->
  written t0 (c ++ x) w'.
Proof.
  intros (Ha & Hb & He & Hs) Hp Hd. unfold copyDelta. rw He. pose proof (syscall_data d) as (Hd1 & _ & Hp1).
  destruct (syscall d) as [[e|] d1]; [done|].
  cbn [snd] in Hd1, Hp1. cbv zeta. rw Hp1 Hp Hd1 Hd Hb drop_0.
  destruct (records x) as [|y data] eqn:Hx.
  { intros. simplify_eq. split_and!; try done. by rw records_app Hx app_nil_r. }
  pose proof (file_write t0 (y :: data) _ _ Ha) as Hw. destruct (w_write _ _) as [[n err] f].
  intros. simplify_eq. destruct Hw as [_ Hw]. split_and!; try done. by rw records_app Hx.
Qed.

Lemma prepareRewrite_spec t0 d0 snap delta job job' :
  written t0 snap (tempWriter job) -> wrote d0 (records delta) (deltaWriter job) -> fData d0 = [] ->
  prepareRewrite job = (None, job') ->
  let t := GoIO.bwSink (tempWriter job') in
  fData t = fData t0 ++ records (snap ++ delta) /\ at_end t /\ fSynced t = fData t.
Proof.
  intros Ht Hd H0d. unfold prepareRewrite. apply Flush_wrote in Hd.
  destruct (GoIO.bwErr (GoIO.Flush (deltaWriter job))); [done|]. destruct Hd as [(_ & Hdd & _) _].
  rw H0d app_nil_l in Hdd. unfold Seek.
  match goal with |- context [attempt ?g ?f] => pose proof (attempt_same g f) as Hseek; destruct (attempt g f) as [[e|] d] end;
    [done|]. specialize (Hseek eq_refl). simpl in Hseek.
  cbn [tempWriter job_files]. destruct (copyDelta d (tempWriter job)) as [[err d1] tw] eqn:Hcopy.
  destruct err; [done|]. eapply (copyDelta_spec t0 d snap delta) in Hcopy as (Ha & Hb & He & Hs);
    [|done|by rw Hseek|by rw Hseek]. cbn [tempWriter deltaWriter].
  assert (GoIO.Flush tw = tw) as -> by (unfold GoIO.Flush; by rw He Hb). rw He.
  unfold Sync. match goal with |- context [attempt ?g ?f] => pose proof (attempt_same g f) as Hsync; destruct (attempt g f) as [[e|] t] end;
    [done|]. specialize (Hsync eq_refl). simpl in Hsync. intros. simplify_eq. simpl.
  destruct Ha as (Hend & Hdata & _). by split_and!.
Qed.

(** The log no longer rewrites and either runs on the new file [data] or as it did. *)
Definition completed (l l' : Log) (data : gostring) (r : option goerr) : Prop :=
  lRewrite l' = None /\ same_log l l' /\
  (r = None -> fData (lFile l') = data /\ lFailed l' = None) /\
  (fData (lFile l') = data /\ fSynced (lFile l') = data /\ clean l' \/
   r <> None /\ fData (lFile l') = fData (lFile l) /\ fSynced (lFile l') = fSynced (lFile l) /\ clean l' /\
   (lFailed l' = None \/ lFailed l' = lFailed l)).

Lemma Join_some e es : Join (Some e :: es) <> None.
Proof. unfold Join. simpl. by destruct (omap id es). Qed.

Lemma Join_none es : Join es = None -> Forall (fun e => e = None) es.
Proof.
  unfold Join. destruct (omap id es) as [|e l] eqn:Ho; [|done]. intros _. apply Forall_forall.
  intros [e|] He; [|done]. assert (e ∈ omap id es) as Hin by (apply list_elem_of_omap; by exists (Some e)).
  rw Ho in Hin. by apply not_elem_of_nil in Hin.
Qed.

Lemma installRewrite_spec temp job l r l' :
  at_end temp -> fSynced temp = fData temp -> installRewrite temp job l = (r, l') ->
  same_log l l' /\ fData (lFile l') = fData temp /\ fSynced (lFile l') = fData temp /\ clean l' /\
  (r = None -> lFailed l' = lFailed l).
Proof.
  intros Hend Hs. unfold installRewrite, cleaned. pose proof (syscall_data temp) as (Hd & Hsy & Hp).
  destruct (syscall temp) as [dirErr temp1]. destruct (syscall (lFile l)) as [e1 o1].
  destruct (syscall o1) as [e2 o2]. destruct (syscall (GoIO.bwSink _)) as [e3 d1].
  destruct (syscall d1) as [e4 d2]. destruct (syscall d2) as [e5 d3]. destruct (syscall d3) as [e6 d4].
  intros [= <- <-]. simpl in *. unfold lFile. simpl. split_and!; try done; [congruence| |].
  - constructor; try done. unfold at_end, lFile in *. simpl. congruence.
  - intros Hr. destruct (Join _) as [e|] eqn:Hj; [by apply Join_some in Hr|].
    apply Join_none in Hj. inversion Hj as [|x y Hx Hy]. destruct dirErr; done.
Qed.

Lemma CompleteRewrite_spec t0 d0 snap delta job l r l' :
  lRewrite l = Some job -> clean l -> fData t0 = [] -> fData d0 = [] ->
  written t0 snap (tempWriter job) -> delta_ok d0 delta job -> CompleteRewrite l = (r, l') ->
  completed l l' (records (snap ++ delta)) r.
Proof.
  intros Hl Hc Ht0 Hd0 Ht Hd. unfold CompleteRewrite. rw Hl. cbv zeta.
  assert (Hfail : forall e job l2, lWriter l2 = lWriter l -> same_log l l2 -> lFailed l2 = lFailed l ->
    (Join [Some e; cleanupRewriteLocked job], with_rewrite None l2) = (r, l') ->
    completed l l' (records (snap ++ delta)) r).
  { intros e job2 l2 Hw Hs Hf [= <- <-]. unfold completed, lFile. cbn [lWriter lRewrite with_rewrite lFailed].
    rw Hw. split_and!; [done|done| |].
    - intros Hj. by apply Join_some in Hj.
    - right. split_and!; [apply Join_some|done|done| |auto]. by apply (clean_writer l). }
  destruct (lClosed l); [by apply Hfail|]. destruct (lFailed l) as [e|] eqn:Hf; [apply Hfail; done|].
  destruct (deltaErr job) as [e|] eqn:Hde; [by apply Hfail|]. destruct (Hd Hde) as [Hdw _].
  pose proof Hc as [_ Hb He _]. assert (GoIO.Flush (lWriter l) = lWriter l) as -> by (unfold GoIO.Flush; by rw He Hb).
  cbn [lWriter with_writer]. rw He.
  destruct (prepareRewrite job) as [[e|] job1] eqn:Hprep; [by apply Hfail|].
  destruct (prepareRewrite_spec t0 d0 snap delta job job1 Ht Hdw Hd0 Hprep) as (Hdata & Hend & Hsy).
  rw Ht0 app_nil_l in Hdata.
  pose proof (syscall_data (GoIO.bwSink (tempWriter job1))) as (Hd1 & Hs1 & Hp1).
  destruct (syscall _) as [[e|] t]; [by apply Hfail|]. simpl in *.
  destruct (installRewrite t job1 _) as [r1 l1] eqn:Hins.
  apply installRewrite_spec in Hins as (Hsame & Hdl & Hsl & Hcl & Hfl); [|unfold at_end in *; congruence|congruence].
  intros [= <- <-]. unfold completed. split_and!; [done|done| |].
  - intros Hr. split; [|rw Hfl; done]. change (fData (lFile l1) = records (snap ++ delta)). congruence.
  - left. split_and!; [|change (fSynced (lFile l1) = records (snap ++ delta)); congruence|by apply (clean_writer l1)].
    change (fData (lFile l1) = records (snap ++ delta)). congruence.
Qed.

Lemma CompleteRewrite_failed l job r l' :
  lRewrite l = Some job -> lFailed l <> None -> CompleteRewrite l = (r, l') -> r <> None /\ l' = with_rewrite None l.
Proof.
  intros Hl Hf. unfold CompleteRewrite. rw Hl. cbv zeta.
  destruct (lClosed l); [intros [= <- <-]; split; [apply Join_some|done]|].
  destruct (lFailed l); [|done]. intros [= <- <-]. split; [apply Join_some|done].
Qed.

Lemma createFiles_empty temp delta t d :
  createFiles temp delta = inr (t, d) -> fData t = [] /\ at_end t /\ fData d = [] /\ at_end d.
Proof.
  assert (Hs : forall f, fData f = [] /\ at_end f -> fData (snd (syscall f)) = [] /\ at_end (snd (syscall f))).
  { intros f [Hd He]. destruct (syscall_data f) as (H1 & _ & H2). unfold at_end in *. rw H1 H2. done. }
  unfold createFiles, CreateTemp.
  pose proof (Hs (mkFile [] 0 [] temp) (conj eq_refl eq_refl)) as H1. destruct (syscall _) as [[e|] t1]; [done|].
  specialize (Hs t1 H1) as H2. destruct (syscall t1) as [[e|] t2]; [done|].
  specialize (Hs t2 H2) as H3. destruct (syscall t2) as [[e|] t3]; [done|].
  pose proof (Hs (mkFile [] 0 [] delta) (conj eq_refl eq_refl)) as H4.
  destruct (syscall (mkFile [] 0 [] delta)) as [[e|] d1]; [by destruct (syscall t3)|].
  specialize (Hs d1 H4) as H5. destruct (syscall d1) as [[e|] d2]; [by destruct (syscall t3)|].
  intros [= <- <-]. simpl in *. tauto.
Qed.

Lemma StartRewrite_spec temp delta entries l l1 :
  StartRewrite temp delta entries l = (None, l1) ->
  ~ refuses l /\ exists t d, l1 = with_rewrite (Some (mkJob (GoIO.NewWriterSize t rewriteBuffer)
      (GoIO.NewWriterSize d rewriteBuffer) None entries)) l /\
    fData t = [] /\ at_end t /\ fData d = [] /\ at_end d.
Proof.
  unfold StartRewrite, refuses. destruct (_ || _); [done|]. destruct (lFailed l); [done|].
  destruct (lRewrite l); [done|]. destruct (createFiles temp delta) as [e|[t d]] eqn:Hc; [done|].
  intros [= <-]. split; [by intros [?|?]|]. exists t, d. by apply createFiles_empty in Hc.
Qed.

(** The whole protocol: appends before and after the snapshot is written. *)
Lemma rewrite_spec temp delta entries calls1 calls2 l l1 rs1 l2 l3 rs2 l4 r l5 :
  clean l -> StartRewrite temp delta entries l = (None, l1) -> append_all calls1 l1 = (rs1, l2) ->
  snapshotWorker l2 = (None, l3) -> append_all calls2 l3 = (rs2, l4) -> CompleteRewrite l4 = (r, l5) ->
  let made := acked calls1 rs1 ++ acked calls2 rs2 in
  (lFailed l4 <> None /\ r <> None /\ l5 = with_rewrite None l4) \/
  (fData (lFile l4) = fData (lFile l) ++ records made /\
   completed l4 l5 (records (snapshot entries ++ made)) r).
Proof.
  intros Hc Hstart Ha1 Hwork Ha2 Hcomp made.
  apply StartRewrite_spec in Hstart as (Href & t & d & -> & Ht & Hte & Hd & Hde).
  destruct (append_all_job calls1 _ _ _ d [] _ Ha1 eq_refl) as (job1 & Hl2 & [Htw Hje] & Hdok1).
  { intros _. split; [exact (NewWriterSize_wrote d rewriteBuffer ltac:(done) Hde)|done]. }
  unfold snapshotWorker in Hwork. rw Hl2 in Hwork. destruct (writeSnapshot job1) as [ready job2] eqn:Hws.
  injection Hwork as -> <-. destruct (writeSnapshot_spec t job1 job2 Htw Hte Hws) as (Hwr & Hdw & Hdr).
  rw Hje /= in Hwr.
  assert (Hdok2 : delta_ok d (acked calls1 rs1) job2) by (unfold delta_ok in *; by rw Hdw Hdr).
  destruct (append_all_job calls2 _ _ _ d _ job2 Ha2 eq_refl Hdok2) as (job4 & Hl4 & [Htw4 _] & Hdok4).
  rw -Htw4 in Hwr. fold made in Hdok4.
  assert (Hcl : forall j l, clean l -> clean (with_rewrite j l)) by (intros j l0; by apply clean_writer).
  assert (Hrf : forall j l, ~ refuses l -> ~ refuses (with_rewrite j l)) by done.
  assert (Hlive : lFailed l4 <> None \/ clean l4 /\ fData (lFile l4) = fData (lFile l) ++ records made).
  { destruct (append_all_live calls1 _ _ _ Ha1) as [Hf|(Hc2 & Hr2 & Hd2)]; [by apply Hcl|by apply Hrf| |].
    - left. destruct (append_all_refused calls2 (with_rewrite (Some job2) l2)) as (rs' & Hall & _); [by right|].
      rw Hall in Ha2. by simplify_eq.
    - destruct (append_all_live calls2 _ _ _ Ha2) as [Hf|(Hc4 & Hr4 & Hd4)]; [by apply Hcl|by apply Hrf|by left|right].
      split; [done|]. rw Hd4. change (lFile (with_rewrite (Some job2) l2)) with (lFile l2). rw Hd2.
      by rw -app_assoc -records_app. }
  destruct Hlive as [Hf|[Hc4 Hd4]].
  - left. split; [done|]. by eapply CompleteRewrite_failed.
  - right. split; [done|]. exact (CompleteRewrite_spec t d (snapshot entries) made job4 l4 r l5 Hl4 Hc4 Ht Hd Hwr Hdok4 Hcomp).
Qed.
End rewrite.
End AofRewriteProof.
