(* ===== verification/AofReplay.v ===== *)
(** * What replaying a file rebuilds

    Replaying the commands of a snapshot rebuilds its entries; a command the journal
    passes on without writing it changes nothing. *)

From S2P Require Import Prelude GoTime GoLib GoIO Resp ListValue Store StoreSpec StoreMaint.
From S2P Require Import StoreMaintProof Command CommandProof Executor Aof AofRewriteProof Timeless.
Import StoreSpec.

Module AofReplay.
Import Cmd CommandProof StoreMaintProof Aof AofRewriteProof Timeless.

Section replay.
Context `{Unicode}.

(** ** Sequences of commands *)
Section app.
Context {S : Type} `{StoreOps S}.

(** The clock left after [n] commands. *)
Definition after (n : nat) (clk : clock) : clock := Nat.iter n fork2 clk.

Lemma after_S n clk : after n (fork2 clk) = after (Datatypes.S n) clk.
Proof. unfold after. by rw Nat.iter_succ_r. Qed.

Lemma run_app clk a b (s : S) :
  run clk (a ++ b) s =
    '(v1, s) ← run clk a s; '(v2, s) ← run (after (length a) clk) b s; Some (v1 ++ v2, s).
Proof.
  revert clk s. induction a as [|cmd a IH]; intros clk s; simpl.
  { by destruct (run clk b s) as [[v s']|]. }
  destruct (execute (fork1 clk) cmd s) as [[v s1]|]; [|done]. simpl. rw IH after_S.
  destruct (run (fork2 clk) a s1) as [[v1 s2]|]; [|done]. simpl.
  by destruct (run _ b s2) as [[v2 s3]|].
Qed.
End app.

Section deadlines.
Variables (T : Z) (D : Z -> Prop).
Abbreviation steady := (steady T D).

Lemma steady_after n clk : steady clk -> steady (after n clk).
Proof. intros Hc. induction n as [|n IH]; [done|]. by apply steady_fork2. Qed.

(** ** Snapshots *)

(** A deadline that milliseconds can express. *)
Definition aligned (exp : Z) : Prop := exists ms, in_int64 ms /\ exp = GoTime.ofUnixMilli ms.

Lemma aligned_text exp :
  aligned exp -> exists n, GoLib.ParseInt (GoLib.FormatInt (GoTime.UnixMilli exp)) = Some n /\ GoTime.ofUnixMilli n = exp.
Proof.
  intros (ms & Hms & ->). exists ms. split; [|done]. unfold GoTime.UnixMilli, GoTime.ofUnixMilli.
  rewrite -> Z.div_mul by done. rewrite -> int64_id by done. by apply GoLib.ParseInt_FormatInt.
Qed.

(** An entry that a reader sees for as long as the clocks run. *)
Definition lasting (e : entry) : Prop :=
  GoTime.IsZero (eExp e) = true \/ aligned (eExp e) /\ D (eExp e) /\ T < eExp e.

Lemma lasting_before clk i e :
  steady clk -> lasting e -> GoTime.IsZero (eExp e) = false -> aligned (eExp e) /\ GoTime.Before (clk i) (eExp e) = true.
Proof.
  intros Hc [Hz|(Ha & Hd & Ht)]; [congruence|]. intros _. split; [done|]. unfold GoTime.Before.
  rw (Hc i _ Hd). by apply Z.ltb_lt.
Qed.

Lemma zero_deadline exp : GoTime.IsZero exp = true -> exp = GoTime.zeroTime.
Proof. apply Z.eqb_eq. Qed.

Lemma live_zero now v : live now (Some (mkEntry v GoTime.zeroTime)) = Some (mkEntry v GoTime.zeroTime).
Proof. done. Qed.

(** [DB] maps rebuilt by one command. *)
Definition put (k : gostring) (e : option entry) (db : DB) : DB := partial_alter (fun _ => e) k db.

Lemma put_put k e e' db : put k e (put k e' db) = put k e db.
Proof.
  unfold put. apply map_eq. intros j. destruct (decide (j = k)) as [->|Hne].
  - by rw !lookup_partial_alter_eq.
  - by rewrite -> !lookup_partial_alter_ne by done.
Qed.

Lemma run_pushes k values : forall clk l (db : DB),
  db !! k = list_entry l GoTime.zeroTime ->
  exists vs, run clk ((fun v => mkCommand (str "RPUSH") [k; v]) <$> values) db =
    Some (vs, put k (list_entry (l ++ values) GoTime.zeroTime) db).
Proof.
  induction values as [|v values IH]; intros clk l db Hk.
  { exists []. rw app_nil_r. unfold put. rw -Hk partial_alter_self. done. }
  rw fmap_cons. cbn [run]. set (db1 := put k (list_entry (l ++ [v]) GoTime.zeroTime) db).
  assert (Hex : exists r, execute (fork1 clk) (mkCommand (str "RPUSH") [k; v]) db = Some (r, db1)).
  { change (exists r, ('(r, s) ← on_entry k (spec_ListPush (fork1 clk 0%nat) [v] false false) db;
      Some (match r with inl e => storageError e | inr length => NewInteger length end, s)) = Some (r, db1)).
    unfold on_entry, spec_ListPush. rw Hk. destruct l as [|x l]; [by eexists|]. cbn [list_entry]. rw live_zero.
    by eexists. }
  destruct Hex as [r ->]. cbn [mbind option_bind].
  destruct (IH (fork2 clk) (l ++ [v]) db1) as [vs Hvs]; [by apply lookup_partial_alter_eq|].
  exists (r :: vs). rw Hvs. cbn [mbind option_bind]. unfold db1. by rw put_put -app_assoc.
Qed.

Lemma run_one clk cmd db r db' :
  execute (fork1 clk) cmd db = Some (r, db') -> exists vs, run clk [cmd] db = Some (vs, db').
Proof. intros Hx. simpl. rw Hx. by eexists. Qed.

(** The commands of an entry put it back. *)
Lemma run_entry (clk : clock) (sn : SnapshotEntry) (db : DB) :
  steady clk -> db !! snKey sn = None -> lasting (entry_of sn) -> eVal (entry_of sn) <> VList [] ->
  exists vs, run clk (snapshot_commands sn) db = Some (vs, <[snKey sn := entry_of sn]> db).
Proof.
  destruct sn as [k v exp kind l]. unfold snapshot_commands, entry_of. cbn [snKey snValue snExpiresAt snKind snList].
  intros Hc Hk Hl Hne. destruct (GoTime.IsZero exp) eqn:Hz.
  - apply zero_deadline in Hz as ->. destruct kind.
    + by eapply run_one.
    + rw app_nil_r. destruct (run_pushes k l clk [] db Hk) as [vs Hvs]. exists vs. rw Hvs.
      rw app_nil_l. by destruct l.
  - pose proof (fun i clk Hc => lasting_before clk i _ Hc Hl Hz) as Hb. cbn [eExp] in Hb.
    destruct (Hb 0%nat clk Hc) as [Ha _]. destruct (aligned_text exp Ha) as (n & Hn & Hexp).
    destruct kind.
    + eapply run_one. unfold execute. simpl. unfold handleSet. cbn [set_options].
      change (GoLib.ToUpper (str "PXAT")) with (str "PXAT"). change (named (str "PXAT") "EX") with false.
      change (named (str "PXAT") "PX") with false. change (named (str "PXAT") "PXAT") with true. cbv iota.
      rw Hn Hexp. simpl. unfold on_entry, spec_SetAt. rw (proj2 (Hb _ _ (steady_fork1 _ _ _ Hc))). done.
    + destruct (run_pushes k l clk [] db Hk) as [vs Hvs]. rw run_app Hvs. cbn [mbind option_bind].
      rw app_nil_l. set (clk' := after _ clk). assert (Hc' : steady clk') by by apply steady_after.
      set (db1 := put k _ db). assert (Hk1 : db1 !! k = Some (mkEntry (VList l) GoTime.zeroTime)).
      { unfold db1, put. rw lookup_partial_alter_eq. by destruct l. }
      assert (Hx : execute (fork1 clk') (mkCommand (str "PEXPIREAT") [k; GoLib.FormatInt (GoTime.UnixMilli exp)]) db1 =
        Some (NewInteger 1, <[k := mkEntry (VList l) exp]> db1)).
      { unfold execute. simpl. rw Hn Hexp. simpl. unfold on_entry, spec_ExpireAt. rw Hk1 live_zero.
        rw (proj2 (Hb _ _ (steady_fork1 _ _ _ Hc'))). done. }
      destruct (run_one clk' _ _ _ _ Hx) as [vs' ->]. cbn [mbind option_bind]. eexists. do 2 f_equal.
      unfold db1, put. apply map_eq. intros j. destruct (decide (j = k)) as [->|Hne']; [by rw !lookup_insert_eq|].
      rewrite -> !lookup_insert_ne by done. by rewrite -> lookup_partial_alter_ne by done.
Qed.

Lemma run_snapshot es : forall clk (db : DB),
  steady clk -> NoDup (snKey <$> es) ->
  (forall sn, sn ∈ es -> db !! snKey sn = None /\ lasting (entry_of sn) /\ eVal (entry_of sn) <> VList []) ->
  exists vs db', run clk (snapshot es) db = Some (vs, db') /\
    (forall sn, sn ∈ es -> db' !! snKey sn = Some (entry_of sn)) /\
    (forall k, k ∉ snKey <$> es -> db' !! k = db !! k).
Proof.
  induction es as [|sn es IH]; intros clk db Hc Hnd Hes.
  { exists [], db. split_and!; [done| |done]. by intros sn Hsn%not_elem_of_nil. }
  csimpl in Hnd. apply NoDup_cons in Hnd as [Hnew Hnd].
  destruct (Hes sn) as (Hk & Hl & Hne); [by left|].
  destruct (run_entry clk sn db Hc Hk Hl Hne) as [v1 Hv1].
  destruct (IH (after (length (snapshot_commands sn)) clk) (<[snKey sn := entry_of sn]> db)) as (v2 & db' & Hv2 & Hin & Hout).
  - by apply steady_after.
  - done.
  - intros sn' Hsn'. split; [|apply Hes; by right]. rewrite -> lookup_insert_ne; [apply Hes; by right|].
    intros He. apply Hnew. rw He. apply list_elem_of_fmap. by exists sn'.
  - exists (v1 ++ v2), db'. split_and!.
    + change (snapshot (sn :: es)) with (snapshot_commands sn ++ snapshot es). by rw run_app Hv1 /= Hv2.
    + intros sn' [->|Hsn']%elem_of_cons; [|by apply Hin]. rewrite -> Hout by done. apply lookup_insert_eq.
    + intros k Hk'. csimpl in Hk'. apply not_elem_of_cons in Hk' as [Hne' Hk']. rewrite -> Hout by done.
      by apply lookup_insert_ne.
Qed.
End deadlines.

(** ** Commands the journal does not write *)
Lemma canonical_options_none args now :
  canonical_options args now = None -> forall ttl exp b, exists e, set_options args ttl exp b = inl e.
Proof.
  induction args as [args IH] using (induction_ltof1 _ (@length gostring)). unfold ltof in IH.
  destruct args as [|opt [|a rest]]; intros Hn ttl exp b; [done|simpl; repeat case_match; eauto|].
  assert (Hrest : canonical_options rest now = None -> forall ttl exp b, exists e, set_options rest ttl exp b = inl e)
    by (apply IH; simpl; lia).
  cbn [canonical_options] in Hn. cbn [set_options].
  repeat (destruct (named (GoLib.ToUpper opt) _); [destruct (GoLib.ParseInt a) as [n|]; cbn [mbind option_bind] in Hn;
    [|by eexists]|]); [..|by eexists].
  1,2: destruct (_ || _); [by eexists|]. all: destruct (canonical_options rest now); [done|]; by apply Hrest.
Qed.

Lemma execute_invalid {S : Type} `{StoreOps S} clk cmd now (s : S) :
  canonicalCommand cmd now = None -> IsMutation (cName cmd) = true -> exists v, execute clk cmd s = Some (v, s).
Proof.
  destruct cmd as [name args]. unfold canonicalCommand, execute. cbn [cName cArgs]. intros Hn Hm.
  destruct (named name "SET") eqn:Hset.
  { apply bool_decide_eq_true in Hset as ->. simpl. unfold handleSet. destruct args as [|k [|v opts]]; [by eexists..|].
    destruct (canonical_options opts now) eqn:Ho; [done|].
    destruct (canonical_options_none _ _ Ho 0 GoTime.zeroTime false) as [e ->]. by eexists. }
  destruct (named name "EXPIRE") eqn:Hexp.
  { apply bool_decide_eq_true in Hexp as ->. simpl. unfold handleExpire. destruct args as [|k [|a []]]; try by eexists.
    destruct (GoLib.ParseInt a) as [n|]; [|by eexists]. cbn [mbind option_bind] in Hn.
    destruct (maxSeconds <? n); [by eexists|done]. }
  destruct (named name "DEL") eqn:Hdel.
  { apply bool_decide_eq_true in Hdel as ->. simpl. destruct args; [by eexists|done]. }
  by rw Hm in Hn.
Qed.
End replay.
End AofReplay.
