(* ===== verification/AofOpen.v ===== *)
(** * Opening the append-only file by its path

    The rest of [Open] in [internal/aof/aof.go]: the checks of its arguments, the
    system calls up to the lock, and what is undone when recovery fails.  [Aof.Open]
    is the part on the locked file.  Opening never panics and leaves a well-formed
    store, whatever the file holds. *)

From S2P Require Import Prelude GoTime GoLib GoIO Resp RespLimits ListValue Store StoreSpec StoreProof.
From S2P Require Import StoreRefine Command CommandProof Executor Aof AofRewrite.

(** [os.Stat] finds the file, does not, or fails; the other calls fail or not. *)
Inductive statAnswer := StatFound | StatNotExist | StatError (e : goerr).

#[global] Instance statAnswer_eq_dec : EqDecision statAnswer.
Proof. solve_decision. Defined.

Record pathAnswers := mkPath {
  paPlatform : option goerr;
  paStat : statAnswer;
  paOpenFile : option goerr;
  paLock : option goerr;
}.

Inductive openFailure :=
  | FEmptyPath | FPolicy (policy : gostring) | FPlatform (e : goerr) | FStat (e : goerr)
  | FOpenFile (e : goerr) | FLock (e : goerr)
  | FRecovery (e : Aof.openErr) (unlock close : option goerr).

Module AofOpen.
Import StoreProof AofFile Aof AofRewrite.

Definition parsePolicy (policy : gostring) : option syncPolicy :=
  if bool_decide (policy = str "always") then Some SyncAlways
  else if bool_decide (policy = str "everysec") then Some SyncEverysec
  else if bool_decide (policy = str "no") then Some SyncNo
  else None.

Section open.
Context `{Unicode} `{Disk} {S : Type} `{StoreOps S}.

(** [closeOnError]: the lock is released and the file closed. *)
Definition closeOnError (e : openErr) (f : file) : openFailure * file :=
  let '(unlockErr, f) := syscall f in
  let '(closeErr, f) := syscall f in
  (FRecovery e unlockErr closeErr, f).

Definition OpenPath (a : pathAnswers) (path policy : gostring) (clk : clock) (f : file) (s : S)
    : option ((openFailure + Log) * (file * S)) :=
  let refuse e := Some (inl e, (f, s)) in
  if bool_decide (path = []) then refuse FEmptyPath
  else
    match parsePolicy policy with
    | None => refuse (FPolicy policy)
    | Some policy =>
        match paPlatform a, paStat a, paOpenFile a, paLock a with
        | Some e, _, _, _ => refuse (FPlatform e)
        | None, StatError e, _, _ => refuse (FStat e)
        | None, _, Some e, _ => refuse (FOpenFile e)
        | None, _, None, Some e => refuse (FLock e)
        | None, stat, None, None =>
            '(r, (f, s)) ← Open policy (bool_decide (stat = StatNotExist)) clk f s;
            Some (match r with
                  | inl e => let '(e, f) := closeOnError e f in (inl e, (f, s))
                  | inr l => (inr l, (f, s))
                  end)
        end
    end.
End open.

(** ** Safety *)
Section safety.
Context `{Unicode}.

Lemma execute_wf clk cmd (s : Store) : wf s -> exists v s', Cmd.execute clk cmd s = Some (v, s') /\ wf s'.
Proof.
  intros Hw. destruct (CommandProof.execute_sim rel clk cmd s (abs s) (conj Hw eq_refl)) as (v & s' & db & -> & _ & Hw' & _).
  by exists v, s'.
Qed.

Lemma replay_loop_wf fuel clk total d good (s : Store) :
  wf s -> (length (dreader d) < fuel)%nat ->
  exists r s', replay_loop fuel clk total d good s = Some (r, s') /\ wf s'.
Proof.
  revert clk d good s. induction fuel as [|fuel IH]; intros clk d good s Hw Hf; [lia|]. cbn [replay_loop].
  destruct (Resp.Decode d) as [[e|v] d'] eqn:Hd; [by do 2 eexists|].
  destruct (_ <=? _); [by do 2 eexists|]. destruct (Cmd.Parse v) as [e|cmd]; [by do 2 eexists|].
  destruct (negb _); [by do 2 eexists|].
  destruct (execute_wf (fork1 clk) cmd s Hw) as (r & s1 & -> & Hw1). cbn [mbind option_bind].
  apply IH; [done|]. apply RespLimits.Decode_progress in Hd. unfold len in Hd. lia.
Qed.

Lemma Open_wf `{Disk} policy created clk f (s : Store) :
  wf s -> exists r f' s', Open policy created clk f s = Some (r, (f', s')) /\ wf s'.
Proof.
  intros Hw. unfold Open, recover. destruct (Seek 0 f) as [[e|] f1]; cbn [mbind option_bind]; [by do 3 eexists|].
  destruct (readAll f1) as [[data failed] f2]. clear f1. rename f2 into f1. unfold replay.
  destruct (replay_loop_wf (Datatypes.S (length data)) clk (len data)
              (NewDecoderWithLimit data maxRecordBytes) 0 s Hw ltac:(cbn; lia)) as (r & s1 & -> & Hw1).
  cbn [mbind option_bind]. destruct r as [e|[good offset]]; cbn [mbind option_bind]; [by do 3 eexists|].
  destruct failed as [e|]; cbn [mbind option_bind]; [by do 3 eexists|].
  assert (Hrest : forall f, exists r f' s',
    match Seek (length (fData f)) f with
    | (Some e, f) => Some (inl (OFile e), (f, s1))
    | (None, f) =>
        let '(e, f) := if (created : bool) then attempt (fun f => f) f else (None, f) in
        match e with
        | Some e => Some (inl (OFile e), (f, s1))
        | None => Some (inr (mkLog (GoIO.NewWriter f) policy false false None None), (f, s1))
        end
    end = Some (r, (f', s')) /\ wf s').
  { intros f2. destruct (Seek _ f2) as [[e|] f3]; [by do 3 eexists|].
    destruct (if created then _ else _) as [[e|] f4]; by do 3 eexists. }
  destruct (offset =? good); cbn [mbind option_bind]; [apply Hrest|].
  destruct (Truncate _ f1) as [[e|] f2]; cbn [mbind option_bind fmap option_fmap option_map]; [by do 3 eexists|apply Hrest].
Qed.

Lemma OpenPath_wf `{Disk} a path policy clk f (s : Store) :
  wf s -> exists r f' s', OpenPath a path policy clk f s = Some (r, (f', s')) /\ wf s'.
Proof.
  intros Hw. unfold OpenPath. case_bool_decide; [by do 3 eexists|]. destruct (parsePolicy policy) as [p|]; [|by do 3 eexists].
  assert (Hrun : forall created, exists r f' s',
    ('(r, (f, s)) ← Open p created clk f s;
     Some (match r with
           | inl e => let '(e, f) := closeOnError e f in (inl e, (f, s))
           | inr l => (inr l, (f, s))
           end)) = Some (r, (f', s')) /\ wf s').
  { intros created. destruct (Open_wf p created clk f s Hw) as (r & f' & s' & -> & Hw'). cbn [mbind option_bind].
    destruct r as [e|l]; [destruct (closeOnError e f') as [? ?]|]; by do 3 eexists. }
  destruct (paPlatform a), (paStat a), (paOpenFile a), (paLock a); first [apply Hrun|by do 3 eexists].
Qed.
End safety.

End AofOpen.
