(* ===== verification/FileLock.v ===== *)
(** * The lock on the append-only file

    [internal/aof/lock_linux.go] and [sync_directory_linux.go] with their versions for
    other platforms, and the system calls of [Open], [StartRewrite],
    [CompleteRewrite], [AbortRewrite] and [Close] in [internal/aof/aof.go] that create,
    lock, rename and close files, by any number of processes that use one path.  The
    file system is the interface [FileSystem]; the contents of the files are in [Aof]
    and [AofRewrite]. *)

From S2P Require Import Prelude Executor AofRewrite.

(** A directory and the open file descriptions of all processes, known by numbers:
    which file (inode) a name stands for, which file a description is open on, and
    which description holds the lock of a file.  A call that fails changes nothing,
    except that a description is gone after [close]. *)
Class FileSystem (W : Type) := {
  OpenFile : gostring -> W -> (goerr + nat) * W;
  CreateTemp : gostring -> W -> (goerr + nat * gostring) * W;
  FlockExclusive : nat -> W -> option goerr * W;
  FlockRelease : nat -> W -> option goerr * W;
  CloseFile : nat -> W -> option goerr * W;
  Rename : gostring -> gostring -> W -> option goerr * W;
  Remove : gostring -> W -> option goerr * W;
  names : W -> gmap gostring nat;
  inode : W -> gmap nat nat;
  holder : W -> gmap nat nat;
  view w := (names w, inode w, holder w);
  holder_open w i fd : holder w !! i = Some fd -> inode w !! fd = Some i;
  open_effect path w :
    match OpenFile path w with
    | (inl _, w') => view w' = view w
    | (inr fd, w') => inode w !! fd = None /\ exists i,
        (names w !! path = Some i \/ names w !! path = None) /\
        view w' = (<[path := i]> (names w), <[fd := i]> (inode w), holder w)
    end;
  temp_effect path w :
    match CreateTemp path w with
    | (inl _, w') => view w' = view w
    | (inr (fd, name), w') => inode w !! fd = None /\ names w !! name = None /\ exists i,
        view w' = (<[name := i]> (names w), <[fd := i]> (inode w), holder w)
    end;
  flock_effect fd w :
    match FlockExclusive fd w with
    | (Some _, w') => view w' = view w
    | (None, w') => exists i, inode w !! fd = Some i /\
        (holder w !! i = None \/ holder w !! i = Some fd) /\
        view w' = (names w, inode w, <[i := fd]> (holder w))
    end;
  release_effect fd w :
    match FlockRelease fd w with
    | (Some _, w') => view w' = view w
    | (None, w') => view w' = (names w, inode w, filter (fun lock => lock.2 <> fd) (holder w))
    end;
  close_effect fd w :
    view (CloseFile fd w).2 = (names w, delete fd (inode w), filter (fun lock => lock.2 <> fd) (holder w));
  rename_effect old new w :
    match Rename old new w with
    | (Some _, w') => view w' = view w
    | (None, w') => exists i, names w !! old = Some i /\
        view w' = (<[new := i]> (delete old (names w)), inode w, holder w)
    end;
  remove_effect name w :
    match Remove name w with
    | (Some _, w') => view w' = view w
    | (None, w') => view w' = (delete name (names w), inode w, holder w)
    end;
}.

(** Build constraints: [lock_linux.go] or [lock_other.go]. *)
Inductive platform := Linux | OtherPlatform.

(** Where a process is with its log: what it does next. *)
Inductive process :=
  | PDown                                      (* no log: [Open] may be called *)
  | POpened (fd : nat)                         (* [Open]: about to lock *)
  | PRecovering (fd : nat)                     (* [Open]: locked, replaying *)
  | PReleasing (fd : nat)                      (* [closeOnError] or [Close]: about to unlock *)
  | PUnlocked (fd : nat)                       (* about to close the file *)
  | POpen (fd : nat)                           (* the log is open *)
  | PTemp (fd temp : nat) (name : gostring)    (* [StartRewrite]: about to lock the new file *)
  | PRewriting (fd temp : nat) (name : gostring)
  | PAborting (fd temp : nat) (name : gostring)    (* about to unlock the new file *)
  | PDiscarding (fd temp : nat) (name : gostring)  (* about to close the new file *)
  | PRemoving (fd : nat) (name : gostring)         (* about to remove its name *)
  | PReplaced (old new : nat)                  (* renamed: about to unlock the old file *)
  | PReplacedUnlocked (old new : nat)          (* about to close the old file *)
  | PKilled (fds : list nat).                  (* the kernel closes what it had open *)

Module FileLock.

Definition unsupported : goerr := str "AOF persistence is currently supported only on Linux".

Section processes.
Context {W : Type} `{FileSystem W} (plat : platform) (path : gostring).

Definition ensurePlatform : option goerr :=
  match plat with Linux => None | OtherPlatform => Some unsupported end.

Definition lockFile (fd : nat) (w : W) : option goerr * W :=
  match plat with Linux => FlockExclusive fd w | OtherPlatform => (Some unsupported, w) end.

Definition unlockFile (fd : nat) (w : W) : option goerr * W :=
  match plat with Linux => FlockRelease fd w | OtherPlatform => (Some unsupported, w) end.

(** [syncDirectory], given what opening, syncing and closing the directory answer. *)
Definition syncDirectory (opened synced closed : option goerr) : option goerr :=
  match plat with
  | OtherPlatform => Some unsupported
  | Linux => match opened with Some e => Some e | None => AofRewrite.Join [synced; closed] end
  end.

(** ** The calls that decide who has the file *)

(** [Open] creates or opens the file. *)
Definition opening (w : W) : process * W :=
  match ensurePlatform with
  | Some _ => (PDown, w)
  | None => match OpenFile path w with (inl _, w) => (PDown, w) | (inr fd, w) => (POpened fd, w) end
  end.

(** [Open] locks it, or closes it again. *)
Definition locking (fd : nat) (w : W) : process * W :=
  match lockFile fd w with (Some _, w) => (PUnlocked fd, w) | (None, w) => (PRecovering fd, w) end.

(** [StartRewrite] creates the new file. *)
Definition creating (fd : nat) (w : W) : process * W :=
  match CreateTemp path w with
  | (inl _, w) => (POpen fd, w)
  | (inr (temp, name), w) => (PTemp fd temp name, w)
  end.

(** [StartRewrite] locks it, or discards it. *)
Definition locking_temp (fd temp : nat) (name : gostring) (w : W) : process * W :=
  match lockFile temp w with
  | (Some _, w) => (PDiscarding fd temp name, w)
  | (None, w) => (PRewriting fd temp name, w)
  end.

(** [CompleteRewrite] installs it, or cleans up. *)
Definition replacing (fd temp : nat) (name : gostring) (w : W) : process * W :=
  match Rename name path w with
  | (Some _, w) => (PAborting fd temp name, w)
  | (None, w) => (PReplaced fd temp, w)
  end.

(** The next call of a process.  [choice] is what else decides: whether recovery
    succeeds, a rewrite starts or the log is closed, the new file can be made
    private, and the rewrite gets as far as the rename. *)
Definition next (choice : bool) (pr : process) (w : W) : process * W :=
  match pr with
  | PDown => opening w
  | POpened fd => locking fd w
  | PRecovering fd => (if choice then POpen fd else PReleasing fd, w)
  | PReleasing fd => let '(_, w) := unlockFile fd w in (PUnlocked fd, w)
  | PUnlocked fd => let '(_, w) := CloseFile fd w in (PDown, w)
  | POpen fd => if choice then creating fd w else (PReleasing fd, w)
  | PTemp fd temp name => if choice then locking_temp fd temp name w else (PDiscarding fd temp name, w)
  | PRewriting fd temp name => if choice then replacing fd temp name w else (PAborting fd temp name, w)
  | PAborting fd temp name => let '(_, w) := unlockFile temp w in (PDiscarding fd temp name, w)
  | PDiscarding fd temp name => let '(_, w) := CloseFile temp w in (PRemoving fd name, w)
  | PRemoving fd name => let '(_, w) := Remove name w in (POpen fd, w)
  | PReplaced old new => let '(_, w) := unlockFile old w in (PReplacedUnlocked old new, w)
  | PReplacedUnlocked old new => let '(_, w) := CloseFile old w in (POpen new, w)
  | PKilled [] => (PDown, w)
  | PKilled (fd :: fds) => let '(_, w) := CloseFile fd w in (PKilled fds, w)
  end.

(** The descriptions a process has. *)
Definition descriptors (pr : process) : list nat :=
  match pr with
  | PDown => []
  | POpened fd | PRecovering fd | PReleasing fd | PUnlocked fd | POpen fd | PRemoving fd _ => [fd]
  | PTemp fd temp _ | PRewriting fd temp _ | PAborting fd temp _ | PDiscarding fd temp _ => [fd; temp]
  | PReplaced old new | PReplacedUnlocked old new => [old; new]
  | PKilled fds => fds
  end.

(** [l.file] of an open log. *)
Definition log_file (pr : process) : option nat :=
  match pr with
  | POpen fd | PTemp fd _ _ | PRewriting fd _ _ | PAborting fd _ _ | PDiscarding fd _ _ | PRemoving fd _ => Some fd
  | PReplaced _ new | PReplacedUnlocked _ new => Some new
  | _ => None
  end.

(** The description through which a process recovers or appends. *)
Definition in_use (pr : process) : option nat :=
  match pr with PRecovering fd => Some fd | _ => log_file pr end.

(** ** Several processes *)
Record system := mkSystem { world : W; procs : gmap nat process }.

Definition proc (s : system) (i : nat) : process := default PDown (procs s !! i).

(** A process makes its next call, or is killed. *)
Inductive event := Turn (i : nat) (choice : bool) | Kill (i : nat).

Definition step (ev : event) (s : system) : system :=
  match ev with
  | Turn i choice =>
      let '(pr, w) := next choice (proc s i) (world s) in mkSystem w (<[i := pr]> (procs s))
  | Kill i => mkSystem (world s) (<[i := PKilled (descriptors (proc s i))]> (procs s))
  end.

Definition run (evs : list event) (s : system) : system := foldl (fun s ev => step ev s) s evs.

(** No rename while another process is between opening and locking the file. *)
Definition careful (ev : event) (s : system) : Prop :=
  match ev with
  | Turn i true =>
      match proc s i with PRewriting _ _ _ => forall j fd, proc s j <> POpened fd | _ => True end
  | _ => True
  end.

Fixpoint careful_run (evs : list event) (s : system) : Prop :=
  match evs with [] => True | ev :: evs' => careful ev s /\ careful_run evs' (step ev s) end.
End processes.
End FileLock.
