(* ===== verification/FileLockProof.v ===== *)
(** * Who holds the lock

    A description that a process relies on holds the lock of its file, and every lock
    belongs to a description of a process.  As long as nobody renames a file over one
    that another process has opened and not yet locked, an open log is on the file
    its path stands for. *)

From S2P Require Import Prelude Executor FileLock.

Module FileLockProof.
Import FileLock.

(** The descriptions that must hold the lock of their files. *)
Definition locked (pr : process) : list nat :=
  match pr with
  | PRecovering fd | PReleasing fd | POpen fd | PTemp fd _ _ | PDiscarding fd _ _ | PRemoving fd _ => [fd]
  | PRewriting fd temp _ | PAborting fd temp _ => [temp; fd]
  | PReplaced old new => [old; new]
  | PReplacedUnlocked _ new => [new]
  | _ => []
  end.

Section locks.
Context {W : Type} `{FileSystem W} (plat : platform) (path : gostring).
Implicit Types (w : W) (ds ls : list nat) (fd : nat).

(** ** One process *)
Definition held w fd : Prop := exists i, inode w !! fd = Some i /\ holder w !! i = Some fd.

Record good w ds ls : Prop := {
  gd_open : Forall (fun fd => is_Some (inode w !! fd)) ds;
  gd_nodup : NoDup ds;
  gd_held : Forall (held w) ls;
}.

(** What the others see of a call of a process with [ds] before and [ds'] after. *)
Record moves w w' ds ds' : Prop := {
  mv_others fd : (fd ∉ ds) -> is_Some (inode w !! fd) ->
    (fd ∉ ds') /\ inode w' !! fd = inode w !! fd /\ forall i, holder w' !! i = Some fd <-> holder w !! i = Some fd;
  mv_locks i fd : holder w' !! i = Some fd -> fd ∈ ds' \/ (fd ∉ ds) /\ holder w !! i = Some fd;
}.

Definition same w w' : Prop := inode w' = inode w /\ holder w' = holder w.
Definition without fd (locks : gmap nat nat) : gmap nat nat := filter (fun lock => lock.2 <> fd) locks.

Lemma without_Some fd locks i fd' : without fd locks !! i = Some fd' <-> locks !! i = Some fd' /\ fd' <> fd.
Proof. unfold without. by rewrite -> map_lookup_filter_Some. Qed.

Lemma moves_same w w' ds : same w w' -> moves w w' ds ds.
Proof.
  intros [Hi Hl]. split; rw ?Hi ?Hl; [done|]. intros i fd Hf. destruct (decide (fd ∈ ds)); [by left|by right].
Qed.

Lemma good_same w w' ds ls ls' : good w ds ls -> same w w' -> ls' ⊆ ls -> good w' ds ls'.
Proof.
  intros [Ho Hn Hh] [Hi Hl] Hsub. split; [by rw Hi|done|].
  apply Forall_forall. intros fd Hfd%Hsub. unfold held. rw Hi Hl. by rewrite -> Forall_forall in Hh; apply Hh.
Qed.

Lemma good_open w w' ds ls fd i :
  good w ds ls -> inode w !! fd = None -> inode w' = <[fd := i]> (inode w) -> holder w' = holder w ->
  good w' (ds ++ [fd]) ls /\ moves w w' ds (ds ++ [fd]).
Proof.
  intros [Ho Hn Hh] Hf Hi Hl.
  assert (Hne : forall fd', is_Some (inode w !! fd') -> fd <> fd') by (intros fd' [? ?] ->; congruence).
  assert (Hds : fd ∉ ds) by (intros Hin; rewrite -> Forall_forall in Ho; by eapply Hne; [apply Ho|]).
  split; split.
  - rw Hi. apply Forall_app. split; [|by rw Forall_singleton lookup_insert_eq].
    eapply Forall_impl; [exact Ho|]. intros fd' Hs. cbn beta. rewrite -> lookup_insert_ne by (by apply Hne). done.
  - apply NoDup_app. split_and!; [done| |apply NoDup_singleton]. by intros fd' Hd ->%list_elem_of_singleton.
  - eapply Forall_impl; [exact Hh|]. intros fd' (j & Hj & Hjh). exists j. rw Hi Hl.
    rewrite -> lookup_insert_ne; [done|]. by apply Hne.
  - intros fd' Hd Hs. apply Hne in Hs as Hx. rw Hi Hl. rewrite -> lookup_insert_ne by done. split; [|done].
    rewrite -> elem_of_app, list_elem_of_singleton. naive_solver.
  - intros j fd' Hj. rw Hl in Hj. destruct (decide (fd' ∈ ds)) as [Hd|Hd]; [left|by right].
    apply elem_of_app. by left.
Qed.

Lemma good_lock w w' ds ls fd i :
  good w ds ls -> fd ∈ ds -> inode w !! fd = Some i -> holder w !! i = None \/ holder w !! i = Some fd ->
  inode w' = inode w -> holder w' = <[i := fd]> (holder w) ->
  good w' ds (fd :: ls) /\ moves w w' ds ds.
Proof.
  intros [Ho Hn Hh] Hd Hfd Hfree Hi Hl.
  assert (Hiff : forall fd' j, fd' <> fd -> (<[i := fd]> (holder w) !! j = Some fd' <-> holder w !! j = Some fd')).
  { intros fd' j Hne. destruct (decide (j = i)) as [->|Hj]; [|by rewrite -> lookup_insert_ne].
    rw lookup_insert_eq. destruct Hfree as [-> | ->]; naive_solver. }
  split; split; rw ?Hi; try done.
  - apply Forall_cons. split; [exists i; by rw Hi Hl lookup_insert_eq|].
    eapply Forall_impl; [exact Hh|]. intros fd' (j & Hj & Hjh). exists j. rw Hi Hl. split; [done|].
    destruct (decide (fd' = fd)) as [->|Hne]; [|by apply Hiff]. assert (j = i) as -> by congruence. by rw lookup_insert_eq.
  - intros fd' Hd' _. split_and!; [done..|]. intros j. rw Hl. apply Hiff. by intros ->.
  - intros j fd' Hj. rw Hl in Hj. destruct (decide (fd' ∈ ds)) as [Hx|Hx]; [by left|right]. split; [done|].
    eapply Hiff; [|exact Hj]. by intros ->.
Qed.

Lemma good_release w w' ds ls ls' fd :
  good w ds ls -> fd ∈ ds -> ls' ⊆ ls -> (fd ∉ ls') -> inode w' = inode w -> holder w' = without fd (holder w) ->
  good w' ds ls' /\ moves w w' ds ds.
Proof.
  intros [Ho Hn Hh] Hd Hsub Hout Hi Hl. split; split; rw ?Hi; try done.
  - apply Forall_forall. intros fd' Hfd. rewrite -> Forall_forall in Hh.
    destruct (Hh _ (Hsub _ Hfd)) as (j & Hj & Hjh). exists j. rw Hi Hl. split; [done|]. apply without_Some.
    split; [done|]. by intros ->.
  - intros fd' Hd' _. split_and!; [done..|]. intros j. rw Hl without_Some. split; [tauto|]. intros Hj. split; [done|].
    by intros ->.
  - intros j fd' Hj. rw Hl in Hj. apply without_Some in Hj as [Hj _]. destruct (decide (fd' ∈ ds)); [by left|by right].
Qed.

Lemma good_close w w' ds ds' ls ls' fd :
  good w ds ls -> ds ≡ₚ fd :: ds' -> ls' ⊆ ls -> (fd ∉ ls') ->
  inode w' = delete fd (inode w) -> holder w' = without fd (holder w) ->
  good w' ds' ls' /\ moves w w' ds ds'.
Proof.
  intros [Ho Hn Hh] Hp Hsub Hout Hi Hl. rw Hp in Ho. rw Hp in Hn.
  apply NoDup_cons in Hn as [Hfd Hn]. apply Forall_cons in Ho as [_ Ho].
  assert (Hmem : forall fd', fd' ∈ ds <-> fd' = fd \/ fd' ∈ ds') by (intros fd'; by rw Hp elem_of_cons).
  split; split.
  - apply Forall_forall. intros fd' Hd'. rewrite -> Forall_forall in Ho. rw Hi.
    rewrite -> lookup_delete_ne by (by intros ->). by apply Ho.
  - done.
  - apply Forall_forall. intros fd' Hf. rewrite -> Forall_forall in Hh. destruct (Hh _ (Hsub _ Hf)) as (j & Hj & Hjh).
    assert (fd' <> fd) by (by intros ->). exists j. rw Hi Hl. rewrite -> lookup_delete_ne by done.
    split; [done|]. by apply without_Some.
  - intros fd' Hd' _. rewrite -> Hmem in Hd'. rw Hi Hl. rewrite -> lookup_delete_ne by naive_solver.
    split_and!; [tauto|done|]. intros j. rewrite -> without_Some. naive_solver.
  - intros j fd' Hj. rw Hl in Hj. apply without_Some in Hj as [Hj Hne]. rewrite -> Hmem.
    destruct (decide (fd' ∈ ds')); [by left|]. right. naive_solver.
Qed.

(** ** The calls *)
Lemma view_same w w' : view w' = view w -> names w' = names w /\ same w w'.
Proof. intros Hv. injection Hv as Hn Hi Hh. done. Qed.

Lemma lockFile_spec fd w :
  match lockFile plat fd w with
  | (Some _, w') => names w' = names w /\ same w w'
  | (None, w') => names w' = names w /\ inode w' = inode w /\ exists i, inode w !! fd = Some i /\
      (holder w !! i = None \/ holder w !! i = Some fd) /\ holder w' = <[i := fd]> (holder w)
  end.
Proof.
  unfold lockFile. destruct plat; [|done]. pose proof (flock_effect fd w) as He.
  destruct (FlockExclusive fd w) as [[e|] w']; [by apply view_same|].
  destruct He as (i & Hi & Hf & Hv). injection Hv as -> -> ->. split_and!; [done..|]. by exists i.
Qed.

Lemma unlockFile_spec fd w :
  let '(e, w') := unlockFile plat fd w in
  names w' = names w /\ (same w w' \/ inode w' = inode w /\ holder w' = without fd (holder w)).
Proof.
  unfold unlockFile. destruct plat; [|split; [done|by left]]. pose proof (release_effect fd w) as He.
  destruct (FlockRelease fd w) as [[e|] w']; [apply view_same in He as [-> Hs]; by split; [|left]|].
  injection He as -> -> ->. split; [done|by right].
Qed.

Lemma unlockFile_names fd w :
  names (unlockFile plat fd w).2 = names w /\ inode (unlockFile plat fd w).2 = inode w.
Proof.
  pose proof (unlockFile_spec fd w) as He. destruct (unlockFile plat fd w) as [e w'].
  destruct He as [Hn [[Hi _]|[Hi _]]]; by split.
Qed.

Lemma CloseFile_spec fd w :
  let '(e, w') := CloseFile fd w in
  names w' = names w /\ inode w' = delete fd (inode w) /\ holder w' = without fd (holder w).
Proof. pose proof (close_effect fd w) as He. destruct (CloseFile fd w) as [e w']. by injection He as -> -> ->. Qed.

(** Unlocking, whether it succeeds or not. *)
Lemma good_unlock w w' ds ls ls' fd :
  good w ds ls -> fd ∈ ds -> ls' ⊆ ls -> (fd ∉ ls') ->
  same w w' \/ inode w' = inode w /\ holder w' = without fd (holder w) ->
  good w' ds ls' /\ moves w w' ds ds.
Proof.
  intros Hg Hd Hsub Hout [Hs|[Hi Hh]]; [split; [by eapply good_same|by apply moves_same]|by eapply good_release].
Qed.

Lemma pair_distinct (a b : nat) : NoDup [a; b] -> a <> b.
Proof. intros [Ha _]%NoDup_cons. set_solver. Qed.

Definition well (pr : process) w : Prop := good w (descriptors pr) (locked pr).

Ltac unlocks fd w :=
  let He := fresh "He" in
  pose proof (unlockFile_spec fd w) as He; destruct (unlockFile plat fd w) as [? ?]; destruct He as [_ He];
  eapply good_unlock; try done; set_solver.
Ltac closes fd w :=
  let He := fresh "He" in
  pose proof (CloseFile_spec fd w) as He; destruct (CloseFile fd w) as [? ?]; destruct He as (_ & ? & ?);
  eapply good_close; try done; first [apply Permutation_swap|set_solver].
Ltac locks fd w :=
  let He := fresh "He" in
  pose proof (lockFile_spec fd w) as He; destruct (lockFile plat fd w) as [[?|] ?];
  [|destruct He as (_ & ? & ? & ? & ? & ?); eapply good_lock; try done; set_solver].
Ltac distinct Hg := pose proof (pair_distinct _ _ (gd_nodup _ _ _ Hg)).

Lemma next_well choice pr w :
  well pr w -> let '(pr', w') := next plat path choice pr w in
  well pr' w' /\ moves w w' (descriptors pr) (descriptors pr').
Proof.
  unfold well. intros Hg.
  assert (Hstay : forall w' ls', same w w' -> ls' ⊆ locked pr ->
    good w' (descriptors pr) ls' /\ moves w w' (descriptors pr) (descriptors pr)).
  { intros w' ls' Hs Hl. split; [by eapply good_same|by apply moves_same]. }
  destruct pr as [|fd|fd|fd|fd|fd|fd t n|fd t n|fd t n|fd t n|fd n|old new|old new|[|fd fds]];
    cbn [next descriptors locked] in *;
    unfold opening, locking, creating, locking_temp, replacing.
  - destruct (ensurePlatform plat); [by apply Hstay|]. pose proof (open_effect path w) as He.
    destruct (OpenFile path w) as [[e|fd] w']; [apply view_same in He as [_ He]; by apply Hstay|].
    destruct He as (Hf & i & _ & Hv). injection Hv as _ Hi Hh. by apply (good_open w w' [] [] fd i).
  - locks fd w. apply Hstay; [apply He|done].
  - destruct choice; by apply Hstay.
  - unlocks fd w.
  - closes fd w.
  - destruct choice; [|by apply Hstay]. pose proof (temp_effect path w) as He.
    destruct (CreateTemp path w) as [[e|[t n]] w']; [apply view_same in He as [_ He]; by apply Hstay|].
    destruct He as (Hf & _ & i & Hv). injection Hv as _ Hi Hh. by apply (good_open w w' [fd] [fd] t i).
  - destruct choice; [|by apply Hstay].
    locks t w. apply Hstay; [apply He|done].
  - destruct choice; [|by apply Hstay]. pose proof (rename_effect n path w) as He.
    destruct (Rename n path w) as [[e|] w']; [apply view_same in He as [_ He]; by apply Hstay|].
    destruct He as (i & _ & Hv). injection Hv as _ Hi Hh. apply Hstay; [done|set_solver].
  - distinct Hg. unlocks t w.
  - distinct Hg. closes t w.
  - pose proof (remove_effect n w) as He.
    destruct (Remove n w) as [[e|] w']; [apply view_same in He as [_ He]; by apply Hstay|].
    injection He as _ Hi Hh. by apply Hstay.
  - distinct Hg. unlocks old w.
  - distinct Hg. closes old w.
  - by apply Hstay.
  - closes fd w.
Qed.

(** ** All processes *)
Record locks_ok (s : system (W := W)) : Prop := {
  lk_well i : well (proc s i) (world s);
  lk_apart i j fd : fd ∈ descriptors (proc s i) -> fd ∈ descriptors (proc s j) -> i = j;
  lk_owned n fd : holder (world s) !! n = Some fd -> exists i, fd ∈ descriptors (proc s i);
}.

Lemma proc_insert w ps i pr j : proc (mkSystem w (<[i := pr]> ps)) j = if decide (j = i) then pr else proc (mkSystem w ps) j.
Proof.
  unfold proc. cbn [procs]. case_decide as Hj; [by rw Hj lookup_insert_eq|]. by rewrite -> lookup_insert_ne.
Qed.

(** Everything of another process is as it was. *)
Lemma well_moves pr w w' ds ds' :
  well pr w -> (forall fd, fd ∈ descriptors pr -> fd ∉ ds) -> moves w w' ds ds' ->
  well pr w' /\ (forall fd, fd ∈ descriptors pr -> fd ∉ ds').
Proof.
  intros [Ho Hn Hh] Hap [Hm _]. rewrite -> Forall_forall in Ho. split; [split|].
  - apply Forall_forall. intros fd Hd. destruct (Hm fd (Hap fd Hd) (Ho fd Hd)) as (_ & -> & _). by apply Ho.
  - done.
  - apply Forall_forall. intros fd Hl. rewrite -> Forall_forall in Hh. destruct (Hh fd Hl) as (i & Hi & Hf).
    assert (Hd : fd ∈ descriptors pr) by (destruct pr; cbn [locked descriptors] in *; set_solver).
    destruct (Hm fd (Hap fd Hd) (Ho fd Hd)) as (_ & He & Hiff). exists i. rw He. split; [done|]. by apply Hiff.
  - intros fd Hd. by destruct (Hm fd (Hap fd Hd) (Ho fd Hd)) as (? & _).
Qed.

Lemma step_locks ev s : locks_ok s -> locks_ok (step plat path ev s).
Proof.
  intros [Hw Ha Hown]. destruct ev as [i choice|i]; cbn [step].
  - pose proof (next_well choice _ _ (Hw i)) as Hx.
    destruct (next plat path choice (proc s i) (world s)) as [pr w'] eqn:He. destruct Hx as [Hpr Hm].
    assert (Hother : forall j, j <> i -> well (proc s j) w' /\ forall fd, fd ∈ descriptors (proc s j) -> fd ∉ descriptors pr).
    { intros j Hj. eapply well_moves; [apply Hw| |exact Hm]. intros fd Hd Hd'. apply Hj. by eapply Ha. }
    assert (Hp : forall j, proc (mkSystem w' (<[i := pr]> (procs s))) j = if decide (j = i) then pr else proc s j)
      by (intros j; apply proc_insert).
    split; cbn [world].
    + intros j. rw Hp. case_decide; [done|by apply Hother].
    + intros j k fd. rw !Hp. case_decide; case_decide; subst; try done; intros Hx Hy; [|exfalso|by eapply Ha].
      * exfalso. by eapply Hother.
      * by eapply Hother.
    + intros n fd Hf. destruct (mv_locks _ _ _ _ Hm n fd Hf) as [Hd|[Hd Hf']].
      * exists i. rw Hp. by rewrite -> decide_True.
      * destruct (Hown n fd Hf') as [j Hj]. exists j. rw Hp. by rewrite -> decide_False by (by intros ->).
  - assert (Hp : forall j, descriptors (proc (mkSystem (world s) (<[i := PKilled (descriptors (proc s i))]> (procs s))) j) =
                           descriptors (proc s j)).
    { intros j. rw proc_insert. by case_decide as Hj; [rw Hj|]. }
    split; cbn [world].
    + intros j. rw proc_insert. case_decide; [|apply Hw]. destruct (Hw i) as [Ho Hn _]. by split.
    + intros j k fd. rw !Hp. apply Ha.
    + intros n fd Hf. destruct (Hown n fd Hf) as [j Hj]. exists j. by rw Hp.
Qed.

Lemma run_locks evs s : locks_ok s -> locks_ok (run plat path evs s).
Proof. revert s. induction evs as [|ev evs IH]; intros s Hs; [done|]. by apply IH, step_locks. Qed.

(** Two descriptions that hold the lock of the same file are one. *)
Lemma held_inj s i j fd fd' n :
  locks_ok s -> fd ∈ locked (proc s i) -> fd' ∈ locked (proc s j) ->
  inode (world s) !! fd = Some n -> inode (world s) !! fd' = Some n -> i = j.
Proof.
  intros [Hw Ha _] Hl Hl' Hn Hn'.
  assert (Hsub : forall pr, locked pr ⊆ descriptors pr) by (intros []; cbn [locked descriptors]; set_solver).
  pose proof (gd_held _ _ _ (Hw i)) as Hh. rewrite -> Forall_forall in Hh. destruct (Hh _ Hl) as (m & Hm & Hf).
  pose proof (gd_held _ _ _ (Hw j)) as Hh'. rewrite -> Forall_forall in Hh'. destruct (Hh' _ Hl') as (m' & Hm' & Hf').
  simplify_eq. apply (Ha i j fd); by apply Hsub.
Qed.

Lemma in_use_locked pr fd : in_use pr = Some fd -> fd ∈ locked pr.
Proof. destruct pr; cbn [in_use log_file locked]; intros; simplify_eq; set_solver. Qed.

(** ** What the path stands for

    The description that [Open] or an open log relies on, the new file of a rewrite
    and its name. *)
Definition current (pr : process) : option nat :=
  match pr with POpened fd | PRecovering fd => Some fd | _ => log_file pr end.
Definition temp_file (pr : process) : option nat :=
  match pr with
  | PTemp _ t _ | PRewriting _ t _ | PAborting _ t _ | PDiscarding _ t _ => Some t
  | _ => None
  end.
Definition temp_name (pr : process) : option gostring :=
  match pr with
  | PTemp _ _ n | PRewriting _ _ n | PAborting _ _ n | PDiscarding _ _ n | PRemoving _ n => Some n
  | _ => None
  end.

Definition on_path w fd : Prop := exists i, inode w !! fd = Some i /\ names w !! path = Some i.
Definition named w n (t : option nat) : Prop :=
  n <> path /\ exists i, names w !! n = Some i /\ forall fd, t = Some fd -> inode w !! fd = Some i.

Record placed (pr : process) w : Prop := {
  pl_current fd : current pr = Some fd -> on_path w fd;
  pl_temp n : temp_name pr = Some n -> named w n (temp_file pr);
}.

Definition renames (choice : bool) (pr : process) : Prop :=
  choice = true /\ exists fd t n, pr = PRewriting fd t n.

(** Names of others stay; the path is created or replaced. *)
Record leaves w w' (pr pr' : process) (choice : bool) : Prop := {
  lv_names n : n <> path -> temp_name pr <> Some n -> is_Some (names w !! n) ->
    names w' !! n = names w !! n /\ temp_name pr' <> Some n;
  lv_path : names w' !! path = names w !! path \/ names w !! path = None \/ renames choice pr;
}.

Lemma leaves_same w w' pr pr' choice :
  names w' = names w -> (forall n, temp_name pr' = Some n -> temp_name pr = Some n) -> leaves w w' pr pr' choice.
Proof. intros Hn Ht. split; [|left; by rw Hn]. intros n _ Hne _. rw Hn. split; [done|]. intros Hp. by apply Hne, Ht. Qed.

Lemma on_path_same w w' fd :
  on_path w fd -> names w' = names w -> inode w' !! fd = inode w !! fd -> on_path w' fd.
Proof. intros (i & Hi & Hn) Hw Hf. exists i. by rw Hw Hf. Qed.

Lemma named_same w w' n t t' :
  named w n t -> names w' = names w -> (forall fd, t' = Some fd -> t = Some fd /\ inode w' !! fd = inode w !! fd) ->
  named w' n t'.
Proof.
  intros (Hne & i & Hi & Ht) Hw Hf. split; [done|]. exists i. rw Hw. split; [done|]. intros fd [Hx ->]%Hf. by apply Ht.
Qed.

(** A call that changes no name and no description in use. *)
Lemma placed_same w w' pr pr' choice :
  placed pr w -> names w' = names w ->
  (forall fd, current pr' = Some fd -> current pr = Some fd /\ inode w' !! fd = inode w !! fd) ->
  (forall n, temp_name pr' = Some n -> temp_name pr = Some n) ->
  (forall fd, temp_file pr' = Some fd -> temp_file pr = Some fd /\ inode w' !! fd = inode w !! fd) ->
  placed pr' w' /\ leaves w w' pr pr' choice.
Proof.
  intros [Hc Ht] Hn Hcur Htn Htf. split; [split|by apply leaves_same].
  - intros fd [Hx He]%Hcur. by eapply on_path_same; [apply Hc|..].
  - intros n Hx%Htn. by eapply named_same; [apply Ht|..].
Qed.

Lemma next_placed choice pr w :
  well pr w -> placed pr w -> let '(pr', w') := next plat path choice pr w in
  placed pr' w' /\ leaves w w' pr pr' choice.
Proof.
  intros Hg Hp. pose proof Hp as [Hc Ht]. unfold well in Hg.
  assert (Hstay : forall pr' w', names w' = names w -> inode w' = inode w ->
    (forall fd, current pr' = Some fd -> current pr = Some fd) -> (forall n, temp_name pr' = Some n -> temp_name pr = Some n) ->
    (forall fd, temp_file pr' = Some fd -> temp_file pr = Some fd) ->
    placed pr' w' /\ leaves w w' pr pr' choice).
  { intros pr' w' Hn Hi H1 H2 H3. apply placed_same; try done; intros fd Hf; rw Hi; auto. }
  destruct pr as [|fd|fd|fd|fd|fd|fd t n|fd t n|fd t n|fd t n|fd n|old new|old new|[|fd fds]];
    cbn [next descriptors locked current log_file temp_name temp_file] in *;
    unfold opening, locking, creating, locking_temp, replacing.
  - destruct (ensurePlatform plat); [by apply Hstay|]. pose proof (open_effect path w) as He.
    destruct (OpenFile path w) as [[e|fd] w']; [apply view_same in He as (Hn & Hi & _); by apply Hstay|].
    destruct He as (Hf & i & Hpath & Hv). injection Hv as Hn Hi _. split; [split; [|done]|split].
    + intros fd' [= <-]. exists i. by rw Hn Hi !lookup_insert_eq.
    + intros n Hne _ _. rw Hn. by rewrite -> lookup_insert_ne.
    + rw Hn lookup_insert_eq. destruct Hpath as [-> | ->]; [by left|by right; left].
  - pose proof (lockFile_spec fd w) as He. destruct (lockFile plat fd w) as [[e|] w'].
    + destruct He as (Hn & Hi & _). by apply Hstay.
    + destruct He as (Hn & Hi & _). by apply Hstay.
  - destruct choice; by apply Hstay.
  - pose proof (unlockFile_names fd w) as [Hn Hi]. destruct (unlockFile plat fd w) as [e w']. by apply Hstay.
  - pose proof (CloseFile_spec fd w) as He. destruct (CloseFile fd w) as [e w']. destruct He as (Hn & Hi & _).
    by apply placed_same.
  - destruct choice; [|by apply Hstay]. pose proof (temp_effect path w) as He.
    destruct (CreateTemp path w) as [[e|[t n]] w']; [apply view_same in He as (Hn & Hi & _); by apply Hstay|].
    destruct He as (Hf & Hfresh & i & Hv). injection Hv as Hn Hi _.
    destruct (Hc fd eq_refl) as (j & Hj & Hpath). assert (n <> path) by (intros ->; congruence).
    split; [split; cbn [current log_file temp_name temp_file]|split; cbn [temp_name]].
    + intros fd' [= <-]. assert (t <> fd) by congruence. exists j. rw Hn Hi. by rewrite -> !lookup_insert_ne.
    + intros n' [= <-]. split; [done|]. exists i. rw Hn Hi. rewrite -> lookup_insert_eq. split; [done|].
      intros fd' [= <-]. by rw lookup_insert_eq.
    + intros n' Hne _ [k Hk]. rw Hn. assert (n <> n') by congruence. rewrite -> lookup_insert_ne by done.
      split; [done|congruence].
    + left. rw Hn. by rewrite -> lookup_insert_ne.
  - destruct choice; [|by apply Hstay]. pose proof (lockFile_spec t w) as He.
    destruct (lockFile plat t w) as [[e|] w']; [|destruct He as (Hn & Hi & _); by apply Hstay].
    destruct He as (Hn & Hi & _). by apply Hstay.
  - destruct choice; [|by apply Hstay]. pose proof (rename_effect n path w) as He.
    destruct (Rename n path w) as [[e|] w']; [apply view_same in He as (Hn & Hi & _); by apply Hstay|].
    destruct He as (i & Hni & Hv). injection Hv as Hn Hi _. destruct (Ht n eq_refl) as (Hne & j & Hj & Hjt).
    simplify_eq. split; [split; [|done]|split].
    + intros fd' [= <-]. exists i. rw Hn Hi lookup_insert_eq. split; [by apply Hjt|done].
    + intros n' Hne' Hnn _. assert (n <> n') by (by intros ->). rw Hn. by rewrite -> lookup_insert_ne, lookup_delete_ne by congruence.
    + right; right. split; [done|]. by do 3 eexists.
  - pose proof (unlockFile_names t w) as [Hn Hi]. destruct (unlockFile plat t w) as [e w']. by apply Hstay.
  - pose proof (pair_distinct _ _ (gd_nodup _ _ _ Hg)) as Hne.
    pose proof (CloseFile_spec t w) as He. destruct (CloseFile t w) as [e w']. destruct He as (Hn & Hi & _).
    apply placed_same; try done. intros fd' [= <-]. rw Hi. by rewrite -> lookup_delete_ne.
  - pose proof (remove_effect n w) as He. destruct (Ht n eq_refl) as [Hne _].
    destruct (Remove n w) as [[e|] w']; [apply view_same in He as (Hn & Hi & _); by apply Hstay|].
    injection He as Hn Hi _. split; [split; [|done]|split].
    + intros fd' Hf. destruct (Hc fd' Hf) as (i & Hfi & Hpi). exists i. rw Hn Hi. by rewrite -> lookup_delete_ne.
    + intros n' _ Hnn _. assert (n <> n') by (by intros ->). rw Hn. by rewrite -> lookup_delete_ne.
    + left. rw Hn. by rewrite -> lookup_delete_ne.
  - pose proof (unlockFile_names old w) as [Hn Hi]. destruct (unlockFile plat old w) as [e w']. by apply Hstay.
  - pose proof (pair_distinct _ _ (gd_nodup _ _ _ Hg)) as Hne.
    pose proof (CloseFile_spec old w) as He. destruct (CloseFile old w) as [e w']. destruct He as (Hn & Hi & _).
    apply placed_same; try done. intros fd' [= <-]. rw Hi. by rewrite -> lookup_delete_ne.
  - by apply Hstay.
  - pose proof (CloseFile_spec fd w) as He. destruct (CloseFile fd w) as [e w']. destruct He as (Hn & Hi & _).
    by apply placed_same.
Qed.

Record path_ok (s : system (W := W)) : Prop := {
  pt_placed i : placed (proc s i) (world s);
  pt_apart i j n : temp_name (proc s i) = Some n -> temp_name (proc s j) = Some n -> i = j;
}.

(** A process that relies on the file of the path holds its lock, but for one that is
    about to lock it. *)
Lemma current_locked pr fd : current pr = Some fd -> fd ∈ locked pr \/ pr = POpened fd.
Proof. destruct pr; cbn [current log_file locked]; intros; simplify_eq; (by right) || (left; set_solver). Qed.

Lemma in_use_current pr fd : in_use pr = Some fd -> current pr = Some fd.
Proof. by destruct pr. Qed.

(** Another process's file stays where it is. *)
Lemma placed_moves s i j pr w' choice :
  locks_ok s -> path_ok s -> i <> j -> careful (Turn i choice) s ->
  moves (world s) w' (descriptors (proc s i)) (descriptors pr) -> leaves (world s) w' (proc s i) pr choice ->
  placed (proc s j) w' /\ forall n, temp_name (proc s j) = Some n -> temp_name pr <> Some n.
Proof.
  intros Hl Hp Hij Hcare Hm [Hnames Hpath].
  assert (Hino : forall fd, fd ∈ descriptors (proc s j) -> inode w' !! fd = inode (world s) !! fd).
  { intros fd Hd. assert (fd ∉ descriptors (proc s i)) as Hni by (intros Hd'; by apply Hij, (lk_apart _ Hl i j fd)).
    pose proof (gd_open _ _ _ (lk_well _ Hl j)) as Ho. rewrite -> Forall_forall in Ho.
    by destruct (mv_others _ _ _ _ Hm fd Hni (Ho fd Hd)) as (_ & ? & _). }
  assert (Hcur : forall pr fd, current pr = Some fd -> fd ∈ descriptors pr)
    by (intros [] ?; cbn [current log_file descriptors]; intros; simplify_eq; set_solver).
  assert (Htf : forall pr fd, temp_file pr = Some fd -> fd ∈ descriptors pr)
    by (intros [] ?; cbn [temp_file descriptors]; intros; simplify_eq; set_solver).
  destruct (pt_placed _ Hp j) as [Hc Ht]. split; [split|].
  - intros fd Hf. destruct (Hc fd Hf) as (n & Hn & Hpn). exists n. rewrite -> Hino by by apply Hcur.
    split; [done|]. destruct Hpath as [->|[Hnone|Hren]]; [done|congruence|]. exfalso.
    destruct Hren as (-> & fdi & t & name & Hpr). cbn [careful] in Hcare. rw Hpr in Hcare.
    destruct (current_locked _ _ Hf) as [Hlf|Hopened]; [|by eapply Hcare].
    destruct (pl_current _ _ (pt_placed _ Hp i) fdi) as (m & Hm' & Hpm); [by rw Hpr|].
    apply Hij. apply (held_inj s i j fdi fd n Hl); [rw Hpr; set_solver|done|congruence|done].
  - intros n Hn. destruct (Ht n Hn) as (Hne & k & Hk & Hkt). split; [done|]. exists k.
    destruct (Hnames n Hne) as [-> _]; [intros Hi; by apply Hij, (pt_apart _ Hp i j n)|by eexists|].
    split; [done|]. intros fd Hf. rewrite -> Hino by by apply Htf. by apply Hkt.
  - intros n Hn. destruct (Ht n Hn) as (Hne & k & Hk & _).
    apply (Hnames n Hne); [intros Hi; by apply Hij, (pt_apart _ Hp i j n)|by eexists].
Qed.

Lemma step_path ev s : locks_ok s -> path_ok s -> careful ev s -> path_ok (step plat path ev s).
Proof.
  intros Hl Hp Hcare. destruct ev as [i choice|i]; cbn [step].
  - pose proof (next_well choice _ _ (lk_well _ Hl i)) as Hx.
    pose proof (next_placed choice _ _ (lk_well _ Hl i) (pt_placed _ Hp i)) as Hy.
    destruct (next plat path choice (proc s i) (world s)) as [pr w']. destruct Hx as [_ Hm], Hy as [Hpl Hlv].
    assert (Hother : forall j, j <> i -> placed (proc s j) w' /\
              forall n, temp_name (proc s j) = Some n -> temp_name pr <> Some n).
    { intros j Hj. by eapply placed_moves. }
    assert (Hpr : forall j, proc (mkSystem w' (<[i := pr]> (procs s))) j = if decide (j = i) then pr else proc s j)
      by (intros j; apply proc_insert).
    split; cbn [world].
    + intros j. rw Hpr. case_decide; [done|by apply Hother].
    + intros j k n. rw !Hpr. case_decide; case_decide; subst; try done; intros Hx Hy;
        [exfalso; by eapply Hother|exfalso; by eapply Hother|by eapply pt_apart].
  - split; cbn [world].
    + intros j. rw proc_insert. case_decide; [by split|apply Hp].
    + intros j k n. rw !proc_insert. case_decide; case_decide; try done. apply Hp.
Qed.

Lemma run_path evs s : locks_ok s -> path_ok s -> careful_run plat path evs s -> path_ok (run plat path evs s).
Proof.
  revert s. induction evs as [|ev evs IH]; intros s Hl Hp Hc; [done|]. destruct Hc as [Hc Hcs].
  by apply IH; [apply step_locks|apply step_path|].
Qed.

(** Nothing is open at first. *)
Lemma start_ok (w : W) : holder w = ∅ -> locks_ok (mkSystem w ∅) /\ path_ok (mkSystem w ∅).
Proof.
  intros Hw. split; split; try done.
  - intros i. by split; [|apply NoDup_nil|].
  - intros i j fd Hd. by apply not_elem_of_nil in Hd.
  - intros n fd. by rw Hw lookup_empty.
Qed.

(** ** Other platforms *)
Definition idle (w : W) (s : system (W := W)) : Prop :=
  world s = w /\ forall i, proc s i = PDown \/ proc s i = PKilled [].

Lemma step_unsupported ev w s : plat = OtherPlatform -> idle w s -> idle w (step plat path ev s).
Proof.
  intros -> [<- Hs]. destruct ev as [i choice|i]; cbn [step].
  - destruct (Hs i) as [-> | ->]; (split; [done|]); intros j; cbn [next]; unfold opening; cbn [ensurePlatform]; rw proc_insert;
      (case_decide; [by left|apply Hs]).
  - split; [done|]. intros j. rw proc_insert. case_decide; [|apply Hs]. right. by destruct (Hs i) as [-> | ->].
Qed.

Lemma run_unsupported evs w s : plat = OtherPlatform -> idle w s -> idle w (run plat path evs s).
Proof. intros Hp. revert s. induction evs as [|ev evs IH]; intros s Hs; [done|]. by apply IH, step_unsupported. Qed.
End locks.
End FileLockProof.
