(* ===== verification/FileLockTheorems.v ===== *)
(** * The lock protects the log

    What the advisory lock guarantees, and what it does not. *)

From S2P Require Import Prelude Executor FileLock FileLockProof.

Module FileLockTheorems.
Import FileLock FileLockProof.

(** C12.  One log per file.  Any number of processes open, rewrite and close the log of
    one path, their system calls interleaved in any order; any call may fail and any
    process may be killed.  Two of them never recover or append to the same file, and
    a lock never outlives its process.  If moreover no process replaces the file while
    another has opened but not yet locked it, then whoever recovers or appends does so
    to the file the path stands for, and is the only one.  On a platform without the
    lock nothing is opened or created at all. *)
Theorem one_log_per_file {W} `{FileSystem W} (plat : platform) (path : gostring) (evs : list event) (w : W)
    (Hw : holder w = ∅) :
  let s := run plat path evs (mkSystem w ∅) in
  (forall i j fd fd' n, in_use (proc s i) = Some fd -> in_use (proc s j) = Some fd' ->
     inode (world s) !! fd = Some n -> inode (world s) !! fd' = Some n -> i = j) /\
  (forall n fd, holder (world s) !! n = Some fd -> exists i, fd ∈ descriptors (proc s i)) /\
  (careful_run plat path evs (mkSystem w ∅) -> forall i fd, in_use (proc s i) = Some fd ->
     (exists n, inode (world s) !! fd = Some n /\ names (world s) !! path = Some n) /\
     forall j fd', in_use (proc s j) = Some fd' -> j = i) /\
  (plat = OtherPlatform -> world s = w /\ forall i, in_use (proc s i) = None).
Proof.
  intros s. destruct (start_ok path w Hw) as [Hl0 Hp0].
  assert (Hl : locks_ok s) by by apply run_locks.
  assert (Hone : forall i j fd fd' n, in_use (proc s i) = Some fd -> in_use (proc s j) = Some fd' ->
    inode (world s) !! fd = Some n -> inode (world s) !! fd' = Some n -> i = j).
  { intros i j fd fd' n Hi Hj. by apply held_inj; [|apply in_use_locked..]. }
  split_and!; [exact Hone|apply Hl| |].
  - intros Hc i fd Hi. assert (Hp : path_ok path s) by by apply run_path.
    assert (Hon : forall j fd', in_use (proc s j) = Some fd' -> on_path path (world s) fd').
    { intros j fd' Hj. by apply (pt_placed _ _ Hp j), in_use_current. }
    destruct (Hon i fd Hi) as (n & Hn & Hpn). split; [by exists n|]. intros j fd' Hj.
    destruct (Hon j fd' Hj) as (n' & Hn' & Hpn'). simplify_eq. by eapply (Hone j i).
  - intros Hplat. destruct (run_unsupported plat path evs w (mkSystem w ∅) Hplat) as [Hw' Hs].
    { split; [done|]. by left. }
    split; [done|]. intros i. unfold s in Hs |- *. by destruct (Hs i) as [-> | ->].
Qed.

(** ** A file system without faults *)
Record plainFS := mkFS { fsNames : gmap gostring nat; fsInodes : gmap nat nat; fsLocks : gmap nat nat }.

(** The locks of descriptions that are open. *)
Definition fsHolder (w : plainFS) : gmap nat nat := filter (fun lock => fsInodes w !! lock.2 = Some lock.1) (fsLocks w).

Definition freshFD (w : plainFS) : nat := fresh (dom (fsInodes w) ∪ map_img (fsLocks w) : gset nat).
Definition freshInode (w : plainFS) : nat := fresh (map_img (fsNames w) ∪ map_img (fsInodes w) ∪ dom (fsLocks w) : gset nat).

Definition plain_open (path : gostring) (w : plainFS) : nat * plainFS :=
  let i := default (freshInode w) (fsNames w !! path) in
  (freshFD w, mkFS (<[path := i]> (fsNames w)) (<[freshFD w := i]> (fsInodes w)) (fsLocks w)).

Definition plain_flock (fd : nat) (w : plainFS) : option goerr * plainFS :=
  match fsInodes w !! fd with
  | None => (Some (str "bad file descriptor"), w)
  | Some i =>
      if bool_decide (fsHolder w !! i = None \/ fsHolder w !! i = Some fd)
      then (None, mkFS (fsNames w) (fsInodes w) (<[i := fd]> (fsLocks w)))
      else (Some (str "resource temporarily unavailable"), w)
  end.

Definition drop_locks (fd : nat) (locks : gmap nat nat) : gmap nat nat := filter (fun lock => lock.2 <> fd) locks.

Lemma lookup_holder w n fd : fsHolder w !! n = Some fd <-> fsLocks w !! n = Some fd /\ fsInodes w !! fd = Some n.
Proof. unfold fsHolder. by rewrite -> map_lookup_filter_Some. Qed.

Lemma freshFD_fresh w : fsInodes w !! freshFD w = None /\ forall n, fsLocks w !! n <> Some (freshFD w).
Proof.
  pose proof (is_fresh (dom (fsInodes w) ∪ map_img (fsLocks w) : gset nat)) as Hf. fold (freshFD w) in Hf.
  apply not_elem_of_union in Hf as [Hd Hi]. split; [by apply not_elem_of_dom|].
  intros n Hn. apply Hi. by eapply elem_of_map_img_2.
Qed.

Lemma holder_opened w ns i :
  fsHolder (mkFS ns (<[freshFD w := i]> (fsInodes w)) (fsLocks w)) = fsHolder w.
Proof.
  destruct (freshFD_fresh w) as [_ Hl]. apply map_eq. intros n. apply option_eq. intros fd. rw !lookup_holder. simpl.
  split; intros [Hn Hi]; (split; [done|]).
  - rewrite -> lookup_insert_ne in Hi; [done|]. intros <-. by apply (Hl n).
  - rewrite -> lookup_insert_ne; [done|]. intros <-. by apply (Hl n).
Qed.

Lemma holder_dropped w fd : fsHolder (mkFS (fsNames w) (fsInodes w) (drop_locks fd (fsLocks w))) =
  filter (fun lock => lock.2 <> fd) (fsHolder w).
Proof.
  apply map_eq. intros n. apply option_eq. intros f. rewrite -> map_lookup_filter_Some, !lookup_holder.
  unfold drop_locks. simpl. rewrite -> map_lookup_filter_Some. naive_solver.
Qed.

Lemma holder_closed w fd : fsHolder (mkFS (fsNames w) (delete fd (fsInodes w)) (drop_locks fd (fsLocks w))) =
  filter (fun lock => lock.2 <> fd) (fsHolder w).
Proof.
  apply map_eq. intros n. apply option_eq. intros f. rewrite -> map_lookup_filter_Some, !lookup_holder.
  unfold drop_locks. simpl. rewrite -> map_lookup_filter_Some. simpl. destruct (decide (f = fd)) as [->|Hne].
  - naive_solver.
  - rewrite -> lookup_delete_ne by done. naive_solver.
Qed.

#[local] Instance ascii_inhabited : Inhabited Ascii.ascii := populate "x"%char.

#[export] Instance plainDirectory : FileSystem plainFS.
Proof.
  refine (Build_FileSystem plainFS
    (fun path w => let '(fd, w) := plain_open path w in (inr fd, w))
    (fun path w => let name := fresh (dom (fsNames w)) in let '(fd, w) := plain_open name w in (inr (fd, name), w))
    plain_flock
    (fun fd w => (None, mkFS (fsNames w) (fsInodes w) (drop_locks fd (fsLocks w))))
    (fun fd w => (None, mkFS (fsNames w) (delete fd (fsInodes w)) (drop_locks fd (fsLocks w))))
    (fun old new w => match fsNames w !! old with
                      | Some i => (None, mkFS (<[new := i]> (delete old (fsNames w))) (fsInodes w) (fsLocks w))
                      | None => (Some (str "no such file or directory"), w)
                      end)
    (fun name w => (None, mkFS (delete name (fsNames w)) (fsInodes w) (fsLocks w)))
    fsNames fsInodes fsHolder _ _ _ _ _ _ _ _).
  - intros w i fd [_ Hi]%lookup_holder. done.
  - intros path w. destruct (freshFD_fresh w) as [Hf _]. split; [done|]. cbn [fsNames fsInodes].
    exists (default (freshInode w) (fsNames w !! path)). split; [by destruct (fsNames w !! path); [left|right]|].
    by rw holder_opened.
  - intros path w. destruct (freshFD_fresh w) as [Hf _]. split; [done|]. split.
    + apply not_elem_of_dom, is_fresh.
    + eexists. cbn [fsNames fsInodes]. by rw holder_opened.
  - intros fd w. unfold plain_flock. destruct (fsInodes w !! fd) as [i|] eqn:Hi; [|done].
    case_bool_decide as Hf; [|done]. exists i. split_and!; [done..|]. cbn [fsNames fsInodes].
    unfold fsHolder at 1. cbn [fsInodes fsLocks]. by rewrite -> map_filter_insert_True.
  - intros fd w. cbn [fsNames fsInodes]. by rw holder_dropped.
  - intros fd w. cbn [snd fsNames fsInodes]. by rw holder_closed.
  - intros old new w. destruct (fsNames w !! old) as [i|] eqn:Ho; [|done]. by exists i.
  - done.
Defined.

(** Two processes: the first opens the log and rewrites it, the second opens it after
    the rewrite and is refused. *)
Definition logPath : gostring := str "carrot.aof".
Definition emptyFS : plainFS := mkFS ∅ ∅ ∅.
Definition turns (i n : nat) : list event := replicate n (Turn i true).

Definition politeRun : list event := turns 1 8 ++ turns 2 2.

(** Carefulness, computed. *)
Definition waiting (pr : process) : bool := match pr with POpened _ => true | _ => false end.

Definition carefulb (ev : event) (s : system (W := plainFS)) : bool :=
  match ev with
  | Turn i true =>
      match proc s i with PRewriting _ _ _ => forallb (fun x => negb (waiting x.2)) (map_to_list (procs s)) | _ => true end
  | _ => true
  end.

Fixpoint careful_runb (evs : list event) (s : system) : bool :=
  match evs with [] => true | ev :: evs' => carefulb ev s && careful_runb evs' (step Linux logPath ev s) end.

Lemma careful_runb_ok evs s : careful_runb evs s = true -> careful_run Linux logPath evs s.
Proof.
  revert s. induction evs as [|ev evs IH]; intros s Hc; [done|]. cbn [careful_runb] in Hc.
  apply andb_true_iff in Hc as [Hc Hcs]. split; [|by apply IH]. unfold carefulb in Hc. unfold careful.
  destruct ev as [i []|i]; [|done..]. destruct (proc s i); try done. intros j f Hj.
  rewrite -> forallb_forall in Hc. unfold proc in Hj. destruct (procs s !! j) as [pr|] eqn:Hp; [|done].
  apply elem_of_map_to_list, list_elem_of_In, Hc in Hp. simpl in Hj, Hp. by rw Hj in Hp.
Qed.

Lemma one_log_per_file_witness :
  let s := run Linux logPath politeRun (mkSystem emptyFS ∅) in
  careful_run Linux logPath politeRun (mkSystem emptyFS ∅) /\ in_use (proc s 1) = Some 1%nat /\
  (exists n, inode (world s) !! 1%nat = Some n /\ names (world s) !! logPath = Some n) /\
  forall j fd', in_use (proc s j) = Some fd' -> j = 1%nat.
Proof.
  intros s. assert (Hc : careful_run Linux logPath politeRun (mkSystem emptyFS ∅)).
  { apply careful_runb_ok. vm_compute. reflexivity. }
  assert (Hi : in_use (proc s 1) = Some 1%nat) by (vm_compute; reflexivity).
  assert (He : holder emptyFS = ∅) by (unfold holder; simpl; unfold fsHolder; apply map_filter_empty).
  split; [exact Hc|]. split; [exact Hi|].
  apply (proj1 (proj2 (proj2 (one_log_per_file Linux logPath politeRun emptyFS He))) Hc 1%nat 1%nat Hi).
Defined.

(** The second process opens the file before the first replaces it, and locks it after
    the first has released it: both have a log open, and the path stands for one of
    them only. *)
Definition race : list event := turns 1 3 ++ turns 2 1 ++ turns 1 5 ++ turns 2 2.

Example stale_file_is_locked :
  let s := run Linux logPath race (mkSystem emptyFS ∅) in
  proc s 1 = POpen 2 /\ proc s 2 = POpen 1 /\
  inode (world s) !! 2%nat = Some 1%nat /\ inode (world s) !! 1%nat = Some 0%nat /\
  names (world s) !! logPath = Some 1%nat.
Proof. by vm_compute. Qed.
End FileLockTheorems.
