(* ===== verification/Durability.v ===== *)
(** * The executor and its log together

    [mirrors e cmds]: replaying [cmds], at any time before the next deadline,
    rebuilds what a reader of the executor sees.  Committing batches keeps this for
    the commands the log acknowledged; a snapshot establishes it anew. *)

From S2P Require Import Prelude GoTime GoLib GoIO Resp ListValue Store StoreSpec StoreProof.
From S2P Require Import StoreRefine StoreMaint StoreMaintProof Command CommandProof CommandEffects.
From S2P Require Import Executor ExecutorProof Aof AofRecords AofLog AofRecovery AofRewrite.
From S2P Require Import AofRewriteProof Timeless AofReplay.
Import StoreSpec.

Module Durability.
Import Cmd CommandProof StoreProof StoreMaint StoreMaintProof CommandEffects Exec ExecutorProof.
Import AofFile Aof AofRecords AofLog AofRecovery AofRewrite AofRewriteProof Timeless AofReplay.

Section durability.
Context `{Unicode} `{Disk}.
(** The time of the run and the deadlines that matter; each is a whole number of
    milliseconds, as those a canonical command names. *)
Variables (T : Z) (D : Z -> Prop).
Hypothesis D_aligned : forall d, D d -> aligned d.
Abbreviation steady := (steady T D).
Abbreviation agree := (agree T D).

Definition within (cmds : list Command) : Prop :=
  forall cmd d, cmd ∈ cmds -> deadline_of cmd = Some d -> D d.

Lemma within_app a b : within a -> within b -> within (a ++ b).
Proof. intros Ha Hb cmd d [Hc|Hc]%elem_of_app; eauto. Qed.

Lemma timeless_no_TTL cmd : timeless cmd -> named (cName cmd) "TTL" = false.
Proof. intros [Hm _]. apply bool_decide_eq_false. intros Hn. by rw Hn in Hm. Qed.

(** ** A batch in memory and in the file *)
Lemma valid_commands_cons jclk cmd cmds :
  valid_commands jclk (cmd :: cmds) =
    match canonicalCommand cmd (jclk 0%nat) with
    | Some c => c :: valid_commands (skip 1 jclk) cmds
    | None => valid_commands (skip 1 jclk) cmds
    end.
Proof. unfold valid_commands, valid_of. simpl. by destruct (canonicalCommand cmd _). Qed.

Lemma run_canonical batch : forall jclk clk clk' db db',
  Forall (fun cmd => IsMutation (cName cmd) = true) batch -> steady clk -> steady clk' ->
  within (valid_commands jclk batch) -> agree db db' ->
  exists vs vs' db1 db1', run clk (fst <$> canonicalize jclk batch) db = Some (vs, db1) /\
    run clk' (valid_commands jclk batch) db' = Some (vs', db1') /\ agree db1 db1'.
Proof.
  induction batch as [|cmd batch IH]; intros jclk clk clk' db db' Hm Hc Hc' Hd Ha; [by exists [], [], db, db'|].
  apply Forall_cons in Hm as [Hm Hms]. rw valid_commands_cons in Hd. rw valid_commands_cons. cbn [canonicalize].
  destruct (canonicalCommand cmd (jclk 0%nat)) as [c|] eqn:Hcan; rw fmap_cons; cbn [run fst].
  - apply canonical_timeless in Hcan as Ht.
    destruct (agree_execute T D (fork1 clk) (fork1 clk') (steady_fork1 _ _ _ Hc) (steady_fork1 _ _ _ Hc') c
      (tl_absolute _ Ht) (timeless_no_TTL c Ht) (fun d => Hd c d (list_elem_of_here _ _)) db db' Ha)
      as (v & db1 & db1' & -> & -> & Ha1). cbn [mbind option_bind].
    destruct (IH (skip 1 jclk) (fork2 clk) (fork2 clk') db1 db1' Hms (steady_fork2 _ _ _ Hc) (steady_fork2 _ _ _ Hc'))
      as (vs & vs' & db2 & db2' & -> & -> & Ha2); [|done|].
    { intros c' d Hin. apply Hd. by right. }
    by do 4 eexists.
  - destruct (execute_invalid (fork1 clk) cmd _ db Hcan Hm) as [v ->]. cbn [mbind option_bind].
    destruct (IH (skip 1 jclk) (fork2 clk) clk' db db' Hms (steady_fork2 _ _ _ Hc) Hc' Hd Ha)
      as (vs & vs' & db2 & db2' & -> & -> & Ha2). by do 4 eexists.
Qed.

Lemma AppendBatch_out clk cmds l out l' :
  AppendBatch clk cmds l = (inr out, l') -> out = fst <$> canonicalize clk cmds.
Proof.
  unfold AppendBatch. destruct (_ || _); [done|]. destruct (lFailed l); [done|].
  destruct cmds as [|c cmds]; [by intros [= <- <-]|].
  destruct (on_file SeekCurrent l) as [[e|offset] l1]; [done|].
  destruct (writeRecords _ _) as [[[cmd e]|] w]; [by destruct (rollback _ _ _)|]. cbv zeta.
  destruct (_ && _); [by destruct (rollback _ _ _)|].
  destruct (if _ && _ then _ else _) as [[e|] l3]; [by destruct (rollback _ _ _)|]. intros. by simplify_eq.
Qed.

(** ** The executor *)
Definition mirrors (e : Executor Log) (cmds : list Command) : Prop :=
  wf (eStore e) /\
  forall clk, steady clk -> exists vs db, run clk cmds ∅ = Some (vs, db) /\ agree (abs (eStore e)) db.

(** Batches committed one after the other, as the write loop does. *)
Abbreviation commit := ((nat -> nat) * clock * list Command)%type.

Fixpoint commit_all `{Journal Log} (commits : list commit) (e : Executor Log)
    : option (list (list executionResult) * Executor Log) :=
  match commits with
  | [] => Some ([], e)
  | (rnd, clk, batch) :: commits' =>
      '(rs, e) ← commitMutationBatch AppendBatch rnd clk batch e;
      '(rss, e) ← commit_all commits' e;
      Some (rs :: rss, e)
  end.

(** What the log is asked to append by a commit. *)
Definition call_of (c : commit) : clock * list Command := (fork1 (fork2 c.1.2), c.2).

Definition commit_ok (c : commit) : Prop :=
  c.2 <> [] /\ Forall (fun cmd => IsMutation (cName cmd) = true) c.2 /\ steady c.1.2 /\
  within (valid_commands (call_of c).1 c.2).

Lemma commit_mirrors `{Journal Log} rnd clk batch (e : Executor Log) l cmds :
  mirrors e cmds -> maxMemory e <= 0 -> journal e = Some l -> commit_ok (rnd, clk, batch) ->
  exists rs e', commitMutationBatch AppendBatch rnd clk batch e = Some (rs, e') /\ maxMemory e' <= 0 /\
    let '(r, l') := AppendBatch (fork1 (fork2 clk)) batch l in
    journal e' = Some l' /\
    mirrors e' (match r with inr _ => cmds ++ valid_commands (fork1 (fork2 clk)) batch | inl _ => cmds end).
Proof.
  intros [Hw Hmir] Hmem Hj (Hne & Hmut & Hc & Hd). simpl in *.
  destruct (commit_nolimit AppendBatch rnd clk batch e l Hw Hmem Hj Hne) as (rs & e' & Hcm & Hw' & Hr).
  destruct (commit_total AppendBatch rnd clk batch e Hw) as (rs2 & e2 & Hcm2 & _ & _ & (Hmax & _)); [congruence|].
  rw Hcm in Hcm2. simplify_eq. exists rs2, e2. split_and!; [done|lia|].
  destruct (AppendBatch (fork1 (fork2 clk)) batch l) as [[err|out] l'] eqn:Ha.
  - destruct Hr as (_ & Hst & Hj'). split; [done|]. split; [done|]. by rw Hst.
  - destruct Hr as [Hj' Hr]. split; [done|]. split; [done|]. apply AppendBatch_out in Ha as Hout.
    assert (Hlen : length out = length batch).
    { rw Hout length_fmap. clear. generalize (fork1 (fork2 clk)). induction batch; intros c; simpl; [done|]. by rw IHbatch. }
    destruct (decide _) as [_|Hn]; [|done]. destruct Hr as (vs & _ & Hrun).
    intros rclk Hrc. destruct (Hmir rclk Hrc) as (vs1 & db1 & Hrun1 & Ha1).
    destruct (run_canonical batch (fork1 (fork2 clk)) (fork2 (fork2 clk)) (after (length cmds) rclk) (abs (eStore e)) db1 Hmut)
      as (v1 & v2 & db2 & db2' & Hr1 & Hr2 & Ha2); try done.
    + by apply steady_fork2, steady_fork2.
    + by apply steady_after.
    + rw -Hout Hrun in Hr1. simplify_eq. exists (vs1 ++ v2), db2'. split; [|done]. by rw run_app Hrun1 /= Hr2.
Qed.

Lemma commit_all_mirrors `{Journal Log} commits : forall (e : Executor Log) l cmds,
  mirrors e cmds -> maxMemory e <= 0 -> journal e = Some l -> Forall commit_ok commits ->
  exists rss e', commit_all commits e = Some (rss, e') /\ maxMemory e' <= 0 /\
    journal e' = Some (append_all (call_of <$> commits) l).2 /\
    mirrors e' (cmds ++ acked (call_of <$> commits) (append_all (call_of <$> commits) l).1).
Proof.
  induction commits as [|[[rnd clk] batch] commits IH]; intros e l cmds Hmir Hmem Hj Hok.
  { exists [], e. simpl. by rw app_nil_r. }
  apply Forall_cons in Hok as [Hok Hoks].
  destruct (commit_mirrors rnd clk batch e l cmds Hmir Hmem Hj Hok) as (rs & e1 & Hcm & Hmem1 & Hr).
  csimpl. change (call_of (rnd, clk, batch)) with (fork1 (fork2 clk), batch). cbn [append_all].
  destruct (AppendBatch (fork1 (fork2 clk)) batch l) as [r l1]. destruct Hr as [Hj1 Hmir1].
  destruct (IH e1 l1 _ Hmir1 Hmem1 Hj1 Hoks) as (rss & e2 & Hall & Hmem2 & Hj2 & Hmir2).
  rw Hcm. cbn [mbind option_bind]. rw Hall. cbn [mbind option_bind].
  destruct (append_all (call_of <$> commits) l1) as [rs1 l2]. simpl in *.
  do 2 eexists. split_and!; [done..|]. destruct r; [done|]. by rw app_assoc.
Qed.

Lemma valid_timeless jclk batch cmd : cmd ∈ valid_commands jclk batch -> timeless cmd.
Proof.
  revert jclk. induction batch as [|c batch IH]; intros jclk; [by intros ?%not_elem_of_nil|].
  rw valid_commands_cons. destruct (canonicalCommand c _) as [c'|] eqn:Hc; [|apply IH].
  intros [->|Hin]%elem_of_cons; [by eapply canonical_timeless|by eapply IH].
Qed.

(** The beginning of a batch can be run at any time. *)
Lemma valid_prefix_ok calls clk batch ws :
  Forall (fun call => within (valid_commands call.1 call.2)) calls -> (clk, batch) ∈ calls ->
  ws `prefix_of` valid_commands clk batch ->
  Forall (fun cmd => relative cmd = false /\ named (cName cmd) "TTL" = false /\
    forall d, deadline_of cmd = Some d -> D d) ws.
Proof.
  intros Hok Hin Hpre. rw Forall_forall in Hok. specialize (Hok _ Hin). simpl in Hok.
  apply Forall_forall. intros cmd Hcmd. assert (Hv : cmd ∈ valid_commands clk batch) by by eapply elem_of_prefix.
  pose proof (valid_timeless _ _ _ Hv) as Ht. split_and!; [apply Ht|by apply timeless_no_TTL|]. intros d. by apply Hok.
Qed.

(** ** After a crash

    [e] mirrors what the log held and every batch it acknowledged: opening a file
    between what was synced and what was written rebuilds [e], with at most the
    beginning of one other batch on top. *)
Definition survives (e : Executor Log) (calls : list (clock * list Command)) (policy : syncPolicy)
    (created : bool) (rclk : clock) (f : file) : Prop :=
  exists ws vs db,
    (ws = [] \/ exists clk batch, (clk, batch) ∈ calls /\ ws `prefix_of` valid_commands clk batch) /\
    run (fun _ => T) ws (abs (eStore e)) = Some (vs, db) /\
    match Open policy created rclk f Store.NewStore with
    | Some (inr l', (_, s)) => clean l' /\ ~ refuses l' /\ forall k, live T (abs s !! k) = live T (db !! k)
    | Some (inl (OFile _), _) => exists n, (fOps f <= n)%nat /\ disk_fault n <> None
    | _ => False
    end.

Lemma mirrors_survives e l cs calls created rclk f :
  mirrors e (cs ++ acked calls (append_all calls l).1) ->
  clean l -> ~ refuses l -> lPolicy l = SyncAlways -> fData (lFile l) = records cs ->
  fSynced (lFile l) = fData (lFile l) -> Forall recordable cs ->
  Forall (fun call => within (valid_commands call.1 call.2)) calls ->
  Forall (fun call => Forall recordable (valid_commands call.1 call.2)) calls -> steady rclk ->
  fSynced (lFile (append_all calls l).2) `prefix_of` fData f ->
  fData f `prefix_of` fData (lFile (append_all calls l).2) ->
  survives e calls SyncAlways created rclk f.
Proof.
  intros [_ Hmir] Hl Hopen Hpolicy Hdata Hsync Hcs Hwithin Hrec Hrclk Hca Hcb.
  destruct (history_reopened l cs calls created rclk f Hl Hopen Hpolicy Hdata Hsync Hcs Hrec)
    as (ws & vs & s & Hws & Hrun & Hop); [by destruct (append_all calls l)|].
  rewrite -> app_assoc in Hrun. set (cmds := cs ++ acked _ _) in *.
  destruct (run_sim StoreProof.rel rclk (cmds ++ ws) _ _ StoreProof.NewStore_rel) as (vs1 & s1 & db1 & Hr1 & Hr2 & [_ Hs1]).
  rw Hrun in Hr1. simplify_eq. destruct (Hmir rclk Hrclk) as (v1 & dbc & Hc1 & Ha).
  rw run_app Hc1 /= in Hr2.
  destruct (agree_run T D ws (fun _ => T) (after (length cmds) rclk)) with (s := abs (eStore e)) (t := dbc)
    as (v2 & db & dbw & Hrw & Hrw' & Haw); [done|by apply steady_after| |done|].
  { destruct Hws as [->|(clk & batch & Hin & Hpre)]; [done|]. by eapply valid_prefix_ok. }
  rw Hrw' /= in Hr2. simplify_eq. exists ws, v2, db. split_and!; [done..|].
  unfold opened in Hop. destruct (Open _ _ _ _ _) as [[[[err|err]|l'] [f' s']]|]; try done.
  destruct Hop as (-> & _ & Hcl & Hre & _). split_and!; [done..|]. intros k. symmetry. apply Haw.
Qed.

(** ** Snapshots *)
Lemma snapshot_mirrors ord clk e cmds entries :
  (forall X, ord X ≡ₚ elements X) -> mirrors e cmds -> steady clk ->
  SnapshotEntries ord clk (eStore e) = Some (inr entries) -> mirrors e (snapshot entries).
Proof.
  intros Hord [Hw Hmir] Hc Hes. split; [done|]. intros rclk Hrc.
  destruct (Hmir rclk Hrc) as (_ & db0 & _ & Ha0). pose proof (ag_left _ _ _ _ Ha0) as Hcov.
  destruct (SnapshotEntries_spec ord Hord clk (eStore e) Hw) as (es & Hes' & Hnd & Hin & Hall).
  rw Hes in Hes'. simplify_eq.
  assert (Hlive : forall k, live (clk 0%nat) (abs (eStore e) !! k) = live T (abs (eStore e) !! k)).
  { intros k. by apply (live_steady T D). }
  assert (Hsn : forall sn, sn ∈ es -> lasting T D (entry_of sn) /\ eVal (entry_of sn) <> VList []).
  { intros sn Hs. specialize (Hin sn Hs). rw Hlive in Hin. unfold live in Hin.
    destruct (abs (eStore e) !! snKey sn) as [x|] eqn:Hx; [|done]. destruct (expired T x) eqn:Hex; [done|].
    injection Hin as ->. split; [|by apply (abs_filled (eStore e) Hw _ _ Hx)].
    unfold lasting. destruct (GoTime.IsZero (eExp (entry_of sn))) eqn:Hz; [by left|right].
    destruct (Hcov (snKey sn) (entry_of sn) Hx) as [|Hd]; [congruence|]. split_and!; [by apply D_aligned|done|].
    unfold expired, GoTime.Before in Hex. rw Hz /= in Hex. apply negb_false_iff in Hex. by apply Z.ltb_lt. }
  destruct (run_snapshot T D es rclk ∅ Hrc Hnd) as (vs & db & Hrun & Hdb & Hout).
  { intros sn Hs. split; [apply lookup_empty|by apply Hsn]. }
  exists vs, db. split; [done|].
  assert (Hget : forall k, db !! k = live T (abs (eStore e) !! k)).
  { intros k. rw -Hlive. destruct (live (clk 0%nat) (abs (eStore e) !! k)) as [x|] eqn:Hx.
    - destruct (Hall k x Hx) as (sn & Hs & <- & <-). by apply Hdb.
    - rewrite -> Hout; [apply lookup_empty|]. intros (sn & -> & Hs)%list_elem_of_fmap. by rw (Hin sn Hs) in Hx. }
  split; [|done|].
  - intros k. by rw Hget live_twice.
  - intros k. rw Hget. by apply live_covered.
Qed.

(** A store built by commands mirrors them. *)
Lemma run_mirrors clk cmds vs e :
  steady clk -> Forall (fun cmd => relative cmd = false /\ named (cName cmd) "TTL" = false /\
    forall d, deadline_of cmd = Some d -> D d) cmds ->
  run clk cmds Store.NewStore = Some (vs, eStore e) -> mirrors e cmds.
Proof.
  intros Hc Hok Hrun.
  destruct (run_sim StoreProof.rel clk cmds _ _ StoreProof.NewStore_rel) as (vs1 & s1 & db1 & Hr1 & Hr2 & [Hw Hs1]).
  rw Hrun in Hr1. simplify_eq. split; [done|]. intros rclk Hrc.
  assert (Hempty : agree ∅ ∅) by (split; intros k; by rw ?lookup_empty).
  destruct (agree_run T D cmds clk rclk Hc Hrc Hok ∅ ∅ Hempty) as (v & db & db' & Hd & Hd' & Ha).
  rw Hr2 in Hd. simplify_eq. by exists v, db'.
Qed.
End durability.
End Durability.
