(* ===== verification/DurabilityTheorems.v ===== *)
(** * What persistence guarantees as a whole

    The theorems on the executor, its log, the rewrite and recovery together: a
    crash loses nothing that was acknowledged, and a rewrite changes the file but
    not the database it stands for. *)

From S2P Require Import Prelude GoTime GoLib GoIO Resp RespProof RespTheorems ListValue Store StoreSpec.
From S2P Require Import StoreProof.
From S2P Require Import StoreRefine StoreMaint StoreMaintProof StoreTheorems Command CommandProof.
From S2P Require Import Executor ExecutorProof Aof AofRecords AofLog AofRecovery AofTheorems AofRewrite.
From S2P Require Import AofRewriteProof Timeless AofReplay Durability.
Import StoreSpec.

Module DurabilityTheorems.
Import Cmd CommandProof StoreProof StoreMaint Exec Aof AofRecords AofLog AofRecovery AofTheorems.
Import AofRewrite AofRewriteProof Timeless AofReplay Durability.

(** C32.  When does not matter.  Any commands but [TTL] and those that compute a
    deadline from the clock, run from databases that look the same, at any two
    sequences of clock readings on the same side of every deadline the databases
    and the commands name, give the same replies and databases that look the same
    to every reader. *)
Theorem commands_at_another_time `{Unicode} (T : Z) (D : Z -> Prop) (cmds : list Command) (clk clk' : clock)
    (db db' : DB) (Hclk : steady T D clk) (Hclk' : steady T D clk') (Hdb : agree T D db db')
    (Hcmds : Forall (fun cmd => relative cmd = false /\ named (cName cmd) "TTL" = false /\
               forall d, deadline_of cmd = Some d -> D d) cmds) :
  exists vs db1 db1', run clk cmds db = Some (vs, db1) /\ run clk' cmds db' = Some (vs, db1') /\
    forall k, live T (db1 !! k) = live T (db1' !! k).
Proof.
  destruct (agree_run T D cmds clk clk' Hclk Hclk' Hcmds db db' Hdb) as (vs & db1 & db1' & Hr & Hr' & Ha).
  exists vs, db1, db1'. split_and!; [done..|apply Ha].
Qed.

Lemma agree_empty T D : agree T D ∅ ∅.
Proof. by split; intros k; rw ?lookup_empty. Qed.

(** A key with a deadline at ten seconds, read at three and at nine. *)
Definition timedCommands : list Command :=
  [mkCommand (str "SET") [str "k"; str "v"; str "PXAT"; str "10000"]; mkCommand (str "GET") [str "k"];
   mkCommand (str "DEL") [str "k"; str "q"]].

Definition ten : Z := 10 * GoTime.Second.

Lemma commands_at_another_time_witness :
  exists vs db1 db1',
    @run asciiOnly DB _ (fun _ => 3 * GoTime.Second) timedCommands ∅ = Some (vs, db1) /\
    @run asciiOnly DB _ (fun _ => 9 * GoTime.Second) timedCommands ∅ = Some (vs, db1') /\
    forall k, live 0 (db1 !! k) = live 0 (db1' !! k).
Proof.
  apply (@commands_at_another_time asciiOnly 0 (fun d => d = ten) timedCommands (fun _ => 3 * GoTime.Second)
    (fun _ => 9 * GoTime.Second) ∅ ∅).
  - intros i d ->. vm_compute. reflexivity.
  - intros i d ->. vm_compute. reflexivity.
  - apply agree_empty.
  - repeat constructor; intros d Hd; vm_compute in Hd; by simplify_eq.
Defined.

(** C4.  The database survives a crash.  An executor without a memory limit whose
    log, under [appendfsync always], holds what mirrors its database commits any
    batches of mutations that recovery can read back ([recordable]), any operation of the disk may fail, and a crash leaves any
    content between what was synced and what was written.  Then opening the file,
    when no deadline has passed since the commits ([steady]), rebuilds a database in which every reader sees
    what it saw in the executor, with at most the first commands [ws] of one batch
    that was never acknowledged run on top; or it reports an error of the disk. *)
Theorem database_survives_crash `{Unicode} `{Disk} (ord : gset gostring -> list gostring)
    (fresh : Log -> nat * nat) (T : Z) (D : Z -> Prop) (e : Executor Log) (l : Log) (cs : list Command)
    (commits : list ((nat -> nat) * clock * list Command)) (created : bool) (rclk : clock) (f : file)
    (Hm : mirrors T D e cs) (Hmem : maxMemory e <= 0) (Hj : journal e = Some l)
    (Hl : clean l) (Hopen : ~ refuses l) (Hpolicy : lPolicy l = SyncAlways)
    (Hdata : fData (lFile l) = records cs) (Hsync : fSynced (lFile l) = fData (lFile l))
    (Hcs : Forall recordable cs)
    (Hcommits : Forall (fun c => commit_ok T D c /\ Forall recordable (valid_commands (call_of c).1 c.2)) commits)
    (Hrclk : steady T D rclk)
    (Hcrash : let '(_, l') := append_all (call_of <$> commits) l in
              fSynced (lFile l') `prefix_of` fData f /\ fData f `prefix_of` fData (lFile l')) :
  exists rss e' ws vs db,
    @commit_all _ _ (Log_journal ord fresh) commits e = Some (rss, e') /\
    (ws = [] \/ exists clk batch, (clk, batch) ∈ call_of <$> commits /\ ws `prefix_of` valid_commands clk batch) /\
    run (fun _ => T) ws (abs (eStore e')) = Some (vs, db) /\
    match Open SyncAlways created rclk f Store.NewStore with
    | Some (inr l', (_, s)) => clean l' /\ ~ refuses l' /\ forall k, live T (abs s !! k) = live T (db !! k)
    | Some (inl (OFile _), _) => exists n, (fOps f <= n)%nat /\ disk_fault n <> None
    | _ => False
    end.
Proof.
  assert (Hok : Forall (commit_ok T D) commits) by (eapply Forall_impl; [exact Hcommits|tauto]).
  destruct (@commit_all_mirrors _ _ T D (Log_journal ord fresh) commits e l cs Hm Hmem Hj Hok)
    as (rss & e' & Hall & _ & _ & Hmir).
  assert (Hcalls : Forall (fun call => within D (valid_commands call.1 call.2) /\
                                       Forall recordable (valid_commands call.1 call.2)) (call_of <$> commits)).
  { apply Forall_fmap. eapply Forall_impl; [exact Hcommits|]. intros c [(_ & _ & _ & Hw) Hr]. done. }
  apply Forall_and in Hcalls as [Hwithin Hrec].
  destruct (append_all (call_of <$> commits) l) as [rs l'] eqn:Happ. destruct Hcrash as [Hca Hcb].
  destruct (mirrors_survives T D e' l cs (call_of <$> commits) created rclk f) as (ws & vs & db & Hs); rw ?Happ; try done.
  by exists rss, e', ws, vs, db.
Qed.

(** A server that has just started, two batches, and a disk that fails the second
    one and its roll-back. *)
Definition newExecutor (policy : syncPolicy) : Executor Log :=
  SetJournal (Some (emptyLog policy)) (NewExecutor Store.NewStore).

Lemma newExecutor_mirrors `{Unicode} T D policy : mirrors T D (newExecutor policy) [].
Proof.
  split; [apply NewStore_wf|]. intros clk _. exists [], ∅. split; [done|].
  change (eStore (newExecutor policy)) with Store.NewStore. rw (proj2 NewStore_rel). apply agree_empty.
Qed.

Definition demoCommits : list ((nat -> nat) * clock * list Command) :=
  [((fun n => n), (fun _ => 0), [mkCommand (str "SET") [str "k"; str "v"; str "EX"; str "10"]]);
   ((fun n => n), (fun _ => 5), [mkCommand (str "RPUSH") [str "q"; str "1"];
                                 mkCommand (str "LSET") [str "q"; str "0"; str "2"]])].

Definition crashedFile : file :=
  mkFile (fData (lFile (@append_all asciiOnly (badDisk 4 40) (call_of <$> demoCommits) (emptyLog SyncAlways)).2)) 0 [] 100.

Lemma demoCommits_ok :
  Forall (fun c => @commit_ok asciiOnly 0 (fun d => d = ten) c /\
    Forall (@recordable asciiOnly) (@valid_commands asciiOnly (call_of c).1 c.2)) demoCommits.
Proof.
  assert (Hone : forall cmds, forallb (fun cmd => default ten (@deadline_of asciiOnly cmd) =? ten) cmds = true ->
    @within asciiOnly (fun d => d = ten) cmds).
  { intros cmds Hall cmd d Hin Hd. rewrite -> forallb_forall in Hall. apply list_elem_of_In in Hin.
    specialize (Hall cmd Hin). rw Hd in Hall. by apply Z.eqb_eq in Hall. }
  assert (Hst : forall t, t < ten -> steady 0 (fun d => d = ten) (fun _ => t)).
  { intros t Ht i d ->. rewrite -> (proj2 (Z.ltb_lt t ten)) by done. done. }
  assert (Hrec : forall cmds, forallb (fun cmd => bool_decide (len (cArgs cmd) + 1 <= maxArrayLength /\
      Forall (fun s => len s <= maxBulkStringLength) (cName cmd :: cArgs cmd) /\
      RespProof.charge (command_value cmd) <= maxRecordBytes /\ @GoLib.ToUpper asciiOnly (cName cmd) = cName cmd /\
      IsMutation (cName cmd) = true)) cmds = true -> Forall (@recordable asciiOnly) cmds).
  { intros cmds Hall. rewrite -> forallb_forall in Hall. apply Forall_forall. intros cmd Hin.
    apply list_elem_of_In, Hall, bool_decide_eq_true in Hin as (? & ? & ? & ? & ?). by constructor. }
  assert (Hok : forall t batch, t < ten -> batch <> [] -> Forall (fun cmd => IsMutation (cName cmd) = true) batch ->
    forallb (fun cmd => default ten (@deadline_of asciiOnly cmd) =? ten)
      (@valid_commands asciiOnly (fun _ => t) batch) = true ->
    @commit_ok asciiOnly 0 (fun d => d = ten) ((fun n => n), (fun _ => t), batch)).
  { intros t batch Ht Hb Hm Hd. split; [done|]. split; [done|]. split; [exact (Hst t Ht)|by apply Hone]. }
  apply Forall_cons. split; [split|apply Forall_cons; split; [split|by apply Forall_nil]].
  - apply Hok; [done|done|by repeat constructor|vm_compute; reflexivity].
  - apply Hrec. vm_compute. reflexivity.
  - apply Hok; [done|done|by repeat constructor|vm_compute; reflexivity].
  - apply Hrec. vm_compute. reflexivity.
Qed.

Lemma database_survives_crash_witness :
  exists rss e' ws vs db,
    @commit_all asciiOnly (badDisk 4 40) (@Log_journal asciiOnly (badDisk 4 40) elements (fun _ => (0, 0)%nat))
      demoCommits (newExecutor SyncAlways) = Some (rss, e') /\
    (ws = [] \/ exists clk batch, (clk, batch) ∈ call_of <$> demoCommits /\
       ws `prefix_of` @valid_commands asciiOnly clk batch) /\
    @run asciiOnly DB _ (fun _ => 0) ws (abs (eStore e')) = Some (vs, db) /\
    match @Open asciiOnly _ _ (badDisk 4 40) SyncAlways false (fun _ => 9 * GoTime.Second) crashedFile Store.NewStore with
    | Some (inr l', (_, s)) => clean l' /\ ~ refuses l' /\ forall k, live 0 (abs s !! k) = live 0 (db !! k)
    | Some (inl (OFile _), _) => exists n, (100 <= n)%nat /\ @disk_fault (badDisk 4 40) n <> None
    | _ => False
    end.
Proof.
  apply (@database_survives_crash asciiOnly (badDisk 4 40) elements (fun _ => (0, 0)%nat) 0 (fun d => d = ten)
    (newExecutor SyncAlways) (emptyLog SyncAlways) [] demoCommits false (fun _ => 9 * GoTime.Second) crashedFile
    (@newExecutor_mirrors asciiOnly _ _ _) (Z.le_refl 0) eq_refl (emptyLog_clean _) (emptyLog_open _)
    eq_refl eq_refl eq_refl (Forall_nil_2 _) demoCommits_ok).
  - intros i d ->. vm_compute. reflexivity.
  - vm_compute. split; [eexists; reflexivity|exists []; reflexivity].
Defined.

(** C6.  A rewrite changes the file and not the database.  The executor takes a
    snapshot and starts a rewrite, commits batches, the snapshot is written, more
    batches are committed, and the rewrite is completed; any operation of any file
    may fail, there is no memory limit, and no deadline passes between the commits and
    the replay ([steady], [mirrors]).  A rewrite that reports success leaves a healthy log on a synced file
    that holds the snapshot followed by everything acknowledged since, and running
    its commands rebuilds what a reader of the executor sees.  Whatever it reports, a log that
    was healthy holds such a file: this one or the one it had. *)
Theorem rewrite_preserves_database `{Unicode} `{Disk} (ord : gset gostring -> list gostring)
    (fresh : Log -> nat * nat) (T : Z) (D : Z -> Prop) (e : Executor Log) (l : Log) (cs : list Command)
    (sclk : clock) (entries : list SnapshotEntry) (temp delta : nat) (l1 : Log)
    (c1 c2 : list ((nat -> nat) * clock * list Command))
    (Hord : forall X, ord X ≡ₚ elements X) (HD : forall d, D d -> aligned d)
    (Hm : mirrors T D e cs) (Hmem : maxMemory e <= 0) (Hl : clean l) (Hdata : fData (lFile l) = records cs)
    (Hsclk : steady T D sclk) (Hentries : SnapshotEntries ord sclk (eStore e) = Some (inr entries))
    (Hstart : StartRewrite temp delta entries l = (None, l1))
    (Hc1 : Forall (commit_ok T D) c1) (Hc2 : Forall (commit_ok T D) c2) :
  exists rss1 e2 l2, @commit_all _ _ (Log_journal ord fresh) c1 (SetJournal (Some l1) e) = Some (rss1, e2) /\
    journal e2 = Some l2 /\
    forall l3, snapshotWorker l2 = (None, l3) ->
    exists rss2 e4 l4, @commit_all _ _ (Log_journal ord fresh) c2 (SetJournal (Some l3) e2) = Some (rss2, e4) /\
      journal e4 = Some l4 /\
      let '(r, l5) := CompleteRewrite l4 in
      lRewrite l5 = None /\
      (r = None -> lFailed l5 = None /\ clean l5 /\ exists made,
         fData (lFile l5) = records (snapshot entries ++ made) /\ fSynced (lFile l5) = fData (lFile l5) /\
         mirrors T D e4 (snapshot entries ++ made)) /\
      (lFailed l4 = None -> clean l5 /\ exists cmds,
         fData (lFile l5) = records cmds /\ mirrors T D e4 cmds).
Proof.
  set (JL := Log_journal ord fresh).
  destruct (commit_all_mirrors (H1 := JL) T D c1 (SetJournal (Some l1) e) l1 cs Hm Hmem eq_refl Hc1)
    as (rss1 & e2 & Hall1 & Hmem2 & Hj2 & Hm2).
  destruct (append_all (call_of <$> c1) l1) as [rs1 l2] eqn:Ha1. simpl in Hj2, Hm2.
  exists rss1, e2, l2. split_and!; [done..|]. intros l3 Hwork.
  destruct (commit_all_mirrors (H1 := JL) T D c2 (SetJournal (Some l3) e2) l3 _ Hm2 Hmem2 eq_refl Hc2)
    as (rss2 & e4 & Hall2 & _ & Hj4 & Hm4).
  pose proof (snapshot_mirrors T D HD ord sclk e cs entries Hord Hm Hsclk Hentries) as Hs.
  destruct (commit_all_mirrors (H1 := JL) T D c1 (SetJournal (Some l1) e) l1 _ Hs Hmem eq_refl Hc1)
    as (rss1' & e2' & Hall1' & _ & _ & Hs2). rw Hall1 in Hall1'. symmetry in Hall1'. simplify_eq. rw Ha1 /= in Hs2.
  destruct (commit_all_mirrors (H1 := JL) T D c2 (SetJournal (Some l3) e2) l3 _ Hs2 Hmem2 eq_refl Hc2)
    as (rss2' & e4' & Hall2' & _ & _ & Hs4). rw Hall2 in Hall2'. symmetry in Hall2'. simplify_eq.
  destruct (append_all (call_of <$> c2) l3) as [rs2 l4] eqn:Ha2. simpl in Hj4, Hm4, Hs4.
  exists rss2, e4, l4. split_and!; [done..|]. destruct (CompleteRewrite l4) as [r l5] eqn:Hcomp.
  rewrite <- app_assoc in Hm4, Hs4.
  destruct (rewrite_spec temp delta entries _ _ _ _ _ _ _ _ _ _ _ Hl Hstart Ha1 Hwork Ha2 Hcomp)
    as [(Hf & Hr & ->)|(Hd4 & Hn & _ & Hok & Hcase)].
  { split_and!; [done|by intros ->|done]. }
  rw Hdata -records_app in Hd4. split_and!; [done| |].
  - intros ->. destruct (Hok eq_refl) as [_ Hf5]. destruct Hcase as [(Hd5 & Hs5 & Hc5)|[Hr _]]; [|done].
    split_and!; [done..|]. eexists. split_and!; [exact Hd5|by rw Hs5|exact Hs4].
  - intros _. destruct Hcase as [(Hd5 & _ & Hc5)|(_ & Hd5 & _ & Hc5 & _)]; (split; [done|]); eexists.
    + split; [exact Hd5|exact Hs4].
    + split; [by rw Hd5|exact Hm4].
Qed.

(** A server with one key that has a deadline, its file, and its snapshot. *)
Definition savedCommands : list Command := [mkCommand (str "SET") [str "k"; str "v"; str "PXAT"; str "10000"]].

Definition savedLog : Log :=
  mkLog (GoIO.NewWriter (mkFile (records savedCommands) (length (records savedCommands)) (records savedCommands) 0))
    SyncAlways false false None None.

Definition savedExecutor : Executor Log :=
  SetJournal (Some savedLog)
    (NewExecutor (match @run asciiOnly _ _ (fun _ => 0) savedCommands Store.NewStore with
                  | Some (_, s) => s | None => Store.NewStore end)).

Definition savedEntries : list SnapshotEntry := [mkSnapshot (str "k") (str "v") ten StringKind []].

Lemma ten_steady t : t < ten -> steady 0 (fun d => d = ten) (fun _ => t).
Proof. intros Ht i d ->. rewrite -> (proj2 (Z.ltb_lt t ten)) by done. done. Qed.

Lemma savedExecutor_mirrors : @mirrors asciiOnly 0 (fun d => d = ten) savedExecutor savedCommands.
Proof.
  destruct (@run_total asciiOnly (fun _ => 0) savedCommands) as (vs & s & Hrun).
  apply (@run_mirrors asciiOnly 0 (fun d => d = ten) (fun _ => 0) savedCommands vs).
  - by apply ten_steady.
  - apply Forall_cons. split; [|by apply Forall_nil]. split_and!; [done|done|]. intros d Hd. vm_compute in Hd. by simplify_eq.
  - unfold savedExecutor. rw Hrun. done.
Qed.

Lemma rewrite_preserves_database_witness :
  let start := @StartRewrite goodDisk 0 0 savedEntries savedLog in
  exists rss1 e2 l2, @commit_all asciiOnly goodDisk (@Log_journal asciiOnly goodDisk elements (fun _ => (0, 0)%nat))
      demoCommits (SetJournal (Some start.2) savedExecutor) = Some (rss1, e2) /\
    journal e2 = Some l2 /\
    forall l3, @snapshotWorker goodDisk l2 = (None, l3) ->
    exists rss2 e4 l4, @commit_all asciiOnly goodDisk (@Log_journal asciiOnly goodDisk elements (fun _ => (0, 0)%nat))
        demoCommits (SetJournal (Some l3) e2) = Some (rss2, e4) /\
      journal e4 = Some l4 /\
      let '(r, l5) := @CompleteRewrite goodDisk l4 in
      lRewrite l5 = None /\
      (r = None -> lFailed l5 = None /\ clean l5 /\ exists made,
         fData (lFile l5) = records (snapshot savedEntries ++ made) /\ fSynced (lFile l5) = fData (lFile l5) /\
         @mirrors asciiOnly 0 (fun d => d = ten) e4 (snapshot savedEntries ++ made)) /\
      (lFailed l4 = None -> clean l5 /\ exists cmds,
         fData (lFile l5) = records cmds /\ @mirrors asciiOnly 0 (fun d => d = ten) e4 cmds).
Proof.
  intros start.
  assert (Hok : Forall (@commit_ok asciiOnly 0 (fun d => d = ten)) demoCommits).
  { eapply Forall_impl; [exact demoCommits_ok|tauto]. }
  apply (@rewrite_preserves_database asciiOnly goodDisk elements (fun _ => (0, 0)%nat) 0 (fun d => d = ten)
    savedExecutor savedLog savedCommands (fun _ => 3) savedEntries 0 0 start.2 demoCommits demoCommits).
  - intros X. reflexivity.
  - intros d ->. exists 10000. split; [vm_compute; intuition congruence|reflexivity].
  - exact savedExecutor_mirrors.
  - apply Z.le_refl.
  - by constructor.
  - reflexivity.
  - by apply ten_steady.
  - vm_compute. reflexivity.
  - reflexivity.
  - exact Hok.
  - exact Hok.
Defined.
End DurabilityTheorems.
