(* ===== verification/GoNet.v ===== *)
(** * The part of Go's [net] the configuration uses

    [net.ParseIP], which is [netip.ParseAddr] without zones, and [IP.IsUnspecified].
    An address is its sixteen bytes; an IPv4 address is the IPv6 address it maps to. *)

From S2P Require Import Prelude GoLib.

Module GoNet.

Abbreviation IP := (list Z).

(** [parseIPv4Fields]: [val] and [digLen] belong to the current octet, [fields] are
    the octets before it, [prevDot] whether the byte before was a dot or there was
    none. *)
Fixpoint parseIPv4Fields (s : gostring) (val digLen : Z) (prevDot : bool) (fields : list Z)
    : option (list Z) :=
  match s with
  | [] => if (length fields <? 3)%nat then None else Some (fields ++ [val])
  | c :: s' =>
      match GoLib.digit_of c with
      | Some d =>
          if (digLen =? 1) && (val =? 0) then None
          else let val := val * 10 + d in
               if 255 <? val then None else parseIPv4Fields s' val (digLen + 1) false fields
      | None =>
          if bool_decide (c = "."%char) then
            if prevDot || bool_decide (s' = []) then None
            else if (length fields =? 3)%nat then None
            else parseIPv4Fields s' 0 0 true (fields ++ [val])
          else None
      end
  end.

Definition mappedPrefix : list Z := replicate 10 0 ++ [255; 255].

Definition parseIPv4 (s : gostring) : option IP :=
  fields ← parseIPv4Fields s 0 0 true []; Some (mappedPrefix ++ fields).

Definition hex_value (c : ascii) : option Z :=
  let b := byte_val c in
  if (48 <=? b) && (b <=? 57) then Some (b - 48)
  else if (97 <=? b) && (b <=? 102) then Some (b - 97 + 10)
  else if (65 <=? b) && (b <=? 70) then Some (b - 65 + 10)
  else None.

(** The hex digits at the front of [s], [off] of them read so far: the value, how
    many there are and what follows; [None] when there are more than four. *)
Fixpoint hexGroup (s : gostring) (off acc : Z) : option (Z * Z * gostring) :=
  match s with
  | [] => Some (acc, off, [])
  | c :: s' =>
      match hex_value c with
      | None => Some (acc, off, s)
      | Some d => if 3 <? off then None else hexGroup s' (off + 1) (acc * 16 + d)
      end
  end.

(** The zeros an ellipsis at position [e] stands for. *)
Definition expand (ip : list Z) (ellipsis : option nat) : option IP :=
  if (length ip <? 16)%nat then
    e ← ellipsis; Some (take e ip ++ replicate (16 - length ip) 0 ++ drop e ip)
  else match ellipsis with Some _ => None | None => Some ip end.

(** The loop of [parseIPv6]; [ip] are the bytes so far.  Eight groups of two bytes
    fill an address, so eight turns are enough. *)
Fixpoint parseIPv6_loop (fuel : nat) (s : gostring) (ip : list Z) (ellipsis : option nat) : option IP :=
  match fuel with
  | O => if bool_decide (s = []) then expand ip ellipsis else None
  | S fuel' =>
      '(acc, off, rest) ← hexGroup s 0 0;
      if off =? 0 then None
      else
        match rest with
        | [] => expand (ip ++ [acc / 256; acc mod 256]) ellipsis
        | c :: after =>
            if bool_decide (c = "."%char) then
              if bool_decide (ellipsis = None) && negb (length ip =? 12)%nat then None
              else if (16 <? length ip + 4)%nat then None
              else fields ← parseIPv4Fields s 0 0 true []; expand (ip ++ fields) ellipsis
            else
              let ip := ip ++ [acc / 256; acc mod 256] in
              if negb (bool_decide (c = ":"%char)) then None
              else match after with
                   | [] => None
                   | c' :: after' =>
                       if bool_decide (c' = ":"%char) then
                         match ellipsis with
                         | Some _ => None
                         | None =>
                             match after' with
                             | [] => expand ip (Some (length ip))
                             | _ => parseIPv6_loop fuel' after' ip (Some (length ip))
                             end
                         end
                       else parseIPv6_loop fuel' after ip ellipsis
                   end
        end
  end.

(** An address with a zone is not an [IP]. *)
Definition parseIPv6 (s : gostring) : option IP :=
  if bool_decide ("%"%char ∈ s) then None
  else match s with
       | c1 :: c2 :: s' =>
           if bool_decide (c1 = ":"%char) && bool_decide (c2 = ":"%char) then
             match s' with
             | [] => Some (replicate 16 0)
             | _ => parseIPv6_loop 8 s' [] (Some 0%nat)
             end
           else parseIPv6_loop 8 s [] None
       | _ => parseIPv6_loop 8 s [] None
       end.

(** [ParseAddr] looks for the first separator. *)
Fixpoint separator (s : gostring) : option ascii :=
  match s with
  | [] => None
  | c :: s' =>
      if bool_decide (c ∈ ["."%char; ":"%char; "%"%char]) then Some c else separator s'
  end.

Definition ParseIP (s : gostring) : option IP :=
  match separator s with
  | Some c =>
      if bool_decide (c = "."%char) then parseIPv4 s
      else if bool_decide (c = ":"%char) then parseIPv6 s
      else None
  | None => None
  end.

Definition IsUnspecified (ip : IP) : bool :=
  bool_decide (ip = mappedPrefix ++ replicate 4 0) || bool_decide (ip = replicate 16 0).

(** [To4] and [To16] of an address of four or sixteen bytes. *)
Definition To4 (ip : IP) : option (list Z) :=
  if (length ip =? 4)%nat then Some ip
  else if (length ip =? 16)%nat && bool_decide (take 12 ip = mappedPrefix) then Some (drop 12 ip)
  else None.

Definition To16 (ip : IP) : option (list Z) :=
  if (length ip =? 4)%nat then Some (mappedPrefix ++ ip)
  else if (length ip =? 16)%nat then Some ip
  else None.

(** ** Results are sixteen bytes *)
Definition octet (b : Z) : Prop := 0 <= b < 256.

Lemma parseIPv4Fields_octets s val digLen prevDot fields r :
  octet val -> Forall octet fields -> (length fields <= 3)%nat ->
  parseIPv4Fields s val digLen prevDot fields = Some r -> Forall octet r /\ length r = 4%nat.
Proof.
  revert val digLen prevDot fields. induction s as [|c s IH]; intros val digLen prevDot fields Hv Hf Hl; simpl.
  { case_match eqn:Hc; [done|]. apply Nat.ltb_ge in Hc. intros ?. simplify_eq.
    rw Forall_app length_app. simpl. split; [auto|lia]. }
  destruct (GoLib.digit_of c) as [d|] eqn:Hd.
  - destruct (_ && _); [done|]. destruct (Z.ltb_spec 255 (val * 10 + d)); [done|].
    apply IH; [|done..]. unfold octet, GoLib.digit_of in *. case_match eqn:Hb; [|done]. bool_prop. simplify_eq. lia.
  - case_bool_decide; [|done]. destruct (_ || _); [done|].
    destruct (Nat.eqb_spec (length fields) 3); [done|]. apply IH.
    + unfold octet. lia.
    + apply Forall_app. auto.
    + rw length_app. simpl. lia.
Qed.

Lemma hexGroup_bound s off acc v n rest :
  0 <= off <= 4 -> 0 <= acc < 16 ^ off -> hexGroup s off acc = Some (v, n, rest) -> 0 <= v < 2 ^ 16.
Proof.
  revert off acc. induction s as [|c s IH]; intros off acc Ho Ha; simpl.
  { intros. simplify_eq. assert (16 ^ n <= 16 ^ 4) by (apply Z.pow_le_mono_r; lia). lia. }
  destruct (hex_value c) as [d|] eqn:Hd.
  - destruct (Z.ltb_spec 3 off); [done|]. apply IH; [lia|].
    assert (0 <= d < 16). { unfold hex_value in Hd. repeat case_match; bool_prop; simplify_eq; lia. }
    rewrite -> Z.pow_add_r by lia. lia.
  - intros. simplify_eq. assert (16 ^ n <= 16 ^ 4) by (apply Z.pow_le_mono_r; lia). lia.
Qed.

Lemma expand_octets ip e r :
  Forall octet ip -> (length ip <= 16)%nat -> expand ip e = Some r -> Forall octet r /\ length r = 16%nat.
Proof.
  unfold expand. intros Hf Hl. case_match eqn:Hc.
  - destruct e as [e|]; simpl; [|done]. intros. simplify_eq. split.
    + rw !Forall_app. split_and!; [by apply Forall_take|apply Forall_replicate; unfold octet; lia|by apply Forall_drop].
    + rw !length_app length_take length_replicate length_drop. apply Nat.ltb_lt in Hc. lia.
  - destruct e; [done|]. intros. simplify_eq. apply Nat.ltb_ge in Hc. split; [done|lia].
Qed.

Lemma parseIPv6_loop_octets fuel s ip e r :
  Forall octet ip -> (length ip + 2 * fuel = 16)%nat ->
  parseIPv6_loop fuel s ip e = Some r -> Forall octet r /\ length r = 16%nat.
Proof.
  revert s ip e. induction fuel as [|fuel IH]; intros s ip e Hf Hl Hp; simpl in Hp.
  { case_match; [|done]. eapply expand_octets; [done|lia|done]. }
  destruct (hexGroup s 0 0) as [[[acc off] rest]|] eqn:Hh; [|done]. simpl in Hp.
  apply hexGroup_bound in Hh; [|lia|simpl; lia].
  assert (Hf2 : Forall octet (ip ++ [acc / 256; acc mod 256])).
  { apply Forall_app. split; [done|]. change (2 ^ 16) with 65536 in Hh.
    pose proof (Z.mod_pos_bound acc 256 ltac:(lia)). unfold octet.
    repeat constructor; try lia; [apply Z.div_pos; lia|apply Z.div_lt_upper_bound; lia]. }
  assert (Hl2 : (length (ip ++ [(acc / 256)%Z; (acc mod 256)%Z]) + 2 * fuel = 16)%nat) by (rw length_app; simpl; lia).
  destruct (off =? 0); [done|]. destruct rest as [|c after]; [eapply expand_octets; [done|lia|done]|].
  case_bool_decide.
  - destruct (_ && _); [done|]. destruct (Nat.ltb_spec 16 (length ip + 4)); [done|].
    destruct (parseIPv4Fields s 0 0 true []) as [fs|] eqn:H4; [|done]. simpl in Hp.
    apply parseIPv4Fields_octets in H4 as [Hf4 Hl4]; [|unfold octet; lia|constructor|simpl; lia].
    apply (expand_octets (ip ++ fs) e); [|rw length_app; lia|done]. apply Forall_app. auto.
  - destruct (negb _); [done|]. destruct after as [|c' after']; [done|].
    case_bool_decide; [|by eapply IH]. destruct e; [done|].
    destruct after' as [|c3 after']; [eapply expand_octets; [done|lia|done]|by eapply IH].
Qed.

(** Whatever [ParseIP] returns is a sixteen-byte address. *)
Lemma ParseIP_octets s ip : ParseIP s = Some ip -> Forall octet ip /\ length ip = 16%nat.
Proof.
  unfold ParseIP. destruct (separator s) as [c|]; [|done]. case_bool_decide.
  - unfold parseIPv4. destruct (parseIPv4Fields s 0 0 true []) as [fs|] eqn:H4; [|done]. intros [= <-].
    apply parseIPv4Fields_octets in H4 as [Hf4 Hl4]; [|unfold octet; lia|constructor|simpl; lia].
    split; [|simpl; lia]. repeat (constructor; [unfold octet; lia|]). done.
  - case_bool_decide; [|done]. unfold parseIPv6. case_bool_decide; [done|].
    assert (Ho : forall s e r, parseIPv6_loop 8 s [] e = Some r -> Forall octet r /\ length r = 16%nat)
      by (intros ? ? ?; apply parseIPv6_loop_octets; [constructor|done]).
    destruct s as [|c1 [|c2 s']]; [by apply Ho..|]. destruct (_ && _); [|by apply Ho].
    destruct s'; [|by apply Ho]. intros. simplify_eq. split; [|done].
    apply Forall_replicate. unfold octet. lia.
Qed.

End GoNet.
