(* ===== verification/Config.v ===== *)
(** * Configuration

    [internal/config/config.go]: the settings both servers share, their defaults
    and their validation, and the parser of memory sizes.  The texts of validation
    errors are constants of the source except where they quote the value. *)

From S2P Require Import Prelude GoTime GoLib GoNet Executor.

Definition PolicyNoEviction : gostring := str "noeviction".
Definition PolicyAllKeysLRU : gostring := str "allkeys-lru".

Record Config := mkConfig {
  Host : gostring;
  Port : gostring;
  MaxConnections : Z;
  MaxRequestBytes : Z;
  MaxResponseBytes : Z;
  ReadTimeout : Z;
  WriteTimeout : Z;
  AOFEnabled : bool;
  AOFPath : gostring;
  AOFSyncPolicy : gostring;
  MaxMemoryBytes : Z;
  MaxMemoryPolicy : gostring;
}.

Module Conf.

Definition DefaultConfig : Config := {|
  Host := str "0.0.0.0";
  Port := str "6379";
  MaxConnections := 128;
  MaxRequestBytes := Z.shiftl 2 20;
  MaxResponseBytes := Z.shiftl 4 20;
  ReadTimeout := 30 * GoTime.Second;
  WriteTimeout := 10 * GoTime.Second;
  AOFEnabled := true;
  AOFPath := str "appendonly.aof";
  AOFSyncPolicy := str "everysec";
  MaxMemoryBytes := 0;
  MaxMemoryPolicy := PolicyNoEviction;
|}.

Definition WithDefaults (c : Config) : Config := {|
  Host := Host c;
  Port := Port c;
  MaxConnections :=
    if MaxConnections c =? 0 then MaxConnections DefaultConfig else MaxConnections c;
  MaxRequestBytes :=
    if MaxRequestBytes c =? 0 then MaxRequestBytes DefaultConfig else MaxRequestBytes c;
  MaxResponseBytes :=
    if MaxResponseBytes c =? 0 then MaxResponseBytes DefaultConfig else MaxResponseBytes c;
  ReadTimeout := if ReadTimeout c =? 0 then ReadTimeout DefaultConfig else ReadTimeout c;
  WriteTimeout := if WriteTimeout c =? 0 then WriteTimeout DefaultConfig else WriteTimeout c;
  AOFEnabled := AOFEnabled c;
  AOFPath :=
    if bool_decide (AOFPath c = []) && AOFEnabled c then AOFPath DefaultConfig else AOFPath c;
  AOFSyncPolicy :=
    if bool_decide (AOFSyncPolicy c = []) then AOFSyncPolicy DefaultConfig else AOFSyncPolicy c;
  MaxMemoryBytes := MaxMemoryBytes c;
  MaxMemoryPolicy :=
    if bool_decide (MaxMemoryPolicy c = []) then MaxMemoryPolicy DefaultConfig else MaxMemoryPolicy c;
|}.

(** ** Host names *)
Definition hostnameByte (c : ascii) : bool :=
  let r := byte_val c in
  negb (((r <? 97) || (122 <? r)) && ((r <? 65) || (90 <? r)) && ((r <? 48) || (57 <? r))
        && negb (r =? 45)).

Definition validLabel (label : gostring) : bool :=
  negb ((len label =? 0) || (63 <? len label) || bool_decide (head label = Some "-"%char)
        || bool_decide (last label = Some "-"%char))
  && forallb hostnameByte label.

Definition validHostname (host : gostring) : bool :=
  if 253 <? len host then false else forallb validLabel (GoLib.Split host ".").

Definition IsWildcardHost (host : gostring) : bool :=
  match GoNet.ParseIP host with Some ip => GoNet.IsUnspecified ip | None => false end.

(** ** Validation, in the order of the source *)
Section validate.
Context `{Unicode}.

Definition checkHost (c : Config) : option goerr :=
  if bool_decide (Host c = []) || negb (bool_decide (GoLib.TrimSpace (Host c) = Host c))
  then Some (str "host must be a non-empty IP address or hostname")
  else if bool_decide (GoNet.ParseIP (Host c) = None) && negb (validHostname (Host c))
  then Some (str "invalid host " ++ GoLib.Quote (Host c))
  else None.

Definition checkPort (c : Config) : option goerr :=
  let bad := Some (str "port must be an integer between 0 and 65535") in
  match GoLib.Atoi (Port c) with
  | None => bad
  | Some port => if (port <? 0) || (65535 <? port) then bad else None
  end.

Definition checkLimits (c : Config) : option goerr :=
  if MaxConnections c <=? 0 then Some (str "max connections must be greater than zero")
  else if MaxRequestBytes c <=? 0 then Some (str "max request bytes must be greater than zero")
  else if MaxResponseBytes c <=? 0 then Some (str "max response bytes must be greater than zero")
  else if ReadTimeout c <=? 0 then Some (str "read timeout must be greater than zero")
  else if WriteTimeout c <=? 0 then Some (str "write timeout must be greater than zero")
  else if MaxMemoryBytes c <? 0 then Some (str "max memory must not be negative")
  else None.

Definition checkPolicies (c : Config) : option goerr :=
  if negb (bool_decide (MaxMemoryPolicy c ∈ [PolicyNoEviction; PolicyAllKeysLRU]))
  then Some (str "max memory policy must be one of: noeviction, allkeys-lru")
  else if AOFEnabled c then
    if bool_decide (GoLib.TrimSpace (AOFPath c) = [])
    then Some (str "AOF path must not be empty when AOF is enabled")
    else if negb (bool_decide (AOFSyncPolicy c ∈ str <$> ["always"; "everysec"; "no"]%string))
    then Some (str "AOF sync policy must be one of: always, everysec, no")
    else None
  else None.

Definition Validate (c : Config) : option goerr :=
  match checkHost c with
  | Some e => Some e
  | None =>
      match checkPort c with
      | Some e => Some e
      | None => match checkLimits c with Some e => Some e | None => checkPolicies c end
      end
  end.

(** ** Sizes *)
Definition units : list (gostring * Z) :=
  [(str "gb", Z.shiftl 1 30); (str "mb", Z.shiftl 1 20); (str "kb", Z.shiftl 1 10); (str "b", 1)].

(** The first unit the text ends with is cut off and gives the multiplier. *)
Fixpoint cutUnit (us : list (gostring * Z)) (lower : gostring) : gostring * Z :=
  match us with
  | [] => (lower, 1)
  | (suffix, multiplier) :: us' =>
      if GoLib.HasSuffix lower suffix then (GoLib.TrimSuffix lower suffix, multiplier)
      else cutUnit us' lower
  end.

Definition ParseBytes (text : gostring) : goerr + Z :=
  let '(lower, multiplier) := cutUnit units (GoLib.ToLower (GoLib.TrimSpace text)) in
  let invalid := inl (str "invalid size " ++ GoLib.Quote text) in
  match GoLib.ParseInt (GoLib.TrimSpace lower) with
  | None => invalid
  | Some n =>
      if n <? 0 then invalid
      else if max_int64 / multiplier <? n then inl (str "size " ++ GoLib.Quote text ++ str " is too large")
      else inr (int64 (n * multiplier))
  end.

End validate.
End Conf.
