(* ===== verification/ConfigProof.v ===== *)
(** * What validation guarantees

    The limits of a valid configuration, the defaults, and sizes. *)

From S2P Require Import Prelude GoTime GoLib GoNet Executor Config.

Module ConfigProof.
Import Conf.

Section validate.
Context `{Unicode}.

Lemma Validate_limits c :
  Validate c = None ->
  0 < MaxConnections c /\ 0 < MaxRequestBytes c /\ 0 < MaxResponseBytes c /\ 0 < ReadTimeout c /\
  0 < WriteTimeout c /\ 0 <= MaxMemoryBytes c.
Proof.
  unfold Validate. destruct (checkHost c); [done|]. destruct (checkPort c); [done|].
  destruct (checkLimits c) eqn:Hl; [done|]. intros _. revert Hl. unfold checkLimits.
  destruct (Z.leb_spec (MaxConnections c) 0); [done|]. destruct (Z.leb_spec (MaxRequestBytes c) 0); [done|].
  destruct (Z.leb_spec (MaxResponseBytes c) 0); [done|]. destruct (Z.leb_spec (ReadTimeout c) 0); [done|].
  destruct (Z.leb_spec (WriteTimeout c) 0); [done|]. destruct (Z.ltb_spec (MaxMemoryBytes c) 0); [done|].
  intros _. lia.
Qed.

Lemma WithDefaults_idem c : WithDefaults (WithDefaults c) = WithDefaults c.
Proof.
  assert (Hz : forall d n, d <> 0 -> (if (if n =? 0 then d else n) =? 0 then d else (if n =? 0 then d else n)) =
                          (if n =? 0 then d else n)).
  { intros d n Hd. destruct (n =? 0) eqn:Hn; [by rewrite -> (proj2 (Z.eqb_neq _ _))|by rw Hn]. }
  assert (Ht : forall (d t : gostring) (x : bool), d <> [] ->
            (if bool_decide ((if bool_decide (t = []) && x then d else t) = []) && x then d
             else if bool_decide (t = []) && x then d else t) = (if bool_decide (t = []) && x then d else t)).
  { intros d t x Hd. destruct (bool_decide (t = []) && x) eqn:Hb; [by rewrite -> bool_decide_eq_false_2|by rw Hb]. }
  assert (Hs : forall d t : gostring, d <> [] ->
            (if bool_decide ((if bool_decide (t = []) then d else t) = []) then d
             else if bool_decide (t = []) then d else t) = (if bool_decide (t = []) then d else t)).
  { intros d t Hd. specialize (Ht d t true Hd). by rw !andb_true_r in Ht. }
  unfold WithDefaults. cbn [MaxConnections MaxRequestBytes MaxResponseBytes ReadTimeout WriteTimeout AOFPath AOFEnabled
    AOFSyncPolicy MaxMemoryPolicy Host Port MaxMemoryBytes]. by rewrite -> !Hz, Ht, !Hs.
Qed.

(** Filling in defaults keeps a valid configuration valid, and its limits. *)
Lemma Validate_defaults c :
  Validate c = None -> Validate (WithDefaults c) = None /\
  MaxConnections (WithDefaults c) = MaxConnections c /\ MaxRequestBytes (WithDefaults c) = MaxRequestBytes c /\
  MaxResponseBytes (WithDefaults c) = MaxResponseBytes c /\ ReadTimeout (WithDefaults c) = ReadTimeout c /\
  WriteTimeout (WithDefaults c) = WriteTimeout c.
Proof.
  intros Hv. destruct (Validate_limits c Hv) as (H1 & H2 & H3 & H4 & H5 & H6).
  assert (E : forall n d, 0 < n -> (if n =? 0 then d else n) = n) by (intros n d Hn; by rewrite -> (proj2 (Z.eqb_neq _ _)) by lia).
  split; [|cbn; by rewrite -> !E].
  revert Hv. unfold Validate. change (checkHost (WithDefaults c)) with (checkHost c).
  change (checkPort (WithDefaults c)) with (checkPort c).
  assert (checkLimits (WithDefaults c) = checkLimits c) as ->.
  { unfold checkLimits, WithDefaults. cbn [MaxConnections MaxRequestBytes MaxResponseBytes ReadTimeout WriteTimeout MaxMemoryBytes].
    by rewrite -> !E. }
  destruct (checkHost c); [done|]. destruct (checkPort c); [done|]. destruct (checkLimits c); [done|].
  unfold checkPolicies, WithDefaults. cbn [MaxMemoryPolicy AOFEnabled AOFPath AOFSyncPolicy].
  destruct (decide (MaxMemoryPolicy c = [])) as [->|Hp]; [done|]. rewrite -> (bool_decide_eq_false_2 (MaxMemoryPolicy c = [])) by done.
  destruct (negb _); [done|]. destruct (AOFEnabled c); [|done]. rw andb_true_r.
  destruct (decide (AOFPath c = [])) as [->|Ha]; [done|]. rewrite -> (bool_decide_eq_false_2 (AOFPath c = [])) by done.
  destruct (bool_decide (_ = [])); [done|].
  destruct (decide (AOFSyncPolicy c = [])) as [->|Hy]; [done|]. by rewrite -> (bool_decide_eq_false_2 (AOFSyncPolicy c = [])) by done.
Qed.

(** ** Host names

    A host name is at most 253 bytes: labels separated by dots, each of 1 to 63
    letters, digits and hyphens, with no hyphen at either end. *)
Definition hostname_chars : gostring :=
  str "abcdefghijklmnopqrstuvwxyzABCDEFGHIJKLMNOPQRSTUVWXYZ0123456789-".

Record label_ok (label : gostring) : Prop := {
  lb_length : 1 <= len label <= 63;
  lb_chars : Forall (fun c => c ∈ hostname_chars) label;
  lb_head : head label <> Some "-"%char;
  lb_last : last label <> Some "-"%char;
}.

Fixpoint dotted (labels : list gostring) : gostring :=
  match labels with
  | [] => []
  | [label] => label
  | label :: labels' => label ++ "."%char :: dotted labels'
  end.

Definition hostname_ok (host : gostring) : Prop :=
  len host <= 253 /\ exists labels, labels <> [] /\ host = dotted labels /\ Forall label_ok labels.

Lemma hostnameByte_chars c : hostnameByte c = bool_decide (c ∈ hostname_chars).
Proof. by destruct c as [[] [] [] [] [] [] [] []]. Qed.

Lemma validLabel_ok label : validLabel label = true <-> label_ok label.
Proof.
  unfold validLabel. rewrite -> andb_true_iff, negb_true_iff, !orb_false_iff, !bool_decide_eq_false, forallb_forall.
  pose proof (len_nonneg label). rewrite -> Z.eqb_neq, Z.ltb_ge. split.
  - intros [[[[Hn Hm] Hh] Hl] Hc]. split; [lia| |done|done]. apply Forall_forall. intros c Hin%list_elem_of_In.
    specialize (Hc c Hin). rw hostnameByte_chars in Hc. by apply bool_decide_eq_true in Hc.
  - intros [Hn Hc Hh Hl]. split_and!; [lia|lia|done|done|]. intros c Hin%list_elem_of_In. rw hostnameByte_chars.
    apply bool_decide_eq_true. by apply (proj1 (Forall_forall _ _) Hc).
Qed.

Lemma split_loop_cur s cur :
  exists l ls, GoLib.Split s "." = l :: ls /\ GoLib.split_loop "." s cur = (reverse cur ++ l) :: ls.
Proof.
  unfold GoLib.Split. revert cur. induction s as [|c s IH]; intros cur; cbn [GoLib.split_loop].
  { exists [], []. by rw app_nil_r. }
  case_bool_decide.
  - exists [], (GoLib.split_loop "." s []). by rw app_nil_r.
  - destruct (IH [c]) as (l & ls & Hl & ->). destruct (IH (c :: cur)) as (l' & ls' & Hl' & ->).
    rw Hl in Hl'. simplify_eq. exists (c :: l'), ls'. split; [done|]. by rw reverse_cons -app_assoc.
Qed.

Lemma Split_cons c s :
  exists l ls, GoLib.Split s "." = l :: ls /\
    GoLib.Split (c :: s) "." = if bool_decide (c = "."%char) then [] :: l :: ls else (c :: l) :: ls.
Proof.
  destruct (split_loop_cur s [c]) as (l & ls & Hl & Hc). exists l, ls. split; [done|].
  unfold GoLib.Split at 1. cbn [GoLib.split_loop]. case_bool_decide; [|exact Hc]. unfold GoLib.Split in Hl. by rw Hl.
Qed.

Lemma dotted_Split s : dotted (GoLib.Split s ".") = s.
Proof.
  induction s as [|c s IH]; [done|]. destruct (Split_cons c s) as (l & ls & Hl & ->). rw Hl in IH.
  case_bool_decide as Hc; [subst c; change ("."%char :: dotted (l :: ls) = "."%char :: s); by rw IH|].
  rw -IH. by destruct ls.
Qed.

Lemma Split_plain l : Forall (fun c => c <> "."%char) l -> GoLib.Split l "." = [l].
Proof.
  induction 1 as [|c l Hc Hl IH]; [done|]. destruct (Split_cons c l) as (l1 & ls & Hl1 & ->). rw IH in Hl1. simplify_eq.
  by rewrite -> bool_decide_eq_false_2.
Qed.

Lemma Split_app l s :
  Forall (fun c => c <> "."%char) l -> GoLib.Split (l ++ "."%char :: s) "." = l :: GoLib.Split s ".".
Proof.
  induction 1 as [|c l Hc Hl IH]; cbn [app].
  - destruct (Split_cons "." s) as (l & ls & -> & ->). by rewrite -> bool_decide_eq_true_2.
  - destruct (Split_cons c (l ++ "."%char :: s)) as (l1 & ls & Hl1 & ->). rw IH in Hl1. simplify_eq.
    by rewrite -> bool_decide_eq_false_2.
Qed.

Lemma Split_dotted labels :
  labels <> [] -> Forall (Forall (fun c => c <> "."%char)) labels -> GoLib.Split (dotted labels) "." = labels.
Proof.
  intros Hne Hl. induction Hl as [|l labels Hl Hls IH]; [done|]. destruct labels as [|l' labels]; cbn [dotted].
  - by apply Split_plain.
  - rewrite -> Split_app by done. f_equal. by apply IH.
Qed.

Lemma validHostname_ok host : validHostname host = true <-> hostname_ok host.
Proof.
  unfold validHostname, hostname_ok. destruct (Z.ltb_spec 253 (len host)); [split; [done|intros [? _]; lia]|].
  rewrite -> forallb_forall. split.
  - intros Hv. split; [lia|]. exists (GoLib.Split host "."). split_and!.
    + destruct (split_loop_cur host []) as (l & ls & -> & _). done.
    + by rw dotted_Split.
    + apply Forall_forall. intros l Hin%list_elem_of_In. by apply validLabel_ok, Hv.
  - intros [_ (labels & Hne & -> & Hl)]. rewrite -> Split_dotted; [|done|].
    + intros l Hin%list_elem_of_In. by apply validLabel_ok, (proj1 (Forall_forall _ _) Hl).
    + eapply Forall_impl; [exact Hl|]. intros l [_ Hc _ _]. eapply Forall_impl; [exact Hc|].
      intros c Hin ->. by vm_compute in Hin; set_solver.
Qed.

(** ** What [Validate] accepts *)
Record accepted (c : Config) : Prop := {
  ac_trimmed : Host c <> [] /\ GoLib.TrimSpace (Host c) = Host c;
  ac_host : is_Some (GoNet.ParseIP (Host c)) \/ hostname_ok (Host c);
  ac_port : exists port, GoLib.Atoi (Port c) = Some port /\ 0 <= port <= 65535;
  ac_limits : 0 < MaxConnections c /\ 0 < MaxRequestBytes c /\ 0 < MaxResponseBytes c;
  ac_timeouts : 0 < ReadTimeout c /\ 0 < WriteTimeout c;
  ac_memory : 0 <= MaxMemoryBytes c /\ (MaxMemoryPolicy c = str "noeviction" \/ MaxMemoryPolicy c = str "allkeys-lru");
  ac_aof : AOFEnabled c = true ->
    GoLib.TrimSpace (AOFPath c) <> [] /\
    (AOFSyncPolicy c = str "always" \/ AOFSyncPolicy c = str "everysec" \/ AOFSyncPolicy c = str "no");
}.

Lemma checkHost_ok c :
  checkHost c = None <->
  (Host c <> [] /\ GoLib.TrimSpace (Host c) = Host c) /\ (is_Some (GoNet.ParseIP (Host c)) \/ hostname_ok (Host c)).
Proof.
  unfold checkHost. rewrite <- validHostname_ok.
  case_bool_decide as He; cbn [orb]; [naive_solver|]. case_bool_decide as Ht; cbn [negb]; [|naive_solver].
  case_bool_decide as Hip; cbn [andb].
  - rewrite -> Hip. destruct (validHostname (Host c)); cbn [negb]; (split; [try done; naive_solver|]).
    + done.
    + intros [_ [[? ?]|?]]; done.
  - split; [|done]. intros _. split; [done|]. left. by apply not_eq_None_Some.
Qed.

Lemma checkPort_ok c : checkPort c = None <-> exists port, GoLib.Atoi (Port c) = Some port /\ 0 <= port <= 65535.
Proof.
  unfold checkPort. destruct (GoLib.Atoi (Port c)) as [n|]; [|naive_solver].
  destruct (Z.ltb_spec n 0); [|destruct (Z.ltb_spec 65535 n)]; cbn [orb]; (split; [try done|intros (p & [= <-] & ?); try done; lia]).
  intros _. exists n. split; [done|lia].
Qed.

Lemma checkLimits_ok c :
  checkLimits c = None <->
  0 < MaxConnections c /\ 0 < MaxRequestBytes c /\ 0 < MaxResponseBytes c /\ 0 < ReadTimeout c /\ 0 < WriteTimeout c /\
  0 <= MaxMemoryBytes c.
Proof.
  unfold checkLimits. repeat (match goal with |- context [if ?b then _ else _] => destruct b eqn:? end); bool_prop;
    rewrite -> ?Z.leb_le, ?Z.leb_gt, ?Z.ltb_lt, ?Z.ltb_ge in *; (split; [try done; lia|try done; lia]).
Qed.

Lemma checkPolicies_ok c :
  checkPolicies c = None <->
  (MaxMemoryPolicy c = str "noeviction" \/ MaxMemoryPolicy c = str "allkeys-lru") /\
  (AOFEnabled c = true -> GoLib.TrimSpace (AOFPath c) <> [] /\
    (AOFSyncPolicy c = str "always" \/ AOFSyncPolicy c = str "everysec" \/ AOFSyncPolicy c = str "no")).
Proof.
  unfold checkPolicies, PolicyNoEviction, PolicyAllKeysLRU. rewrite -> (bool_decide_ext _
    (MaxMemoryPolicy c = str "noeviction" \/ MaxMemoryPolicy c = str "allkeys-lru")) by set_solver.
  case_bool_decide; cbn [negb]; [|naive_solver]. destruct (AOFEnabled c); [|naive_solver].
  case_bool_decide; [naive_solver|]. cbn [fmap list_fmap].
  rewrite -> (bool_decide_ext _ (AOFSyncPolicy c = str "always" \/ AOFSyncPolicy c = str "everysec" \/ AOFSyncPolicy c = str "no"))
    by set_solver.
  case_bool_decide; cbn [negb]; naive_solver.
Qed.

Lemma Validate_accepted c : Validate c = None <-> accepted c.
Proof.
  assert (Hall : Validate c = None <-> checkHost c = None /\ checkPort c = None /\ checkLimits c = None /\ checkPolicies c = None).
  { unfold Validate. destruct (checkHost c), (checkPort c), (checkLimits c), (checkPolicies c); naive_solver. }
  rewrite -> Hall, checkHost_ok, checkPort_ok, checkLimits_ok, checkPolicies_ok. split.
  - intros ([] & ? & (? & ? & ? & ? & ? & ?) & ? & ?). by constructor.
  - intros [[] ? ? (? & ? & ?) [] [] ?]. by split_and!.
Qed.

Lemma Validate_port c : Validate c = None -> exists n, GoLib.Atoi (Port c) = Some n /\ 0 <= n <= 65535.
Proof.
  unfold Validate. destruct (checkHost c); [done|]. unfold checkPort. destruct (GoLib.Atoi (Port c)) as [n|]; [|done].
  destruct (Z.ltb_spec n 0); [done|]. destruct (Z.ltb_spec 65535 n); [done|]. intros _. exists n. split; [done|lia].
Qed.

(** ** Sizes *)
Definition plain (s : gostring) : Prop := Forall (fun c => 33 <= byte_val c < 128) s.

Lemma trim_left_plain s : plain s -> GoLib.trim_left s = s.
Proof.
  intros Hs. destruct s as [|c s]; [done|]. inversion Hs; subst. simpl. unfold GoLib.isSpace.
  rewrite -> (proj2 (Z.eqb_neq _ _)), (proj2 (Z.leb_gt (byte_val c) 13)) by lia. by rw andb_false_r.
Qed.

Lemma plain_ASCII s : plain s -> GoLib.isASCII s = true.
Proof. intros Hs. apply forallb_forall. intros c Hc%list_elem_of_In. unfold plain in Hs. rw Forall_forall in Hs. apply Hs in Hc. lia. Qed.

Lemma TrimSpace_plain s : plain s -> GoLib.TrimSpace s = s.
Proof.
  intros Hs. unfold GoLib.TrimSpace. rewrite -> plain_ASCII by done. rewrite -> (trim_left_plain s) by done.
  rewrite -> trim_left_plain; [by rw reverse_involutive|]. by apply Forall_reverse.
Qed.

Lemma HasSuffix_app k s : GoLib.HasSuffix (k ++ s) s = true.
Proof.
  unfold GoLib.HasSuffix. rw length_app. rewrite -> (proj2 (Nat.leb_le _ _)) by lia.
  replace (length k + length s - length s)%nat with (length k) by lia. rw drop_app_length. by rewrite -> bool_decide_eq_true_2.
Qed.

Lemma TrimSuffix_app k s : GoLib.TrimSuffix (k ++ s) s = k.
Proof.
  unfold GoLib.TrimSuffix. rw HasSuffix_app length_app.
  replace (length k + length s - length s)%nat with (length k) by lia. apply take_app_length.
Qed.

Lemma HasSuffix_split t s : GoLib.HasSuffix t s = true -> exists k, t = k ++ s.
Proof.
  unfold GoLib.HasSuffix. intros Hs. bool_prop. exists (take (length t - length s) t).
  match goal with H : drop _ _ = s |- _ => rewrite <- H at 2 end. by rw take_drop.
Qed.

(** Digits followed by letters: the unit is found at the end. *)
Lemma HasSuffix_digits d u s x s' :
  GoLib.decimal d -> s = x :: s' -> 97 <= byte_val x -> (length u < length s)%nat -> d <> [] ->
  GoLib.HasSuffix (d ++ u) s = false.
Proof.
  intros Hd -> Hx Hl Hne. destruct (GoLib.HasSuffix (d ++ u) (x :: s')) eqn:Hs; [|done].
  apply HasSuffix_split in Hs as [k Hk]. exfalso.
  assert (x ∈ d) as Hin.
  { assert (Hlk : (d ++ u) !! length k = Some x) by (rw Hk; by rewrite -> lookup_app_r, Nat.sub_diag by done).
    apply (f_equal length) in Hk. rw !length_app in Hk. simpl in *.
    rewrite -> lookup_app_l in Hlk by lia. by eapply list_elem_of_lookup_2. }
  unfold GoLib.decimal in Hd. rw Forall_forall in Hd. apply Hd in Hin. lia.
Qed.

Lemma HasSuffix_same d u s : length u = length s -> u <> s -> GoLib.HasSuffix (d ++ u) s = false.
Proof.
  intros Hl Hne. destruct (GoLib.HasSuffix (d ++ u) s) eqn:Hs; [|done].
  apply HasSuffix_split in Hs as [k Hk]. by apply app_inj_2 in Hk as [_ Hk].
Qed.

(** The empty unit is bytes. *)
Definition all_units : list (gostring * Z) := ([], 1) :: units.

Lemma cutUnit_digits d suffix multiplier :
  GoLib.decimal d -> d <> [] -> (suffix, multiplier) ∈ all_units ->
  cutUnit units (d ++ suffix) = (d, multiplier).
Proof.
  intros Hd Hne Hu. unfold units. cbn [cutUnit].
  assert (Hlong : forall u (s : gostring), (length u < length s)%nat -> Forall (fun c => 97 <= byte_val c) s ->
            GoLib.HasSuffix (d ++ u) s = false).
  { intros u s Hl Hs. destruct s as [|x s']; [simpl in Hl; lia|]. inversion Hs; subst.
    by apply (HasSuffix_digits d u (x :: s') x s'). }
  unfold all_units, units in Hu. rewrite -> !elem_of_cons, elem_of_nil in Hu.
  destruct Hu as [Hu|[Hu|[Hu|[Hu|[Hu|[]]]]]]; injection Hu as -> ->;
    repeat first [rewrite -> HasSuffix_app, TrimSuffix_app; reflexivity
                 |rewrite -> HasSuffix_same by done
                 |rewrite -> Hlong by (simpl; first [lia|repeat (constructor; [vm_compute; done|]); constructor])].
  by rw app_nil_r.
Qed.

Lemma plain_digits d : GoLib.decimal d -> plain d.
Proof. intros Hd. eapply Forall_impl; [exact Hd|]. simpl. lia. Qed.

Lemma unit_plain suffix multiplier : (suffix, multiplier) ∈ all_units ->
  Forall (fun c => 97 <= byte_val c < 128) suffix /\ 0 < multiplier.
Proof.
  unfold all_units, units. rewrite -> !elem_of_cons, elem_of_nil.
  intros [Hu|[Hu|[Hu|[Hu|[Hu|[]]]]]]; injection Hu as -> ->;
    (split; [repeat (constructor; [vm_compute; done|]); constructor|vm_compute; done]).
Qed.

Lemma ToLower_plain s : Forall (fun c => byte_val c < 65 \/ 97 <= byte_val c < 128) s -> GoLib.isASCII s = true ->
  GoLib.ToLower s = s.
Proof.
  intros Hs Ha. unfold GoLib.ToLower. rw Ha. clear Ha. induction Hs as [|c s Hc _ IH]; [done|]. csimpl. rw IH. f_equal.
  unfold GoLib.lower. destruct (Z.leb_spec 65 (byte_val c)), (Z.leb_spec (byte_val c) 90); try done. lia.
Qed.

(** A number with a unit is read as written, unless the product passes 63 bits. *)
Lemma ParseBytes_digits n suffix multiplier :
  0 <= n <= max_int64 -> (suffix, multiplier) ∈ all_units ->
  ParseBytes (GoLib.FormatInt n ++ suffix) =
    if n * multiplier <=? max_int64 then inr (n * multiplier)
    else inl (str "size " ++ GoLib.Quote (GoLib.FormatInt n ++ suffix) ++ str " is too large").
Proof.
  intros Hn Hu. set (d := GoLib.FormatInt n). pose proof (GoLib.FormatInt_decimal n) as Hd. fold d in Hd.
  assert (Hint : in_int64 n) by (unfold in_int64, min_int64, max_int64 in *; lia).
  assert (Hp : GoLib.ParseInt d = Some n) by by apply GoLib.ParseInt_FormatInt.
  assert (Hne : d <> []) by (intros Hz; by rw Hz in Hp).
  destruct (unit_plain _ _ Hu) as [Hsuf Hmul].
  assert (Hplain : plain (d ++ suffix)).
  { apply Forall_app. split; [by apply plain_digits|]. eapply Forall_impl; [exact Hsuf|]. simpl. lia. }
  unfold ParseBytes. rewrite -> TrimSpace_plain by done.
  rewrite -> ToLower_plain; [| |by apply plain_ASCII].
  2:{ apply Forall_app. split; (eapply Forall_impl; [first [exact Hd|exact Hsuf]|]); simpl; lia. }
  rewrite -> (cutUnit_digits d suffix multiplier) by done. rewrite -> TrimSpace_plain by by apply plain_digits.
  rw Hp. rewrite -> (proj2 (Z.ltb_ge n 0)) by lia.
  destruct (Z.leb_spec (n * multiplier) max_int64) as [Hle|Hgt].
  - rewrite -> (proj2 (Z.ltb_ge _ _)) by (apply Z.div_le_lower_bound; lia).
    rewrite -> int64_id; [done|]. unfold in_int64, min_int64 in *. lia.
  - rewrite -> (proj2 (Z.ltb_lt _ _)); [done|]. apply Z.div_lt_upper_bound; lia.
Qed.

(** Whatever is accepted is a size: nothing wraps around. *)
Lemma ParseBytes_range text n : ParseBytes text = inr n -> 0 <= n <= max_int64.
Proof.
  unfold ParseBytes. assert (Hc : forall t, exists l m, cutUnit units t = (l, m) /\ 0 < m).
  { intros t. unfold units. cbn [cutUnit]. repeat case_match; do 2 eexists; (split; [done|]); vm_compute; done. }
  destruct (Hc (GoLib.ToLower (GoLib.TrimSpace text))) as (l & m & -> & Hm).
  destruct (GoLib.ParseInt _) as [k|]; [|done]. destruct (Z.ltb_spec k 0); [done|].
  destruct (Z.ltb_spec (max_int64 / m) k) as [|Hk]; [done|]. intros [= <-].
  assert (k * m <= max_int64) by (pose proof (Z.mul_div_le max_int64 m Hm); nia).
  rewrite -> int64_id; [nia|]. unfold in_int64, min_int64 in *. nia.
Qed.

End validate.
End ConfigProof.
