(* ===== verification/ConfigTheorems.v ===== *)
(** * What the configuration guarantees

    The theorems of the configuration component. *)

From S2P Require Import Prelude GoTime GoLib GoNet RespTheorems Executor Config ConfigProof.

Module ConfigTheorems.
Import Conf ConfigProof.

(** C37.  Sizes: a decimal number followed by nothing, [b], [kb], [mb] or [gb] is read
    as the exact product when it fits 63 bits and refused otherwise; and no text at
    all is read as a negative or wrapped size. *)
Theorem parse_bytes_exact `{Unicode} (n : Z) (suffix : gostring) (multiplier : Z)
    (Hn : 0 <= n <= max_int64) (Hunit : (suffix, multiplier) ∈ all_units) :
  ParseBytes (GoLib.FormatInt n ++ suffix) =
    (if n * multiplier <=? max_int64 then inr (n * multiplier)
     else inl (str "size " ++ GoLib.Quote (GoLib.FormatInt n ++ suffix) ++ str " is too large")) /\
  forall text r, ParseBytes text = inr r -> 0 <= r <= max_int64.
Proof. split; [by apply ParseBytes_digits|apply ParseBytes_range]. Qed.

Lemma parse_bytes_exact_witness :
  @ParseBytes asciiOnly (GoLib.FormatInt 64 ++ str "kb") =
    (if 64 * 1024 <=? max_int64 then inr (64 * 1024)
     else inl (str "size " ++ @GoLib.Quote asciiOnly (GoLib.FormatInt 64 ++ str "kb") ++ str " is too large")) /\
  forall text r, @ParseBytes asciiOnly text = inr r -> 0 <= r <= max_int64.
Proof.
  apply (@parse_bytes_exact asciiOnly 64 (str "kb") 1024); [vm_compute; done|].
  unfold all_units, units. rewrite -> !elem_of_cons. do 3 right. by left.
Defined.

(** C38.  [Validate] accepts exactly the configurations with a trimmed host that is an IP
    address or a well-formed host name, a port between 0 and 65535, positive limits and
    timeouts, a memory limit that is not negative, one of the two eviction policies
    and, with persistence, a path and one of the three sync policies.  Filling in the
    defaults, as both servers do first, keeps a valid configuration valid with the
    same limits, and does nothing the second time. *)
Theorem valid_configuration `{Unicode} (c : Config) :
  (Validate c = None <-> accepted c) /\
  WithDefaults (WithDefaults c) = WithDefaults c /\
  (Validate c = None ->
   Validate (WithDefaults c) = None /\ MaxConnections (WithDefaults c) = MaxConnections c /\
   MaxRequestBytes (WithDefaults c) = MaxRequestBytes c /\ MaxResponseBytes (WithDefaults c) = MaxResponseBytes c).
Proof.
  split; [apply Validate_accepted|]. split; [apply WithDefaults_idem|]. intros Hvalid.
  destruct (Validate_defaults c Hvalid) as (Hv & Hm & Hr & Hs & _). by split_and!.
Qed.

Lemma valid_configuration_witness :
  @Validate asciiOnly DefaultConfig = None /\
  ((@Validate asciiOnly DefaultConfig = None <-> @accepted asciiOnly DefaultConfig) /\
   WithDefaults (WithDefaults DefaultConfig) = WithDefaults DefaultConfig /\
   (@Validate asciiOnly DefaultConfig = None ->
    @Validate asciiOnly (WithDefaults DefaultConfig) = None /\
    MaxConnections (WithDefaults DefaultConfig) = MaxConnections DefaultConfig /\
    MaxRequestBytes (WithDefaults DefaultConfig) = MaxRequestBytes DefaultConfig /\
    MaxResponseBytes (WithDefaults DefaultConfig) = MaxResponseBytes DefaultConfig)).
Proof. split; [vm_compute; reflexivity|exact (@valid_configuration asciiOnly DefaultConfig)]. Defined.

End ConfigTheorems.
