(* ===== verification/Serving.v ===== *)
(** * What both servers share

    From a decoded request to the reply: the parser, the executor and the texts of
    their errors, behind the interface [Service]; and the encoder into a sink
    limited to the response size, of which each server has its own. *)

From S2P Require Import Prelude GoLib GoIO Resp Store Command Executor RespEncode Config.

(** A backend answers one decoded request, and runs one active expiration. *)
Class Service (B : Type) := {
  serve : Value -> B -> option (Value * B);
  expire_tick : B -> option B;
}.

(** The shared parser and executor.  Call number [calls] takes its clock readings
    and random draws from its own streams. *)
Record Backend (J : Type) := mkBackend { bExecutor : Executor J; calls : nat }.
Arguments mkBackend {J}.
Arguments bExecutor {J}.
Arguments calls {J}.

(** [io.Writer]s limited to a number of bytes: [limitedWriter] of the blocking
    server counts what it has written, [limitedBuffer] of the reactor does not. *)
Record limitedWriter := mkLimitedWriter { lwOutput : gostring; lwLimit : Z; lwWritten : Z }.

#[export] Instance limitedWriter_Write : Writer limitedWriter := fun p w =>
  if lwLimit w - lwWritten w <? len p then ((0%nat, true), w)
  else ((length p, false), mkLimitedWriter (lwOutput w ++ p) (lwLimit w) (lwWritten w + len p)).

Record limitedBuffer := mkLimitedBuffer { lbBuffer : gostring; lbLimit : Z }.

#[export] Instance limitedBuffer_Write : Writer limitedBuffer := fun p w =>
  if lbLimit w <? len p then ((0%nat, true), w)
  else ((length p, false), mkLimitedBuffer (lbBuffer w ++ p) (lbLimit w)).

Module Serving.

(** [newExecutor] of both servers. *)
Definition newExecutor {J} (store : Store) (cfg : Config) : Executor J :=
  Exec.SetMemoryLimit (MaxMemoryBytes cfg) (MaxMemoryPolicy cfg) (Exec.NewExecutor store).

Section serving.
Context `{Unicode} {J : Type} `{Journal J}.
Context (ord : gset gostring -> list gostring) (rnd : nat -> nat -> nat) (clk : nat -> clock).

(** [Parse], then [Execute]; an error of either is answered as a RESP error. *)
Definition answer (value : Value) (b : Backend J) : option (Value * Backend J) :=
  match Cmd.Parse value with
  | inl err => Some (NewError err, b)
  | inr cmd =>
      let n := calls b in
      '(response, e) ← Exec.Execute ord (rnd n) (clk n) cmd (bExecutor b);
      Some (match response with inl err => NewError err | inr v => v end, mkBackend e (S n))
  end.

(** One tick of the expiry loop, among the handlers of the blocking server ([others]). *)
Definition activeExpire (others : nat -> Executor J -> Executor J) (b : Backend J) : option (Backend J) :=
  let n := calls b in
  '(_, e) ← Exec.ActiveExpire (rnd n) others (clk n) (bExecutor b);
  Some (mkBackend e (S n)).

(** The backend of one goroutine; the reactor's event loop is the only user of its. *)
Definition executorService : Service (Backend J) := {|
  serve := answer;
  expire_tick := activeExpire (fun _ e => e);
|}.

(** [err.Error()] for the errors of [Decode]. *)
Fixpoint decErrText (e : decErr) : gostring :=
  match e with
  | ErrEOF => str "EOF"
  | ErrUnexpectedEOF => str "unexpected EOF"
  | ErrMessageLimit max => str "RESP message exceeds max allowed " ++ GoLib.FormatInt max ++ str " bytes"
  | ErrLineLength => str "RESP line exceeds " ++ GoLib.FormatInt maxRESPLineLength ++ str " bytes"
  | ErrLineCRLF => str "invalid RESP line: expected CRLF"
  | ErrTermination => str "invalid RESP termination"
  | ErrInteger line =>
      str "invalid integer " ++ GoLib.Quote line ++ str ": " ++ GoLib.NumError "ParseInt" line
  | ErrBulkSyntax line =>
      str "invalid bulk string length " ++ GoLib.Quote line ++ str ": " ++ GoLib.NumError "Atoi" line
  | ErrBulkNegative n => str "invalid bulk string length " ++ GoLib.FormatInt n
  | ErrBulkLimit n =>
      str "bulk string length " ++ GoLib.FormatInt n ++ str " exceeds max allowed " ++
      GoLib.FormatInt maxBulkStringLength
  | ErrArraySyntax line =>
      str "invalid array length " ++ GoLib.Quote line ++ str ": " ++ GoLib.NumError "Atoi" line
  | ErrArrayNegative n => str "invalid array length " ++ GoLib.FormatInt n
  | ErrArrayLimit n =>
      str "array length " ++ GoLib.FormatInt n ++ str " exceeds max allowed " ++
      GoLib.FormatInt maxArrayLength
  | ErrDepth => str "RESP nesting exceeds max allowed " ++ GoLib.FormatInt maxRESPDepth
  | ErrInline e => str "inline command read error: " ++ decErrText e
  | ErrEmptyInline => str "empty inline command"
  end.

(** The RESP error sent for a message that cannot be decoded. *)
Definition protocolError (e : decErr) : Value := NewError (str "ERR protocol error: " ++ decErrText e).

End serving.

(** Encoding into a [bufio.Writer] over the sink [w], then flushing it: [inl false]
    when encoding fails, [inl true] when only the flush does. *)
Definition render `{Writer W} (value : Value) (w : W) : bool + W :=
  let '(err, b) := Resp.Encode value (GoIO.NewWriter w) in
  match err with
  | Some _ => inl false
  | None => let b := GoIO.Flush b in if GoIO.bwErr b then inl true else inr (GoIO.bwSink b)
  end.

End Serving.
