(* ===== verification/Poller.v ===== *)
(** * epoll, and the wrapper of [internal/reactor/poller.go]

    The kernel's interest list is the class [Kernel]: what [epoll_ctl(2)],
    [close(2)] and the calls that open descriptors promise of it.  [Wait] is given
    what [epoll_wait(2)] answers. *)

From S2P Require Import Prelude GoLib Executor.

Definition EPOLLIN : Z := 0x1.
Definition EPOLLOUT : Z := 0x4.
Definition EPOLLERR : Z := 0x8.
Definition EPOLLHUP : Z := 0x10.
Definition EPOLLRDHUP : Z := 0x2000.

Inductive ctlOp := CtlAdd (events : Z) | CtlMod (events : Z) | CtlDel.

(** The effect of a successful [epoll_ctl] on the interest list. *)
Definition ctl_apply (op : ctlOp) (fd : Z) (interest : gmap Z Z) : gmap Z Z :=
  match op with
  | CtlAdd events | CtlMod events => <[fd := events]> interest
  | CtlDel => delete fd interest
  end.

(** The descriptors of the process and the interest list.  A failed [epoll_ctl]
    changes nothing; [close] releases a descriptor whatever it reports and takes it
    off the list; a call that succeeds in opening one ([socket], [accept4],
    [epoll_create1]) hands out a descriptor that was not open; only open descriptors
    are on the list. *)
Class Kernel (K : Type) := {
  EpollCtl : ctlOp -> Z -> K -> option goerr * K;
  CloseFD : Z -> K -> option goerr * K;
  OpenFD : K -> Z * K;
  interest : K -> gmap Z Z;
  opened : K -> gset Z;
  ctl_effect op fd k :
    interest (EpollCtl op fd k).2 =
      match (EpollCtl op fd k).1 with
      | None => ctl_apply op fd (interest k)
      | Some _ => interest k
      end;
  ctl_opened op fd k : opened (EpollCtl op fd k).2 = opened k;
  close_effect fd k : interest (CloseFD fd k).2 = delete fd (interest k);
  close_opened fd k : opened (CloseFD fd k).2 = opened k ∖ {[ fd ]};
  open_fresh k : (OpenFD k).1 ∉ opened k;
  open_effect k : interest (OpenFD k).2 = interest k;
  open_opened k : opened (OpenFD k).2 = {[ (OpenFD k).1 ]} ∪ opened k;
  interest_open k : dom (interest k) ⊆ opened k;
}.

Definition DefaultMaxEvents : Z := 128.
Definition DefaultEventMask : Z := Z.lor (Z.lor EPOLLIN EPOLLERR) EPOLLRDHUP.

Record Event := mkEvent { evFD : Z; evEvents : Z }.

Record Poller (K : Type) := mkPoller { epfd : Z; maxEvents : Z; kernel : K }.
Arguments mkPoller {K}.
Arguments epfd {K}.
Arguments maxEvents {K}.
Arguments kernel {K}.

(** Answers of [epoll_wait]: [EINTR], another error, or the ready events. *)
Inductive waitResult := WaitIntr | WaitErr (e : goerr) | WaitReady (events : list Event).

Module Poll.
Section poller.
Context {K : Type} `{Kernel K}.

Definition set_kernel (k : K) (p : Poller K) : Poller K := mkPoller (epfd p) (maxEvents p) k.

(** [NewPoller], given whether [epoll_create1] fails. *)
Definition NewPoller (maxEvents : Z) (failure : option goerr) (k : K) : goerr + Poller K :=
  let maxEvents := if maxEvents <=? 0 then DefaultMaxEvents else maxEvents in
  match failure with
  | Some err => inl (str "failed to create epoll instance: " ++ err)
  | None => let '(epfd, k) := OpenFD k in inr (mkPoller epfd maxEvents k)
  end.

(** One [epoll_ctl], its error wrapped. *)
Definition ctl (what : string) (op : ctlOp) (fd : Z) (p : Poller K) : option goerr * Poller K :=
  let '(err, k) := EpollCtl op fd (kernel p) in
  ((fun e => str "failed to " ++ str what ++ str " fd " ++ GoLib.FormatInt fd ++ str ": " ++ e)
     <$> err, set_kernel k p).

Definition RegisterWithEvents (fd events : Z) : Poller K -> option goerr * Poller K :=
  ctl "register" (CtlAdd events) fd.
Definition Register (fd : Z) : Poller K -> option goerr * Poller K := RegisterWithEvents fd DefaultEventMask.
Definition Modify (fd events : Z) : Poller K -> option goerr * Poller K := ctl "modify" (CtlMod events) fd.
Definition Unregister (fd : Z) : Poller K -> option goerr * Poller K := ctl "unregister" CtlDel fd.

(** The loop of [Wait] over successive answers; [None] while it is still blocked. *)
Fixpoint Wait (answers : list waitResult) : option (goerr + list Event) :=
  match answers with
  | [] => None
  | WaitIntr :: answers' => Wait answers'
  | WaitErr err :: _ => Some (inl (str "epoll_wait failed: " ++ err))
  | WaitReady events :: _ => Some (inr events)
  end.

(** [unix.Close] of a descriptor. *)
Definition close (fd : Z) (p : Poller K) : option goerr * Poller K :=
  let '(err, k) := CloseFD fd (kernel p) in (err, set_kernel k p).

(** [Poller.Close]. *)
Definition Close (p : Poller K) : option goerr * Poller K :=
  let '(err, p) := close (epfd p) p in ((fun e => str "failed to close epoll fd: " ++ e) <$> err, p).

(** The mask a descriptor is watched with. *)
Definition watched (fd : Z) (p : Poller K) : option Z := interest (kernel p) !! fd.

Lemma ctl_interest what op fd p :
  interest (kernel (ctl what op fd p).2) =
    match (ctl what op fd p).1 with
    | None => ctl_apply op fd (interest (kernel p))
    | Some _ => interest (kernel p)
    end.
Proof.
  unfold ctl. pose proof (ctl_effect op fd (kernel p)) as He.
  destruct (EpollCtl op fd (kernel p)) as [[e|] k]; exact He.
Qed.

Lemma close_interest fd p : interest (kernel (close fd p).2) = delete fd (interest (kernel p)).
Proof. unfold close. pose proof (close_effect fd (kernel p)). by destruct (CloseFD fd (kernel p)). Qed.

(** Registrations open and close nothing. *)
Definition same_fds (p p' : Poller K) : Prop := epfd p' = epfd p /\ opened (kernel p') = opened (kernel p).

Lemma ctl_same_fds what op fd p : same_fds p (ctl what op fd p).2.
Proof. unfold ctl. pose proof (ctl_opened op fd (kernel p)). by destruct (EpollCtl op fd (kernel p)). Qed.

Lemma close_releases fd p :
  epfd (close fd p).2 = epfd p /\ opened (kernel (close fd p).2) = opened (kernel p) ∖ {[ fd ]}.
Proof. unfold close. pose proof (close_opened fd (kernel p)). by destruct (CloseFD fd (kernel p)). Qed.

End poller.
End Poll.
