(* ===== verification/Connection.v ===== *)
(** * A non-blocking connection of the reactor

    [internal/reactor/connection.go].  The kernel's side of the socket is the
    script of what the next [write(2)]s answer and the bytes it has taken; what
    [read(2)] answers is an argument of [OnRead], a script that ends where the next
    read would block.  Each method is a function of the connection, the poller and
    the backend; [None] is a panic of the backend. *)

From S2P Require Import Prelude GoTime GoLib GoIO Resp Executor Serving Poller.

(** Answers of [read(2)] into a buffer of 4096 bytes; no bytes is the end of input. *)
Inductive readResult := RData (buf : gostring) | RAgain | RIntr | RError (e : goerr).

(** Answers of [write(2)]; the kernel never takes more than it is given. *)
Inductive writeResult := WSent (n : nat) | WAgain | WIntr | WError (e : goerr).

Record Socket := mkSocket { skWrites : list writeResult; skSent : gostring }.

(** The errors a handler returns to the event loop, which closes the connection. *)
Inductive connErr :=
  | CClosed | CIdle | CInputLimit | CRead (e : goerr) | CEOF
  | CEncode | COutputLimit | CWrite (e : goerr) | CNoProgress | CModify (e : goerr).

Record Connection := mkConnection {
  fd : Z;
  inBuf : gostring;
  outBuf : gostring;
  lastActivity : Z;
  writeStarted : Z;
  maxInbound : Z;
  maxOutbound : Z;
  idleTimeout : Z;
  writeTimeout : Z;
  isClosed : bool;
  sock : Socket;
}.

Module Conn.

Definition NewConnectionWithLimits (fd now maxInbound maxOutbound idleTimeout writeTimeout : Z) : Connection :=
  mkConnection fd [] [] now GoTime.zeroTime maxInbound maxOutbound idleTimeout writeTimeout false
    (mkSocket [] []).

(** ** Field updates *)
Definition with_in (buf : gostring) (c : Connection) : Connection :=
  mkConnection (fd c) buf (outBuf c) (lastActivity c) (writeStarted c) (maxInbound c) (maxOutbound c)
    (idleTimeout c) (writeTimeout c) (isClosed c) (sock c).
Definition with_out (buf : gostring) (c : Connection) : Connection :=
  mkConnection (fd c) (inBuf c) buf (lastActivity c) (writeStarted c) (maxInbound c) (maxOutbound c)
    (idleTimeout c) (writeTimeout c) (isClosed c) (sock c).
Definition with_activity (t : Z) (c : Connection) : Connection :=
  mkConnection (fd c) (inBuf c) (outBuf c) t (writeStarted c) (maxInbound c) (maxOutbound c)
    (idleTimeout c) (writeTimeout c) (isClosed c) (sock c).
Definition with_started (t : Z) (c : Connection) : Connection :=
  mkConnection (fd c) (inBuf c) (outBuf c) (lastActivity c) t (maxInbound c) (maxOutbound c)
    (idleTimeout c) (writeTimeout c) (isClosed c) (sock c).
Definition with_closed (b : bool) (c : Connection) : Connection :=
  mkConnection (fd c) (inBuf c) (outBuf c) (lastActivity c) (writeStarted c) (maxInbound c) (maxOutbound c)
    (idleTimeout c) (writeTimeout c) b (sock c).
Definition with_sock (s : Socket) (c : Connection) : Connection :=
  mkConnection (fd c) (inBuf c) (outBuf c) (lastActivity c) (writeStarted c) (maxInbound c) (maxOutbound c)
    (idleTimeout c) (writeTimeout c) (isClosed c) s.

(** The kernel has answered one write; the script of those to come is [ws]. *)
Definition with_writes (ws : list writeResult) (c : Connection) : Connection :=
  with_sock (mkSocket ws (skSent (sock c))) c.

(** The kernel took the first [n] bytes of the output. *)
Definition took (n : nat) (ws : list writeResult) (c : Connection) : Connection :=
  with_sock (mkSocket ws (skSent (sock c) ++ take n (outBuf c))) (with_out (drop n (outBuf c)) c).

Definition expired (now : Z) (c : Connection) : bool :=
  if idleTimeout c <=? GoTime.Sub now (lastActivity c) then true
  else (0 <? len (outBuf c)) && (writeTimeout c <=? GoTime.Sub now (writeStarted c)).

(** [writeResponse]: the bytes queued so far count against the limit of the sink. *)
Definition writeResponse (now : Z) (val : Value) (c : Connection) : option connErr * Connection :=
  match Serving.render val (mkLimitedBuffer [] (maxOutbound c - len (outBuf c))) with
  | inl false => (Some CEncode, c)
  | inl true => (Some COutputLimit, c)
  | inr buf =>
      let c := if len (outBuf c) =? 0 then with_started now c else c in
      (None, with_out (outBuf c ++ lbBuffer buf) c)
  end.

Section connection.
Context `{Unicode} {K B : Type} `{Kernel K} `{Service B}.

Definition modify (events : Z) (c : Connection) (p : Poller K) : option connErr * Connection * Poller K :=
  let '(err, p) := Poll.Modify (fd c) events p in (CModify <$> err, c, p).

(** The loop of [Flush]: a write that would block leaves the rest to [EPOLLOUT]. *)
Fixpoint flush_loop (ws : list writeResult) (clk : clock) (c : Connection) (p : Poller K)
    : option connErr * Connection * Poller K :=
  match outBuf c with
  | [] => modify DefaultEventMask (with_started GoTime.zeroTime (with_writes ws c)) p
  | _ =>
      match ws with
      | [] => modify (Z.lor DefaultEventMask EPOLLOUT) (with_writes [] c) p
      | WAgain :: ws' => modify (Z.lor DefaultEventMask EPOLLOUT) (with_writes ws' c) p
      | WIntr :: ws' => flush_loop ws' clk c p
      | WError e :: ws' => (Some (CWrite e), with_writes ws' c, p)
      | WSent 0 :: ws' => (Some CNoProgress, with_writes ws' c, p)
      | WSent n :: ws' => flush_loop ws' (skip 1 clk) (took n ws' (with_activity (clk 0%nat) c)) p
      end
  end.

Definition Flush (clk : clock) (c : Connection) (p : Poller K) : option connErr * Connection * Poller K :=
  flush_loop (skWrites (sock c)) clk c p.

(** What a handler ends with. *)
Definition outcome : Type := (option connErr * Connection * Poller K * B).

Definition finish (clk : clock) (c : Connection) (p : Poller K) (b : B) : outcome :=
  (Flush clk c p, b).

(** The loop of [processCommands]; the reader of [d] is what follows the [consumed]
    bytes.  Every turn decodes at least one byte, so one turn more than there are
    bytes is enough. *)
Fixpoint process_loop (fuel : nat) (d : Decoder) (clk : clock) (c : Connection) (p : Poller K) (b : B)
    : option outcome :=
  match fuel with
  | O => None
  | S fuel' =>
      match dreader d with
      | [] => Some (finish clk (with_in [] c) p b)
      | _ =>
          match Resp.Decode d with
          | (inl err, _) =>
              if incomplete err then Some (finish clk (with_in (dreader d) c) p b)
              else
                match writeResponse (clk 0%nat) (Serving.protocolError err) c with
                | (Some e, c) => Some (Some e, with_in (dreader d) c, p, b)
                | (None, c) => Some (finish (skip 1 clk) (with_in [] c) p b)
                end
          | (inr value, d) =>
              '(response, b) ← serve value b;
              match writeResponse (clk 0%nat) response c with
              | (Some e, c) => Some (Some e, with_in (dreader d) c, p, b)
              | (None, c) => process_loop fuel' d (skip 1 clk) c p b
              end
          end
      end
  end.

Definition processCommands (clk : clock) (c : Connection) (p : Poller K) (b : B) : option outcome :=
  process_loop (S (length (inBuf c))) (NewDecoderWithLimit (inBuf c) (maxInbound c)) clk c p b.

(** The loop of [OnRead] over the answers of [read(2)]. *)
Fixpoint read_loop (rs : list readResult) (clk : clock) (c : Connection) (p : Poller K) (b : B)
    : option outcome :=
  match rs with
  | [] | RAgain :: _ => processCommands clk c p b
  | RIntr :: rs' => read_loop rs' clk c p b
  | RError e :: _ => Some (Some (CRead e), c, p, b)
  | RData [] :: _ => Some (Some CEOF, c, p, b)
  | RData buf :: rs' =>
      if maxInbound c - len (inBuf c) <? len buf then Some (Some CInputLimit, c, p, b)
      else
        let c := with_activity (clk 0%nat) (with_in (inBuf c ++ buf) c) in
        '(err, c, p, b) ← processCommands (fork1 (skip 1 clk)) c p b;
        match err with
        | Some e => Some (Some e, c, p, b)
        | None => read_loop rs' (fork2 (skip 1 clk)) c p b
        end
  end.

Definition OnRead (rs : list readResult) (clk : clock) (c : Connection) (p : Poller K) (b : B)
    : option outcome :=
  if isClosed c then Some (Some CClosed, c, p, b)
  else if idleTimeout c <=? GoTime.Sub (clk 0%nat) (lastActivity c) then Some (Some CIdle, c, p, b)
  else read_loop rs (skip 1 clk) c p b.

Definition OnWrite (clk : clock) (c : Connection) (p : Poller K) : option connErr * Connection * Poller K :=
  if isClosed c then (Some CClosed, c, p) else Flush clk c p.

(** The error of [Unregister] is ignored, as is [EBADF]. *)
Definition EBADF : goerr := str "bad file descriptor".

Definition Close (c : Connection) (p : Poller K) : option goerr * Connection * Poller K :=
  if isClosed c then (None, c, p)
  else
    let '(_, p) := Poll.Unregister (fd c) p in
    let '(err, p) := Poll.close (fd c) p in
    (match err with
     | Some e =>
         if bool_decide (e = EBADF) then None
         else Some (str "failed to close fd " ++ GoLib.FormatInt (fd c) ++ str ": " ++ e)
     | None => None
     end, with_closed true c, p).

End connection.
End Conn.
