(* ===== verification/ServingProof.v ===== *)
(** * What a connection answers

    [served]: the complete requests at the front of a byte sequence and the replies
    to them, whatever carries the bytes; both servers are compared with it.  And
    what the two limited sinks make of a reply. *)

From S2P Require Import Prelude GoLib GoIO GoIOProof Resp RespStream RespProof RespLimits RespEncode.
From S2P Require Import Serving.

Module ServingProof.
Import Resp RespStream RespProof RespLimits RespEncode.

(** ** Rendering a reply *)
#[export] Instance limitedWriter_bounded : BoundedWriter limitedWriter.
Proof.
  refine (Build_BoundedWriter _ _ lwOutput (fun w => lwLimit w - lwWritten w) _ _).
  - intros p w Hp. unfold w_write, limitedWriter_Write. rewrite -> (proj2 (Z.ltb_ge _ _)) by lia.
    eexists. split_and!; [done..|]. simpl. lia.
  - intros p w Hp. unfold w_write, limitedWriter_Write. by rewrite -> (proj2 (Z.ltb_lt _ _)) by lia.
Defined.

Definition reply_bytes (vs : list Value) : gostring := concat (wire <$> vs).

Lemma reply_bytes_app vs vs' : reply_bytes (vs ++ vs') = reply_bytes vs ++ reply_bytes vs'.
Proof. unfold reply_bytes. by rewrite -> fmap_app, concat_app. Qed.

(** A counting sink takes a reply exactly when all of it fits. *)
Lemma render_writer v limit :
  match Serving.render v (mkLimitedWriter [] limit 0) with
  | inr w => lwOutput w = wire v /\ encodable v = true /\ len (wire v) <= limit
  | inl _ => encodable v = true -> limit < len (wire v)
  end.
Proof.
  unfold Serving.render. destruct (Encode v _) as [e b] eqn:He.
  assert (Hf : encodable v = true ->
    if decide (len (wire v) <= limit)
    then e = None /\ GoIO.bwErr (GoIO.Flush b) = false /\ lwOutput (GoIO.bwSink (GoIO.Flush b)) = wire v
    else e <> None \/ GoIO.bwErr (GoIO.Flush b) = true).
  { intros Hv. pose proof (Encode_Flush v (mkLimitedWriter [] limit 0) 4096 Hv ltac:(lia)) as Hf.
    unfold GoIO.NewWriter in He. rw He in Hf. simpl in Hf. by rw Z.sub_0_r in Hf. }
  destruct e as [e|]; [intros Hv; apply Hf in Hv; case_decide; [by destruct Hv|lia]|].
  pose proof (Encode_encodable _ _ _ He) as Hv. apply Hf in Hv as Hw.
  destruct (GoIO.bwErr (GoIO.Flush b)); case_decide; try lia; naive_solver.
Qed.

(** The sink that does not count takes every reply that fits, and only ever whole
    replies. *)
Lemma render_buffer v limit :
  match Serving.render v (mkLimitedBuffer [] limit) with
  | inr w => lbBuffer w = wire v /\ encodable v = true
  | inl _ => encodable v = true -> limit < len (wire v)
  end.
Proof.
  unfold Serving.render. destruct (Encode v _) as [e b] eqn:He.
  assert (Hok : forall p c w, (lbBuffer w = c /\ lbLimit w = limit) ->
            let '(n, err, w') := w_write p w in
            if err then limit < len (c ++ p) else n = length p /\ (lbBuffer w' = c ++ p /\ lbLimit w' = limit)).
  { intros p c w [<- <-]. unfold w_write, limitedBuffer_Write. destruct (Z.ltb_spec (lbLimit w) (len p)); [|done].
    rw len_app. pose proof (len_nonneg (lbBuffer w)). lia. }
  assert (Happ : forall p c : gostring, limit < len c -> limit < len (c ++ p)).
  { intros p c Hc. rw len_app. pose proof (len_nonneg p). lia. }
  assert (Hf : encodable v = true -> match e with
    | Some _ => limit < len (wire v)
    | None => if GoIO.bwErr (GoIO.Flush b) then limit < len (wire v)
              else lbBuffer (GoIO.bwSink (GoIO.Flush b)) = wire v /\ lbLimit (GoIO.bwSink (GoIO.Flush b)) = limit
    end).
  { intros Hv. pose proof (Encode_sink _ _ Hok Happ v (mkLimitedBuffer [] limit) 4096 Hv ltac:(lia) (conj eq_refl eq_refl)) as Hf.
    unfold GoIO.NewWriter in He. by rw He in Hf. }
  destruct e as [e|]; [done|]. pose proof (Encode_encodable _ _ _ He) as Hv. apply Hf in Hv as Hw.
  destruct (GoIO.bwErr (GoIO.Flush b)); [done|naive_solver].
Qed.

(** ** Chunks within the limit

    A [bufio.Writer] of 4096 bytes over a sink that accepts any chunk of that size
    never fails on pieces of at most that size, however many there are. *)
Definition fits (limit : Z) (b : GoIO.bufWriter limitedBuffer) : Prop :=
  GoIO.bwErr b = false /\ GoIO.bwSize b = 4096 /\ len (GoIO.bwBuf b) <= 4096 /\ lbLimit (GoIO.bwSink b) = limit.

Lemma Flush_fits limit b : 4096 <= limit -> fits limit b -> fits limit (GoIO.Flush b) /\ GoIO.bwBuf (GoIO.Flush b) = [].
Proof.
  destruct b as [size buf err w]. intros Hl (He & Hs & Hb & Hw). simpl in *. subst.
  unfold GoIO.Flush. simpl. destruct buf as [|x buf]; [by split_and!|].
  unfold w_write, limitedBuffer_Write. rewrite -> (proj2 (Z.ltb_ge _ _)) by lia.
  change (S (length buf)) with (length (x :: buf)). rewrite -> (proj2 (Nat.ltb_ge _ _)) by done. by split_and!.
Qed.

Lemma Write_fits limit p b : 4096 <= limit -> len p <= 4096 -> fits limit b -> fits limit (GoIO.Write p b).
Proof.
  intros Hl Hp Hb. assert (Hstop : forall n p b, fits limit b -> len p <= GoIO.Available b ->
    GoIO.write_loop n p b = (p, b) /\ fits limit (GoIO.mkBW (GoIO.bwSize b) (GoIO.bwBuf b ++ p) false (GoIO.bwSink b))).
  { intros n p' b' (He & Hs & Hbuf & Hw) Ha. split.
    - destruct n; [done|]. cbn [GoIO.write_loop]. by rewrite -> (proj2 (Z.ltb_ge _ _)).
    - unfold GoIO.Available in Ha. split_and!; [done..| |done]. simpl. rw len_app. lia. }
  unfold GoIO.Write. destruct (Z.le_gt_cases (len p) (GoIO.Available b)) as [Ha|Ha].
  { destruct (Hstop 3%nat p b Hb Ha) as [-> Hf]. pose proof Hb as [-> _]. exact Hf. }
  pose proof Hb as (He & Hs & Hbuf & Hw). set (n := Z.to_nat (GoIO.Available b)).
  set (b1 := GoIO.mkBW (GoIO.bwSize b) (GoIO.bwBuf b ++ take n p) (GoIO.bwErr b) (GoIO.bwSink b)).
  assert (GoIO.write_loop 3 p b = GoIO.write_loop 2 (drop n p) (GoIO.Flush b1)) as ->.
  { cbn [GoIO.write_loop]. rewrite -> (proj2 (Z.ltb_lt _ _)) by lia. rw He. cbn [andb negb].
    destruct (GoIO.bwBuf b) eqn:Hempty; [|unfold b1; by rw He]. unfold GoIO.Available in Ha. rw Hempty in Ha.
    simpl in Ha. rw len_nil in Ha. lia. }
  assert (Hb1 : fits limit b1).
  { split_and!; try done. unfold b1, n, GoIO.Available in *. cbn [GoIO.bwBuf]. rw len_app. unfold len in *.
    rw length_take. lia. }
  destruct (Flush_fits limit b1 Hl Hb1) as [Hf Hn].
  destruct (Hstop 2%nat (drop n p) (GoIO.Flush b1) Hf) as [-> Hf2].
  { destruct Hf as (_ & Hs1 & _). unfold GoIO.Available. rw Hn Hs1 len_nil. unfold len in *. rw length_drop. lia. }
  pose proof Hf as [-> _]. exact Hf2.
Qed.

(** A reply written piece by piece. *)
Lemma printf_fits limit p b :
  4096 <= limit -> len p <= 4096 -> fits limit b -> exists b', printf p b = (None, b') /\ fits limit b'.
Proof.
  intros Hl Hp Hb. unfold printf. pose proof (Write_fits limit p b Hl Hp Hb) as Hw.
  pose proof Hw as [-> _]. by eexists.
Qed.

Definition small (s : gostring) : Prop := len s <= 4000.

Lemma bulk_fits limit s b :
  4096 <= limit -> small s -> fits limit b -> exists b', Encode (NewBulkString s) b = (None, b') /\ fits limit b'.
Proof.
  intros Hl Hs Hb. apply (printf_fits _ ("$"%char :: GoLib.FormatInt (len s) ++ CRLF ++ s ++ CRLF)); [done| |done].
  pose proof (GoLib.FormatInt_len (len s)). unfold small in Hs.
  rw len_cons !len_app. change (len CRLF) with 2. lia.
Qed.

Lemma render_small_items items limit :
  4096 <= limit -> Forall small items ->
  exists w, Serving.render (NewArray (NewBulkString <$> items)) (mkLimitedBuffer [] limit) = inr w.
Proof.
  intros Hl Hitems. unfold Serving.render, GoIO.NewWriter.
  set (b0 := GoIO.NewWriterSize (mkLimitedBuffer [] limit) 4096).
  assert (exists b, Encode (NewArray (NewBulkString <$> items)) b0 = (None, b) /\ fits limit b) as (b & -> & Hb).
  { destruct (printf_fits limit ("*"%char :: GoLib.FormatInt (len (NewBulkString <$> items)) ++ CRLF) b0 Hl)
      as (b1 & Hp & Hb1); [|by split_and!|].
    { pose proof (GoLib.FormatInt_len (len (NewBulkString <$> items))). rw len_cons len_app.
      change (len CRLF) with 2. lia. }
    cbn [Encode NewArray vType vArray]. rewrite -> !bool_decide_eq_false_2, bool_decide_eq_true_2 by done.
    rw Hp. clear Hp. revert b1 Hb1. induction Hitems as [|s items Hs _ IH]; intros b1 Hb1; [by exists b1|].
    destruct (bulk_fits limit s b1 Hl Hs Hb1) as (b2 & He & Hb2). rewrite -> fmap_cons.
    generalize dependent (NewBulkString s). intros v He. cbn beta iota fix. rw He. by apply IH. }
  destruct (Flush_fits limit b Hl Hb) as [(He & _) _]. cbv zeta. rw He. by eexists.
Qed.

(** ** A fresh decoder on the rest of the input *)
Section served.
Context `{Unicode} {B : Type} `{Service B} (max : Z).

Lemma Decode_fresh d :
  depth d = 0 -> Decode d = Decode (NewDecoderWithLimit (dreader d) (maxMessageBytes d)).
Proof. destruct d. simpl. by intros ->. Qed.

(** The decoder between two messages. *)
Definition between (d : Decoder) : Prop := depth d = 0 /\ maxMessageBytes d = max.

Lemma between_Decode d r d' : between d -> Decode d = (r, d') -> between d'.
Proof.
  intros [Hz Hm] Hd. pose proof (keeps_DecodeF 65 d) as [Hm' Hz']. unfold Decode in Hd.
  rw Hd in Hm' Hz'. simpl in *. split; congruence.
Qed.

Definition decoded (input : gostring) (r : decErr + Value) (rest : gostring) : Prop :=
  exists d', Decode (NewDecoderWithLimit input max) = (r, d') /\
    match r with inr _ => dreader d' = rest | inl _ => rest = input end.

Lemma decoded_at d r d' :
  between d -> Decode d = (r, d') ->
  decoded (dreader d) r (match r with inr _ => dreader d' | inl _ => dreader d end).
Proof.
  intros [Hz Hm] Hd. rewrite -> Decode_fresh, Hm in Hd by done. exists d'. by destruct r.
Qed.

Lemma decoded_det input r rest r' rest' :
  decoded input r rest -> decoded input r' rest' -> r = r' /\ rest = rest'.
Proof. intros (d & Hd & Hr) (d' & Hd' & Hr'). rw Hd in Hd'. injection Hd' as <- <-.
  split; [done|]. destruct r; congruence.
Qed.

(** Complete requests and their replies, what is left of the input and the backend
    after the last of them. *)
Inductive served : gostring -> B -> list Value -> gostring -> B -> Prop :=
  | served_nil input b : served input b [] input b
  | served_cons input b v rest r b1 rs last b2 :
      decoded input (inr v) rest -> serve v b = Some (r, b1) ->
      served rest b1 rs last b2 -> served input b (r :: rs) last b2.

Lemma served_one input b v rest r b1 :
  decoded input (inr v) rest -> serve v b = Some (r, b1) -> served input b [r] rest b1.
Proof. intros Hd Hs. eapply served_cons; [done..|constructor]. Qed.

Lemma served_trans i1 b1 rs1 i2 b2 rs2 i3 b3 :
  served i1 b1 rs1 i2 b2 -> served i2 b2 rs2 i3 b3 -> served i1 b1 (rs1 ++ rs2) i3 b3.
Proof. induction 1; intros; [done|]. simpl. eapply served_cons; eauto. Qed.

(** A request is decoded alike when more bytes follow it. *)
Lemma decoded_feed input v rest q : decoded input (inr v) rest -> decoded (input ++ q) (inr v) (rest ++ q).
Proof.
  intros (d' & Hd & <-). pose proof (local_Decode (NewDecoderWithLimit input max) q) as Hl.
  rw Hd in Hl. destruct Hl as [Hl _]. by eexists.
Qed.

Lemma served_feed input b rs rest b' q :
  served input b rs rest b' -> served (input ++ q) b rs (rest ++ q) b'.
Proof.
  induction 1 as [|input b v rest r b1 rs last b2 Hd Hs _ IH]; [constructor|].
  eapply served_cons; [by apply decoded_feed|done|done].
Qed.

(** Malformed input stays malformed. *)
Lemma malformed_feed input e q rest :
  decoded input (inl e) rest -> incomplete e = false ->
  exists e', decoded (input ++ q) (inl e') (input ++ q) /\ incomplete e' = false.
Proof.
  intros (d' & Hd & _) He. pose proof (local_Decode (NewDecoderWithLimit input max) q) as Hl.
  rw Hd in Hl. change (feed q (NewDecoderWithLimit input max)) with (NewDecoderWithLimit (input ++ q) max) in Hl.
  destruct (Decode (NewDecoderWithLimit (input ++ q) max)) as [[e'|v] d2] eqn:Hq.
  - exists e'. split; [|auto]. by exists d2.
  - destruct Hl. congruence.
Qed.

(** The requests served are determined up to the point where two runs stop. *)
Lemma served_prefix input b rs rest b' rs' rest' b'' e stop :
  served input b rs rest b' -> served input b rs' rest' b'' -> decoded rest' (inl e) stop ->
  exists more, rs' = rs ++ more /\ served rest b' more rest' b''.
Proof.
  intros Hs. revert rs'. induction Hs as [|input b v rest r b1 rs last b2 Hd Hr _ IH]; intros rs' Hs' Hstop; [eauto|].
  inversion Hs' as [|? ? v' rest1 r' b1' rs1 ? ? Hd' Hr' Hs1]; subst.
  - by destruct (decoded_det _ _ _ _ _ Hd Hstop).
  - destruct (decoded_det _ _ _ _ _ Hd Hd') as [[= <-] <-]. simplify_eq.
    destruct (IH _ Hs1 Hstop) as (more & -> & Hm). by exists more.
Qed.

Lemma served_det input b rs rest b' e stop rs' rest' b'' e' stop' :
  served input b rs rest b' -> decoded rest (inl e) stop ->
  served input b rs' rest' b'' -> decoded rest' (inl e') stop' ->
  rs' = rs /\ rest' = rest /\ b'' = b'.
Proof.
  intros Hs Hd Hs' Hd'. destruct (served_prefix _ _ _ _ _ _ _ _ _ _ Hs Hs' Hd') as (more & -> & Hm).
  inversion Hm as [|? ? v' rest1 r' b1' rs1 ? ? Hd1 _ _]; subst; [by rw app_nil_r|].
  by destruct (decoded_det _ _ _ _ _ Hd Hd1).
Qed.

Lemma served_length input b rs rest b' : served input b rs rest b' -> len rest <= len input.
Proof.
  induction 1 as [|input b v rest r b1 rs last b2 (d' & Hd & <-) _ _ IH]; [lia|].
  apply Decode_progress in Hd. simpl in *. lia.
Qed.

End served.
End ServingProof.
