(* ===== verification/EventLoop.v ===== *)
(** * The event loop of the reactor

    [internal/reactor/event_loop.go].  One turn of [Run] waits for events,
    dispatches each to the listener or to a connection, runs the active expiration
    and closes idle connections.  The kernel's answers to the system calls made
    while an event is dispatched come with it ([IO]); whether the stop channel is
    closed is read from [stop], one reading per look.  [None] is a panic of the
    backend. *)

From S2P Require Import Prelude GoTime GoLib GoIO Resp Executor Serving Poller Config Connection.

(** Answers of [accept4(2)]; the kernel chooses the new descriptor. *)
Inductive acceptResult := AcConn | AcAgain | AcIntr | AcError (e : goerr).

Record IO := mkIO {
  ioAccepts : list acceptResult;
  ioReads : list readResult;
  ioWrites : list writeResult;
}.

Record EventLoop (K B : Type) := mkEventLoop {
  poller : Poller K;
  listenerFD : Z;
  backend : B;
  config : Config;
  conns : gmap Z Connection;
}.
Arguments mkEventLoop {K B}.
Arguments poller {K B}.
Arguments listenerFD {K B}.
Arguments backend {K B}.
Arguments config {K B}.
Arguments conns {K B}.

(** What one turn is given: the answers of [epoll_wait] and those for each event. *)
Record turnInput := mkTurn { tWait : list waitResult; tIO : nat -> IO }.

Inductive loopEnd := LoopBlocked | LoopStopped | LoopError (e : goerr).

Module Loop.
Section loop.
Context `{Unicode} {K B : Type} `{Kernel K} `{Service B}.
(** The iteration order of the map of connections. *)
Context (ord : gset Z -> list Z).

Definition NewEventLoopWithConfig (p : Poller K) (listener : Z) (b : B) (cfg : Config) : EventLoop K B :=
  mkEventLoop p listener b (Conf.WithDefaults cfg) ∅.

Definition update (p : Poller K) (b : B) (cs : gmap Z Connection) (el : EventLoop K B) : EventLoop K B :=
  mkEventLoop p (listenerFD el) b (config el) cs.
Definition with_poller (p : Poller K) (el : EventLoop K B) : EventLoop K B :=
  update p (backend el) (conns el) el.
Definition put (c : Connection) (p : Poller K) (b : B) (el : EventLoop K B) : EventLoop K B :=
  update p b (<[fd c := c]> (conns el)) el.
Definition drop_conn (fd : Z) (p : Poller K) (el : EventLoop K B) : EventLoop K B :=
  update p (backend el) (delete fd (conns el)) el.

(** [closeClient]. *)
Definition closeClient (fd : Z) (el : EventLoop K B) : EventLoop K B :=
  match conns el !! fd with
  | None => el
  | Some c => let '(_, _, p) := Conn.Close c (poller el) in drop_conn fd p el
  end.

(** One accepted descriptor: refused at the limit, else registered. *)
Definition accept (now : Z) (el : EventLoop K B) : EventLoop K B :=
  let '(nfd, k) := OpenFD (kernel (poller el)) in
  let el := with_poller (Poll.set_kernel k (poller el)) el in
  if MaxConnections (config el) <=? Z.of_nat (base.size (conns el))
  then with_poller (Poll.close nfd (poller el)).2 el
  else
    let cfg := config el in
    let conn := Conn.NewConnectionWithLimits nfd now (MaxRequestBytes cfg) (MaxResponseBytes cfg)
                  (ReadTimeout cfg) (WriteTimeout cfg) in
    let el := put conn (poller el) (backend el) el in
    let '(err, p) := Poll.Register nfd (poller el) in
    match err with
    | None => with_poller p el
    | Some _ => let '(_, _, p) := Conn.Close conn p in drop_conn nfd p el
    end.

(** The loop of [handleAccept] over the answers of [accept4]. *)
Fixpoint handleAccept (answers : list acceptResult) (clk : clock) (el : EventLoop K B) : EventLoop K B :=
  match answers with
  | [] | AcAgain :: _ | AcError _ :: _ => el
  | AcIntr :: answers' => handleAccept answers' clk el
  | AcConn :: answers' => handleAccept answers' (skip 1 clk) (accept (clk 0%nat) el)
  end.

Definition has (events mask : Z) : bool := negb (Z.land events mask =? 0).

(** The last two stages of [handleClientEvent], after any input was read. *)
Definition afterRead (fd events : Z) (clk : clock) (el : EventLoop K B) : EventLoop K B :=
  if has events (Z.lor (Z.lor EPOLLERR EPOLLHUP) EPOLLRDHUP) && negb (has events EPOLLIN)
  then closeClient fd el
  else if has events EPOLLOUT then
    match conns el !! fd with
    | None => el
    | Some c =>
        let '(err, c, p) := Conn.OnWrite clk c (poller el) in
        let el := put c p (backend el) el in
        match err with Some _ => closeClient fd el | None => el end
    end
  else el.

Definition handleClientEvent (io : IO) (clk : clock) (fd events : Z) (el : EventLoop K B)
    : option (EventLoop K B) :=
  match conns el !! fd with
  | None => Some el
  | Some c =>
      let el := put (Conn.with_writes (ioWrites io) c) (poller el) (backend el) el in
      let c := Conn.with_writes (ioWrites io) c in
      if has events EPOLLIN then
        '(err, c, p, b) ← Conn.OnRead (ioReads io) (fork1 clk) c (poller el) (backend el);
        let el := put c p b el in
        match err with
        | Some _ => Some (closeClient fd el)
        | None => Some (afterRead fd events (fork2 clk) el)
        end
      else Some (afterRead fd events (fork2 clk) el)
  end.

(** The range over the ready events; the stop channel is looked at before each. *)
Fixpoint dispatch (events : list Event) (io : nat -> IO) (stop : nat -> bool) (clk : clock)
    (el : EventLoop K B) : option (bool * EventLoop K B) :=
  match events with
  | [] => Some (false, el)
  | ev :: events' =>
      if stop 0%nat then Some (true, el)
      else
        el ← (if evFD ev =? listenerFD el
              then Some (handleAccept (ioAccepts (io 0%nat)) (fork1 clk) el)
              else handleClientEvent (io 0%nat) (fork1 clk) (evFD ev) (evEvents ev) el);
        dispatch events' (skip 1 io) (skip 1 stop) (fork2 clk) el
  end.

(** [expireConnections] and [cleanup] range over the map. *)
Definition expire_one (now : Z) (el : EventLoop K B) (fd : Z) : EventLoop K B :=
  match conns el !! fd with
  | Some c => if Conn.expired now c then closeClient fd el else el
  | None => el
  end.

Definition expireConnections (now : Z) (el : EventLoop K B) : EventLoop K B :=
  foldl (expire_one now) el (ord (dom (conns el))).

Definition cleanup (el : EventLoop K B) : EventLoop K B :=
  let el := foldl (fun el fd => closeClient fd el) el (ord (dom (conns el))) in
  let '(_, p) := Poll.close (listenerFD el) (poller el) in
  let '(_, p) := Poll.Close p in
  with_poller p el.

(** One turn; [Some] ends the loop. *)
Definition turn (t : turnInput) (stop : nat -> bool) (clk : clock) (el : EventLoop K B)
    : option (option loopEnd * EventLoop K B) :=
  if stop 0%nat then Some (Some LoopStopped, el)
  else
    match Poll.Wait (tWait t) with
    | None => Some (Some LoopBlocked, el)
    | Some (inl err) => Some (Some (LoopError (str "event loop poller wait error: " ++ err)), el)
    | Some (inr events) =>
        '(stopped, el) ← dispatch events (tIO t) (fork1 (skip 1 stop)) (fork1 clk) el;
        if (stopped : bool) then Some (Some LoopStopped, el)
        else
          b ← expire_tick (backend el);
          Some (None, expireConnections (fork2 clk 0%nat) (update (poller el) b (conns el) el))
    end.

Fixpoint run_loop (turns : list turnInput) (stop : nat -> bool) (clk : clock) (el : EventLoop K B)
    : option (loopEnd * EventLoop K B) :=
  match turns with
  | [] => Some (LoopBlocked, el)
  | t :: turns' =>
      '(fin, el) ← turn t (fork1 stop) (fork1 clk) el;
      match fin with
      | Some fin => Some (fin, el)
      | None => run_loop turns' (fork2 stop) (fork2 clk) el
      end
  end.

(** [Run], with the deferred [cleanup] when it returns; [LoopBlocked] is a loop
    still waiting after all the events it was given. *)
Definition Run (turns : list turnInput) (stop : nat -> bool) (clk : clock) (el : EventLoop K B)
    : option (loopEnd * EventLoop K B) :=
  '(fin, el) ← run_loop turns stop clk el;
  Some (fin, match fin with LoopBlocked => el | _ => cleanup el end).

End loop.
End Loop.
