(* ===== verification/ReactorServer.v ===== *)
(** * The reactor server

    [internal/reactor/server.go]: opening the append-only file, setting up the
    listening socket and the poller call by call, running the event loop, and what
    is released when any of it fails.  The descriptors are the kernel's ([Kernel]);
    whether each call of the set-up fails comes with it ([setupAnswers]). *)

From S2P Require Import Prelude GoTime GoLib GoIO GoNet Resp Store StoreSpec StoreRefine Command.
From S2P Require Import Executor Aof AofRewrite AofOpen Serving Poller Config Connection EventLoop.

(** [aof.Open] and [Log.Close], as the servers use them, and whether a log is closed. *)
Class Persistent (J : Type) := {
  open_log : gostring -> gostring -> clock -> Store -> option ((openFailure + J) * Store);
  close_log : J -> option goerr * J;
  log_closed : J -> bool;
}.

(** The log itself, on the file [f].  A rewrite that still runs ends between the two
    steps of [Close]. *)
Definition Log_persistent `{Unicode} `{Disk} (a : pathAnswers) (f : file) : Persistent Aof.Log := {|
  open_log path policy clk s :=
    '(r, (_, s)) ← AofOpen.OpenPath a path policy clk f s; Some (r, s);
  close_log l := AofRewrite.closeEnd (AofRewrite.closeBegin l);
  log_closed := Aof.lClosed;
|}.

Inductive sockaddr :=
  | SockaddrInet4 (port : Z) (addr : list Z)
  | SockaddrInet6 (port : Z) (addr : list Z) (zone : Z)
  | SockaddrOther.

Record TCPAddr := mkTCPAddr { taIP : list Z; taPort : Z; taZone : gostring }.

(** What [net.ResolveTCPAddr] answers (an address and its zone), which calls fail,
    what [getsockname] reports, and the network interfaces. *)
Record setupAnswers := mkSetup {
  suResolve : goerr + (list Z * gostring);
  suSocket : option goerr;
  suReuse : option goerr;
  suBind : option goerr;
  suListen : option goerr;
  suName : goerr + sockaddr;
  suEpoll : option goerr;
  suByName : gostring -> option Z;
  suByIndex : Z -> option gostring;
}.

Inductive startErr :=
  | SConfig (e : goerr) | SOpen (e : openFailure) | SPort | SResolve (e : goerr) | SUnsupported
  | SSocket (e : goerr) | SReuse (e : goerr) | SBind (e : goerr) | SListen (e : goerr) | SName (e : goerr)
  | SPoller (e : goerr) | SRegister (e : goerr) | SLoop (e : goerr).

(** [closedLog] is the log as [Close] left it; the code drops its reference. *)
Record Server (K J : Type) := mkServer {
  rsConfig : Config;
  listener : Z;
  addr : option TCPAddr;
  system : K;
  executor : Executor J;
  closedLog : option J;
}.
Arguments mkServer {K J}.
Arguments rsConfig {K J}.
Arguments listener {K J}.
Arguments addr {K J}.
Arguments system {K J}.
Arguments executor {K J}.
Arguments closedLog {K J}.

(** [Start] still runs its event loop, or has returned its error and that of closing
    the append-only file. *)
Inductive startEnd (K B : Type) :=
  | Running (el : EventLoop K B)
  | Returned (e : option startErr) (closing : option goerr).
Arguments Running {K B}.
Arguments Returned {K B}.

Module ReactorServer.
Section server.
Context `{Unicode} {K J : Type} `{Kernel K} `{Journal J} `{Persistent J}.
Context (a : setupAnswers).

Definition NewServer (cfg : Config) (k : K) : Server K J :=
  let cfg := Conf.WithDefaults cfg in
  mkServer cfg (-1) None k (Serving.newExecutor Store.NewStore cfg) None.

Definition with_system (k : K) (s : Server K J) : Server K J :=
  mkServer (rsConfig s) (listener s) (addr s) k (executor s) (closedLog s).
Definition with_executor (e : Executor J) (s : Server K J) : Server K J :=
  mkServer (rsConfig s) (listener s) (addr s) (system s) e (closedLog s).
Definition with_listener (fd : Z) (s : Server K J) : Server K J :=
  mkServer (rsConfig s) fd (addr s) (system s) (executor s) (closedLog s).
Definition with_addr (ad : TCPAddr) (s : Server K J) : Server K J :=
  mkServer (rsConfig s) (listener s) (Some ad) (system s) (executor s) (closedLog s).

(** [unix.Close], its error ignored. *)
Definition release (fd : Z) (s : Server K J) : Server K J := with_system (CloseFD fd (system s)).2 s.

(** ** The append-only file

    [s.aof] is the executor's journal: both are set and cleared together. *)
Definition openPersistence (clk : clock) (s : Server K J) : option (option openFailure * Server K J) :=
  if negb (AOFEnabled (rsConfig s)) then Some (None, s)
  else
    match journal (executor s) with
    | Some _ => Some (None, s)
    | None =>
        '(r, st) ← open_log (AOFPath (rsConfig s)) (AOFSyncPolicy (rsConfig s)) clk (eStore (executor s));
        let s := with_executor (Exec.set_store st (executor s)) s in
        Some (match r with
              | inl e => (Some e, s)
              | inr l => (None, with_executor (Exec.SetJournal (Some l) (executor s)) s)
              end)
    end.

Definition closePersistence (s : Server K J) : option goerr * Server K J :=
  match journal (executor s) with
  | None => (None, s)
  | Some l =>
      let '(e, l) := close_log l in
      (e, mkServer (rsConfig s) (listener s) (addr s) (system s) (Exec.SetJournal None (executor s)) (Some l))
  end.

(** ** The listening socket *)
Definition zoneToInt (zone : gostring) : Z :=
  if bool_decide (zone = []) then 0
  else match suByName a zone with Some index => index mod 2 ^ 32 | None => 0 end.

Definition zoneToString (zoneID : Z) : gostring :=
  if zoneID =? 0 then [] else default [] (suByIndex a zoneID).

(** The address to bind, an IPv4 one where possible. *)
Definition bindAddress (ip : list Z) (zone : gostring) (port : Z) : option sockaddr :=
  match GoNet.To4 ip with
  | Some ip4 => Some (SockaddrInet4 port ip4)
  | None => (fun ip6 => SockaddrInet6 port ip6 (zoneToInt zone)) <$> GoNet.To16 ip
  end.

(** The address [getsockname] reports, kept in [s.addr]. *)
Definition bound (name : sockaddr) (s : Server K J) : Server K J :=
  match name with
  | SockaddrInet4 port ip => with_addr (mkTCPAddr ip port []) s
  | SockaddrInet6 port ip zone => with_addr (mkTCPAddr ip port (zoneToString zone)) s
  | SockaddrOther => s
  end.

(** Steps 2 to 4 on the socket [fd]; the socket is closed when one fails. *)
Definition listen (fd : Z) (s : Server K J) : option startErr * Server K J :=
  match suReuse a, suBind a, suListen a, suName a with
  | Some e, _, _, _ => (Some (SReuse e), release fd s)
  | None, Some e, _, _ => (Some (SBind e), release fd s)
  | None, None, Some e, _ => (Some (SListen e), release fd s)
  | None, None, None, inl e => (Some (SName e), release fd s)
  | None, None, None, inr name => (None, bound name s)
  end.

(** Steps 5 and 6: the poller, with the socket registered. *)
Definition poll (fd : Z) (s : Server K J) : (startErr + Poller K) * Server K J :=
  match Poll.NewPoller DefaultMaxEvents (suEpoll a) (system s) with
  | inl e => (inl (SPoller e), release fd s)
  | inr p =>
      let '(err, p) := Poll.Register fd p in
      match err with
      | None => (inr p, with_system (kernel p) s)
      | Some e => let '(_, p) := Poll.Close p in (inl (SRegister e), release fd (with_system (kernel p) s))
      end
  end.

(** From the port to the registered listener; [None] is a listener without address. *)
Definition setup (s : Server K J) : option ((startErr + Poller K) * Server K J) :=
  match GoLib.Atoi (Port (rsConfig s)), suResolve a with
  | None, _ => Some (inl SPort, s)
  | Some _, inl e => Some (inl (SResolve e), s)
  | Some port, inr (ip, zone) =>
      match bindAddress ip zone port, suSocket a with
      | None, _ => Some (inl SUnsupported, s)
      | Some _, Some e => Some (inl (SSocket e), s)
      | Some _, None =>
          let '(fd, k) := OpenFD (system s) in
          match listen fd (with_listener fd (with_system k s)) with
          | (Some e, s) => Some (inl e, s)
          | (None, s) =>
              match poll fd s with
              | (inl e, s) => Some (inl e, s)
              | (inr p, s) => _ ← addr s; Some (inr p, s)
              end
          end
      end
  end.

(** ** Start *)
Context (ord : gset gostring -> list gostring) (rnd : nat -> nat -> nat) (rclk : nat -> clock).
Context (conn_ord : gset Z -> list Z).

(** The deferred [closePersistence]. *)
Definition return_ (e : option startErr) (s : Server K J) : startEnd K (Backend J) * Server K J :=
  let '(closing, s) := closePersistence s in (Returned e closing, s).

Definition Start (turns : list turnInput) (stop : nat -> bool) (clk : clock) (s : Server K J)
    : option (startEnd K (Backend J) * Server K J) :=
  match Conf.Validate (rsConfig s) with
  | Some e => Some (Returned (Some (SConfig e)) None, s)
  | None =>
      '(err, s) ← openPersistence (fork1 clk) s;
      match err with
      | Some e => Some (Returned (Some (SOpen e)) None, s)
      | None =>
          '(r, s) ← setup s;
          match r with
          | inl e => Some (return_ (Some e) s)
          | inr p =>
              let service : Service (Backend J) := Serving.executorService ord rnd rclk in
              let el := Loop.NewEventLoopWithConfig p (listener s) (mkBackend (executor s) 0) (rsConfig s) in
              '(fin, el) ← Loop.Run conn_ord turns stop (fork2 clk) el;
              let s := with_executor (bExecutor (backend el)) (with_system (kernel (poller el)) s) in
              match fin with
              | LoopBlocked => Some (Running el, s)
              | LoopStopped => Some (return_ None s)
              | LoopError e => Some (return_ (Some (SLoop e)) s)
              end
          end
      end
  end.

End server.
End ReactorServer.
