(* ===== verification/Client.v ===== *)
(** * The client adapter of the blocking server

    [internal/client/client.go]: a network connection with a decoder on its input
    and a buffered writer on its output.  The input is the bytes that arrive before
    the reading side ends, by end of file, by a deadline or by an error: the decoder
    reports all three as the end of its input.  [net.Conn.Write] takes everything or
    fails part of the way. *)

From S2P Require Import Prelude GoLib GoIO Resp Executor.

Record netConn := mkNetConn {
  ncSent : gostring;
  ncWrites : list (option nat);
  ncDeadlines : list (option goerr);
  ncClosed : bool;
}.

(** A scripted failure [Some n] takes the first [n] bytes. *)
#[export] Instance netConn_Write : Writer netConn := fun p w =>
  match ncWrites w with
  | Some n :: ws =>
      ((Nat.min n (length p), true), mkNetConn (ncSent w ++ take n p) ws (ncDeadlines w) (ncClosed w))
  | None :: ws => ((length p, false), mkNetConn (ncSent w ++ p) ws (ncDeadlines w) (ncClosed w))
  | [] => ((length p, false), mkNetConn (ncSent w ++ p) [] (ncDeadlines w) (ncClosed w))
  end.

Record Client := mkClient { cDecoder : Decoder; cWriter : GoIO.bufWriter netConn }.

Module Cl.

Definition NewClientWithLimit (input : gostring) (conn : netConn) (maxRequestBytes : Z) : Client :=
  mkClient (NewDecoderWithLimit input maxRequestBytes) (GoIO.NewWriter conn).
Definition NewClient (input : gostring) (conn : netConn) : Client :=
  NewClientWithLimit input conn (Z.shiftl 2 20).

Definition conn (c : Client) : netConn := GoIO.bwSink (cWriter c).
Definition with_writer (w : GoIO.bufWriter netConn) (c : Client) : Client := mkClient (cDecoder c) w.
Definition with_decoder (d : Decoder) (c : Client) : Client := mkClient d (cWriter c).
Definition with_conn (nc : netConn) (c : Client) : Client :=
  let w := cWriter c in with_writer (GoIO.mkBW (GoIO.bwSize w) (GoIO.bwBuf w) (GoIO.bwErr w) nc) c.

(** [true] is an error. *)
Definition Flush (c : Client) : bool * Client :=
  let w := GoIO.Flush (cWriter c) in (GoIO.bwErr w, with_writer w c).

Definition Write (p : gostring) (c : Client) : bool * Client :=
  let w := GoIO.Write p (cWriter c) in
  if GoIO.bwErr w then (true, with_writer w c) else Flush (with_writer w c).

(** [SetReadDeadline] and [SetWriteDeadline] ask the connection. *)
Definition SetDeadline (c : Client) : option goerr * Client :=
  let nc := conn c in
  match ncDeadlines nc with
  | [] => (None, c)
  | err :: ds => (err, with_conn (mkNetConn (ncSent nc) (ncWrites nc) ds (ncClosed nc)) c)
  end.

Definition Close (c : Client) : Client :=
  let nc := conn c in with_conn (mkNetConn (ncSent nc) (ncWrites nc) (ncDeadlines nc) true) c.

End Cl.
