(* ===== verification/BlockingServer.v ===== *)
(** * A connection of the blocking server

    [handleClient] and [writeResponse] of [internal/server/server.go]: one request is
    decoded, executed and answered before the next is read.  The lifecycle of the
    server around them is in [ServerLifecycle]. *)

From S2P Require Import Prelude GoTime GoLib GoIO Resp Executor Serving Config Client.

Inductive responseErr := REncode | RLimit | RDeadline (e : goerr) | RWrite.

(** Why a handler returned. *)
Inductive clientEnd :=
  | EndReadDeadline (e : goerr) | EndDecode (e : decErr) | EndWrite (e : responseErr).

Module Blocking.

Definition writeResponse (cfg : Config) (value : Value) (c : Client) : option responseErr * Client :=
  match Serving.render value (mkLimitedWriter [] (MaxResponseBytes cfg) 0) with
  | inl false => (Some REncode, c)
  | inl true => (Some RLimit, c)
  | inr output =>
      match Cl.SetDeadline c with
      | (Some e, c) => (Some (RDeadline e), c)
      | (None, c) => let '(err, c) := Cl.Write (lwOutput output) c in (if err then Some RWrite else None, c)
      end
  end.

Section client.
Context `{Unicode} {B : Type} `{Service B} (cfg : Config).

(** The loop of [handleClient]; every turn decodes at least one byte, so one turn
    more than there are bytes is enough. *)
Fixpoint client_loop (fuel : nat) (c : Client) (b : B) : option (clientEnd * Client * B) :=
  match fuel with
  | O => None
  | S fuel' =>
      match Cl.SetDeadline c with
      | (Some e, c) => Some (EndReadDeadline e, c, b)
      | (None, c) =>
          match Resp.Decode (cDecoder c) with
          | (inl err, d) => Some (EndDecode err, Cl.with_decoder d c, b)
          | (inr value, d) =>
              let c := Cl.with_decoder d c in
              '(response, b) ← serve value b;
              match writeResponse cfg response c with
              | (Some e, c) => Some (EndWrite e, c, b)
              | (None, c) => client_loop fuel' c b
              end
          end
      end
  end.

(** The handler on a connection that delivers [input]; it closes the connection. *)
Definition handleClient (input : gostring) (conn : netConn) (b : B) : option (clientEnd * Client * B) :=
  '(fin, c, b) ← client_loop (S (length input)) (Cl.NewClientWithLimit input conn (MaxRequestBytes cfg)) b;
  Some (fin, Cl.Close c, b).

End client.
End Blocking.
