(* ===== verification/ConnectionProof.v ===== *)
(** * What a handler of a connection does

    Flushing moves queued output to the kernel and never loses any; a run of
    [processCommands] serves the complete requests in the input buffer; a socket
    without faults never makes a handler fail within the limits. *)

From S2P Require Import Prelude GoTime GoLib GoIO Resp RespStream RespProof RespLimits RespEncode Executor.
From S2P Require Import Serving ServingProof Poller Connection.

Module ConnectionProof.
Import Resp RespStream RespProof RespEncode ServingProof Conn.

(** Everything queued for the client since the connection was accepted. *)
Definition output (c : Connection) : gostring := skSent (sock c) ++ outBuf c.

Definition settings (c : Connection) := (fd c, maxInbound c, maxOutbound c, idleTimeout c, writeTimeout c, isClosed c).

(** The mask a connection should be watched with. *)
Definition interest_of (c : Connection) : Z :=
  if bool_decide (outBuf c = []) then DefaultEventMask else Z.lor DefaultEventMask EPOLLOUT.

(** Answers of a socket without faults. *)
Definition fair_write (w : writeResult) : Prop :=
  match w with WSent n => n <> 0%nat | WError _ => False | _ => True end.

Section connection.
Context `{Unicode} {K B : Type} `{Kernel K} `{Service B}.
Implicit Types (c : Connection) (p : Poller K) (b : B).

(** The kernel changes the mask of a descriptor it watches. *)
Definition modifiable : Prop := forall fd events k,
  is_Some (interest k !! fd) -> (EpollCtl (CtlMod events) fd k).1 = None.

(** ** Flushing *)
Lemma modify_spec events c p e c' p' :
  modify events c p = (e, c', p') ->
  c' = c /\ interest (kernel p') =
    match e with None => <[fd c := events]> (interest (kernel p)) | Some _ => interest (kernel p) end.
Proof.
  unfold modify, Poll.Modify. pose proof (Poll.ctl_interest "modify" (CtlMod events) (fd c) p) as Hi.
  destruct (Poll.ctl _ _ _ p) as [[e1|] p1]; simpl in *; intros; by simplify_eq/=.
Qed.

Lemma modify_fair events c p :
  modifiable -> is_Some (Poll.watched (fd c) p) -> (modify events c p).1.1 = None.
Proof.
  intros Hm Hw. unfold modify, Poll.Modify, Poll.ctl. specialize (Hm (fd c) events (kernel p) Hw).
  destruct (EpollCtl (CtlMod events) (fd c) (kernel p)) as [e k]. simpl in *. by subst.
Qed.

Definition flushed c p (r : option connErr * Connection * Poller K) : Prop :=
  let '(e, c', p') := r in
  output c' = output c /\ inBuf c' = inBuf c /\ settings c' = settings c /\
  len (outBuf c') <= len (outBuf c) /\
  interest (kernel p') =
    match e with
    | None => <[fd c := interest_of c']> (interest (kernel p))
    | Some _ => interest (kernel p)
    end.

Lemma modify_flushed events c0 c p :
  output c = output c0 -> inBuf c = inBuf c0 -> settings c = settings c0 ->
  len (outBuf c) <= len (outBuf c0) -> events = interest_of c -> flushed c0 p (modify events c p).
Proof.
  intros Ho Hi Hs Hl ->. destruct (modify (interest_of c) c p) as [[e c'] p'] eqn:Hm.
  apply modify_spec in Hm as [-> Hm]. split_and!; [done..|].
  assert (fd c = fd c0) as <- by (unfold settings in Hs; by simplify_eq). by destruct e.
Qed.

Lemma flush_loop_flushed ws clk c p : flushed c p (flush_loop ws clk c p).
Proof.
  revert clk c. induction ws as [|w ws IH]; intros clk c.
  - cbn [flush_loop]. destruct (outBuf c) eqn:Ho; apply modify_flushed; try done.
    + unfold interest_of. simpl. by rewrite -> bool_decide_eq_true_2.
    + unfold interest_of. simpl. rewrite -> bool_decide_eq_false_2; [done|by rw Ho].
  - cbn [flush_loop]. destruct (outBuf c) as [|x out] eqn:Ho.
    { apply modify_flushed; try done. unfold interest_of. simpl. by rewrite -> bool_decide_eq_true_2. }
    destruct w as [[|n]| | |e]; try (by split_and!).
    + specialize (IH (skip 1 clk) (took (S n) ws (with_activity (clk 0%nat) c))).
      destruct (flush_loop ws _ _ p) as [[e c'] p']. destruct IH as (Hout & Hin & Hset & Hlen & Hint).
      split_and!; [|done..| |done].
      * rw Hout. unfold output, took. simpl. by rw -app_assoc take_drop.
      * etrans; [exact Hlen|]. simpl. unfold len. rw length_drop. lia.
    + apply modify_flushed; try done. unfold interest_of. simpl. rewrite -> bool_decide_eq_false_2; [done|by rw Ho].
    + apply IH.
Qed.

Lemma Flush_flushed clk c p : flushed c p (Flush clk c p).
Proof. apply flush_loop_flushed. Qed.

Lemma Flush_fair clk c p :
  modifiable -> is_Some (Poll.watched (fd c) p) -> Forall fair_write (skWrites (sock c)) ->
  (Flush clk c p).1.1 = None /\ Forall fair_write (skWrites (sock (Flush clk c p).1.2)).
Proof.
  intros Hm Hw Hf. unfold Flush. revert clk c Hw Hf.
  assert (Hmod : forall events c, is_Some (Poll.watched (fd c) p) -> Forall fair_write (skWrites (sock c)) ->
            (modify events c p).1.1 = None /\ Forall fair_write (skWrites (sock (modify events c p).1.2))).
  { intros events c Hw Hf. split; [by apply modify_fair|].
    destruct (modify events c p) as [[e c'] p'] eqn:Hc. by apply modify_spec in Hc as [-> _]. }
  assert (Hgo : forall ws clk c, is_Some (Poll.watched (fd c) p) -> Forall fair_write ws ->
            (flush_loop ws clk c p).1.1 = None /\ Forall fair_write (skWrites (sock (flush_loop ws clk c p).1.2))).
  { induction ws as [|w ws IH]; intros clk c Hw Hf; cbn [flush_loop].
    { destruct (outBuf c); by apply Hmod. }
    inversion Hf as [|? ? Hw1 Hf1]; subst. destruct (outBuf c) eqn:Ho; [by apply Hmod|].
    destruct w as [[|n]| | |e]; [by destruct Hw1|by apply IH|by apply Hmod|by apply IH|by destruct Hw1]. }
  intros clk c Hw Hf. by apply Hgo.
Qed.

(** ** Queueing a reply *)
Lemma writeResponse_spec now v c e c' :
  writeResponse now v c = (e, c') ->
  settings c' = settings c /\ inBuf c' = inBuf c /\ skWrites (sock c') = skWrites (sock c) /\
  match e with
  | None => output c' = output c ++ wire v /\ len (outBuf c') = len (outBuf c) + len (wire v)
  | Some _ => c' = c /\ (encodable v = true -> maxOutbound c < len (outBuf c) + len (wire v))
  end.
Proof.
  unfold writeResponse. pose proof (render_buffer v (maxOutbound c - len (outBuf c))) as Hr.
  destruct (Serving.render _ _) as [[]|w]; intros; simplify_eq.
  1,2: split_and!; try done; intros Hv; apply Hr in Hv; lia.
  destruct Hr as [-> Hv]. destruct (len (outBuf c) =? 0); split_and!; try done;
    [unfold output; simpl; by rw app_assoc|simpl; rw len_app; lia|
     unfold output; simpl; by rw app_assoc|simpl; rw len_app; lia].
Qed.

(** ** Processing the input buffer *)
Definition answered (max : Z) (input : gostring) c p b (o : outcome) : Prop :=
  let '(e, c', p', b') := o in
  settings c' = settings c /\ len (inBuf c') <= len input /\
  interest (kernel p') =
    match e with
    | None => <[fd c := interest_of c']> (interest (kernel p))
    | Some _ => interest (kernel p)
    end /\
  exists rs rest, served max input b rs rest b' /\
    match e with
    | Some _ => True
    | None => exists err stop, decoded max rest (inl err) stop /\
        if incomplete err then inBuf c' = rest /\ output c' = output c ++ reply_bytes rs
        else inBuf c' = [] /\ output c' = output c ++ reply_bytes (rs ++ [Serving.protocolError err])
    end.

Lemma decoded_nil max : decoded max [] (inl ErrEOF) [].
Proof. by eexists. Qed.

Lemma finish_answered max input clk c p b err rest c0 more :
  served max input b [] rest b -> decoded max rest (inl err) rest ->
  settings c = settings c0 -> output c = output c0 ++ reply_bytes more ->
  (if incomplete err then inBuf c = rest /\ more = [] else inBuf c = [] /\ more = [Serving.protocolError err]) ->
  answered max input c0 p b (finish clk c p b).
Proof.
  intros Hs Hd Hset Ho Hif. unfold finish. pose proof (Flush_flushed clk c p) as Hf.
  destruct (Flush clk c p) as [[e c'] p']. destruct Hf as (Hout & Hin & Hset' & _ & Hint).
  assert (fd c = fd c0) as Hfd by (unfold settings in Hset; by simplify_eq).
  pose proof (served_length _ _ _ _ _ _ Hs).
  split_and!; [congruence| |by rw -Hfd|].
  - rw Hin. destruct (incomplete err); destruct Hif as [-> _]; [done|apply len_nonneg].
  - exists [], rest. split; [done|]. destruct e; [done|]. exists err, rest. split; [done|].
    destruct (incomplete err); destruct Hif as [Hi ->]; (split; [congruence|by rw Hout Ho]).
Qed.

Lemma answered_cons max input rest c1 c p b v r b1 o :
  decoded max input (inr v) rest -> serve v b = Some (r, b1) ->
  settings c1 = settings c -> output c1 = output c ++ wire r -> len rest <= len input ->
  answered max rest c1 p b1 o -> answered max input c p b o.
Proof.
  intros Hd Hsv Hset Ho Hlen. destruct o as [[[e c'] p'] b']. intros (Hset' & Hl & Hint & rs & last & Hs & He).
  assert (fd c1 = fd c) as Hfd by (unfold settings in Hset; by simplify_eq).
  split_and!; [congruence|lia|by rw -Hfd|].
  exists (r :: rs), last. split; [by eapply served_cons|]. destruct e; [done|].
  destruct He as (err & stop & Hstop & He). exists err, stop. split; [done|].
  destruct (incomplete err); destruct He as [-> ->]; (split; [done|]); rw Ho.
  - by rw -app_assoc.
  - by rw -app_assoc.
Qed.

Lemma process_loop_answered max fuel d clk c p b o :
  between max d -> process_loop fuel d clk c p b = Some o -> answered max (dreader d) c p b o.
Proof.
  revert d clk c b. induction fuel as [|fuel IH]; intros d clk c b Hb Ho; [done|]. cbn [process_loop] in Ho.
  destruct (dreader d) as [|x input] eqn:Hin.
  { injection Ho as <-. apply (finish_answered _ _ _ _ _ _ ErrEOF [] _ []); try done; [constructor|apply decoded_nil|by rw app_nil_r]. }
  rw -Hin. rw -Hin in Ho. clear Hin.
  destruct (Decode d) as [[err|v] d'] eqn:Hd.
  - pose proof (decoded_at max d _ _ Hb Hd) as Hdec. cbv iota in Hdec.
    destruct (incomplete err) eqn:Hinc.
    { injection Ho as <-. apply (finish_answered _ _ _ _ _ _ err (dreader d) _ []); try done; [constructor|by rw app_nil_r|].
      by rw Hinc. }
    destruct (writeResponse (clk 0%nat) (Serving.protocolError err) c) as [[e|] c1] eqn:Hw;
      apply writeResponse_spec in Hw as (Hset & Hi & _ & Hw); injection Ho as <-.
    + destruct Hw as [-> _]. split_and!; [done..|]. exists [], (dreader d). split; [constructor|done].
    + destruct Hw as [Hout _].
      apply (finish_answered _ _ _ _ _ _ err (dreader d) _ [Serving.protocolError err]); try done; [constructor| |].
      * etrans; [exact Hout|]. unfold reply_bytes. cbn [fmap list_fmap concat]. by rw app_nil_r.
      * by rw Hinc.
  - pose proof (decoded_at max d _ _ Hb Hd) as Hdec. cbv iota in Hdec.
    destruct (serve v b) as [[r b1]|] eqn:Hsv; [|done]. cbn [mbind option_bind] in Ho.
    assert (Hle : len (dreader d') <= len (dreader d)).
    { pose proof (served_length _ _ _ _ _ _ (served_one _ _ _ _ _ _ _ Hdec Hsv)). done. }
    destruct (writeResponse (clk 0%nat) r c) as [[e|] c1] eqn:Hw;
      apply writeResponse_spec in Hw as (Hset & Hi & _ & Hw).
    + injection Ho as <-. destruct Hw as [-> _]. split_and!; [done..|].
      exists [r], (dreader d'). split; [by eapply served_one|done].
    + destruct Hw as [Hout _]. eapply answered_cons; [exact Hdec|exact Hsv|done..|].
      apply (IH d' (skip 1 clk) c1 b1); [by eapply between_Decode|done].
Qed.

Lemma processCommands_answered clk c p b o :
  processCommands clk c p b = Some o -> answered (maxInbound c) (inBuf c) c p b o.
Proof. by apply (process_loop_answered _ _ (NewDecoderWithLimit (inBuf c) (maxInbound c))). Qed.

(** Nothing is served before a message that cannot be decoded. *)
Lemma served_stuck max input b rs rest b' err :
  served max input b rs rest b' -> decoded max input (inl err) input -> rs = [] /\ rest = input /\ b' = b.
Proof.
  intros Hs Hd. inversion Hs as [|? ? v next r b1 rs1 ? ? Hd' _ _]; subst; [done|].
  by destruct (decoded_det _ _ _ _ _ _ Hd Hd').
Qed.

(** A malformed message at the front empties the input buffer and leaves the backend
    alone. *)
Lemma process_malformed clk c p b c' p' b' err :
  processCommands clk c p b = Some (None, c', p', b') ->
  decoded (maxInbound c) (inBuf c) (inl err) (inBuf c) -> incomplete err = false ->
  b' = b /\ inBuf c' = [] /\ settings c' = settings c /\
  output c' = output c ++ wire (Serving.protocolError err).
Proof.
  intros Hp Hd He. apply processCommands_answered in Hp as (Hset & _ & _ & rs & rest & Hs & err' & stop & Hd' & Hif).
  destruct (served_stuck _ _ _ _ _ _ _ Hs Hd) as (-> & -> & ->).
  destruct (decoded_det _ _ _ _ _ _ Hd Hd') as [[= <-] _]. rw He in Hif. destruct Hif as [Hin Hout].
  unfold reply_bytes in Hout. csimpl in Hout. rw app_nil_r in Hout. by split_and!.
Qed.

(** The beginning of a message stays where it is. *)
Lemma process_stalled clk c p b c' p' b' err :
  processCommands clk c p b = Some (None, c', p', b') ->
  decoded (maxInbound c) (inBuf c) (inl err) (inBuf c) -> incomplete err = true ->
  b' = b /\ inBuf c' = inBuf c /\ settings c' = settings c /\ output c' = output c.
Proof.
  intros Hp Hd He. apply processCommands_answered in Hp as (Hset & _ & _ & rs & rest & Hs & err' & stop & Hd' & Hif).
  destruct (served_stuck _ _ _ _ _ _ _ Hs Hd) as (-> & -> & ->).
  destruct (decoded_det _ _ _ _ _ _ Hd Hd') as [[= <-] _]. rw He in Hif. destruct Hif as [Hin Hout].
  rw app_nil_r in Hout. by split_and!.
Qed.

(** After one pass a second one finds nothing to do. *)
Lemma process_twice clk clk' c p b c1 p1 b1 c' p' b' :
  processCommands clk c p b = Some (None, c1, p1, b1) ->
  processCommands clk' c1 p1 b1 = Some (None, c', p', b') ->
  b' = b1 /\ inBuf c' = inBuf c1 /\ output c' = output c1.
Proof.
  intros Hp Hp'. apply processCommands_answered in Hp as (Hset & _ & _ & rs & rest & Hs & err & stop & Hd & Hif).
  assert (maxInbound c1 = maxInbound c) as Hm by (unfold settings in Hset; by simplify_eq).
  assert (rest = stop) as <- by (destruct Hd as (? & _ & ->); done).
  destruct (incomplete err) eqn:He; destruct Hif as [Hin _].
  - apply (process_stalled _ _ _ _ _ _ _ err) in Hp'; [|by rw Hm Hin|done]. tauto.
  - apply (process_stalled _ _ _ _ _ _ _ ErrEOF) in Hp'; [|rw Hin; apply decoded_nil|done]. tauto.
Qed.

(** ** Within the limits, on a socket without faults *)

(** Nothing can go wrong for a connection that the poller watches and whose socket
    answers without faults. *)
Definition healthy c p : Prop :=
  modifiable /\ is_Some (Poll.watched (fd c) p) /\ Forall fair_write (skWrites (sock c)).

(** A handler that succeeds, leaving at most [n] bytes of output. *)
Definition went_well (n : Z) (o : outcome (K := K) (B := B)) : Prop :=
  o.1.1.1 = None /\ healthy o.1.1.2 o.1.2 /\ len (outBuf o.1.1.2) <= n.

Lemma answered_watched max input c p b e c' p' b' :
  answered max input c p b (e, c', p', b') -> is_Some (Poll.watched (fd c) p) ->
  is_Some (Poll.watched (fd c') p').
Proof.
  intros (Hset & _ & Hint & _) Hw. assert (fd c' = fd c) as -> by (unfold settings in Hset; by simplify_eq).
  unfold Poll.watched in *. rw Hint. destruct e; [done|]. rewrite -> lookup_insert_eq. by eexists.
Qed.

Lemma finish_well clk c p b n :
  healthy c p -> len (outBuf c) <= n -> went_well n (finish clk c p b).
Proof.
  intros (Hm & Hw & Hf) Hl. destruct (Flush_fair clk c p Hm Hw Hf) as [He Hf'].
  pose proof (Flush_flushed clk c p) as Hfl. unfold finish, went_well.
  destruct (Flush clk c p) as [[e c'] p']. simpl in *. destruct Hfl as (_ & _ & Hset & Hlen & Hint). subst e.
  split_and!; [done| |lia]. split_and!; [done| |done].
  assert (fd c' = fd c) as -> by (unfold settings in Hset; by simplify_eq).
  unfold Poll.watched. rw Hint lookup_insert_eq. by eexists.
Qed.

Lemma writeResponse_well now v c :
  encodable v = true -> len (outBuf c) + len (wire v) <= maxOutbound c ->
  exists c', writeResponse now v c = (None, c').
Proof.
  intros Hv Hl. destruct (writeResponse now v c) as [[e|] c'] eqn:Hw; [|eauto].
  apply writeResponse_spec in Hw as (_ & _ & _ & _ & Hw). apply Hw in Hv. lia.
Qed.

Lemma process_loop_well max d clk c p b rs rest b' fuel err stop :
  served max (dreader d) b rs rest b' -> decoded max rest (inl err) stop -> incomplete err = true ->
  between max d -> (length (dreader d) < fuel)%nat -> forallb encodable rs = true ->
  len (outBuf c) + len (reply_bytes rs) <= maxOutbound c -> healthy c p ->
  exists o, process_loop fuel d clk c p b = Some o /\ went_well (len (outBuf c) + len (reply_bytes rs)) o.
Proof.
  intros Hs Hstop Hinc. remember (dreader d) as input eqn:Hin.
  revert d clk c fuel Hin. induction Hs as [input b|input b v rest r b1 rs last b2 Hd Hsv _ IH];
    intros d clk c fuel -> Hb Hf Henc Hl Hh; (destruct fuel as [|fuel]; [lia|]); cbn [process_loop].
  - assert (Hfin : forall rest', exists o, Some (finish clk (with_in rest' c) p b) = Some o /\
        went_well (len (outBuf c) + len (reply_bytes [])) o).
    { intros rest'. eexists. split; [done|]. apply finish_well; [done|]. simpl. rw len_nil. lia. }
    destruct (dreader d) eqn:Hin; [apply Hfin|]. rw -Hin. rw -Hin in Hstop. clear Hin.
    destruct (Decode d) as [[err'|v] d'] eqn:Hdd;
      pose proof (decoded_at max d _ _ Hb Hdd) as Hdec; destruct (decoded_det _ _ _ _ _ _ Hdec Hstop) as [[= ->] _].
    rw Hinc. apply Hfin.
  - assert (Hne : dreader d <> []).
    { intros Hz. rw Hz in Hd. by destruct (decoded_det _ _ _ _ _ _ Hd (decoded_nil max)). }
    destruct (dreader d) as [|x input] eqn:Hin; [done|]. rw -Hin in Hd Hf. clear Hin.
    destruct (Decode d) as [[err'|v'] d'] eqn:Hdd;
      pose proof (decoded_at max d _ _ Hb Hdd) as Hdec; destruct (decoded_det _ _ _ _ _ _ Hdec Hd) as [[= ->] <-].
    rw Hsv. cbn [mbind option_bind]. cbn [forallb] in Henc. apply andb_true_iff in Henc as [Hr Henc].
    unfold reply_bytes in Hl. csimpl in Hl. fold (reply_bytes rs) in Hl. rw len_app in Hl.
    pose proof (len_nonneg (reply_bytes rs)).
    destruct (writeResponse_well (clk 0%nat) r c Hr ltac:(lia)) as [c1 Hw]. rw Hw.
    apply writeResponse_spec in Hw as (Hset & _ & Hws & _ & Hl1).
    assert (fd c1 = fd c /\ maxOutbound c1 = maxOutbound c) as [Hfd Hmo] by (unfold settings in Hset; by simplify_eq).
    apply RespLimits.Decode_progress in Hdd as Hp.
    destruct (IH Hstop d' (skip 1 clk) c1 fuel eq_refl) as (o & Ho & Hwell);
      [by eapply between_Decode|unfold len in Hp; lia|done|lia| |].
    + destruct Hh as (Hm & Hwt & Hfw). split_and!; [done|by rw Hfd|by rw Hws].
    + exists o. split; [done|]. replace (len (outBuf c) + _) with (len (outBuf c1) + len (reply_bytes rs)); [done|].
      unfold reply_bytes. csimpl. rw len_app. lia.
Qed.

End connection.
End ConnectionProof.
