(* ===== verification/ReactorStream.v ===== *)
(** * A connection over its lifetime

    The events of one connection of the reactor, one after another, against the
    blocking server's handler on the same bytes.  However the input is cut into
    reads, and whenever the socket takes the output, both serve the same requests
    with the same replies. *)

From S2P Require Import Prelude GoTime GoLib GoIO GoIOProof Resp RespStream RespProof RespLimits.
From S2P Require Import RespEncode Executor Serving ServingProof Poller Config Client BlockingServer.
From S2P Require Import Connection ConnectionProof.

(** What the event loop asks of a connection, with the kernel's answers. *)
Inductive connEvent :=
  | EvRead (rs : list readResult) (ws : list writeResult)
  | EvWrite (ws : list writeResult).

Module ReactorStream.
Import Resp RespStream RespProof RespEncode ServingProof Conn ConnectionProof.

(** ** Several events *)
Section events.
Context `{Unicode} {K B : Type} `{Kernel K} `{Service B}.

Definition on_event (ev : connEvent) (clk : clock) (c : Connection) (p : Poller K) (b : B)
    : option outcome :=
  match ev with
  | EvRead rs ws => OnRead rs clk (with_writes ws c) p b
  | EvWrite ws => Some (OnWrite clk (with_writes ws c) p, b)
  end.

(** The first error ends the connection. *)
Fixpoint on_events (evs : list connEvent) (clk : clock) (c : Connection) (p : Poller K) (b : B)
    : option outcome :=
  match evs with
  | [] => Some (None, c, p, b)
  | ev :: evs' =>
      '(err, c, p, b) ← on_event ev (fork1 clk) c p b;
      match err with
      | Some e => Some (Some e, c, p, b)
      | None => on_events evs' (fork2 clk) c p b
      end
  end.
End events.

(** The bytes read before the socket has no more. *)
Fixpoint received (rs : list readResult) : gostring :=
  match rs with
  | RIntr :: rs' => received rs'
  | RData (x :: buf) :: rs' => x :: buf ++ received rs'
  | _ => []
  end.

Definition received_by (ev : connEvent) : gostring :=
  match ev with EvRead rs _ => received rs | EvWrite _ => [] end.

(** The size of the buffer [OnRead] reads into. *)
Definition readSize : Z := 4096.

Definition fair_read (r : readResult) : bool :=
  match r with RError _ => false | RData buf => (0 <? len buf) && (len buf <=? readSize) | _ => true end.

Definition fair_event (ev : connEvent) : Prop :=
  match ev with
  | EvRead rs ws => forallb fair_read rs = true /\ Forall fair_write ws
  | EvWrite ws => Forall fair_write ws
  end.

(** ** The time of the last activity *)
Definition within (lo hi : Z) (clk : clock) : Prop := forall n, lo <= clk n <= hi.

Lemma within_skip lo hi n clk : within lo hi clk -> within lo hi (skip n clk).
Proof. intros Hw i. apply Hw. Qed.
Lemma within_fork1 lo hi clk : within lo hi clk -> within lo hi (fork1 clk).
Proof. intros Hw i. apply Hw. Qed.
Lemma within_fork2 lo hi clk : within lo hi clk -> within lo hi (fork2 clk).
Proof. intros Hw i. apply Hw. Qed.
#[local] Hint Resolve within_skip within_fork1 within_fork2 : carrot.

Section activity.
Context `{Unicode} {K B : Type} `{Kernel K} `{Service B} (lo hi : Z).
Implicit Types (c : Connection) (p : Poller K) (b : B) (o : outcome (K := K) (B := B)).

Definition active c : Prop := lo <= lastActivity c <= hi.

Lemma modify_activity events c p : lastActivity (modify events c p).1.2 = lastActivity c.
Proof. unfold modify. by destruct (Poll.Modify _ _ p). Qed.

Lemma flush_loop_active ws clk c p : within lo hi clk -> active c -> active (flush_loop ws clk c p).1.2.
Proof.
  revert clk c. unfold active. induction ws as [|w ws IH]; intros clk c Hw Ha; cbn [flush_loop];
    destruct (outBuf c); rw ?modify_activity; try done.
  destruct w as [[|n]| | |e]; rw ?modify_activity; try done; apply IH; auto with carrot.
  by apply Hw.
Qed.

Lemma Flush_active clk c p : within lo hi clk -> active c -> active (Flush clk c p).1.2.
Proof. apply flush_loop_active. Qed.

Lemma writeResponse_active now v c : active c -> active (writeResponse now v c).2.
Proof. unfold writeResponse. destruct (Serving.render _ _) as [[]|]; [done..|]. by destruct (_ =? _). Qed.

Lemma process_loop_active fuel d clk c p b o :
  within lo hi clk -> active c -> process_loop fuel d clk c p b = Some o -> active o.1.1.2.
Proof.
  revert d clk c b. induction fuel as [|fuel IH]; intros d clk c b Hw Ha Ho; [done|]. cbn [process_loop] in Ho.
  assert (Hfin : forall clk c, within lo hi clk -> active c -> active (finish clk c p b).1.1.2)
    by (intros; by apply Flush_active).
  destruct (dreader d); [injection Ho as <-; by apply Hfin|].
  destruct (Decode d) as [[err|v] d'].
  - destruct (incomplete err); [injection Ho as <-; by apply Hfin|].
    pose proof (writeResponse_active (clk 0%nat) (Serving.protocolError err) c Ha) as Ha'.
    destruct (writeResponse _ _ c) as [[e|] c1]; injection Ho as <-; [done|]. apply Hfin; auto with carrot.
  - destruct (serve v b) as [[r b1]|]; [|done]. cbn [mbind option_bind] in Ho.
    pose proof (writeResponse_active (clk 0%nat) r c Ha) as Ha'.
    destruct (writeResponse _ _ c) as [[e|] c1]; [by injection Ho as <-|].
    apply (IH _ _ _ _ (within_skip _ _ _ _ Hw) Ha' Ho).
Qed.

End activity.

(** ** The reactor serves what the stream holds *)
Section track.
Context `{Unicode} {K B : Type} `{Kernel K} `{Service B}.
Context (max : Z) (replies : list Value) (rest : gostring) (b_end : B) (err : decErr) (stop : gostring).
Hypothesis Hstop : decoded max rest (inl err) stop.
Hypothesis Hinc : incomplete err = true.
Implicit Types (c : Connection) (p : Poller K) (b : B).

(** Before the bytes [future] arrive: the replies [said] have been queued, serving
    what is buffered and what is to come gives [more]. *)
Definition track (said more : list Value) (future : gostring) c b : Prop :=
  replies = said ++ more /\ served max (inBuf c ++ future) b more rest b_end /\
  output c = reply_bytes said /\ maxInbound c = max.

Definition tracked (future : gostring) c b : Prop := exists said more, track said more future c b.

(** Nothing complete is left in the buffer. *)
Definition stalled c : Prop := exists e s, decoded max (inBuf c) (inl e) s /\ incomplete e = true.

(** The requests complete in a prefix of the stream are the first ones. *)
Lemma served_split x q b more :
  served max (x ++ q) b more rest b_end ->
  exists rs1 rest1 b1 more' e s, served max x b rs1 rest1 b1 /\ decoded max rest1 (inl e) s /\
    incomplete e = true /\ served max (rest1 ++ q) b1 more' rest b_end /\ more = rs1 ++ more'.
Proof.
  remember (x ++ q) as s eqn:Hs. intros Hserved. revert x Hs.
  induction Hserved as [input b|input b v rest1 r b1 rs last b2 Hd Hsv Hrest IH]; intros x ->.
  - destruct (Decode (NewDecoderWithLimit x max)) as [[e|v] d'] eqn:Hx.
    + assert (Hdx : decoded max x (inl e) x) by by exists d'.
      destruct (incomplete e) eqn:He.
      * exists [], x, b, [], e, x. split_and!; try done; constructor.
      * destruct (malformed_feed max x e q x Hdx He) as (e' & Hd & He').
        destruct (decoded_det _ _ _ _ _ _ Hd Hstop) as [[= ->] _]. congruence.
    + assert (Hdx : decoded max x (inr v) (dreader d')) by by exists d'.
      apply (decoded_feed _ _ _ _ q) in Hdx. by destruct (decoded_det _ _ _ _ _ _ Hdx Hstop).
  - destruct (Decode (NewDecoderWithLimit x max)) as [[e|v'] d'] eqn:Hx.
    + assert (Hdx : decoded max x (inl e) x) by by exists d'.
      destruct (incomplete e) eqn:He.
      * exists [], x, b, (r :: rs), e, x. split_and!; try done; [constructor|by eapply served_cons].
      * destruct (malformed_feed max x e q x Hdx He) as (e' & Hd' & _).
        by destruct (decoded_det _ _ _ _ _ _ Hd Hd').
    + assert (Hdx : decoded max x (inr v') (dreader d')) by by exists d'.
      pose proof (decoded_feed _ _ _ _ q Hdx) as Hdq.
      destruct (decoded_det _ _ _ _ _ _ Hd Hdq) as [[= <-] ->].
      destruct (IH Hstop (dreader d') eq_refl) as (rs1 & rest1 & b3 & more' & e & s & Hs1 & Hd1 & He & Hs2 & ->).
      exists (r :: rs1), rest1, b3, more', e, s. split_and!; try done. by eapply served_cons.
Qed.

Lemma process_track clk c p b future c' p' b' said more :
  track said more future c b -> processCommands clk c p b = Some (None, c', p', b') ->
  exists rs1 more', more = rs1 ++ more' /\ track (said ++ rs1) more' future c' b' /\ stalled c' /\
    settings c' = settings c.
Proof.
  intros (Hr & Hs & Ho & Hmi) Hp.
  destruct (served_split _ _ _ _ Hs) as (rs1 & rest1 & b1 & more' & e & s & Hs1 & Hd1 & He & Hs2 & ->).
  apply processCommands_answered in Hp as (Hset & _ & _ & rs & rest' & Hs' & e1 & stop1 & Hd' & Hif). rw Hmi in Hs' Hd'.
  destruct (served_det _ _ _ _ _ _ _ _ _ _ _ _ _ Hs1 Hd1 Hs' Hd') as (-> & -> & ->).
  destruct (decoded_det _ _ _ _ _ _ Hd1 Hd') as [[= <-] _]. rw He in Hif. destruct Hif as [Hin Hout].
  assert (maxInbound c' = maxInbound c) as E1 by (unfold settings in Hset; by simplify_eq).
  exists rs1, more'. split; [done|]. split; [|split; [exists e, s; by rw Hin|done]].
  split_and!; [by rw -app_assoc|by rw Hin|by rw Hout Ho reply_bytes_app|congruence].
Qed.

Lemma track_arrive said more buf future c b t :
  track said more (buf ++ future) c b -> track said more future (with_activity t (with_in (inBuf c ++ buf) c)) b.
Proof. intros (Hr & Hs & Ho & Hmi). split_and!; try done. simpl. by rw -app_assoc. Qed.

Lemma read_loop_tracked rs clk c p b future c' p' b' :
  tracked (received rs ++ future) c b -> read_loop rs clk c p b = Some (None, c', p', b') ->
  tracked future c' b' /\ stalled c'.
Proof.
  assert (Hproc : forall clk c p b future c' p' b', tracked future c b ->
            processCommands clk c p b = Some (None, c', p', b') -> tracked future c' b' /\ stalled c').
  { intros clk1 c1 p1 b1 f1 c2 p2 b2 (said & more & Ht) Hp.
    destruct (process_track _ _ _ _ _ _ _ _ _ _ Ht Hp) as (rs1 & more' & _ & Ht' & Hst & _).
    split; [by exists (said ++ rs1), more'|done]. }
  revert clk c p b. induction rs as [|r rs IH]; intros clk c p b Ht Hl; [by eapply Hproc|].
  destruct r as [[|x buf]| | |e]; [done| |by eapply Hproc|by eapply IH|done].
  cbn [read_loop received] in *. change (x :: buf ++ received rs) with ((x :: buf) ++ received rs) in Ht.
  rw -app_assoc in Ht. destruct (_ <? _); [done|]. destruct Ht as (said & more & Ht).
  apply (track_arrive _ _ _ _ _ _ (clk 0%nat)) in Ht.
  destruct (processCommands _ _ p b) as [[[[[e|] c1] p1] b1]|] eqn:Hp; [done| |done]. cbn [mbind option_bind] in Hl.
  apply Hproc with (future := received rs ++ future) in Hp as [Ht1 _]; [by eapply IH|by exists said, more].
Qed.

Lemma on_events_tracked evs clk c p b c' p' b' :
  tracked (concat (received_by <$> evs)) c b -> stalled c ->
  on_events evs clk c p b = Some (None, c', p', b') -> tracked [] c' b' /\ stalled c'.
Proof.
  revert clk c p b. induction evs as [|ev evs IH]; intros clk c p b Ht Hst He.
  { cbn in He. injection He as <- <- <-. done. }
  cbn [on_events] in He. csimpl in Ht.
  destruct (on_event ev (fork1 clk) c p b) as [[[[[e|] c1] p1] b1]|] eqn:Hev; [done| |done].
  cbn [mbind option_bind] in He.
  assert (tracked (concat (received_by <$> evs)) c1 b1 /\ stalled c1) as [Ht1 Hst1]; [|by apply (IH _ _ _ _ Ht1 Hst1 He)].
  destruct ev as [rs ws|ws]; cbn [on_event received_by] in *.
  - unfold OnRead in Hev. destruct (isClosed _); [done|]. destruct (_ <=? _); [done|].
    eapply read_loop_tracked; [|exact Hev]. exact Ht.
  - injection Hev as Hev <-. unfold OnWrite in Hev. destruct (isClosed _); [done|].
    pose proof (Flush_flushed (fork1 clk) (with_writes ws c) p) as Hf. rw Hev in Hf.
    destruct Hf as (Hout & Hin & Hset & _). simpl in Hin. split.
    + destruct Ht as (said & more & Hr & Hs & Ho & Hmi). exists said, more.
      split_and!; [done|by rw Hin|by rw Hout|]. unfold settings in Hset. simpl in Hset. injection Hset. congruence.
    + destruct Hst as (e & s & Hd & Hie). exists e, s. by rw Hin.
Qed.

Lemma tracked_end c b :
  tracked [] c b -> stalled c -> output c = reply_bytes replies /\ b = b_end.
Proof.
  intros (said & more & -> & Hs & Ho & _) (e & s & Hd & _). rw app_nil_r in Hs.
  inversion Hs as [|? ? v' rest1 r' b1' rs1 ? ? Hd1 _ _]; subst; [by rw app_nil_r|].
  by destruct (decoded_det _ _ _ _ _ _ Hd Hd1).
Qed.

End track.

(** ** Requests of bounded size *)
Section calm.
Context `{Unicode} {K B : Type} `{Kernel K} `{Service B}.
Context (max lo hi size : Z) (replies : list Value) (rest : gostring) (b_end : B) (err : decErr) (stop : gostring).
Hypothesis Hstop : decoded max rest (inl err) stop.
Hypothesis Hinc : incomplete err = true.
Hypothesis Henc : forallb encodable replies = true.
Hypothesis Hsize : size + readSize <= max.
Implicit Types (c : Connection) (p : Poller K) (b : B).

(** Every message of the input, and what follows the last, has at most [size] bytes. *)
Inductive sized : gostring -> Prop :=
  | sized_last input e s : decoded max input (inl e) s -> len input <= size -> sized input
  | sized_more input v next :
      decoded max input (inr v) next -> len input - len next <= size -> sized next -> sized input.

Lemma sized_served input b rs last b' : served max input b rs last b' -> sized input -> sized last.
Proof.
  induction 1 as [|input b v next r b1 rs last b2 Hd Hs _ IH]; [done|].
  inversion 1 as [? e s Hd' _|? v' next' Hd' _ Hn]; subst; destruct (decoded_det _ _ _ _ _ _ Hd Hd'); [done|].
  subst. by apply IH.
Qed.

(** An unfinished message is shorter than the message. *)
Lemma sized_stalled c future :
  sized (inBuf c ++ future) -> stalled max c -> len (inBuf c) <= size.
Proof.
  intros Hs (e & s & (d' & Hd & _) & He). pose proof (len_nonneg future).
  inversion Hs as [? e' s' _ Hl|? v next (d2 & Hd2 & <-) Hl _]; subst; rw len_app in Hl; [lia|].
  pose proof (local_Decode (NewDecoderWithLimit (inBuf c) max) future) as Hloc. rw Hd in Hloc.
  change (feed future (NewDecoderWithLimit (inBuf c) max)) with (NewDecoderWithLimit (inBuf c ++ future) max) in Hloc.
  rw Hd2 in Hloc. lia.
Qed.

(** The limits hold and nothing is broken. *)
Definition calm (future : gostring) c p b : Prop :=
  exists said more, track max replies rest b_end said more future c b /\
    len (outBuf c) <= len (reply_bytes said) /\ healthy c p /\ sized (inBuf c ++ future) /\
    len (reply_bytes replies) <= maxOutbound c /\ isClosed c = false /\ active lo hi c /\ hi - lo < idleTimeout c.

Lemma process_calm clk c p b future :
  within lo hi clk -> calm future c p b ->
  exists c' p' b', processCommands clk c p b = Some (None, c', p', b') /\ calm future c' p' b' /\ stalled max c'.
Proof.
  intros Hw (said & more & Ht & Hl & Hh & Hsz & Hmo & Hcl & Ha & Hidle). pose proof Ht as (Hr & Hs & Ho & Hmi).
  destruct (served_split _ _ _ _ _ Hstop Hinc _ _ _ _ Hs) as (rs1 & rest1 & b1 & more' & e & s & Hs1 & Hd1 & He & Hs2 & ->).
  assert (Henc1 : forallb encodable rs1 = true).
  { pose proof Henc as He1. rewrite -> Hr, !forallb_app in He1. bool_prop. done. }
  assert (Hle : len (reply_bytes said) + len (reply_bytes rs1) <= len (reply_bytes replies)).
  { rw Hr !reply_bytes_app !len_app. pose proof (len_nonneg (reply_bytes more')). lia. }
  destruct (process_loop_well max (NewDecoderWithLimit (inBuf c) (maxInbound c)) clk c p b rs1 rest1 b1
              (S (length (inBuf c))) e s) as ([[[e' c'] p'] b'] & Hp & Hn & Hh' & Hl'); try done; [simpl; lia|lia|].
  change (processCommands clk c p b = Some (e', c', p', b')) in Hp. simpl in Hn, Hh', Hl'. subst e'.
  exists c', p', b'. split; [done|].
  pose proof (process_loop_active lo hi _ _ _ _ _ _ _ Hw Ha Hp) as Ha'. simpl in Ha'.
  pose proof (processCommands_answered _ _ _ _ _ Hp) as (_ & _ & _ & rs & rest' & Hs' & e1 & stop1 & Hd' & Hif).
  rw Hmi in Hs' Hd'. destruct (served_det _ _ _ _ _ _ _ _ _ _ _ _ _ Hs1 Hd1 Hs' Hd') as (-> & -> & ->).
  destruct (decoded_det _ _ _ _ _ _ Hd1 Hd') as [[= <-] _]. rw He in Hif. destruct Hif as [Hin Hout].
  destruct (process_track _ _ _ _ _ _ Hstop Hinc _ _ _ _ _ _ _ _ _ _ Ht Hp) as (rs2 & more2 & Hm & Ht' & Hst & Hset).
  assert (output c' = reply_bytes (said ++ rs2)) as Hout2 by apply Ht'.
  split; [|done]. exists (said ++ rs2), more2.
  assert (maxOutbound c' = maxOutbound c /\ isClosed c' = isClosed c /\ idleTimeout c' = idleTimeout c)
    as (-> & -> & ->) by (unfold settings in Hset; by simplify_eq).
  assert (reply_bytes (said ++ rs2) = reply_bytes (said ++ rs1)) as Hsame.
  { by rw -Hout2 Hout Ho reply_bytes_app. }
  split_and!; try done; [rw Hsame reply_bytes_app len_app; lia|].
  rw Hin. eapply sized_served; [|exact Hsz]. apply (served_feed _ _ _ _ _ _ future Hs1).
Qed.

Lemma read_loop_calm rs clk c p b future :
  within lo hi clk -> forallb fair_read rs = true -> calm (received rs ++ future) c p b -> stalled max c ->
  exists c' p' b', read_loop rs clk c p b = Some (None, c', p', b') /\ calm future c' p' b' /\ stalled max c'.
Proof.
  revert clk c p b. induction rs as [|r rs IH]; intros clk c p b Hw Hf Ht Hst; [by apply process_calm|].
  cbn [forallb] in Hf. apply andb_true_iff in Hf as [Hr Hf].
  destruct r as [[|x buf]| | |e]; [done| |by apply process_calm|by apply IH|done].
  cbn [read_loop received] in *. change (x :: buf ++ received rs) with ((x :: buf) ++ received rs) in Ht.
  rw -app_assoc in Ht. destruct Ht as (said & more & Ht & Hl & Hh & Hsz & Hmo & Hcl & Ha & Hidle).
  pose proof (sized_stalled _ _ Hsz Hst). assert (maxInbound c = max) as Hmi by apply Ht.
  unfold fair_read in Hr. bool_prop. rewrite -> (proj2 (Z.ltb_ge _ _)) by lia.
  apply (track_arrive _ _ _ _ _ _ _ _ _ _ (clk 0%nat)) in Ht.
  destruct (process_calm (fork1 (skip 1 clk)) (with_activity (clk 0%nat) (with_in (inBuf c ++ x :: buf) c)) p b
              (received rs ++ future) (within_fork1 _ _ _ (within_skip _ _ 1 _ Hw)))
    as (c1 & p1 & b1 & -> & Ht2 & Hst2).
  { exists said, more. split_and!; try done; [by simpl; rw -app_assoc|apply Hw]. }
  cbn [mbind option_bind]. apply IH; auto with carrot.
Qed.

Lemma on_event_calm ev clk c p b future :
  within lo hi clk -> fair_event ev -> calm (received_by ev ++ future) c p b -> stalled max c ->
  exists c' p' b', on_event ev clk c p b = Some (None, c', p', b') /\ calm future c' p' b' /\ stalled max c'.
Proof.
  intros Hw Hf Ht Hst.
  assert (Hws : forall ws, Forall fair_write ws -> calm (received_by ev ++ future) (with_writes ws c) p b).
  { intros ws Hws. destruct Ht as (said & more & Ht & Hl & (Hm & Hwt & _) & Ht').
    exists said, more. split_and!; try done; apply Ht'. }
  destruct ev as [rs ws|ws]; cbn [fair_event received_by on_event] in *.
  - destruct Hf as [Hf Hfw]. specialize (Hws ws Hfw). unfold OnRead.
    pose proof Hws as (said & more & _ & _ & _ & _ & _ & Hcl & Ha & Hidle). rw Hcl. pose proof (Hw 0%nat) as Hn.
    destruct (Z.leb_spec (idleTimeout (with_writes ws c)) (GoTime.Sub (clk 0%nat) (lastActivity (with_writes ws c)))) as [Hz|_].
    { exfalso. revert Hz Hn Ha Hidle. unfold GoTime.Sub, active, min_int64, max_int64. simpl. lia. }
    by apply (read_loop_calm rs _ _ _ _ _ (within_skip _ _ 1 _ Hw) Hf Hws).
  - specialize (Hws ws Hf). unfold OnWrite.
    destruct Hws as (said & more & (Hr & Hs & Ho & Hmi) & Hl & (Hm & Hwt & Hfw) & Hsz & Hmo & Hcl & Ha & Hidle).
    rw Hcl. destruct (Flush_fair clk _ p Hm Hwt Hfw) as [He Hfw'].
    pose proof (Flush_flushed clk (with_writes ws c) p) as Hfl.
    pose proof (Flush_active lo hi clk _ p Hw Ha) as Ha'.
    destruct (Flush clk (with_writes ws c) p) as [[e c'] p']. simpl in He, Hfw', Ha'. subst e.
    destruct Hfl as (Hout & Hin & Hset & Hlen & Hint). exists c', p', b. split; [done|].
    assert (maxInbound c' = maxInbound c /\ maxOutbound c' = maxOutbound c /\ isClosed c' = isClosed c /\
            idleTimeout c' = idleTimeout c /\ fd c' = fd c) as (E1 & E2 & E3 & E4 & E5)
      by (unfold settings in Hset; simpl in Hset; by simplify_eq).
    split; [|destruct Hst as (e & s & Hd & Hie); exists e, s; by rw Hin].
    exists said, more. unfold track. rw Hin Hout E1 E2 E3 E4. split_and!; try done; [lia|]. split_and!; [done| |done].
    unfold Poll.watched. rw E5 Hint. simpl. rw lookup_insert_eq. by eexists.
Qed.

(** A whole history goes well. *)
Lemma on_events_calm evs clk c p b future :
  within lo hi clk -> Forall fair_event evs -> calm (concat (received_by <$> evs) ++ future) c p b ->
  stalled max c ->
  exists c' p' b', on_events evs clk c p b = Some (None, c', p', b') /\ calm future c' p' b' /\ stalled max c'.
Proof.
  revert clk c p b. induction evs as [|ev evs IH]; intros clk c p b Hw Hf Ht Hst.
  { exists c, p, b. by split_and!. }
  inversion Hf as [|? ? Hev Hf']; subst. csimpl in Ht. rw -app_assoc in Ht.
  destruct (on_event_calm ev (fork1 clk) c p b _ (within_fork1 _ _ _ Hw) Hev Ht Hst)
    as (c1 & p1 & b1 & He & Ht1 & Hst1). cbn [on_events]. rw He. cbn [mbind option_bind].
  apply IH; auto with carrot.
Qed.

End calm.
End ReactorStream.
