(* ===== verification/BlockingProof.v ===== *)
(** * What the blocking server's handler does with a stream

    A handler serves the complete requests in order until the input ends, a message
    cannot be decoded, a reply is too long or the connection fails; up to then the
    client has been sent exactly the replies. *)

From S2P Require Import Prelude GoLib GoIO GoIOProof Resp RespProof RespLimits RespEncode Executor.
From S2P Require Import Serving ServingProof Config Client BlockingServer.

Module BlockingProof.
Import Resp RespProof RespEncode ServingProof Blocking.

(** ** The buffered connection *)
Definition clean (c : Client) : Prop :=
  0 < GoIO.bwSize (cWriter c) /\ GoIO.bwBuf (cWriter c) = [] /\ GoIO.bwErr (cWriter c) = false.
Definition sent (c : Client) : gostring := ncSent (Cl.conn c).

Lemma Write_sent p c :
  clean c ->
  let '(err, c') := Cl.Write p c in
  cDecoder c' = cDecoder c /\ (err = false -> clean c' /\ sent c' = sent c ++ p).
Proof.
  intros (Hs & Hb & He). set (s0 := sent c).
  set (accepted (q : gostring) (w : netConn) := ncSent w = s0 ++ q).
  assert (Hok : forall p q w, accepted q w -> let '(n, err, w') := w_write p w in
            if err then True else n = length p /\ accepted (q ++ p) w').
  { intros p' q w Hq. unfold w_write, netConn_Write, accepted in *.
    destruct (ncWrites w) as [|[n|] ws]; simpl; [|done|]; rw Hq app_assoc; done. }
  assert (Hh : GoIOProof.holds accepted (fun _ _ => True) [] (cWriter c)).
  { split_and!; [done|rw Hb; simpl; rw len_nil; lia|]. rw He. exists []. split; [|by rw Hb].
    unfold accepted. by rw app_nil_r. }
  apply (GoIOProof.Write_holds _ _ Hok (fun _ _ _ _ => I) _ p) in Hh. rw app_nil_l in Hh.
  unfold Cl.Write. destruct (GoIO.bwErr (GoIO.Write p (cWriter c))) eqn:Hw; [by split|].
  pose proof Hh as (Hs' & _).
  pose proof (GoIOProof.Flush_holds _ _ Hok (fun _ _ _ _ => I) _ _ Hh) as Hf.
  pose proof (GoIOProof.Flush_pending _ _ Hok (fun _ _ _ _ => I) _ _ _ Hh) as [(Hs2 & _) _].
  unfold Cl.Flush. simpl. destruct (GoIO.bwErr (GoIO.Flush (GoIO.Write p (cWriter c)))) eqn:Hfe; [done|].
  destruct Hf as [Hf Hn]. by split_and!.
Qed.

Lemma SetDeadline_sent c e c' :
  Cl.SetDeadline c = (e, c') -> cDecoder c' = cDecoder c /\ sent c' = sent c /\ (clean c -> clean c').
Proof. unfold Cl.SetDeadline. destruct (ncDeadlines (Cl.conn c)); intros; by simplify_eq/=. Qed.

(** A reply that was written is whole and within the limit. *)
Lemma writeResponse_sent cfg v c e c' :
  clean c -> writeResponse cfg v c = (e, c') ->
  cDecoder c' = cDecoder c /\
  (e = None -> clean c' /\ sent c' = sent c ++ wire v /\ encodable v = true /\ len (wire v) <= MaxResponseBytes cfg).
Proof.
  unfold writeResponse. pose proof (render_writer v (MaxResponseBytes cfg)) as Hr. intros Hc Hw.
  destruct (Serving.render _ _) as [[]|w]; [by simplify_eq..|]. destruct Hr as (Ho & Hv & Hl).
  destruct (Cl.SetDeadline c) as [[e1|] c1] eqn:Hd; apply SetDeadline_sent in Hd as (Hdd & Hsd & Hcd); [by simplify_eq|].
  pose proof (Write_sent (lwOutput w) c1 (Hcd Hc)) as Hws. destruct (Cl.Write _ c1) as [err c2].
  destruct Hws as [Hd2 Hws]. simplify_eq. split; [congruence|]. destruct err; [done|]. intros _.
  destruct (Hws eq_refl) as [Hc2 Hs2]. split_and!; [done|by rw Hs2 Hsd Ho|done..].
Qed.

Section client.
Context `{Unicode} {B : Type} `{Service B} (cfg : Config).
Abbreviation max := (MaxRequestBytes cfg).

Lemma client_loop_served fuel c b fin c' b' :
  clean c -> between max (cDecoder c) -> client_loop cfg fuel c b = Some (fin, c', b') ->
  exists rs rest, served max (dreader (cDecoder c)) b rs rest b' /\
    match fin with
    | EndWrite _ => True
    | EndReadDeadline _ => sent c' = sent c ++ reply_bytes rs
    | EndDecode e => decoded max rest (inl e) rest /\ sent c' = sent c ++ reply_bytes rs /\
        forallb encodable rs = true /\ Forall (fun v => len (wire v) <= MaxResponseBytes cfg) rs
    end.
Proof.
  revert c b. induction fuel as [|fuel IH]; intros c b Hc Hb Hl; [done|]. cbn [client_loop] in Hl.
  destruct (Cl.SetDeadline c) as [[e1|] c1] eqn:Hsd; apply SetDeadline_sent in Hsd as (Hdd & Hss & Hcc).
  { simplify_eq. exists [], (dreader (cDecoder c)). split; [constructor|]. by rw app_nil_r. }
  rw Hdd in Hl. destruct (Decode (cDecoder c)) as [[err|v] d] eqn:Hd;
    pose proof (decoded_at max _ _ _ Hb Hd) as Hdec; cbv iota in Hdec.
  { simplify_eq. exists [], (dreader (cDecoder c)). split; [constructor|]. split_and!; [done| |done..].
    by rw app_nil_r. }
  destruct (serve v b) as [[r b1]|] eqn:Hsv; [|done]. cbn [mbind option_bind] in Hl.
  destruct (writeResponse cfg r _) as [e2 c2] eqn:Hw.
  apply writeResponse_sent in Hw as [Hd2 Hw]; [|by apply Hcc].
  destruct e2 as [e2|].
  { simplify_eq. exists [r], (dreader d). split; [by eapply served_one|done]. }
  destruct (Hw eq_refl) as (Hc2 & Hs2 & Hv & Hlen). apply IH in Hl as (rs & rest & Hserved & Hfin);
    [|done|rw Hd2; by eapply between_Decode].
  rw Hd2 in Hserved. exists (r :: rs), rest. split; [by eapply served_cons|].
  assert (Hsent : sent c2 ++ reply_bytes rs = sent c ++ reply_bytes (r :: rs)).
  { rw Hs2. change (sent (Cl.with_decoder d c1)) with (sent c1). rw Hss. unfold reply_bytes. csimpl. by rw app_assoc. }
  destruct fin; [congruence| |done]. destruct Hfin as (Hstop & Hs3 & Hf & Hall).
  split_and!; [done|congruence|cbn [forallb]; by rw Hv Hf|by constructor].
Qed.

Lemma handleClient_served input nc b fin c' b' :
  handleClient cfg input nc b = Some (fin, c', b') ->
  exists rs rest, served max input b rs rest b' /\
    match fin with
    | EndWrite _ => True
    | EndReadDeadline _ => sent c' = ncSent nc ++ reply_bytes rs
    | EndDecode e => decoded max rest (inl e) rest /\ sent c' = ncSent nc ++ reply_bytes rs /\
        forallb encodable rs = true /\ Forall (fun v => len (wire v) <= MaxResponseBytes cfg) rs
    end.
Proof.
  unfold handleClient. destruct (client_loop _ _ _ b) as [[[fin1 c1] b1]|] eqn:Hl; [|done].
  cbn [mbind option_bind]. intros ?. simplify_eq. by apply client_loop_served in Hl.
Qed.

(** The handler always returns when the backend does: [P] says that it is well. *)
Lemma client_loop_total (P : B -> Prop) fuel c b :
  (forall v b, P b -> exists r b', serve v b = Some (r, b') /\ P b') -> P b ->
  (length (dreader (cDecoder c)) < fuel)%nat -> is_Some (client_loop cfg fuel c b).
Proof.
  intros Hsv. revert c b. induction fuel as [|fuel IH]; intros c b Hb Hf; [lia|]. cbn [client_loop].
  destruct (Cl.SetDeadline c) as [[e1|] c1] eqn:Hsd; [by eexists|].
  apply SetDeadline_sent in Hsd as (-> & _).
  destruct (Decode (cDecoder c)) as [[err|v] d] eqn:Hd; [by eexists|].
  destruct (Hsv v b Hb) as (r & b1 & -> & Hb1). cbn [mbind option_bind].
  destruct (writeResponse cfg r _) as [[e2|] c2] eqn:Hw; [by eexists|]. apply IH; [done|].
  assert (cDecoder c2 = d) as ->.
  { unfold writeResponse in Hw. destruct (Serving.render _ _) as [[]|w]; [done..|].
    destruct (Cl.SetDeadline _) as [[e3|] c3] eqn:Hsd; apply SetDeadline_sent in Hsd as (Hd3 & _); [done|].
    unfold Cl.Write, Cl.Flush in Hw. destruct (GoIO.bwErr (GoIO.Write _ _)); [by simplify_eq/=|].
    simpl in Hw. by simplify_eq/=. }
  apply RespLimits.Decode_progress in Hd. unfold len in Hd. lia.
Qed.

Lemma handleClient_total (P : B -> Prop) input nc b :
  (forall v b, P b -> exists r b', serve v b = Some (r, b') /\ P b') -> P b ->
  exists fin c b', handleClient cfg input nc b = Some (fin, c, b').
Proof.
  intros Hsv Hb. unfold handleClient.
  destruct (client_loop_total P (S (length input)) (Cl.NewClientWithLimit input nc max) b Hsv Hb)
    as [[[fin c] b'] ->]; [simpl; lia|]. by do 3 eexists.
Qed.

End client.
End BlockingProof.
