(* ===== verification/EndToEnd.v ===== *)
(** * From the wire to the disk

    A client of the blocking server whose executor journals to the append-only file:
    each command it sends is decoded, executed and, when it is a mutation, committed
    as a batch of its own; the log then mirrors the executor again. *)

From S2P Require Import Prelude GoTime GoLib GoIO Resp RespProof RespEncode ListValue Store StoreSpec StoreProof.
From S2P Require Import StoreRefine StoreMaint StoreMaintProof Command CommandProof CommandEffects Executor ExecutorProof Aof.
From S2P Require Import AofRecords AofLog AofRecovery AofRewrite Timeless Durability Config Serving.
From S2P Require Import ServingProof Client BlockingServer BlockingProof.
Import StoreSpec.

Module EndToEnd.
Import Resp RespProof RespEncode Cmd CommandProof StoreProof StoreMaintProof CommandEffects Exec ExecutorProof Aof AofRecords AofLog.
Import AofRecovery AofRewrite Timeless Durability ServingProof Blocking BlockingProof.

Section wire.
Context `{Unicode} `{Disk} (ord : gset gostring -> list gostring) (fresh : Log -> nat * nat).
Context (rnd : nat -> nat -> nat) (rclk : nat -> clock) (T : Z) (D : Z -> Prop) (max : Z).
#[local] Instance log_journal : Journal Log := Log_journal ord fresh.
#[local] Instance log_service : Service (Backend Log) := Serving.executorService ord rnd rclk.
Hypothesis Hord : forall X, ord X ≡ₚ elements X.
Hypothesis Hclk : forall n, steady T D (rclk n).

(** What the log is asked to append by the command that is executed as number [n]. *)
Definition journaled (n : nat) (cmd : Command) : list (clock * list Command) :=
  if IsMutation (cName cmd) then [(fork1 (fork2 (rclk n)), [cmd])] else [].

Fixpoint journaled_all (n : nat) (cmds : list Command) : list (clock * list Command) :=
  match cmds with [] => [] | cmd :: cmds' => journaled n cmd ++ journaled_all (S n) cmds' end.

(** A command a client may send: within the limits of the protocol and of a record,
    its deadline one of [D]; not a rewrite. *)
Definition command_ok (cmd : Command) : Prop :=
  sendable max cmd /\ named (cName cmd) "AOFREWRITE" = false /\
  forall n, Forall (fun call => within D (valid_commands call.1 call.2) /\
                                Forall recordable (valid_commands call.1 call.2)) (journaled n cmd).

(** Keys that have expired are dropped without a reader noticing. *)
Lemma agree_purged clk db db1 db' : steady T D clk -> purged clk db db1 -> agree T D db db' -> agree T D db1 db'.
Proof.
  intros Hc Hp [Hv Hl Hr]. split; [|intros k x Hx|done].
  - intros k. rw -Hv. destruct (Hp k) as [->|(-> & n & x & Hx & He)]; [done|]. rw -(live_steady T D clk n (db !! k) Hc (Hl k)).
    rw Hx. unfold live, expired_key in *. by rw He.
  - destruct (Hp k) as [He|[He _]]; rw He in Hx; [by apply (Hl k)|done].
Qed.

(** The executor and its log, between two requests. *)
Record mirrored (b : Backend Log) (l : Log) (cs : list Command) : Prop := {
  mi_mirrors : mirrors T D (bExecutor b) cs;
  mi_memory : maxMemory (bExecutor b) <= 0;
  mi_journal : journal (bExecutor b) = Some l;
}.

(** A command that is not a mutation. *)
Lemma read_mirrored n cmd b l cs :
  named (cName cmd) "AOFREWRITE" = false -> IsMutation (cName cmd) = false -> mirrored b l cs ->
  exists v e, Execute ord (rnd n) (rclk n) cmd (bExecutor b) = Some (v, e) /\ mirrored (mkBackend e (S n)) l cs.
Proof.
  intros Hname Hmut [Hmir Hmem Hj]. unfold Execute. rw Hname Hmut. unfold admitAndApply.
  pose proof Hmir as [Hw Hruns].
  destruct (admitOrReject_spec (rnd n) (fork1 (rclk n)) cmd (bExecutor b) Hw) as (r & e' & -> & _ & _ & _ & Ha).
  destruct (Ha Hmem) as [-> ->]. cbn [mbind option_bind].
  destruct (apply_spec (fork2 (rclk n)) cmd (bExecutor b) Hw) as (v & s & -> & Hs & Hx). cbn [mbind option_bind].
  do 2 eexists. split; [done|]. split; [|done..]. split; [done|]. intros clk Hc.
  destruct (Hruns clk Hc) as (vs & db & Hrun & Hag). exists vs, db. split; [done|].
  eapply agree_purged; [by apply steady_fork2, (Hclk n)| |exact Hag].
  eapply execute_effect; [by apply abs_filled|exact Hx|]. by left.
Qed.

(** A mutation is a batch of its own. *)
Lemma mutation_mirrored n cmd b l cs :
  command_ok cmd -> IsMutation (cName cmd) = true -> mirrored b l cs ->
  exists v e, Execute ord (rnd n) (rclk n) cmd (bExecutor b) = Some (v, e) /\
    let '(rs, l') := append_all (journaled n cmd) l in
    mirrored (mkBackend e (S n)) l' (cs ++ acked (journaled n cmd) rs).
Proof.
  intros (_ & Hname & Hok) Hmut [Hmir Hmem Hj]. specialize (Hok n). unfold journaled in *. rw Hmut in Hok. rw Hmut.
  apply Forall_cons in Hok as [[Hd _] _]. unfold Execute. rw Hname Hmut Hj.
  change jBatch with (Some AppendBatch). cbv iota. unfold submitMutation.
  destruct (commit_mirrors T D (rnd n) (rclk n) [cmd] (bExecutor b) l cs Hmir Hmem Hj) as (rs & e' & Hc & Hmem' & Hr).
  { split; [done|]. split; [by repeat constructor|]. split; [apply Hclk|exact Hd]. }
  destruct (commit_total AppendBatch (rnd n) (rclk n) [cmd] (bExecutor b)) as (rs2 & e2 & Hc2 & _ & Hlen & _);
    [apply Hmir|congruence|].
  rw Hc in Hc2. symmetry in Hc2. simplify_eq. rw Hc. cbn [mbind option_bind].
  destruct rs as [|r []]; [done| |done]. cbn [head mbind option_bind]. do 2 eexists. split; [done|].
  cbn [append_all]. destruct (AppendBatch _ [cmd] l) as [[err|out] l']; destruct Hr as [Hj' Hm']; cbn [acked];
    rw ?app_nil_r; by split.
Qed.

(** ** One request after another *)
Lemma append_all_app calls calls' l :
  append_all (calls ++ calls') l =
    let '(rs, l1) := append_all calls l in let '(rs', l2) := append_all calls' l1 in (rs ++ rs', l2).
Proof.
  revert l. induction calls as [|[clk batch] calls IH]; intros l; simpl; [by destruct (append_all calls' l)|].
  destruct (AppendBatch clk batch l) as [r l1]. rw IH. destruct (append_all calls l1) as [rs l2].
  by destruct (append_all calls' l2).
Qed.

Lemma acked_app calls calls' rs rs' :
  length rs = length calls -> acked (calls ++ calls') (rs ++ rs') = acked calls rs ++ acked calls' rs'.
Proof.
  revert rs. induction calls as [|[clk batch] calls IH]; intros [|[err|out] rs] Hl; try done; simpl in *;
    rewrite -> IH by lia; [done|by rw app_assoc].
Qed.

Lemma append_all_length calls l : length (append_all calls l).1 = length calls.
Proof.
  revert l. induction calls as [|[clk batch] calls IH]; intros l; [done|]. simpl.
  destruct (AppendBatch clk batch l) as [r l1]. specialize (IH l1). destruct (append_all calls l1). simpl in *. lia.
Qed.

Lemma answer_mirrored cmd b l cs :
  command_ok cmd -> mirrored b l cs ->
  exists v b', serve (command_value cmd) b = Some (v, b') /\ calls b' = S (calls b) /\
    let '(rs, l') := append_all (journaled (calls b) cmd) l in
    mirrored b' l' (cs ++ acked (journaled (calls b) cmd) rs).
Proof.
  intros Hok Hb. pose proof Hok as (Hs & Hname & _). change serve with (Serving.answer ord rnd rclk).
  unfold Serving.answer. rewrite -> (parse_sent max) by done.
  destruct (IsMutation (cName cmd)) eqn:Hm.
  - destruct (mutation_mirrored (calls b) cmd b l cs Hok Hm Hb) as (v & e & -> & Hr). by do 2 eexists.
  - destruct (read_mirrored (calls b) cmd b l cs Hname Hm Hb) as (v & e & -> & Hr).
    unfold journaled. rw Hm. cbn [append_all acked]. rw app_nil_r. by do 2 eexists.
Qed.

(** What is served of the wire format of [cmds] is a prefix of them. *)
Lemma served_mirrored cmds : forall b l cs rs rest b',
  served max (records cmds) b rs rest b' -> Forall command_ok cmds -> mirrored b l cs ->
  exists served todo, cmds = served ++ todo /\ rest = records todo /\ length rs = length served /\
    let js := journaled_all (calls b) served in
    mirrored b' (append_all js l).2 (cs ++ acked js (append_all js l).1).
Proof.
  induction cmds as [|cmd cmds IH]; intros b l cs rs rest b' Hsv Hok Hb.
  - inversion Hsv as [|? ? v rest1 r b1 rs1 ? ? (d & Hd & _)]; subst; [|by vm_compute in Hd].
    exists [], []. cbn [journaled_all append_all acked]. split_and!; [done..|by rw app_nil_r].
  - apply Forall_cons in Hok as [Hc Hok].
    inversion Hsv as [|? ? v rest1 r b1 rs1 ? ? (d & Hd & Hrest) Hr Hsv1]; subst.
    { exists [], (cmd :: cmds). cbn [journaled_all append_all acked]. split_and!; [done..|by rw app_nil_r]. }
    change (records (cmd :: cmds)) with (record cmd ++ records cmds) in Hd.
    unfold NewDecoderWithLimit in Hd. rewrite -> decode_sent in Hd by apply Hc. simplify_eq. cbn [dreader] in Hsv1.
    destruct (answer_mirrored cmd b l cs Hc Hb) as (v & b2 & Hr2 & Hn & Hb2).
    rw Hr in Hr2. simplify_eq.
    pose proof (append_all_length (journaled (calls b) cmd) l) as Hlen.
    destruct (append_all (journaled (calls b) cmd) l) as [rs2 l2] eqn:Ha.
    destruct (IH _ _ _ _ _ _ Hsv1 Hok Hb2) as (ready & todo & -> & -> & Hl & Hm).
    exists (cmd :: ready), todo. split_and!; [done..|simpl; congruence|].
    cbn [journaled_all]. rw append_all_app Ha. cbv zeta in Hm. rw Hn in Hm.
    destruct (append_all (journaled_all _ ready) l2) as [rs3 l3] eqn:Ha3. simpl in Hm, Hlen |- *.
    rewrite -> acked_app by done. by rw app_assoc.
Qed.

(** The executor never panics, whatever is sent. *)
Lemma answer_total v (b : Backend Log) :
  wf (eStore (bExecutor b)) -> exists r b', serve v b = Some (r, b') /\ wf (eStore (bExecutor b')).
Proof.
  intros Hw. change serve with (Serving.answer ord rnd rclk). unfold Serving.answer.
  destruct (Parse v) as [err|cmd]; [by do 2 eexists|].
  destruct (Execute_safe ord (rnd (calls b)) (rclk (calls b)) cmd (bExecutor b) Hord Hw) as (r & e & -> & Hw').
  by do 2 eexists.
Qed.

(** A handler that stopped decoding has served everything. *)
Lemma records_exhausted todo e stop :
  Forall command_ok todo -> decoded max (records todo) (inl e) stop -> todo = [].
Proof.
  intros Hok (d & Hd & _). destruct todo as [|cmd todo]; [done|]. apply Forall_cons in Hok as [[Hs _] _].
  change (records (cmd :: todo)) with (record cmd ++ records todo) in Hd.
  unfold NewDecoderWithLimit in Hd. by rewrite -> decode_sent in Hd by done.
Qed.

Lemma journaled_all_ok cmds : forall n,
  Forall command_ok cmds ->
  Forall (fun call => within D (valid_commands call.1 call.2)) (journaled_all n cmds) /\
  Forall (fun call => Forall recordable (valid_commands call.1 call.2)) (journaled_all n cmds).
Proof.
  induction cmds as [|cmd cmds IH]; intros n Hok; [done|]. apply Forall_cons in Hok as [(_ & _ & Hc) Hok].
  destruct (IH (S n) Hok) as [Hw Hr]. specialize (Hc n). apply Forall_and in Hc as [Hcw Hcr].
  cbn [journaled_all]. split; by apply Forall_app.
Qed.
End wire.
End EndToEnd.
