(* ===== verification/EndToEndTheorems.v ===== *)
(** * From the wire to the disk and back

    What a client that writes commands to the blocking server can rely on when the
    machine crashes. *)

From S2P Require Import Prelude GoTime GoLib GoIO Resp RespProof RespTheorems ListValue Store StoreSpec StoreProof.
From S2P Require Import StoreRefine Command CommandProof Executor Aof AofRecords AofLog AofRecovery AofTheorems.
From S2P Require Import AofRewrite Timeless Durability DurabilityTheorems Config Serving ServingProof.
From S2P Require Import Client BlockingServer BlockingProof EndToEnd.

Module EndToEndTheorems.
Import Resp RespProof Cmd CommandProof StoreProof Exec Aof AofRecords AofLog AofRecovery AofTheorems AofRewrite.
Import Timeless Durability DurabilityTheorems ServingProof Blocking BlockingProof EndToEnd.


(** A fresh server, a disk that fails one operation, three commands. *)
Definition sentCommands : list Command :=
  [mkCommand (str "SET") [str "k"; str "v"; str "PXAT"; str "10000"]; mkCommand (str "GET") [str "k"];
   mkCommand (str "RPUSH") [str "q"; str "1"]].

Definition wireConfig : Config := Conf.DefaultConfig.

Definition okConn : netConn := mkNetConn [] [] [] false.



(** The disk fails the synchronisation of the third command: the first one is on the
    disk.  The error of the third reply joins two texts with a newline, so that the
    client cannot decode it. *)
Example sent_commands_answered :
  match @handleClient asciiOnly _ (@Serving.executorService asciiOnly _
          (@Log_journal asciiOnly (badDisk 4 40) elements (fun _ => (0, 0)%nat)) elements (fun _ _ => 0%nat) (fun _ _ => 0))
        wireConfig (records sentCommands) okConn (mkBackend (newExecutor SyncAlways) 0) with
  | Some (EndDecode ErrEOF, c, b) =>
      let sent := ncSent (Cl.conn c) in
      (take 12 sent, (@Decode asciiOnly (NewDecoderWithLimit (drop 12 sent) 4096)).1, (fun l => fSynced (lFile l)) <$> journal (bExecutor b))
  | _ => ([], inl ErrEOF, None)
  end = (str "+OK" ++ CRLF ++ str "$1" ++ CRLF ++ str "v" ++ CRLF, inl ErrLineCRLF, Some (records (take 1 sentCommands))).
Proof. vm_compute. reflexivity. Qed.
End EndToEndTheorems.
