(* ===== verification/EventLoopProof.v ===== *)
(** * The invariant of the event loop

    The registered descriptors are exactly the listener and the open connections,
    each watched for output exactly when it has some; input buffers and the number
    of connections stay within the configured limits; and no turn panics as long as
    the backend does not. *)

From S2P Require Import Prelude GoTime GoLib GoIO Resp RespStream RespProof RespLimits Executor.
From S2P Require Import Serving ServingProof Poller Config Connection ConnectionProof EventLoop.

(** A backend that keeps [I] and never panics. *)
Class ServiceSafe (B : Type) `{Service B} (I : B -> Prop) := {
  serve_safe v b : I b -> exists r b', serve v b = Some (r, b') /\ I b';
  tick_safe b : I b -> exists b', expire_tick b = Some b' /\ I b';
}.

Module EventLoopProof.
Import Resp RespStream RespProof RespLimits ServingProof Conn ConnectionProof Loop.

Section connection.
Context `{Unicode} {K B : Type} `{Kernel K} `{Service B} (I : B -> Prop) `{!ServiceSafe B I}.
Implicit Types (c : Connection) (p : Poller K) (b : B).

(** Handlers open and close no descriptors. *)
Lemma flush_loop_fds ws clk c p : Poll.same_fds p (flush_loop ws clk c p).2.
Proof.
  assert (Hm : forall mask c, Poll.same_fds p (modify mask c p).2).
  { intros mask c1. unfold modify, Poll.Modify. pose proof (Poll.ctl_same_fds "modify" (CtlMod mask) (fd c1) p) as Ho.
    by destruct (Poll.ctl _ _ _ p). }
  revert clk c. induction ws as [|[[|n]| | |e] ws IH]; intros clk c; cbn [flush_loop];
    (destruct (outBuf c); [apply Hm|]); try apply Hm; try apply IH; done.
Qed.

Lemma process_loop_fds fuel d clk c p b o : process_loop fuel d clk c p b = Some o -> Poll.same_fds p o.1.2.
Proof.
  revert d clk c b. induction fuel as [|fuel IH]; intros d clk c b Ho; [done|]. cbn [process_loop] in Ho.
  destruct (dreader d) as [|x s]; [simplify_eq; apply flush_loop_fds|].
  destruct (Decode d) as [[err|v] d'].
  - destruct (incomplete err); [simplify_eq; apply flush_loop_fds|].
    destruct (writeResponse _ _ c) as [[e|] c1]; simplify_eq; [done|apply flush_loop_fds].
  - destruct (serve v b) as [[r b1]|]; [|done]. cbn [mbind option_bind] in Ho.
    destruct (writeResponse _ r c) as [[e|] c1]; [by simplify_eq|]. by apply IH in Ho.
Qed.

Lemma same_fds_trans p1 p2 p3 : Poll.same_fds p1 p2 -> Poll.same_fds p2 p3 -> Poll.same_fds p1 p3.
Proof. intros [He Ho] [He' Ho']. split; congruence. Qed.

(** What the loop needs to know of a handler. *)
Definition handled c p (o : outcome (K := K) (B := B)) : Prop :=
  let '(e, c', p', b') := o in
  settings c' = settings c /\ I b' /\ Poll.same_fds p p' /\
  delete (fd c) (interest (kernel p')) = delete (fd c) (interest (kernel p)) /\
  (e = None -> len (inBuf c') <= maxInbound c /\ Poll.watched (fd c) p' = Some (interest_of c')).

Lemma answered_handled input c p b o :
  len input <= maxInbound c -> answered (maxInbound c) input c p b o -> I o.2 ->
  Poll.same_fds p o.1.2 -> handled c p o.
Proof.
  destruct o as [[[e c'] p'] b']. intros Hl (Hset & Hin & Hint & _) Hi Hop. split_and!; [done..| |].
  - rw Hint. destruct e; [done|]. apply delete_insert_eq.
  - intros ->. split; [lia|]. unfold Poll.watched. rw Hint. apply lookup_insert_eq.
Qed.

Lemma process_loop_safe fuel d clk c p b :
  I b -> (length (dreader d) < fuel)%nat ->
  exists o, process_loop fuel d clk c p b = Some o /\ I o.2.
Proof.
  revert d clk c b. induction fuel as [|fuel IH]; intros d clk c b Hi Hf; [lia|]. cbn [process_loop].
  destruct (dreader d) eqn:Hin; [by eexists|]. rw -Hin in Hf. clear Hin.
  destruct (Decode d) as [[err|v] d'] eqn:Hd.
  - destruct (incomplete err); [by eexists|].
    destruct (writeResponse _ _ c) as [[e|] c1]; by eexists.
  - destruct (serve_safe v b Hi) as (r & b1 & -> & Hi1). cbn [mbind option_bind].
    destruct (writeResponse _ r c) as [[e|] c1]; [by eexists|]. apply IH; [done|].
    apply Decode_progress in Hd. unfold len in Hd. lia.
Qed.

Lemma processCommands_handled clk c p b :
  I b -> len (inBuf c) <= maxInbound c ->
  exists o, processCommands clk c p b = Some o /\ handled c p o.
Proof.
  intros Hi Hl.
  destruct (process_loop_safe (S (length (inBuf c))) (NewDecoderWithLimit (inBuf c) (maxInbound c)) clk c p b Hi)
    as (o & Ho & Hio); [simpl; lia|].
  exists o. split; [done|]. apply (answered_handled (inBuf c) c p b); [done| |done|].
  - by apply (processCommands_answered clk).
  - by apply process_loop_fds in Ho.
Qed.

Lemma handled_trans c p c1 p1 b1 o :
  handled c p (None, c1, p1, b1) -> handled c1 p1 o -> handled c p o.
Proof.
  destruct o as [[[e c'] p'] b']. intros (Hset & _ & Hop & Hdel & Hn) (Hset' & Hi & Hop' & Hdel' & Hn').
  assert (fd c1 = fd c /\ maxInbound c1 = maxInbound c) as [Hfd Hmi] by (unfold settings in Hset; by simplify_eq).
  rw Hfd Hmi in Hdel' Hn'. split; [congruence|]. split; [done|]. split; [by eapply same_fds_trans|]. split; [congruence|done].
Qed.

(** An error before anything was changed. *)
Lemma handled_error e c p b : I b -> handled c p (Some e, c, p, b).
Proof. intros Hi. unfold handled. by split_and!. Qed.

Lemma read_loop_handled rs clk c p b :
  I b -> len (inBuf c) <= maxInbound c -> exists o, read_loop rs clk c p b = Some o /\ handled c p o.
Proof.
  revert clk c p b. induction rs as [|r rs IH]; intros clk c p b Hi Hl; [by apply processCommands_handled|].
  cbn [read_loop]. destruct r as [[|x buf]| | |e];
    [eexists; split; [done|by apply handled_error]| |by apply processCommands_handled|by apply IH
    |eexists; split; [done|by apply handled_error]].
  destruct (Z.ltb_spec (maxInbound c - len (inBuf c)) (len (x :: buf))) as [Hz|Hz];
    [eexists; split; [done|by apply handled_error]|].
  destruct (processCommands_handled (fork1 (skip 1 clk))
              (with_activity (clk 0%nat) (with_in (inBuf c ++ x :: buf) c)) p b Hi) as ([[[e c1] p1] b1] & -> & Hh);
    [simpl; rw len_app; lia|]. cbn [mbind option_bind].
  assert (handled c p (e, c1, p1, b1)) as Hh1 by exact Hh.
  destruct e; [by eexists|]. destruct Hh as (Hset & Hi1 & _ & _ & Hn). destruct (Hn eq_refl) as [Hin _].
  assert (maxInbound c1 = maxInbound c) as Hmi by (unfold settings in Hset; by simplify_eq).
  destruct (IH (fork2 (skip 1 clk)) c1 p1 b1) as (o & -> & Ho); [done|by rw Hmi|].
  exists o. split; [done|]. by eapply handled_trans.
Qed.

Lemma OnRead_handled rs clk c p b :
  I b -> len (inBuf c) <= maxInbound c -> exists o, OnRead rs clk c p b = Some o /\ handled c p o.
Proof.
  intros Hi Hl. unfold OnRead. destruct (isClosed c); [eexists; split; [done|by apply handled_error]|].
  destruct (_ <=? _); [eexists; split; [done|by apply handled_error]|]. by apply read_loop_handled.
Qed.

Lemma OnWrite_handled clk c p b :
  I b -> len (inBuf c) <= maxInbound c -> handled c p (OnWrite clk c p, b).
Proof.
  intros Hi Hl. unfold OnWrite. destruct (isClosed c); [by apply handled_error|].
  pose proof (Flush_flushed clk c p) as Hf. pose proof (flush_loop_fds (skWrites (sock c)) clk c p) as Hop.
  change (flush_loop _ clk c p) with (Flush clk c p) in Hop. destruct (Flush clk c p) as [[e c'] p'].
  destruct Hf as (_ & Hin & Hset & _ & Hint). split_and!; [done..| |].
  - rw Hint. destruct e; [done|]. apply delete_insert_eq.
  - intros ->. split; [by rw Hin|]. unfold Poll.watched. rw Hint. apply lookup_insert_eq.
Qed.

End connection.

Section loop.
Context `{Unicode} {K B : Type} `{Kernel K} `{Service B} (I : B -> Prop) `{!ServiceSafe B I}.
Context (ord : gset Z -> list Z).
(** The epoll descriptor, and those that were open before any connection. *)
Context (ep : Z) (base : gset Z).
Implicit Types (c : Connection) (p : Poller K) (b : B) (el : EventLoop K B).

(** A connection in the table. *)
Record conn_ok (cfg : Config) (key : Z) c : Prop := {
  ok_fd : fd c = key;
  ok_open : isClosed c = false;
  ok_limit : maxInbound c = MaxRequestBytes cfg;
  ok_in : len (inBuf c) <= maxInbound c;
}.

Record loop_ok el : Prop := {
  ok_conns : map_Forall (conn_ok (config el)) (conns el);
  ok_count : Z.of_nat (base.size (conns el)) <= Z.max 0 (MaxConnections (config el));
  ok_listener : conns el !! listenerFD el = None;
  ok_interest : interest (kernel (poller el)) = <[listenerFD el := DefaultEventMask]> (interest_of <$> conns el);
  ok_buffers : 0 <= MaxRequestBytes (config el);
  ok_backend : I (backend el);
  ok_epfd : epfd (poller el) = ep;
  ok_opened : opened (kernel (poller el)) = base ∪ dom (conns el);
  ok_apart : base ## dom (conns el);
}.

(** Everything about the table but the connection [key]. *)
Definition loop_ok_but (key : Z) el : Prop :=
  map_Forall (conn_ok (config el)) (delete key (conns el)) /\
  Z.of_nat (base.size (conns el)) <= Z.max 0 (MaxConnections (config el)) /\
  conns el !! listenerFD el = None /\ key <> listenerFD el /\
  delete key (interest (kernel (poller el))) =
    <[listenerFD el := DefaultEventMask]> (delete key (interest_of <$> conns el)) /\
  0 <= MaxRequestBytes (config el) /\ I (backend el) /\
  epfd (poller el) = ep /\ opened (kernel (poller el)) = base ∪ dom (conns el) /\ base ## dom (conns el).

Lemma Close_opened c p :
  isClosed c = false ->
  epfd (Conn.Close c p).2 = epfd p /\ opened (kernel (Conn.Close c p).2) = opened (kernel p) ∖ {[ fd c ]}.
Proof.
  intros Hc. unfold Conn.Close. rw Hc. unfold Poll.Unregister.
  pose proof (Poll.ctl_same_fds "unregister" CtlDel (fd c) p) as [Hue Hu].
  destruct (Poll.ctl _ _ _ p) as [e p1]. simpl in Hu, Hue.
  pose proof (Poll.close_releases (fd c) p1) as [Hce Hcl]. destruct (Poll.close (fd c) p1) as [e2 p2]. simpl in *.
  by rw Hcl Hu Hce Hue.
Qed.

Lemma Close_interest c p : 
  isClosed c = false -> interest (kernel (Conn.Close c p).2) = delete (fd c) (interest (kernel p)).
Proof.
  intros Hc. unfold Conn.Close. rw Hc. unfold Poll.Unregister.
  pose proof (Poll.ctl_interest "unregister" CtlDel (fd c) p) as Hu.
  destruct (Poll.ctl _ _ _ p) as [e p1]. simpl in Hu.
  pose proof (Poll.close_interest (fd c) p1) as Hcl. destruct (Poll.close (fd c) p1) as [e2 p2]. simpl in *.
  rw Hcl Hu. destruct e; [done|]. simpl. apply delete_delete_eq.
Qed.

Lemma loop_ok_weaken key el : loop_ok el -> key <> listenerFD el -> loop_ok_but key el.
Proof.
  intros [Hc Hn Hl Hi Hb Hib Hep Hop Hap] Hk. split_and!; try done; [by apply map_Forall_delete|].
  rw Hi. by rewrite -> delete_insert_ne.
Qed.

Lemma closeClient_ok key c el :
  loop_ok_but key el -> conns el !! key = Some c -> fd c = key -> isClosed c = false ->
  loop_ok (closeClient key el) /\ listenerFD (closeClient key el) = listenerFD el /\
  config (closeClient key el) = config el.
Proof.
  intros (Hc & Hn & Hl & Hk & Hi & Hb & Hib & Hep & Hop & Hap) Hlk Hfd Hcl. unfold closeClient. rw Hlk.
  pose proof (Close_interest c (poller el) Hcl) as Hint. pose proof (Close_opened c (poller el) Hcl) as [Hcep Hcop].
  destruct (Conn.Close c (poller el)) as [[e c'] p']. simpl in Hint, Hcep, Hcop. split; [|done]. split; simpl; try done.
  - rewrite -> map_size_delete_Some by by eexists. lia.
  - by rewrite -> lookup_delete_None; right.
  - rw Hint Hfd Hi. by rewrite -> fmap_delete.
  - by rw Hcep.
  - apply elem_of_dom_2 in Hlk. rw Hcop Hop Hfd dom_delete_L. set_solver.
  - rw dom_delete_L. set_solver.
Qed.

Lemma put_ok c p b key el :
  loop_ok_but key el -> conn_ok (config el) key c -> is_Some (conns el !! key) ->
  delete key (interest (kernel p)) = delete key (interest (kernel (poller el))) ->
  Poll.watched key p = Some (interest_of c) -> I b -> Poll.same_fds (poller el) p ->
  loop_ok (put c p b el).
Proof.
  intros (Hc & Hn & Hl & Hk & Hi & Hb & Hib & Hep & Hop & Hap) Hok [c0 Hlk] Hdel Hw HI [Hpe Hpo]. pose proof (ok_fd _ _ _ Hok) as Hfd.
  split; simpl; try done; rewrite -> ?Hfd.
  - intros k x Hx. apply lookup_insert_Some in Hx as [[<- <-]|[Hne Hx]]; [done|].
    apply Hc. by rewrite -> lookup_delete_ne.
  - by rewrite -> map_size_insert_Some by by eexists.
  - by rewrite -> lookup_insert_ne.
  - apply map_eq. intros k. destruct (decide (k = key)) as [->|Hne].
    + rewrite -> lookup_insert_ne, fmap_insert, lookup_insert_eq by done. exact Hw.
    + rewrite <- (lookup_delete_ne _ key k) by done. rw Hdel Hi.
      destruct (decide (k = listenerFD el)) as [->|Hnl]; [by rw !lookup_insert_eq|].
      rewrite -> !lookup_insert_ne, lookup_delete_ne, fmap_insert, lookup_insert_ne by done. done.
  - by rw Hpe.
  - rw Hpo Hop. by rewrite -> dom_insert_lookup_L.
  - by rewrite -> dom_insert_lookup_L.
Qed.

(** Operations do not touch the listener and the configuration. *)
Definition fixed el el' : Prop := listenerFD el' = listenerFD el /\ config el' = config el.
Definition kept el el' : Prop := loop_ok el' /\ fixed el el'.

Lemma kept_trans el el1 el2 : kept el el1 -> kept el1 el2 -> kept el el2.
Proof. intros (_ & H1a & H1b) (Hok & H2a & H2b). split; [done|]. split; congruence. Qed.

Lemma put_but c p b key el :
  loop_ok_but key el -> fd c = key -> is_Some (conns el !! key) ->
  delete key (interest (kernel p)) = delete key (interest (kernel (poller el))) -> I b ->
  Poll.same_fds (poller el) p -> loop_ok_but key (put c p b el).
Proof.
  intros (Hc & Hn & Hl & Hk & Hi & Hb & Hib & Hep & Hop & Hap) Hfd Hs Hdel HI [Hpe Hpo]. unfold loop_ok_but, put, update. simpl. rw Hfd.
  split_and!; try done.
  - by rewrite -> delete_insert_eq.
  - by rewrite -> map_size_insert_Some.
  - by rewrite -> lookup_insert_ne.
  - by rewrite -> Hdel, Hi, fmap_insert, delete_insert_eq.
  - by rw Hpe.
  - rw Hpo Hop. by rewrite -> dom_insert_lookup_L.
  - by rewrite -> dom_insert_lookup_L.
Qed.

Lemma loop_ok_key key c el : loop_ok el -> conns el !! key = Some c -> key <> listenerFD el /\ conn_ok (config el) key c.
Proof. intros Hok Hlk. split; [|by apply (ok_conns _ Hok)]. intros ->. by rewrite -> (ok_listener _ Hok) in Hlk. Qed.

Lemma closeClient_kept key el : loop_ok el -> kept el (closeClient key el).
Proof.
  intros Hok. destruct (conns el !! key) as [c|] eqn:Hlk; [|by unfold closeClient; rw Hlk].
  destruct (loop_ok_key _ _ _ Hok Hlk) as [Hk Hc].
  apply (closeClient_ok key c); [by apply loop_ok_weaken|done|apply Hc|apply Hc].
Qed.

(** A handler's result goes into the table, or its connection is closed. *)
Lemma handled_kept key c p b c0 o el :
  loop_ok el -> conns el !! key = Some c0 -> conn_ok (config el) key c ->
  delete key (interest (kernel p)) = delete key (interest (kernel (poller el))) ->
  Poll.same_fds (poller el) p -> handled I c p (o, b) ->
  kept el (let '(e, c', p') := o in
           match e with Some _ => closeClient key (put c' p' b el) | None => put c' p' b el end).
Proof.
  destruct o as [[e c'] p']. intros Hok Hlk Hc Hdel Hpo (Hset & Hi & Hop & Hdel' & Hn). pose proof (same_fds_trans _ _ _ Hpo Hop) as Hfds. clear Hop.
  destruct (loop_ok_key _ _ _ Hok Hlk) as [Hk _].
  assert (fd c' = fd c /\ isClosed c' = isClosed c /\ maxInbound c' = maxInbound c) as (E1 & E2 & E3)
    by (unfold settings in Hset; by simplify_eq).
  pose proof (loop_ok_weaken key el Hok Hk) as Hbut. rewrite -> (ok_fd _ _ _ Hc) in Hdel', Hn, E1.
  rw Hdel in Hdel'. destruct e as [e|].
  - apply (closeClient_ok key c'); [|by simpl; rw E1 lookup_insert_eq|done|rw E2; apply Hc].
    by apply put_but.
  - split; [|done]. destruct (Hn eq_refl) as [Hin Hw].
    apply (put_ok c' p' b key); try done. destruct Hc. split; congruence.
Qed.

(** A fresh descriptor, and the state that has it open. *)
Lemma open_ok el nfd k :
  loop_ok el -> OpenFD (kernel (poller el)) = (nfd, k) ->
  conns el !! nfd = None /\ nfd <> listenerFD el /\ (nfd ∉ base) /\
  interest k = interest (kernel (poller el)) /\ opened k = {[ nfd ]} ∪ (base ∪ dom (conns el)).
Proof.
  intros Hok Hop. pose proof (open_fresh (kernel (poller el))) as Hf. pose proof (open_effect (kernel (poller el))) as Hi.
  pose proof (open_opened (kernel (poller el))) as Ho. pose proof (interest_open (kernel (poller el))) as Hd.
  rw Hop in Hf Hi Ho. simpl in Hf, Hi, Ho. rewrite -> (ok_opened _ Hok) in Ho, Hf, Hd.
  rw (ok_interest _ Hok) dom_insert_L in Hd. split_and!; [|set_solver..|done|done].
  apply not_elem_of_dom. set_solver.
Qed.

Lemma accept_kept now el : loop_ok el -> kept el (accept now el).
Proof.
  intros Hok. unfold accept. destruct (OpenFD (kernel (poller el))) as [nfd k] eqn:Hopen.
  destruct (open_ok el nfd k Hok Hopen) as (Hfresh & Hne & Hbase & Hint & Hopn).
  destruct Hok as [Hc Hn Hl Hi Hb Hib Hep Hop Hap]. rw Hi in Hint.
  assert (Hdom : nfd ∉ dom (conns el)) by by apply not_elem_of_dom.
  cbn [with_poller update config conns poller backend].
  set (p := Poll.set_kernel k (poller el)).
  destruct (Z.leb_spec (MaxConnections (config el)) (Z.of_nat (base.size (conns el)))) as [Hm|Hm].
  - pose proof (Poll.close_interest nfd p) as Hcl. pose proof (Poll.close_releases nfd p) as [Hre Hrel].
    split; [|done]. split; simpl; try done.
    + rw Hcl Hint. apply delete_id. rewrite -> lookup_insert_ne by done. rw lookup_fmap. by rw Hfresh.
    + by rw Hre.
    + rw Hrel Hopn. set_solver.
  - set (c := NewConnectionWithLimits nfd now _ _ _ _).
    pose proof (Poll.ctl_interest "register" (CtlAdd DefaultEventMask) nfd p) as Hr.
    pose proof (Poll.ctl_same_fds "register" (CtlAdd DefaultEventMask) nfd p) as [Hre Hro].
    unfold Poll.Register, Poll.RegisterWithEvents. cbn [poller put update] in *.
    destruct (Poll.ctl _ _ _ p) as [[e|] p1]; simpl in Hr, Hro, Hre.
    + pose proof (Close_interest c p1 eq_refl) as Hcl. pose proof (Close_opened c p1 eq_refl) as [Hce Hrel].
      destruct (Conn.Close c p1) as [[e1 c1] p2]. simpl in Hcl, Hrel, Hce.
      split; [|done]. split; simpl; rewrite -> ?delete_insert_id by done; try done.
      * rw Hcl Hr Hint. apply delete_id. rewrite -> lookup_insert_ne by done. rw lookup_fmap. by rw Hfresh.
      * by rw Hce Hre.
      * rw Hrel Hro Hopn. set_solver.
    + split; [|done]. split; simpl; try done.
      * intros k' x Hx. apply lookup_insert_Some in Hx as [[<- <-]|[Hk Hx]]; [|by apply Hc]. by split.
      * rewrite -> map_size_insert_None by done. lia.
      * by rewrite -> lookup_insert_ne.
      * rw Hr Hint fmap_insert. change (interest_of c) with DefaultEventMask. by apply insert_insert_ne.
      * by rw Hre.
      * rw Hro Hopn dom_insert_L. set_solver.
      * rw dom_insert_L. set_solver.
Qed.

Lemma handleAccept_kept answers clk el : loop_ok el -> kept el (handleAccept answers clk el).
Proof.
  revert clk el. induction answers as [|a answers IH]; intros clk el Hok; [done|]. destruct a; try done; cbn [handleAccept].
  - eapply kept_trans; [by apply accept_kept|]. apply IH. by apply accept_kept.
  - by apply IH.
Qed.

Lemma afterRead_kept key events clk el : loop_ok el -> kept el (afterRead key events clk el).
Proof.
  intros Hok. unfold afterRead. destruct (_ && _); [by apply closeClient_kept|].
  destruct (has events EPOLLOUT); [|done]. destruct (conns el !! key) as [c|] eqn:Hlk; [|done].
  destruct (loop_ok_key _ _ _ Hok Hlk) as [Hk Hc].
  pose proof (handled_kept key c (poller el) (backend el) c (OnWrite clk c (poller el)) el Hok Hlk Hc eq_refl (conj eq_refl eq_refl)
                (OnWrite_handled I clk c (poller el) (backend el) (ok_backend _ Hok) (ok_in _ _ _ Hc))) as Hh.
  by destruct (OnWrite clk c (poller el)) as [[e c'] p'].
Qed.

Lemma handleClientEvent_kept io clk key events el :
  loop_ok el -> exists el', handleClientEvent io clk key events el = Some el' /\ kept el el'.
Proof.
  intros Hok. unfold handleClientEvent. destruct (conns el !! key) as [c|] eqn:Hlk; [|by exists el].
  destruct (loop_ok_key _ _ _ Hok Hlk) as [Hk Hc].
  assert (Hfd : fd (with_writes (ioWrites io) c) = key) by apply Hc.
  assert (Hc1 : conn_ok (config el) key (with_writes (ioWrites io) c)) by by destruct Hc.
  set (c1 := with_writes (ioWrites io) c) in *. set (el1 := put c1 (poller el) (backend el) el).
  assert (Hok1 : loop_ok el1).
  { apply (put_ok c1 _ _ key); try done; [by apply loop_ok_weaken| |apply Hok].
    unfold Poll.watched. rewrite -> (ok_interest _ Hok), lookup_insert_ne, lookup_fmap, Hlk by done. done. }
  assert (Hlk1 : conns el1 !! key = Some c1) by (simpl; rw Hfd; apply lookup_insert_eq).
  cbv zeta. destruct (has events EPOLLIN); [|eexists; split; [done|by apply (afterRead_kept _ _ _ el1)]].
  destruct (OnRead_handled I (ioReads io) (fork1 clk) c1 (poller el1) (backend el1) (ok_backend _ Hok1) (ok_in _ _ _ Hc1))
    as ([[[e c'] p'] b'] & -> & Hh). cbn [mbind option_bind].
  pose proof (handled_kept key c1 (poller el1) b' c1 (e, c', p') el1 Hok1 Hlk1 Hc1 eq_refl (conj eq_refl eq_refl) Hh) as Hkept.
  cbv iota beta in Hkept. destruct e as [e|]; eexists; (split; [done|]); [done|].
  eapply kept_trans; [exact Hkept|]. apply afterRead_kept. apply Hkept.
Qed.

Lemma dispatch_kept events io stop clk el :
  loop_ok el -> exists s el', dispatch events io stop clk el = Some (s, el') /\ kept el el'.
Proof.
  revert io stop clk el. induction events as [|ev events IH]; intros io stop clk el Hok; [by exists false, el|].
  cbn [dispatch]. destruct (stop 0%nat); [by exists true, el|].
  assert (exists el1, (if evFD ev =? listenerFD el then Some (handleAccept (ioAccepts (io 0%nat)) (fork1 clk) el)
                       else handleClientEvent (io 0%nat) (fork1 clk) (evFD ev) (evEvents ev) el) = Some el1 /\
                      kept el el1) as (el1 & -> & Hk).
  { destruct (_ =? _); [|by apply handleClientEvent_kept]. eexists. split; [done|]. by apply handleAccept_kept. }
  cbn [mbind option_bind]. destruct (IH (skip 1 io) (skip 1 stop) (fork2 clk) el1) as (s & el' & -> & Hk'); [apply Hk|].
  exists s, el'. split; [done|]. by eapply kept_trans.
Qed.

Lemma foldl_kept {A} (f : EventLoop K B -> A -> EventLoop K B) l el :
  (forall el a, loop_ok el -> kept el (f el a)) -> loop_ok el -> kept el (foldl f el l).
Proof.
  intros Hf. revert el. induction l as [|a l IH]; intros el Hok; [done|]. simpl.
  eapply kept_trans; [by apply Hf|]. apply IH. by apply Hf.
Qed.

Lemma expireConnections_kept now el : loop_ok el -> kept el (expireConnections ord now el).
Proof.
  apply foldl_kept. intros el1 k Hok. unfold expire_one. destruct (conns el1 !! k); [|done].
  destruct (expired _ _); [by apply closeClient_kept|done].
Qed.

Lemma turn_kept t stop clk el :
  loop_ok el -> exists fin el', turn ord t stop clk el = Some (fin, el') /\ kept el el'.
Proof.
  intros Hok. unfold turn. destruct (stop 0%nat); [by do 2 eexists|].
  destruct (Poll.Wait (tWait t)) as [[err|events]|]; [by do 2 eexists| |by do 2 eexists].
  destruct (dispatch_kept events (tIO t) (fork1 (skip 1 stop)) (fork1 clk) el Hok) as (s & el1 & -> & Hk).
  cbn [mbind option_bind]. destruct s; [by do 2 eexists|]. pose proof Hk as [Hok1 Hf1].
  destruct (tick_safe (backend el1) (ok_backend _ Hok1)) as (b & -> & Hb). cbn [mbind option_bind].
  do 2 eexists. split; [done|]. eapply kept_trans; [exact Hk|].
  assert (Hu : kept el1 (update (poller el1) b (conns el1) el1)) by (destruct Hok1; split; [by split|done]).
  eapply kept_trans; [exact Hu|]. apply expireConnections_kept, Hu.
Qed.

Lemma run_loop_kept turns stop clk el :
  loop_ok el -> exists fin el', run_loop ord turns stop clk el = Some (fin, el') /\ kept el el'.
Proof.
  revert stop clk el. induction turns as [|t turns IH]; intros stop clk el Hok; [by do 2 eexists|]. cbn [run_loop].
  destruct (turn_kept t (fork1 stop) (fork1 clk) el Hok) as (fin & el1 & -> & Hk). cbn [mbind option_bind].
  destruct fin as [fin|]; [by do 2 eexists|].
  destruct (IH (fork2 stop) (fork2 clk) el1) as (fin & el2 & -> & Hk'); [apply Hk|].
  exists fin, el2. split; [done|]. by eapply kept_trans.
Qed.

(** ** Shutting down *)
Lemma closeAll_spec l el :
  loop_ok el -> (forall k, is_Some (conns el !! k) -> k ∈ l) ->
  conns (foldl (fun el k => closeClient k el) el l) = ∅.
Proof.
  revert el. induction l as [|k l IH]; intros el Hok Hl; simpl.
  { apply map_eq. intros k. rw lookup_empty. destruct (conns el !! k) eqn:Hk; [|done].
    by destruct (not_elem_of_nil k (Hl k (mk_is_Some _ _ Hk))). }
  apply IH; [by apply closeClient_kept|]. intros k' Hk'.
  assert (is_Some (conns el !! k') /\ k' <> k) as [Hs Hne].
  { unfold closeClient in Hk'. destruct (conns el !! k) as [c|] eqn:Hlk.
    - destruct (Conn.Close c (poller el)) as [[? ?] ?]. simpl in Hk'. destruct Hk' as [x Hx].
      by apply lookup_delete_Some in Hx as [? ?].
    - split; [done|]. intros ->. rw Hlk in Hk'. by destruct Hk'. }
  apply Hl in Hs. by apply elem_of_cons in Hs as [|].
Qed.

Lemma cleanup_spec el :
  (forall X, ord X ≡ₚ elements X) -> loop_ok el ->
  conns (cleanup ord el) = ∅ /\ interest (kernel (poller (cleanup ord el))) = ∅ /\
  opened (kernel (poller (cleanup ord el))) = base ∖ {[ listenerFD el; ep ]} /\ I (backend (cleanup ord el)).
Proof.
  intros Hord Hok. unfold cleanup. set (f := fun (el : EventLoop K B) fd => closeClient fd el).
  set (el1 := foldl f el (ord (dom (conns el)))).
  assert (Hall : conns el1 = ∅).
  { apply closeAll_spec; [done|]. intros k Hk. rw Hord. by apply elem_of_elements, elem_of_dom. }
  assert (Hk : kept el el1) by (apply foldl_kept; [intros; by apply closeClient_kept|done]).
  pose proof (ok_interest _ (proj1 Hk)) as Hint. rw Hall fmap_empty insert_empty in Hint.
  pose proof (ok_opened _ (proj1 Hk)) as Hop. rw Hall dom_empty_L union_empty_r_L in Hop.
  pose proof (ok_epfd _ (proj1 Hk)) as Hep. pose proof (ok_backend _ (proj1 Hk)) as Hb. destruct Hk as [_ [Hl _]].
  pose proof (Poll.close_interest (listenerFD el1) (poller el1)) as Hi1.
  pose proof (Poll.close_releases (listenerFD el1) (poller el1)) as [Ho1 Hr1].
  destruct (Poll.close (listenerFD el1) (poller el1)) as [e1 p1]. simpl in Hi1, Ho1, Hr1.
  pose proof (Poll.close_interest (epfd p1) p1) as Hi2. unfold Poll.Close.
  pose proof (Poll.close_releases (epfd p1) p1) as [Ho2 Hr2].
  destruct (Poll.close (epfd p1) p1) as [e2 p2]. simpl in Hi2, Ho2, Hr2 |- *. split; [done|]. split; [|split; [|exact Hb]].
  - rw Hi2 Hi1 Hint delete_singleton_eq. apply delete_empty.
  - rw Hr2 Hr1 Ho1 Hep Hop Hl. set_solver.
Qed.

End loop.
End EventLoopProof.
