(* ===== verification/ReactorServerProof.v ===== *)
(** * The reactor server releases what it acquires

    However its set-up fails, and whenever its event loop ends, [Start] returns with
    the descriptors of the process as it found them and the append-only file closed. *)

From S2P Require Import Prelude GoTime GoLib GoNet Resp Store StoreProof StoreMaint Command Executor.
From S2P Require Import ExecutorProof CommandTypes Aof AofRewrite AofOpen Config ConfigProof Serving Poller Connection.
From S2P Require Import ConnectionProof EventLoop EventLoopProof ReactorServer.

(** Recovery never panics and leaves a well-formed store; [Close] closes the log. *)
Class PersistentSafe (J : Type) `{Persistent J} := {
  open_safe path policy clk s : StoreProof.wf s -> exists r s', open_log path policy clk s = Some (r, s') /\ StoreProof.wf s';
  close_closes l : log_closed (close_log l).2 = true;
}.

Lemma closeEnd_closed `{Disk} l : Aof.lClosed (AofRewrite.closeEnd l).2 = true.
Proof.
  unfold AofRewrite.closeEnd, Aof.on_file. cbv zeta. by repeat (case_match; simplify_eq).
Qed.

#[export] Instance Log_persistent_safe `{Unicode} `{Disk} a f : @PersistentSafe Aof.Log (Log_persistent a f).
Proof.
  split.
  - intros path policy clk s Hw. destruct (AofOpen.OpenPath_wf a path policy clk f s Hw) as (r & f' & s' & Ho & Hw').
    cbn [open_log Log_persistent]. rw Ho. by exists r, s'.
  - intros l. apply closeEnd_closed.
Qed.

(** ** The log persists commands that promise the same replies *)
Section typed.
Context `{Unicode} `{Disk}.
Import Aof AofRewrite CommandTypes.

Lemma retyped_name cmd p : cName p = cName cmd -> retyped cmd p.
Proof. intros Hn v. by rw Hn. Qed.

Lemma canonicalCommand_retyped cmd now p : canonicalCommand cmd now = Some p -> retyped cmd p.
Proof.
  unfold canonicalCommand. destruct (Cmd.named (cName cmd) "SET").
  { destruct (cArgs cmd) as [|key [|value options]]; [done..|].
    destruct (canonical_options options now); cbn [mbind option_bind]; [|done]. intros. simplify_eq. by apply retyped_name. }
  destruct (Cmd.named (cName cmd) "EXPIRE") eqn:Hn.
  { apply bool_decide_eq_true in Hn. destruct (cArgs cmd) as [|key [|a [|b args]]]; [done..| |done].
    destruct (GoLib.ParseInt a) as [seconds|]; cbn [mbind option_bind]; [|done]. destruct (_ <? _); [done|].
    intros. simplify_eq. unfold retyped. rw Hn. done. }
  destruct (Cmd.named (cName cmd) "DEL"); [destruct (cArgs cmd); intros; simplify_eq; by apply retyped_name|].
  destruct (Cmd.IsMutation (cName cmd)); intros; simplify_eq. by apply retyped_name.
Qed.

Lemma canonicalize_retyped clk cmds : Forall2 retyped cmds (fst <$> canonicalize clk cmds).
Proof.
  revert clk. induction cmds as [|cmd cmds IH]; intros clk; [constructor|]. cbn [canonicalize]. rewrite -> fmap_cons.
  constructor; [|apply IH]. destruct (canonicalCommand cmd (clk 0%nat)) as [p|] eqn:Hc; cbn [fst]; [|by apply retyped_name].
  by eapply canonicalCommand_retyped.
Qed.

Lemma AppendBatch_persisted clk cmds l ps l' :
  AppendBatch clk cmds l = (inr ps, l') -> ps = fst <$> canonicalize clk cmds.
Proof.
  unfold AppendBatch. cbv zeta. destruct (_ || _); [done|]. destruct (lFailed l); [done|].
  destruct cmds as [|cmd cmds]; [intros; by simplify_eq|].
  repeat (case_match; simplify_eq; try done); intros; by simplify_eq.
Qed.

#[export] Instance Log_typed ord fresh : @TypedJournal Log (Log_journal ord fresh).
Proof.
  split.
  - cbn [jAppend Log_journal]. intros clk cmd l p l'. unfold Append.
    destruct (AppendBatch clk [cmd] l) as [[err|ps] l1] eqn:Ha; [done|]. apply AppendBatch_persisted in Ha.
    pose proof (canonicalize_retyped clk [cmd]) as Hc. rw -Ha in Hc. apply Forall2_cons_inv_l in Hc as (q & ps' & Hq & _ & ->).
    intros. by simplify_eq.
  - cbn [jBatch Log_journal]. intros AB clk cmds l ps l' [= <-] Ha. apply AppendBatch_persisted in Ha. subst ps.
    apply canonicalize_retyped.
Qed.
End typed.

(** The executor as a backend never panics, keeps the store well formed, and keeps the
    journal it has, when [u]. *)
Definition backend_ok {J} (u : Prop) (b : Backend J) : Prop :=
  StoreProof.wf (eStore (bExecutor b)) /\ (u -> journal (bExecutor b) <> None).

Lemma executor_safe `{Unicode} `{Journal J} ord rnd clk u :
  (forall X, ord X ≡ₚ elements X) ->
  @ServiceSafe (Backend J) (Serving.executorService ord rnd clk) (backend_ok u).
Proof.
  intros Hord. split.
  - intros v b [Hw Hj]. cbn [serve Serving.executorService]. unfold Serving.answer.
    destruct (Cmd.Parse v) as [err|cmd]; [by do 2 eexists|].
    destruct (ExecutorProof.Execute_safe ord (rnd (calls b)) (clk (calls b)) cmd (bExecutor b) Hord Hw)
      as (r & e & Hx & Hw'). rw Hx. do 2 eexists. split; [done|]. split; [done|].
    intros Hu. eapply ExecutorProof.Execute_journal; [exact Hx|auto].
  - intros b [Hw Hj]. cbn [expire_tick Serving.executorService]. unfold Serving.activeExpire.
    destruct (ExecutorProof.ActiveExpire_spec (rnd (calls b)) (fun _ e => e) (clk (calls b)) (bExecutor b) (fun _ _ Ha => Ha) Hw)
      as (n & e & -> & Hw' & Ha). eexists. split; [done|]. split; [done|].
    intros Hu. eapply ExecutorProof.expiry_journal; [|exact Ha|auto]. done.
Qed.

Module ReactorServerProof.
Import StoreProof ReactorServer EventLoopProof ConnectionProof ConfigProof.

Section server.
Context `{Unicode} {K J : Type} `{Kernel K} `{Journal J} `{Persistent J} `{!PersistentSafe J}.
Context (a : setupAnswers).
Implicit Types (s : Server K J).

(** Everything but the descriptors and the address. *)
Definition same_server s s' : Prop := executor s' = executor s /\ rsConfig s' = rsConfig s.

Lemma release_spec fd s :
  same_server s (release fd s) /\ opened (system (release fd s)) = opened (system s) ∖ {[ fd ]} /\
  interest (system (release fd s)) = delete fd (interest (system s)).
Proof. split; [done|]. split; [apply close_opened|apply close_effect]. Qed.

Lemma listen_spec fd s :
  let '(e, s') := listen a fd s in
  same_server s s' /\ listener s' = listener s /\
  match e with
  | Some _ => opened (system s') = opened (system s) ∖ {[ fd ]} /\
              interest (system s') = delete fd (interest (system s))
  | None => system s' = system s /\ (suName a <> inr SockaddrOther -> is_Some (addr s'))
  end.
Proof.
  pose proof (release_spec fd s) as (? & ? & ?). unfold listen.
  destruct (suReuse a), (suBind a), (suListen a), (suName a) as [e|[]]; try (by split_and!); cbn [bound];
    (split; [done|]; split; [done|]; split; [done|]); intros Hn; by eexists.
Qed.

Lemma poll_spec fd s :
  interest (system s) = ∅ ->
  let '(r, s') := poll a fd s in
  same_server s s' /\ listener s' = listener s /\ addr s' = addr s /\
  match r with
  | inl _ => opened (system s') = opened (system s) ∖ {[ fd ]} /\ interest (system s') = ∅
  | inr p => kernel p = system s' /\ interest (kernel p) = {[ fd := DefaultEventMask ]} /\
             opened (kernel p) = {[ epfd p ]} ∪ opened (system s) /\ (epfd p ∉ opened (system s))
  end.
Proof.
  intros Hi. unfold poll, Poll.NewPoller. destruct (suEpoll a) as [e|].
  { pose proof (release_spec fd s) as (Hs & Ho & Hd). split_and!; try done. by rw Hd Hi delete_empty. }
  change (DefaultMaxEvents <=? 0) with false. cbv iota.
  destruct (OpenFD (system s)) as [ep k] eqn:Hop.
  pose proof (open_fresh (system s)) as Hf. pose proof (open_effect (system s)) as He.
  pose proof (open_opened (system s)) as Ho. rw Hop in Hf He Ho. simpl in Hf, He, Ho.
  unfold Poll.Register, Poll.RegisterWithEvents. set (p := mkPoller ep DefaultMaxEvents k).
  pose proof (Poll.ctl_interest "register" (CtlAdd DefaultEventMask) fd p) as Hci.
  pose proof (Poll.ctl_same_fds "register" (CtlAdd DefaultEventMask) fd p) as [Hce Hco].
  destruct (Poll.ctl _ _ _ p) as [[e|] p1]; simpl in Hci, Hce, Hco.
  - pose proof (Poll.close_interest (epfd p1) p1) as Hi1. pose proof (Poll.close_releases (epfd p1) p1) as [_ Hr1].
    unfold Poll.Close. destruct (Poll.close (epfd p1) p1) as [e1 p2]. simpl in Hi1, Hr1.
    pose proof (release_spec fd (with_system (kernel p2) s)) as (Hs & Hrel & Hd). split_and!; try done.
    + rw Hrel. simpl. rw Hr1 Hco Hce Ho. set_solver.
    + rw Hd. simpl. by rw Hi1 Hci He Hi !delete_empty.
  - split_and!; try done; [by rw Hci He Hi|by rw Hco Ho Hce|by rw Hce].
Qed.

Lemma setup_spec s :
  interest (system s) = ∅ -> suName a <> inr SockaddrOther ->
  exists r s', setup a s = Some (r, s') /\ same_server s s' /\
  match r with
  | inl _ => opened (system s') = opened (system s) /\ interest (system s') = ∅
  | inr p => kernel p = system s' /\ interest (kernel p) = {[ listener s' := DefaultEventMask ]} /\
             opened (kernel p) = {[ listener s'; epfd p ]} ∪ opened (system s) /\
             (listener s' ∉ opened (system s)) /\ (epfd p ∉ opened (system s))
  end.
Proof.
  intros Hi Hname. unfold setup. destruct (GoLib.Atoi _) as [port|]; [|by do 2 eexists].
  destruct (suResolve a) as [e|[ip zone]]; [by do 2 eexists|].
  destruct (bindAddress a ip zone port) as [sa|]; [|by do 2 eexists].
  destruct (suSocket a) as [e|]; [by do 2 eexists|].
  destruct (OpenFD (system s)) as [fd k] eqn:Hop.
  pose proof (open_fresh (system s)) as Hf. pose proof (open_effect (system s)) as He.
  pose proof (open_opened (system s)) as Ho. rw Hop in Hf He Ho. simpl in Hf, He, Ho. rw Hi in He.
  pose proof (listen_spec fd (with_listener fd (with_system k s))) as Hl. cbn [system with_listener with_system listener] in Hl.
  destruct (listen a fd _) as [[e|] s1]; destruct Hl as (Hs1 & Hl1 & Hl).
  { destruct Hl as [Ho1 Hi1]. do 2 eexists. split; [done|]. split; [done|]. rw Ho1 Hi1 Ho He delete_empty. split; [set_solver|done]. }
  destruct Hl as [Hsys Haddr]. assert (Hi1 : interest (system s1) = ∅) by by rw Hsys.
  pose proof (poll_spec fd s1 Hi1) as Hp. destruct (poll a fd s1) as [[e|p] s2]; destruct Hp as ([Hs2 Hc2] & Hl2 & Ha2 & Hp);
    rw Hsys Ho in Hp;
    (assert (Hsame : same_server s s2) by (destruct Hs1 as [E1 E2]; split; [rw Hs2; exact E1|rw Hc2; exact E2])).
  { destruct Hp as [Ho2 Hi2]. do 2 eexists. split; [done|]. split; [done|].
    split; [|done]. rw Ho2. set_solver. }
  destruct Hp as (Hk & Hpi & Hpo & Hpf). destruct (Haddr Hname) as [ad Had]. rw Ha2 Had. cbn [mbind option_bind].
  do 2 eexists. split; [done|]. split; [done|]. rw Hl2 Hl1. split_and!; try done; [|set_solver].
  rw Hpo. set_solver.
Qed.

Lemma openPersistence_safe clk s :
  wf (eStore (executor s)) ->
  exists e s', openPersistence clk s = Some (e, s') /\ wf (eStore (executor s')) /\ system s' = system s /\
    rsConfig s' = rsConfig s /\ (e <> None -> journal (executor s) = None -> journal (executor s') = None) /\
    (forall l st, AOFEnabled (rsConfig s) = true -> journal (executor s) = None ->
       open_log (AOFPath (rsConfig s)) (AOFSyncPolicy (rsConfig s)) clk (eStore (executor s)) = Some (inr l, st) ->
       e = None /\ journal (executor s') <> None).
Proof.
  intros Hw. unfold openPersistence. destruct (AOFEnabled (rsConfig s)); cbn [negb].
  2: { do 2 eexists. split; [done|]. by split_and!. }
  destruct (journal (executor s)) eqn:Hj; [do 2 eexists; split; [done|]; by split_and!|].
  destruct (open_safe (AOFPath (rsConfig s)) (AOFSyncPolicy (rsConfig s)) clk (eStore (executor s)) Hw) as (r & st & -> & Hst).
  cbn [mbind option_bind]. destruct r; do 2 eexists; (split; [done|]; split_and!; try done); intros; by simplify_eq.
Qed.

(** The log of a server that returns is the one [Close] left, with the error it gave. *)
Definition closed_with (closing : option goerr) s : Prop :=
  exists l l', close_log l = (closing, l') /\ closedLog s = Some l' /\ log_closed l' = true.

Lemma closePersistence_closes s :
  system (closePersistence s).2 = system s /\ journal (executor (closePersistence s).2) = None /\
  (journal (executor s) <> None -> closed_with (closePersistence s).1 (closePersistence s).2).
Proof.
  unfold closePersistence. destruct (journal (executor s)) as [l|] eqn:Hj; [|done].
  pose proof (close_closes l) as Hc. destruct (close_log l) as [c l'] eqn:Hl. split_and!; [done..|].
  intros _. by exists l, l'.
Qed.

(** ** The event loop of a server

    [others]: the descriptors that were open before [Start]. *)
Record in_service (cfg : Config) (fd : Z) (others : gset Z) {B} (el : EventLoop K B) : Prop := {
  sv_limit : Z.of_nat (base.size (conns el)) <= MaxConnections cfg;
  sv_registered : dom (interest (kernel (poller el))) = {[ fd ]} ∪ dom (conns el);
  sv_opened : opened (kernel (poller el)) = {[ fd; epfd (poller el) ]} ∪ others ∪ dom (conns el);
  sv_conns key c : conns el !! key = Some c ->
    isClosed c = false /\ len (inBuf c) <= MaxRequestBytes cfg /\
    Poll.watched key (poller el) =
      Some (if bool_decide (outBuf c = []) then DefaultEventMask else Z.lor DefaultEventMask EPOLLOUT);
}.

Context (ord : gset gostring -> list gostring) (rnd : nat -> nat -> nat) (rclk : nat -> clock).
Context (conn_ord : gset Z -> list Z).
Hypothesis ord_perm : forall X, ord X ≡ₚ elements X.
Hypothesis conn_ord_perm : forall X, conn_ord X ≡ₚ elements X.

Lemma Run_spec turns stop clk cfg p fd (e : Executor J) others (u : Prop) :
  wf (eStore e) -> (u -> journal e <> None) -> Conf.Validate cfg = None -> Conf.WithDefaults cfg = cfg ->
  interest (kernel p) = {[ fd := DefaultEventMask ]} -> opened (kernel p) = {[ fd; epfd p ]} ∪ others ->
  fd ∉ others -> epfd p ∉ others ->
  let service : Service (Backend J) := Serving.executorService ord rnd rclk in
  exists fin el, Loop.Run conn_ord turns stop clk (Loop.NewEventLoopWithConfig p fd (mkBackend e 0) cfg) = Some (fin, el) /\
    match fin with
    | LoopBlocked => in_service cfg fd others el
    | _ => opened (kernel (poller el)) = others /\ interest (kernel (poller el)) = ∅ /\
           (u -> journal (bExecutor (backend el)) <> None)
    end.
Proof.
  intros Hw Hu Hcfg Hdef Hi Ho Hfd Hep service. destruct (Validate_limits _ Hcfg) as (Hmax & Hreq & _).
  pose proof (executor_safe ord rnd rclk u ord_perm) as Hsafe. fold service in Hsafe.
  set (I := @backend_ok J u) in Hsafe.
  set (el0 := Loop.NewEventLoopWithConfig p fd (mkBackend e 0) cfg).
  assert (Hok : loop_ok I (epfd p) (opened (kernel p)) el0).
  { split; cbn [conns config listenerFD poller backend Loop.NewEventLoopWithConfig el0]; rewrite -> ?Hdef; try done; try lia.
    - rw map_size_empty. lia.
    - by rw dom_empty_L union_empty_r_L. }
  destruct (run_loop_kept I conn_ord _ _ turns stop clk _ Hok) as (fin & el & Hrun & Hok' & Hl & Hc).
  unfold Loop.Run. rw Hrun. cbn [mbind option_bind]. exists fin. eexists. split; [done|].
  cbn [config listenerFD Loop.NewEventLoopWithConfig el0] in Hl, Hc. rw Hdef in Hc.
  destruct fin.
  - pose proof (ok_count _ _ _ _ Hok') as Hn. pose proof (ok_interest _ _ _ _ Hok') as Hi'. rw Hc in Hn. rw Hl in Hi'.
    split; [lia| | |].
    + by rw Hi' dom_insert_L dom_fmap_L.
    + by rw (ok_opened _ _ _ _ Hok') (ok_epfd _ _ _ _ Hok') Ho.
    + intros key c Hlk. destruct (loop_ok_key _ _ _ _ _ _ Hok' Hlk) as [Hne [_ Hop Hm Hin]]. rw Hl in Hne.
      rw Hm Hc in Hin. split_and!; [done..|]. unfold Poll.watched. rw Hi'. rewrite -> lookup_insert_ne by done.
      by rw lookup_fmap Hlk.
  - destruct (cleanup_spec I conn_ord _ _ el conn_ord_perm Hok') as (_ & Hie & Hoe & Hb).
    split; [rw Hoe Hl Ho; set_solver|]. split; [done|apply Hb].
  - destruct (cleanup_spec I conn_ord _ _ el conn_ord_perm Hok') as (_ & Hie & Hoe & Hb).
    split; [rw Hoe Hl Ho; set_solver|]. split; [done|apply Hb].
Qed.

Lemma return_spec e s :
  exists c s', return_ e s = (Returned e c, s') /\ system s' = system s /\ journal (executor s') = None /\
    (journal (executor s) <> None -> closed_with c s').
Proof.
  pose proof (closePersistence_closes s) as (Hs & Hj & Hc). unfold return_. destruct (closePersistence s) as [c s']. by exists c, s'.
Qed.

(** [Start] of a new server; [log_opened]: its append-only file is enabled and opens. *)
Definition log_opened (cfg : Config) (clk : clock) : Prop :=
  Conf.Validate cfg = None /\ AOFEnabled cfg = true /\
  exists l st, open_log (AOFPath cfg) (AOFSyncPolicy cfg) clk Store.NewStore = Some (inr l, st).

Lemma Start_spec turns stop clk cfg k :
  interest k = ∅ -> suName a <> inr SockaddrOther ->
  exists r s, Start a ord rnd rclk conn_ord turns stop clk (NewServer cfg k) = Some (r, s) /\
    match r with
    | Running el => system s = kernel (poller el) /\ in_service (Conf.WithDefaults cfg) (listener s) (opened k) el
    | Returned _ closing => opened (system s) = opened k /\ interest (system s) = ∅ /\ journal (executor s) = None /\
        (log_opened (Conf.WithDefaults cfg) (fork1 clk) -> closed_with closing s)
    end.
Proof.
  intros Hk Hname. set (u := log_opened (Conf.WithDefaults cfg) (fork1 clk)). unfold Start. cbn [rsConfig NewServer]. destruct (Conf.Validate (Conf.WithDefaults cfg)) eqn:Hcfg.
  { do 2 eexists. split; [done|]. split_and!; [done..|]. intros [Hv _]. congruence. }
  destruct (openPersistence_safe (fork1 clk) (NewServer cfg k) NewStore_wf) as (e & s & -> & Hw & Hsys & Hcf & Hj & Hu).
  cbn [mbind option_bind]. cbn [system rsConfig NewServer] in Hsys, Hcf. destruct e as [e|].
  { do 2 eexists. split; [done|]. rw Hsys. split_and!; [done..|by apply Hj|].
    intros (_ & Hen & l & st & Hop). by destruct (Hu l st Hen eq_refl Hop). }
  assert (Hju : u -> journal (executor s) <> None) by (intros (_ & Hen & l & st & Hop); by destruct (Hu l st Hen eq_refl Hop)).
  assert (Hdone : forall e s, opened (system s) = opened k -> interest (system s) = ∅ -> (u -> journal (executor s) <> None) ->
    exists r s', Some (return_ e s) = Some (r, s') /\
    match r with
    | Running el => system s' = kernel (poller el) /\ in_service (Conf.WithDefaults cfg) (listener s') (opened k) el
    | Returned _ closing => opened (system s') = opened k /\ interest (system s') = ∅ /\ journal (executor s') = None /\
        (u -> closed_with closing s')
    end).
  { intros e1 s1 Ho Hi Hj1. destruct (return_spec e1 s1) as (c & s2 & -> & Hs2 & Hn & Hc). do 2 eexists. split; [done|].
    rw Hs2. split_and!; auto. }
  rw -Hsys in Hk. destruct (setup_spec s Hk Hname) as (r & s1 & -> & [Hex Hcf1] & Hset). cbn [mbind option_bind].
  rw Hsys in Hset. rw -Hex in Hju.
  destruct r as [e|p]; [destruct Hset; by apply Hdone|]. destruct Hset as (Hkp & Hi & Ho & Hl & Hep).
  rw Hcf1 Hcf. rw -Hex in Hw.
  destruct (Run_spec turns stop (fork2 clk) (Conf.WithDefaults cfg) p (listener s1) (executor s1) (opened k) u Hw Hju Hcfg (WithDefaults_idem cfg)
              Hi Ho Hl Hep) as (fin & el & -> & Hfin). cbn [mbind option_bind].
  destruct fin; [by do 2 eexists|apply Hdone; apply Hfin..].
Qed.

End server.
End ReactorServerProof.
