(* ===== verification/ReactorTheorems.v ===== *)
(** * What the two servers guarantee

    The theorems of the network layer: the reactor answers a stream as the blocking
    server does, whatever the fragmentation; the reactor server never panics, keeps
    its invariant and releases what it acquired; and two behaviours in which the servers differ.  The witnesses use
    a kernel that performs every call and a backend that records what it served. *)

From S2P Require Import Prelude GoTime GoLib GoIO GoIOProof Resp RespProof RespEncode RespTheorems Store.
From S2P Require Import StoreProof StoreMaint StoreTheorems Command CommandTypes Executor.
From S2P Require Import ExecutorProof ExecTheorems Aof AofRewrite AofOpen AofTheorems Serving ServingProof Poller Config ConfigProof Client.
From S2P Require Import BlockingServer BlockingProof Connection ConnectionProof ReactorStream EventLoop EventLoopProof.
From S2P Require Import ReactorServer ReactorServerProof.

(** A kernel without faults: the interest list, and the other descriptors. *)
Record plainSystem := mkPlain { plInterest : gmap Z Z; plOthers : gset Z }.
Definition plain_open (k : plainSystem) : gset Z := plOthers k ∪ dom (plInterest k).
Definition next_fd (X : gset Z) : Z := set_fold (fun fd m => Z.max (fd + 1) m) 0 X.

Lemma next_fd_above X : set_Forall (fun fd => fd < next_fd X) X.
Proof.
  unfold next_fd. apply (set_fold_ind_L (fun r X => set_Forall (fun fd => fd < r) X)).
  - apply set_Forall_empty.
  - intros fd Y r Hfd IH x Hx. apply elem_of_union in Hx as [Hx|Hx]; [apply elem_of_singleton in Hx; lia|].
    apply IH in Hx. lia.
Qed.

(** [EEXIST] for a descriptor that is registered already, [ENOENT] for one that is
    not, [EBADF] for one that is not open. *)
Definition ctl_allowed (op : ctlOp) (fd : Z) (k : plainSystem) : bool :=
  bool_decide (fd ∈ plain_open k) &&
  match op with
  | CtlAdd _ => bool_decide (fd ∉ dom (plInterest k))
  | _ => bool_decide (fd ∈ dom (plInterest k))
  end.

#[export] Instance plainKernel : Kernel plainSystem.
Proof.
  refine (Build_Kernel _
            (fun op fd k => if ctl_allowed op fd k
                            then (None, mkPlain (ctl_apply op fd (plInterest k)) (plain_open k))
                            else (Some (str "invalid argument"), k))
            (fun fd k => (None, mkPlain (delete fd (plInterest k)) (plOthers k ∖ {[ fd ]})))
            (fun k => let fd := next_fd (plain_open k) in (fd, mkPlain (plInterest k) ({[ fd ]} ∪ plOthers k)))
            plInterest plain_open _ _ _ _ _ _ _ _); try done.
  - intros op fd k. by destruct (ctl_allowed op fd k).
  - intros op fd k. destruct (ctl_allowed op fd k) eqn:Ha; [|done]. unfold plain_open at 1. cbn [plOthers plInterest snd].
    apply andb_true_iff in Ha as [Ha _]. apply bool_decide_eq_true in Ha.
    destruct op; cbn [ctl_apply]; rewrite -> ?dom_insert_L, ?dom_delete_L; unfold plain_open in *; set_solver.
  - intros fd k. unfold plain_open. cbn [plOthers plInterest snd]. rw dom_delete_L. set_solver.
  - intros k Hk. cbn [fst] in Hk. apply next_fd_above in Hk. lia.
  - intros k. unfold plain_open at 1. cbn [plOthers plInterest snd fst]. unfold plain_open. set_solver.
  - intros k. unfold plain_open. set_solver.
Defined.


(** A backend that keeps the requests it was given and answers [OK]. *)
Definition recorder : Service (list Value) := {|
  serve v b := Some (NewSimpleString (str "OK"), b ++ [v]);
  expire_tick b := Some b;
|}.

Module ReactorTheorems.
Import Resp RespProof RespEncode ServingProof Blocking BlockingProof Conn ConnectionProof ReactorStream.
Import StoreProof ConfigProof EventLoopProof CommandTypes ReactorServer ReactorServerProof.

Definition new_conn (cfg : Config) (fd now : Z) : Connection :=
  NewConnectionWithLimits fd now (MaxRequestBytes cfg) (MaxResponseBytes cfg) (ReadTimeout cfg) (WriteTimeout cfg).

Definition demoConfig : Config :=
  mkConfig (str "::1") (str "6379") 2 8192 8192 1000 1000 false [] (str "no") 0 PolicyNoEviction.

Definition demoPoller : Poller plainSystem :=
  mkPoller 4 128 (mkPlain (<[7 := DefaultEventMask]> {[ 3 := DefaultEventMask ]}) {[ 4 ]}).


Definition plainConn : netConn := mkNetConn [] [] [] false.





(** C34.  The response limit.  The blocking server sends any reply whole and within the
    limit or refuses it, and refuses a reply that can be encoded only when it is longer
    than the limit.  The reactor, whose sink compares each chunk with the room left and
    does not add them up, queues arrays of any length when their elements have at
    most 4000 bytes and 4096 bytes of room are left, past the same limit. *)
Theorem reactor_limits_chunks_not_replies (limit now : Z) (items : list gostring) (c : Connection)
    (Hitems : Forall small items) (Hroom : 4096 <= maxOutbound c - len (outBuf c)) :
  let reply := NewArray (NewBulkString <$> items) in
  (forall v, match Serving.render v (mkLimitedWriter [] limit 0) with
             | inr w => lwOutput w = wire v /\ encodable v = true /\ len (wire v) <= limit
             | inl _ => encodable v = true -> limit < len (wire v)
             end) /\
  exists c', writeResponse now reply c = (None, c') /\ outBuf c' = outBuf c ++ wire reply.
Proof.
  intros reply. split; [intros v; apply render_writer|].
  destruct (render_small_items items (maxOutbound c - len (outBuf c)) Hroom Hitems) as [w Hw].
  unfold writeResponse. pose proof (render_buffer reply (maxOutbound c - len (outBuf c))) as Hr.
  fold reply in Hw. rw Hw in Hr. rw Hw. destruct Hr as [-> _]. eexists. split; [done|]. by destruct (_ =? _).
Qed.

Lemma reactor_limits_chunks_not_replies_witness :
  let reply := NewArray (NewBulkString <$> replicate 3 (replicate 4000 "x"%char)) in
  let c := new_conn demoConfig 7 0 in
  MaxResponseBytes demoConfig < len (wire reply) /\
  (forall v, match Serving.render v (mkLimitedWriter [] (MaxResponseBytes demoConfig) 0) with
             | inr w => lwOutput w = wire v /\ encodable v = true /\ len (wire v) <= MaxResponseBytes demoConfig
             | inl _ => encodable v = true -> MaxResponseBytes demoConfig < len (wire v)
             end) /\
  exists c', writeResponse 0 reply c = (None, c') /\ outBuf c' = outBuf c ++ wire reply.
Proof.
  intros reply c. split; [vm_compute; done|].
  apply (reactor_limits_chunks_not_replies (MaxResponseBytes demoConfig) 0 (replicate 3 (replicate 4000 "x"%char)) c).
  - apply Forall_replicate. vm_compute. done.
  - vm_compute. done.
Defined.

(** One read in an empty buffer, up to the next read. *)
Lemma read_one `{Unicode} `{Kernel K} `{Service B} buf rs clk c (p : Poller K) (b : B) c' p' b' :
  inBuf c = [] -> read_loop (RData buf :: rs) clk c p b = Some (None, c', p', b') ->
  exists c0 c1 p1 b1 clk', inBuf c0 = buf /\ maxInbound c0 = maxInbound c /\ output c0 = output c /\
    processCommands (fork1 (skip 1 clk)) c0 p b = Some (None, c1, p1, b1) /\
    read_loop rs clk' c1 p1 b1 = Some (None, c', p', b').
Proof.
  intros Hin Hr. cbn [read_loop] in Hr. destruct buf as [|x buf]; [done|]. destruct (_ <? _); [done|]. rw Hin in Hr.
  destruct (processCommands _ _ p b) as [[[[[e|] c1] p1] b1]|] eqn:Hp; cbn [mbind option_bind] in Hr; [done| |done].
  by exists (with_activity (clk 0%nat) (with_in (x :: buf) c)), c1, p1, b1, (fork2 (skip 1 clk)).
Qed.

Lemma read_event `{Unicode} `{Kernel K} `{Service B} rs ws clk c (p : Poller K) (b : B) c' p' b' :
  on_events [EvRead rs ws] clk c p b = Some (None, c', p', b') ->
  exists clk', read_loop rs clk' (with_writes ws c) p b = Some (None, c', p', b').
Proof.
  cbn [on_events on_event]. unfold OnRead. intros He. destruct (isClosed _); [done|]. destruct (_ <=? _); [done|].
  destruct (read_loop _ _ _ p b) as [[[[[e|] c1] p1] b1]|] eqn:Hr; cbn [mbind option_bind] in He; [done| |done].
  simplify_eq. by eexists.
Qed.

(** C35.  After a malformed message [h] the reactor drops what it has read and goes on
    decoding with the next read.  If [h] and what follows it, [q], arrive in one piece,
    both are discarded and the client gets one protocol error.  If [q] arrives in a
    second read, every complete request at its front is executed.  The blocking
    server executes nothing of the same stream in either case. *)
Theorem protocol_error_depends_on_fragmentation `{Unicode} `{Kernel K} `{Service B} (cfg : Config)
    (h q : gostring) (err : decErr) (ws ws' : list writeResult) (clk clk' : clock) (fd now : Z)
    (p p1 p2 : Poller K) (b b1 b2 : B) (c1 c2 : Connection) (nc : netConn)
    (Hmalformed : decoded (MaxRequestBytes cfg) h (inl err) h) (Hbroken : incomplete err = false)
    (Hone : on_events [EvRead [RData (h ++ q)] ws] clk (new_conn cfg fd now) p b = Some (None, c1, p1, b1))
    (Htwo : on_events [EvRead [RData h; RData q] ws'] clk' (new_conn cfg fd now) p b = Some (None, c2, p2, b2))
    (Hdeadlines : ncDeadlines nc = []) :
  (b1 = b /\ inBuf c1 = [] /\ exists e, output c1 = wire (Serving.protocolError e)) /\
  (exists rs rest e stop, served (MaxRequestBytes cfg) q b rs rest b2 /\
     decoded (MaxRequestBytes cfg) rest (inl e) stop /\
     (wire (Serving.protocolError err) ++ reply_bytes rs) `prefix_of` output c2) /\
  exists cl e, handleClient cfg (h ++ q) nc b = Some (EndDecode e, cl, b) /\ ncSent (Cl.conn cl) = ncSent nc.
Proof.
  destruct (malformed_feed _ h err q h Hmalformed Hbroken) as (err' & Hfeed & Hbroken'). split; [|split].
  - apply read_event in Hone as [clk1 Hone]. apply read_one in Hone as (c0 & c3 & p3 & b3 & clk2 & Hin & Hmax & Hout & Hp & Hr); [|done].
    apply (process_twice _ _ _ _ _ _ _ _ _ _ _ Hp) in Hr as (-> & -> & ->).
    apply (process_malformed _ _ _ _ _ _ _ err') in Hp as (-> & Hin3 & _ & Hout3); [|by rw Hin Hmax|done].
    split_and!; [done..|]. exists err'. by rw Hout3 Hout.
  - apply read_event in Htwo as [clk1 Htwo]. apply read_one in Htwo as (c0 & c3 & p3 & b3 & clk2 & Hin & Hmax & Hout & Hp & Hr); [|done].
    apply (process_malformed _ _ _ _ _ _ _ err) in Hp as (-> & Hin3 & Hset3 & Hout3); [|by rw Hin Hmax|done].
    apply read_one in Hr as (c4 & c5 & p5 & b5 & clk3 & Hin4 & Hmax4 & Hout4 & Hp4 & Hr); [|done].
    apply (process_twice _ _ _ _ _ _ _ _ _ _ _ Hp4) in Hr as (-> & _ & ->).
    assert (maxInbound c4 = MaxRequestBytes cfg) as Hm.
    { rw Hmax4. assert (maxInbound c3 = maxInbound c0) as -> by (unfold settings in Hset3; by simplify_eq). by rw Hmax. }
    apply processCommands_answered in Hp4 as (_ & _ & _ & rs & rest & Hs & e & stop & Hd & Hif). rw Hm Hin4 in Hs Hd.
    exists rs, rest, e, stop. split_and!; [done..|].
    assert (output c4 = wire (Serving.protocolError err)) as Ho4 by (by rw Hout4 Hout3 Hout).
    rw Ho4 in Hif. destruct (incomplete e); destruct Hif as [_ ->]; [done|]. rw reply_bytes_app app_assoc. by eexists.
  - destruct Hfeed as (d & Hd & _). unfold handleClient. cbn [client_loop]. unfold Cl.SetDeadline.
    cbn [Cl.conn Cl.NewClientWithLimit cWriter GoIO.NewWriter GoIO.NewWriterSize GoIO.bwSink]. rw Hdeadlines.
    cbn [cDecoder]. rw Hd. cbn [mbind option_bind]. by do 2 eexists.
Qed.

Lemma protocol_error_depends_on_fragmentation_witness :
  let h := str "$2000000" ++ CRLF in
  let q := str "DEL k" ++ CRLF in
  exists p1 p2 b1 b2 c1 c2,
    @on_events asciiOnly _ _ plainKernel recorder [EvRead [RData (h ++ q)] []] (fun _ => 0)
      (new_conn demoConfig 7 0) demoPoller [] = Some (None, c1, p1, b1) /\
    @on_events asciiOnly _ _ plainKernel recorder [EvRead [RData h; RData q] []] (fun _ => 0)
      (new_conn demoConfig 7 0) demoPoller [] = Some (None, c2, p2, b2) /\
    b2 = [NewArray [NewBulkString (str "DEL"); NewBulkString (str "k")]] /\
    (b1 = [] /\ inBuf c1 = [] /\ exists e, output c1 = wire (@Serving.protocolError asciiOnly e)) /\
    (exists rs rest e stop, @served asciiOnly _ recorder (MaxRequestBytes demoConfig) q [] rs rest b2 /\
       @decoded asciiOnly (MaxRequestBytes demoConfig) rest (inl e) stop /\
       (wire (@Serving.protocolError asciiOnly (ErrBulkLimit 2000000)) ++ reply_bytes rs) `prefix_of` output c2) /\
    exists cl e, @handleClient asciiOnly _ recorder demoConfig (h ++ q) plainConn [] = Some (EndDecode e, cl, []) /\
      ncSent (Cl.conn cl) = [].
Proof.
  intros h q. do 6 eexists. split; [vm_compute; reflexivity|]. split; [vm_compute; reflexivity|]. split; [reflexivity|].
  eapply (@protocol_error_depends_on_fragmentation asciiOnly _ plainKernel _ recorder demoConfig h q (ErrBulkLimit 2000000)
            [] [] (fun _ => 0) (fun _ => 0) 7 0 demoPoller _ _ [] _ _ _ _ plainConn).
  - eexists. split; [vm_compute; reflexivity|reflexivity].
  - reflexivity.
  - vm_compute. reflexivity.
  - vm_compute. reflexivity.
  - reflexivity.
Defined.


(** C36.  The reactor server, from a new server on any kernel whose [getsockname]
    reports an IPv4 or IPv6 address: whatever the kernel answers otherwise and the
    clients send, [Start] never panics.  While it runs, the open connections are
    within the limit, each is watched for output exactly when output is pending, no
    input buffer exceeds the request limit, nothing but the listener and the open
    connections is registered, and no descriptor is open but these, the poller and
    those that were open before.  When it has returned, from whatever step of its
    set-up or from its event loop, exactly the descriptors that were open before are
    open, nothing is registered, and if it opened the append-only file then
    [Log.Close] has run on the log, [Start] reports its error, and the log is closed. *)
Theorem reactor_server_safe `{Unicode} `{Kernel K} `{Journal J} `{Persistent J} `{!PersistentSafe J}
    (a : setupAnswers) (ord : gset gostring -> list gostring) (rnd : nat -> nat -> nat) (rclk : nat -> clock)
    (conn_ord : gset Z -> list Z) (cfg : Config) (k : K) (turns : list turnInput) (stop : nat -> bool) (clk : clock)
    (Hord : forall X, ord X ≡ₚ elements X) (Hconn_ord : forall X, conn_ord X ≡ₚ elements X)
    (Hk : interest k = ∅) (Hname : suName a <> inr SockaddrOther) :
  exists r s, Start a ord rnd rclk conn_ord turns stop clk (NewServer cfg k) = Some (r, s) /\
    match r with
    | Running el =>
        Z.of_nat (base.size (conns el)) <= MaxConnections (Conf.WithDefaults cfg) /\
        dom (interest (system s)) = {[ listener s ]} ∪ dom (conns el) /\
        opened (system s) = {[ listener s; epfd (poller el) ]} ∪ opened k ∪ dom (conns el) /\
        forall fd c, conns el !! fd = Some c ->
          isClosed c = false /\ len (inBuf c) <= MaxRequestBytes (Conf.WithDefaults cfg) /\
          interest (system s) !! fd =
            Some (if bool_decide (outBuf c = []) then DefaultEventMask else Z.lor DefaultEventMask EPOLLOUT)
    | Returned _ closing =>
        opened (system s) = opened k /\ interest (system s) = ∅ /\ journal (executor s) = None /\
        (log_opened (Conf.WithDefaults cfg) (fork1 clk) ->
         exists l l', close_log l = (closing, l') /\ closedLog s = Some l' /\ log_closed l' = true)
    end.
Proof.
  destruct (Start_spec a ord rnd rclk conn_ord Hord Hconn_ord turns stop clk cfg k Hk Hname) as (r & s & Hs & Hr).
  exists r, s. split; [done|]. destruct r as [el|e c]; [|done]. destruct Hr as [Hsys [Hn Hi Ho Hc]]. rw Hsys.
  split_and!; [done..|apply Hc].
Qed.

(** A server with a new append-only file; two clients connect, the first sends a
    command and then closes its side. *)
Definition demoJournal : Journal Aof.Log := @AofRewrite.Log_journal asciiOnly AofTheorems.goodDisk elements (fun _ => (0, 0))%nat.

Definition demoPersistent : Persistent Aof.Log :=
  @Log_persistent asciiOnly AofTheorems.goodDisk (mkPath None StatNotExist None None) (mkFile [] 0 [] 0).

Definition demoSetup : setupAnswers :=
  mkSetup (inr ([0; 0; 0; 0], [])) None None None None (inr (SockaddrInet4 6379 [0; 0; 0; 0])) None
    (fun _ => None) (fun _ => None).

Definition demoTurns : list turnInput :=
  [ mkTurn [WaitIntr; WaitReady [mkEvent 3 EPOLLIN]] (fun _ => mkIO [AcConn; AcConn; AcAgain] [] []);
    mkTurn [WaitReady [mkEvent 5 EPOLLIN]] (fun _ => mkIO [] [RData (wire RespTheorems.ping)] [WSent 3]);
    mkTurn [WaitReady [mkEvent 5 (Z.lor EPOLLIN EPOLLRDHUP)]] (fun _ => mkIO [] [RData []] []) ].

Definition demoSystem : plainSystem := mkPlain ∅ {[ 0; 1; 2 ]}.

Definition demoStart (stopped : bool) : option (startEnd plainSystem (Backend Aof.Log) * Server plainSystem Aof.Log) :=
  @Start asciiOnly _ Aof.Log plainKernel demoJournal demoPersistent demoSetup elements (fun _ n => n) (fun _ _ => 0) elements
    demoTurns (fun _ => stopped) (fun _ => 0) (NewServer Conf.DefaultConfig demoSystem).

Lemma reactor_server_safe_witness :
  @log_opened asciiOnly Aof.Log demoPersistent (Conf.WithDefaults Conf.DefaultConfig) (fork1 (fun _ => 0)) /\
  exists r s, demoStart true = Some (r, s) /\
    match r with
    | Running el =>
        Z.of_nat (base.size (conns el)) <= 128 /\
        dom (interest (system s)) = {[ listener s ]} ∪ dom (conns el) /\
        opened (system s) = {[ listener s; epfd (poller el) ]} ∪ {[ 0; 1; 2 ]} ∪ dom (conns el) /\
        forall fd c, conns el !! fd = Some c ->
          isClosed c = false /\ len (inBuf c) <= 2097152 /\
          interest (system s) !! fd =
            Some (if bool_decide (outBuf c = []) then DefaultEventMask else Z.lor DefaultEventMask EPOLLOUT)
    | Returned _ closing =>
        opened (system s) = {[ 0; 1; 2 ]} /\ interest (system s) = ∅ /\ journal (executor s) = None /\
        (@log_opened asciiOnly Aof.Log demoPersistent (Conf.WithDefaults Conf.DefaultConfig) (fork1 (fun _ => 0)) ->
         exists l l', @close_log _ demoPersistent l = (closing, l') /\ closedLog s = Some l' /\ @log_closed _ demoPersistent l' = true)
    end.
Proof.
  split.
  { split; [vm_compute; reflexivity|]. split; [vm_compute; reflexivity|]. do 2 eexists. vm_compute. reflexivity. }
  assert (Hopen : {[ 0; 1; 2 ]} = opened demoSystem) by (vm_compute; reflexivity). rw Hopen.
  apply (@reactor_server_safe asciiOnly _ plainKernel Aof.Log demoJournal demoPersistent
           (@Log_persistent_safe asciiOnly AofTheorems.goodDisk _ _) demoSetup elements (fun _ n => n) (fun _ _ => 0)
           elements Conf.DefaultConfig demoSystem demoTurns (fun _ => true) (fun _ => 0)); done.
Defined.

(** Not stopped, the server still serves the second client; stopped, it has closed the
    log it opened. *)
Example demo_running :
  match demoStart false with
  | Some (Running el, s) => Some (elements (dom (conns el)), listener s)
  | _ => None
  end = Some ([6], 3).
Proof. vm_compute. reflexivity. Qed.

Example demo_stopped :
  match demoStart true with
  | Some (Returned None None, s) => Aof.lClosed <$> closedLog s
  | _ => None
  end = Some true.
Proof. vm_compute. reflexivity. Qed.

(** C39.  Replies are well typed: every value a server answers a request with, errors
    of the parser and the executor included, can be encoded by every writer, so that
    an encoding error can only come from the connection; and the reply to a command is
    an error or has the RESP type that command promises, without a journal or with one
    that persists each command as a command with the same replies, as the append-only
    file does. *)
Theorem replies_well_typed `{Unicode} `{Journal J} `{!TypedJournal J} (ord : gset gostring -> list gostring)
    (rnd : nat -> nat -> nat) (rclk : nat -> clock) (request reply : Value) (b b' : Backend J)
    (Hserve : Serving.answer ord rnd rclk request b = Some (reply, b')) :
  encodable reply = true /\
  (forall (W : Type) (HW : Writer W) (w : GoIO.bufWriter W), (Encode reply w).1 <> Some EncUnsupported) /\
  (forall cmd, Cmd.Parse request = inr cmd -> reply_type (cName cmd) reply = true).
Proof.
  unfold Serving.answer in Hserve. destruct (Cmd.Parse request) as [err|cmd] eqn:Hparse.
  { injection Hserve as <- _. split_and!; [done|by intros; apply Encode_supported|done]. }
  destruct (Exec.Execute ord (rnd (calls b)) (rclk (calls b)) cmd (bExecutor b)) as [[r e]|] eqn:Hx; [|done].
  cbn [mbind option_bind] in Hserve. injection Hserve as Hr _. pose proof (Execute_encodes _ _ _ _ _ _ _ Hx) as He.
  assert (Henc : encodable reply = true) by (destruct r; subst; [done|exact He]).
  split_and!; [done|by intros; apply Encode_supported|].
  intros cmd' [= <-]. pose proof (Execute_typed _ _ _ _ _ _ _ Hx) as Ht. by destruct r; subst.
Qed.

(** With the append-only file as journal: [EXPIRE] is persisted as [PEXPIREAT]. *)
Definition demoBackend : Backend Aof.Log :=
  mkBackend (Exec.SetJournal (Some (AofTheorems.emptyLog Aof.SyncAlways)) (Exec.NewExecutor StoreTheorems.demoStore)) 0.

Definition demoExpire : Value := NewArray (NewBulkString <$> [str "expire"; str "missing"; str "10"]).

Definition demoAnswer : option (Value * Backend Aof.Log) :=
  @Serving.answer asciiOnly Aof.Log demoJournal elements (fun _ n => n) (fun _ _ => 0) demoExpire demoBackend.

Lemma replies_well_typed_witness :
  encodable (NewInteger 0) = true /\
  (forall (W : Type) (HW : Writer W) (w : GoIO.bufWriter W), (Encode (NewInteger 0) w).1 <> Some EncUnsupported) /\
  (forall cmd, @Cmd.Parse asciiOnly demoExpire = inr cmd -> reply_type (cName cmd) (NewInteger 0) = true).
Proof.
  apply (@replies_well_typed asciiOnly Aof.Log demoJournal (@Log_typed asciiOnly AofTheorems.goodDisk elements (fun _ => (0, 0))%nat)
           elements (fun _ n => n) (fun _ _ => 0) demoExpire (NewInteger 0) demoBackend
           (match demoAnswer with Some (_, b) => b | None => demoBackend end)).
  vm_compute. reflexivity.
Defined.

End ReactorTheorems.
