(* ===== verification/ServerLifecycle.v ===== *)
(** * The lifecycle of the blocking server

    [Start], [Serve], [Shutdown], [openPersistence], [closePersistence] and the
    expiry loop of [internal/server/server.go], with the goroutines they run in.  The
    state is the fields of [Server] and where each goroutine is; an action is what
    one of them does between two points where another may run: a critical section of
    [s.mu] or [s.aofMu], a wait that has ended, or one call.  [step] says whether an
    action is possible and what it does.  One call of [Start] and one of [Shutdown]
    run concurrently with any number of clients. *)

From S2P Require Import Prelude.

(** Where [Start] is, through [Serve] and its deferred calls. *)
Inductive startPC :=
  | StIdle                (* not called *)
  | StCheck               (* about to look at closing *)
  | StOpen                (* about to open persistence *)
  | StListen              (* about to listen *)
  | StUnlistened          (* listening failed: about to close persistence *)
  | StRecheck             (* about to look at closing again *)
  | StRefused             (* closing: about to close persistence *)
  | StServe               (* Serve: about to open persistence *)
  | StEnter               (* Serve: about to look at started and closing *)
  | StSpawn               (* Serve: about to start the expiry loop *)
  | StAccept              (* the accept loop *)
  | StLeave               (* the deferred calls of Serve *)
  | StAfter               (* Serve has returned *)
  | StWait                (* waiting for the clients *)
  | StClose               (* about to close persistence *)
  | StDone.

Inductive shutPC :=
  | ShIdle | ShListener | ShServe | ShClients | ShForced | ShClose | ShDone.

#[global] Instance startPC_eq_dec : EqDecision startPC.
Proof. solve_decision. Defined.
#[global] Instance shutPC_eq_dec : EqDecision shutPC.
Proof. solve_decision. Defined.

Record Server := mkServer {
  active : gset nat;
  closing : bool;
  started : bool;
  shutdownRequested : bool;
  stopClosed : bool;            (* stopChan *)
  serveDone : bool;             (* serveDone is closed *)
  listening : bool;             (* the listener is open *)
  clients : gset nat;           (* clientsWg: handlers that have not called Done *)
  expiring : bool;              (* expireWg: the expiry loop runs *)
  aofOpen : bool;               (* s.aof is not nil and is the journal *)
  aofOpened : nat;              (* how often aof.Open has recovered the store *)
  severed : gset nat;           (* connections closed by the server *)
  starting : startPC;
  stopping : shutPC;
}.

(** What an [Accept] that fails reports. *)
Inductive acceptError := AcceptClosed | AcceptTemporary | AcceptFatal.

Inductive action :=
  | Call | Check_closing | Open_ (ok : bool) | Listen_ (ok : bool) | Recheck | Abandon
  | Serve_open (ok : bool) | Enter | Spawn | Accept_conn (c : nat) | Accept_fail (e : acceptError) | Leave | After
  | Wait_clients | Close_persistence
  | Shut_call | Shut_listener | Shut_serve | Shut_clients | Shut_timeout | Shut_forced | Shut_close
  | Handler_remove (c : nat) (gone : bool) | Handler_done (c : nat) | Expiry_stop.

(** What clients, the network and the caller of [Shutdown] decide.  Any other action is
    one that a goroutine takes by itself once it is possible: a call on a closed
    listener or a closed connection returns with an error, a wait ends when what it
    waits for is there, a deadline passes. *)
Definition external (a : action) : bool :=
  match a with
  | Accept_conn _ | Accept_fail AcceptTemporary | Accept_fail AcceptFatal | Handler_remove _ true
  | Shut_call => true
  | _ => false
  end.

Module Lifecycle.

Definition NewServer : Server :=
  mkServer ∅ false false false false false false ∅ false false 0 ∅ StIdle ShIdle.

(** ** Field updates *)
Definition at_start (pc : startPC) (s : Server) : Server :=
  mkServer (active s) (closing s) (started s) (shutdownRequested s) (stopClosed s) (serveDone s) (listening s)
    (clients s) (expiring s) (aofOpen s) (aofOpened s) (severed s) pc (stopping s).
Definition at_stop (pc : shutPC) (s : Server) : Server :=
  mkServer (active s) (closing s) (started s) (shutdownRequested s) (stopClosed s) (serveDone s) (listening s)
    (clients s) (expiring s) (aofOpen s) (aofOpened s) (severed s) (starting s) pc.
Definition with_clients (a c : gset nat) (s : Server) : Server :=
  mkServer a (closing s) (started s) (shutdownRequested s) (stopClosed s) (serveDone s) (listening s)
    c (expiring s) (aofOpen s) (aofOpened s) (severed s) (starting s) (stopping s).
Definition with_closing (s : Server) : Server :=
  mkServer (active s) true (started s) (shutdownRequested s) (stopClosed s) (serveDone s) (listening s)
    (clients s) (expiring s) (aofOpen s) (aofOpened s) (severed s) (starting s) (stopping s).
Definition with_started (s : Server) : Server :=
  mkServer (active s) (closing s) true (shutdownRequested s) (stopClosed s) (serveDone s) (listening s)
    (clients s) (expiring s) (aofOpen s) (aofOpened s) (severed s) (starting s) (stopping s).
Definition with_requested (s : Server) : Server :=
  mkServer (active s) (closing s) (started s) true (stopClosed s) (serveDone s) (listening s)
    (clients s) (expiring s) (aofOpen s) (aofOpened s) (severed s) (starting s) (stopping s).
Definition with_stop (s : Server) : Server :=
  mkServer (active s) (closing s) (started s) (shutdownRequested s) true (serveDone s) (listening s)
    (clients s) (expiring s) (aofOpen s) (aofOpened s) (severed s) (starting s) (stopping s).
Definition with_served (s : Server) : Server :=
  mkServer (active s) (closing s) (started s) (shutdownRequested s) (stopClosed s) true (listening s)
    (clients s) (expiring s) (aofOpen s) (aofOpened s) (severed s) (starting s) (stopping s).
Definition with_listening (b : bool) (s : Server) : Server :=
  mkServer (active s) (closing s) (started s) (shutdownRequested s) (stopClosed s) (serveDone s) b
    (clients s) (expiring s) (aofOpen s) (aofOpened s) (severed s) (starting s) (stopping s).
Definition with_expiring (b : bool) (s : Server) : Server :=
  mkServer (active s) (closing s) (started s) (shutdownRequested s) (stopClosed s) (serveDone s) (listening s)
    (clients s) b (aofOpen s) (aofOpened s) (severed s) (starting s) (stopping s).
Definition with_aof (b : bool) (n : nat) (s : Server) : Server :=
  mkServer (active s) (closing s) (started s) (shutdownRequested s) (stopClosed s) (serveDone s) (listening s)
    (clients s) (expiring s) b n (severed s) (starting s) (stopping s).

(** [conn.Close()] on every active connection. *)
Definition sever (s : Server) : Server :=
  mkServer (active s) (closing s) (started s) (shutdownRequested s) (stopClosed s) (serveDone s) (listening s)
    (clients s) (expiring s) (aofOpen s) (aofOpened s) (severed s ∪ active s) (starting s) (stopping s).

Section server.
(** Whether the configuration validates, and two of its settings. *)
Context (valid AOFEnabled : bool) (MaxConnections : nat).

(** [openPersistence]: [None] when [aof.Open] fails. *)
Definition openPersistence (ok : bool) (s : Server) : option Server :=
  if negb AOFEnabled then Some s
  else if aofOpen s then Some s
  else if ok then Some (with_aof true (S (aofOpened s)) s) else None.

(** [closePersistence], once the expiry loop has stopped. *)
Definition closePersistence (s : Server) : Server := if aofOpen s then with_aof false (aofOpened s) s else s.

Definition at_pc (pc : startPC) (s : Server) (next : option Server) : option Server :=
  if bool_decide (starting s = pc) then next else None.
Definition at_sh (pc : shutPC) (s : Server) (next : option Server) : option Server :=
  if bool_decide (stopping s = pc) then next else None.
Definition when (b : bool) (next : option Server) : option Server := if b then next else None.

(** One action of [Start]. *)
Definition start_step (a : action) (s : Server) : option Server :=
  match a with
  | Call => at_pc StIdle s (Some (at_start (if valid then StCheck else StDone) s))
  | Check_closing => at_pc StCheck s (Some (at_start (if closing s then StDone else StOpen) s))
  | Open_ ok =>
      at_pc StOpen s (Some (match openPersistence ok s with
                            | Some s => at_start StListen s
                            | None => at_start StDone s
                            end))
  | Listen_ ok =>
      at_pc StListen s (Some (if (ok : bool) then at_start StRecheck (with_listening true s) else at_start StUnlistened s))
  | Recheck =>
      at_pc StRecheck s (Some (if closing s then at_start StRefused (with_listening false s) else at_start StServe s))
  | Abandon =>
      when (negb (expiring s))
        (match starting s with
         | StUnlistened | StRefused => Some (at_start StDone (closePersistence s))
         | _ => None
         end)
  | Serve_open ok =>
      at_pc StServe s
        (Some (if negb valid then at_start StAfter s
               else match openPersistence ok s with
                    | Some s => at_start StEnter s
                    | None => at_start StAfter s
                    end))
  | Enter =>
      at_pc StEnter s
        (Some (if started s || closing s then at_start StAfter (with_listening false s)
               else at_start StSpawn (with_started s)))
  | Spawn => at_pc StSpawn s (Some (at_start StAccept (with_expiring true s)))
  | Accept_conn c =>
      at_pc StAccept s
        (when (bool_decide (c ∉ clients s ∪ severed s))
           (Some (if closing s then at_start StLeave s
                  else if (MaxConnections <=? size (active s))%nat then s
                  else with_clients ({[c]} ∪ active s) ({[c]} ∪ clients s) s)))
  | Accept_fail e =>
      at_pc StAccept s
        (when (match e with AcceptClosed => negb (listening s) | _ => true end)
           (Some (if closing s then at_start StLeave s
                  else match e with
                       | AcceptClosed => at_start StLeave s
                       | AcceptTemporary => s
                       | AcceptFatal => at_start StLeave (sever (with_closing s))
                       end)))
  | Leave => at_pc StLeave s (Some (at_start StAfter (with_served (with_stop (with_listening false s)))))
  | After =>
      at_pc StAfter s
        (Some (if shutdownRequested s then at_start StDone s else at_start StWait (sever s)))
  | Wait_clients => at_pc StWait s (when (bool_decide (clients s = ∅)) (Some (at_start StClose s)))
  | Close_persistence =>
      at_pc StClose s (when (negb (expiring s)) (Some (at_start StDone (closePersistence s))))
  | _ => None
  end.

(** One action of [Shutdown]. *)
Definition shut_step (a : action) (s : Server) : option Server :=
  match a with
  | Shut_call =>
      at_sh ShIdle s
        (let s := with_stop (with_closing (with_requested s)) in
         Some (if started s then at_stop ShListener s else at_stop ShClose s))
  | Shut_listener => at_sh ShListener s (Some (at_stop ShServe (with_listening false s)))
  | Shut_serve => at_sh ShServe s (when (serveDone s) (Some (at_stop ShClients s)))
  | Shut_clients => at_sh ShClients s (when (bool_decide (clients s = ∅)) (Some (at_stop ShClose s)))
  | Shut_timeout => at_sh ShClients s (Some (at_stop ShForced (sever s)))
  | Shut_forced => at_sh ShForced s (when (bool_decide (clients s = ∅)) (Some (at_stop ShClose s)))
  | Shut_close => at_sh ShClose s (when (negb (expiring s)) (Some (at_stop ShDone (closePersistence s))))
  | _ => None
  end.

(** The deferred calls of a handler, and the end of the expiry loop.  A handler leaves
    its loop when the client is gone, is too slow or sends what cannot be decoded, or
    when the server has closed its connection. *)
Definition step (a : action) (s : Server) : option Server :=
  match a with
  | Handler_remove c gone =>
      when (bool_decide (c ∈ active s) && (gone || bool_decide (c ∈ severed s)))
        (Some (with_clients (active s ∖ {[c]}) (clients s) s))
  | Handler_done c =>
      when (bool_decide (c ∈ clients s ∖ active s)) (Some (with_clients (active s) (clients s ∖ {[c]}) s))
  | Expiry_stop => when (expiring s && stopClosed s) (Some (with_expiring false s))
  | Shut_call | Shut_listener | Shut_serve | Shut_clients | Shut_timeout | Shut_forced | Shut_close => shut_step a s
  | _ => start_step a s
  end.

Fixpoint run (actions : list action) (s : Server) : option Server :=
  match actions with
  | [] => Some s
  | a :: actions' => s ← step a s; run actions' s
  end.

End server.
End Lifecycle.
