(* ===== verification/LifecycleProof.v ===== *)
(** * The invariant of the server's lifecycle

    Where the goroutines can be relative to each other, and what that implies for
    the clients, the expiry loop and the append-only file. *)

From S2P Require Import Prelude ServerLifecycle.

Module LifecycleProof.
Import Lifecycle.

(** [Start] has not yet entered the accept loop's setup, is in it, or is past it. *)
Definition before (pc : startPC) : bool :=
  match pc with
  | StIdle | StCheck | StOpen | StListen | StUnlistened | StRecheck | StRefused | StServe | StEnter => true
  | _ => false
  end.
Definition serving (pc : startPC) : bool :=
  match pc with StSpawn | StAccept | StLeave => true | _ => false end.

Definition finishing (pc : startPC) : bool := match pc with StWait | StClose => true | _ => false end.
Definition open_phase (pc : startPC) : bool := match pc with StSpawn | StAccept => true | _ => false end.
Definition waited (pc : shutPC) : bool := match pc with ShClients | ShForced => true | _ => false end.
Definition via_listener (pc : shutPC) : bool := match pc with ShListener | ShServe => true | _ => false end.
Definition stopped (pc : shutPC) : bool := match pc with ShClose | ShDone => true | _ => false end.
Definition called (pc : shutPC) : bool := match pc with ShIdle => false | _ => true end.

Ltac fields :=
  cbn [active closing started shutdownRequested stopClosed serveDone listening clients expiring aofOpen aofOpened
       severed starting stopping at_start at_stop with_clients with_closing with_started with_requested with_stop
       with_served with_listening with_expiring with_aof sever before serving finishing open_phase waited
       via_listener stopped called NewServer] in *.

(** An action in terms of its guards. *)
Ltac guards :=
  repeat match goal with
  | H : at_pc _ _ _ = Some _ |- _ => unfold at_pc in H
  | H : at_sh _ _ _ = Some _ |- _ => unfold at_sh in H
  | H : when _ _ = Some _ |- _ => unfold when in H
  | H : (if bool_decide ?P then _ else _) = Some _ |- _ => destruct (bool_decide_reflect P); [|done]
  | H : (if ?b then _ else _) = Some _ |- _ => destruct b eqn:?; try done
  | H : match ?pc with StUnlistened => _ | _ => _ end = Some _ |- _ => destruct pc eqn:?; try done
  | H : match ?e with AcceptClosed => _ | _ => _ end = Some _ |- _ => destruct e
  | H : Some _ = Some _ |- _ => injection H as <-
  end.

(** Opening and closing the append-only file. *)
Lemma openPersistence_spec AOFEnabled ok s s' :
  openPersistence AOFEnabled ok s = Some s' ->
  exists b n, s' = with_aof b n s /\ (aofOpen s = true -> b = true) /\ (AOFEnabled = true -> b = true).
Proof.
  unfold openPersistence. destruct AOFEnabled; cbn [negb].
  - destruct (aofOpen s) eqn:Ho; [|destruct ok]; intros; simplify_eq.
    + exists true, (aofOpened s'). split_and!; try done. destruct s'. cbn in *. by subst.
    + by exists true, (S (aofOpened s)).
  - intros. simplify_eq. exists (aofOpen s'), (aofOpened s'). split_and!; try done. by destruct s'.
Qed.

Lemma closePersistence_eq s : closePersistence s = with_aof false (aofOpened s) s.
Proof. unfold closePersistence. destruct (aofOpen s) eqn:Ho; [done|]. destruct s. cbn in *. by subst. Qed.

Ltac persistence :=
  repeat match goal with
  | |- context [closePersistence ?s] => rewrite -> (closePersistence_eq s)
  | |- context [openPersistence ?e ?ok ?s] =>
      let s1 := fresh "s1" in let Ho := fresh "Ho" in
      destruct (openPersistence e ok s) as [s1|] eqn:Ho;
      [apply openPersistence_spec in Ho as (? & ? & -> & ? & ?)|clear Ho]
  end.

(** Uses the hypotheses whose premises are there. *)
Ltac forward :=
  repeat match goal with
  | H : ?x = ?x -> _ |- _ => specialize (H eq_refl)
  | H : ?x = ?y -> _ |- _ => clear H; assert (x <> y) as _ by discriminate
  | H : _ /\ _ |- _ => destruct H
  | H1 : ?P, H2 : ?P -> _ |- _ => specialize (H2 H1)
  | |- _ /\ _ => split
  | |- _ -> _ => intros
  end.

Section server.
Context (valid AOFEnabled : bool) (MaxConnections : nat).

Record inv (s : Server) : Prop := {
  inv_active : active s ⊆ clients s;
  inv_limit : (size (active s) <= MaxConnections)%nat;
  inv_before : before (starting s) = true -> started s = false;
  inv_serving : serving (starting s) = true -> started s = true /\ serveDone s = false;
  inv_idle : started s = false -> clients s = ∅ /\ expiring s = false /\ serveDone s = false;
  inv_served : serveDone s = true -> listening s = false /\ stopClosed s = true;
  inv_called : called (stopping s) = true -> closing s = true /\ stopClosed s = true /\ shutdownRequested s = true;
  inv_waited : waited (stopping s) = true -> serveDone s = true;
  inv_via : via_listener (stopping s) = true -> started s = true;
  inv_stopped : stopped (stopping s) = true -> started s = true -> serveDone s = true /\ clients s = ∅;
  inv_closed : stopping s = ShDone -> expiring s = false /\ (started s = true -> aofOpen s = false);
  inv_done : serveDone s = false -> started s = true -> serving (starting s) = true;
  inv_close : starting s = StClose -> clients s = ∅;
  inv_enter : AOFEnabled = true -> starting s = StEnter -> closing s = false -> aofOpen s = true;
  inv_phase : AOFEnabled = true -> open_phase (starting s) = true -> aofOpen s = true;
  inv_clients : AOFEnabled = true -> clients s <> ∅ -> aofOpen s = true;
  inv_expiring : AOFEnabled = true -> expiring s = true -> aofOpen s = true;
  inv_unlisten : stopping s = ShServe -> listening s = false;
  inv_forced : stopping s = ShForced -> active s ⊆ severed s;
}.

Lemma size_union_le_singleton (c : nat) (X : gset nat) : (size ({[c]} ∪ X) <= S (size X))%nat.
Proof.
  rw size_union_alt. rw size_singleton.
  pose proof (subseteq_size (X ∖ {[c]}) X ltac:(set_solver)). lia.
Qed.

Lemma inv_init : inv NewServer.
Proof. split; fields; try done. rw size_empty. lia. Qed.

Ltac step_cases sh :=
  guards; persistence; fields; subst; fields;
  repeat match goal with |- context [match ?x with _ => _ end] => destruct x eqn:? end; fields; subst; fields;
  split; fields; intros; try discriminate; try tauto;
  bool_prop; forward; try done; try congruence;
  try (destruct sh; fields; forward; congruence).

Lemma start_step_inv a s s' : inv s -> start_step valid AOFEnabled MaxConnections a s = Some s' -> inv s'.
Proof.
  intros Hi Hs. destruct s as [ac cl st sr sc sd li ct ex ao an sv pc sh]. destruct Hi. fields.
  destruct a; unfold start_step in Hs; try done; fields; step_cases sh.
  - set_solver.
  - match goal with H : (_ <=? _)%nat = false |- _ => apply Nat.leb_gt in H end.
    etrans; [apply size_union_le_singleton|]. lia.
  - by destruct ex.
Qed.

Lemma shut_step_inv a s s' : inv s -> shut_step a s = Some s' -> inv s'.
Proof.
  intros Hi Hs. destruct s as [ac cl st sr sc sd li ct ex ao an sv pc sh]. destruct Hi. fields.
  destruct a; unfold shut_step in Hs; try done; fields; step_cases pc.
  all: first [by destruct ex|apply union_subseteq_r|destruct st; forward; congruence].
Qed.

Lemma step_inv a s s' : inv s -> step valid AOFEnabled MaxConnections a s = Some s' -> inv s'.
Proof.
  intros Hi Hs. destruct a; first [exact (start_step_inv _ _ _ Hi Hs)|exact (shut_step_inv _ _ _ Hi Hs)|idtac];
    destruct s as [ac cl st sr sc sd li ct ex ao an sv pc sh]; destruct Hi; unfold step in Hs; fields; guards;
    fields; split; fields; intros; try tauto; bool_prop; forward; try done; try congruence.
  - by apply subseteq_difference_l.
  - etrans; [apply (subseteq_size _ ac); by apply subseteq_difference_l|done].
  - by apply subseteq_difference_l.
  - match goal with H : c ∈ _ |- _ => apply elem_of_difference in H as [_ Hc] end.
    apply subseteq_difference_r; [|done]. intros x Hx Hxc. apply elem_of_singleton in Hxc. by subst.
  - match goal with H : ct = ∅ |- _ => rw H end. apply empty_difference_L.
  - match goal with H : ct = ∅ |- _ => rw H end. apply empty_difference_L.
  - match goal with H : ct = ∅ |- _ => rw H end. apply empty_difference_L.
  - apply inv_clients0. intros Hct. match goal with H : _ <> ∅ |- _ => apply H end. rw Hct. apply empty_difference_L.
Qed.

Lemma run_inv actions s s' : inv s -> run valid AOFEnabled MaxConnections actions s = Some s' -> inv s'.
Proof.
  revert s. induction actions as [|a actions IH]; intros s Hi Hr; cbn [run] in Hr; [by simplify_eq|].
  destruct (step valid AOFEnabled MaxConnections a s) as [s1|] eqn:Hs; [|done]. cbn [mbind option_bind] in Hr.
  eapply IH; [|exact Hr]. by eapply step_inv.
Qed.

(** What [Shutdown] leaves behind. *)
Lemma inv_shut s :
  inv s -> stopping s = ShDone ->
  clients s = ∅ /\ expiring s = false /\ closing s = true /\
  (started s = true -> aofOpen s = false /\ listening s = false).
Proof.
  intros Hi Hd. destruct Hi. rw Hd in inv_stopped0 inv_called0. destruct (inv_closed0 Hd) as [Hx Hao].
  destruct (inv_called0 eq_refl) as (Hcl & _). destruct (started s) eqn:Hst.
  - destruct (inv_stopped0 eq_refl eq_refl) as [Hsd Hc]. destruct (inv_served0 Hsd) as [Hl _].
    split_and!; auto.
  - destruct (inv_idle0 eq_refl) as (Hc & _). by split_and!.
Qed.

End server.
End LifecycleProof.
