(* ===== verification/LifecycleProgress.v ===== *)
(** * Shutting down takes finitely many steps

    Once the server is closing, every action of every goroutine brings the end
    closer; and after [Shutdown] was called, some action is possible until both
    [Start] and [Shutdown] have returned. *)

From S2P Require Import Prelude ServerLifecycle LifecycleProof.

Module LifecycleProgress.
Import Lifecycle LifecycleProof.

(** How many actions [Start] and [Shutdown] may still take. *)
Definition start_rank (pc : startPC) : nat :=
  match pc with
  | StDone => 0 | StClose => 1 | StUnlistened | StRefused => 1 | StWait => 2 | StAfter => 3 | StLeave => 4
  | StAccept => 5 | StSpawn => 7 | StEnter => 8 | StServe => 9 | StRecheck => 10 | StListen => 11 | StOpen => 12
  | StCheck => 13 | StIdle => 14
  end.

Definition stop_rank (pc : shutPC) : nat :=
  match pc with
  | ShDone => 0 | ShClose => 1 | ShForced => 2 | ShClients => 3 | ShServe => 4 | ShListener => 5 | ShIdle => 6
  end.

(** A handler takes two actions to end, the expiry loop one. *)
Definition remaining (s : Server) : nat :=
  (start_rank (starting s) + stop_rank (stopping s) + size (active s) + size (clients s) +
  (if expiring s then 1 else 0))%nat.

Section server.
Context (valid AOFEnabled : bool) (MaxConnections : nat).
Abbreviation step := (step valid AOFEnabled MaxConnections).
Abbreviation run := (run valid AOFEnabled MaxConnections).

Lemma size_remove (c : nat) (X : gset nat) : c ∈ X -> (size (X ∖ {[ c ]}) < size X)%nat.
Proof. intros Hc. apply subset_size. set_solver. Qed.

Lemma step_closing a s s' : closing s = true -> step a s = Some s' -> closing s' = true /\ (remaining s' < remaining s)%nat.
Proof.
  intros Hc Hs. destruct s as [ac cl st sr sc sd li ct ex ao an sv pc sh]. fields. subst cl. unfold remaining.
  destruct a; unfold Lifecycle.step, start_step, shut_step in Hs; fields; guards; persistence; fields; subst; fields;
    repeat match goal with |- context [match ?x with _ => _ end] => destruct x eqn:? end; fields; subst; fields; bool_prop;
    (split; [done|]); cbn [start_rank stop_rank]; try lia; try congruence.
  all: match goal with H : _ ∈ _ |- _ => rename H into Hin end.
  1,2: pose proof (size_remove c ac Hin); lia.
  all: pose proof (size_remove c ct ltac:(set_solver)); lia.
Qed.

Lemma step_called a s s' : step a s = Some s' -> called (stopping s) = true -> called (stopping s') = true.
Proof.
  intros Hs Hc. destruct s as [ac cl st sr sc sd li ct ex ao an sv pc sh]. fields.
  destruct a; unfold Lifecycle.step, start_step, shut_step in Hs; fields; guards; persistence; fields; subst; fields;
    repeat match goal with |- context [match ?x with _ => _ end] => destruct x eqn:? end; fields; done.
Qed.

(** Only its call starts [Shutdown]. *)
Lemma step_uncalled a s s' : a <> Shut_call -> step a s = Some s' -> stopping s = ShIdle -> stopping s' = ShIdle.
Proof.
  intros Hne Hs Hc. destruct s as [ac cl st sr sc sd li ct ex ao an sv pc sh]. fields.
  destruct a; unfold Lifecycle.step, start_step, shut_step in Hs; fields; guards; persistence; fields; subst; fields;
    repeat match goal with |- context [match ?x with _ => _ end] => destruct x eqn:? end; fields; congruence.
Qed.

(** [Shutdown] has returned for good. *)
Lemma step_done a s s' : step a s = Some s' -> stopping s = ShDone -> stopping s' = ShDone.
Proof.
  intros Hs Hc. destruct s as [ac cl st sr sc sd li ct ex ao an sv pc sh]. fields.
  destruct a; unfold Lifecycle.step, start_step, shut_step in Hs; fields; guards; persistence; fields; subst; fields;
    repeat match goal with |- context [match ?x with _ => _ end] => destruct x eqn:? end; fields; congruence.
Qed.

Lemma run_closing actions s s' :
  closing s = true -> run actions s = Some s' ->
  (length actions <= remaining s)%nat /\ (called (stopping s) = true -> called (stopping s') = true).
Proof.
  revert s. induction actions as [|a actions IH]; intros s Hc Hr; cbn [Lifecycle.run] in Hr; [simplify_eq; simpl; split; [lia|done]|].
  destruct (step a s) as [s1|] eqn:Hs; [|done]. cbn [mbind option_bind] in Hr.
  destruct (step_closing a s s1 Hc Hs) as [Hc1 Hlt]. destruct (IH s1 Hc1 Hr) as [Hlen Hcalled].
  split; [simpl; lia|]. intros Hca. by apply Hcalled, (step_called a s).
Qed.

(** Both calls have returned, and nothing runs any more. *)
Record ended (s : Server) : Prop := {
  end_start : starting s = StDone;
  end_stop : stopping s = ShDone;
  end_clients : clients s = ∅;
  end_expiring : expiring s = false;
}.

(** The action of [Start] that is always possible. *)
Definition next_start (pc : startPC) : action :=
  match pc with
  | StIdle => Call | StCheck => Check_closing | StOpen => Open_ true | StListen => Listen_ true
  | StUnlistened | StRefused => Abandon | StRecheck => Recheck | StServe => Serve_open true | StEnter => Enter
  | StSpawn => Spawn | StAccept => Accept_fail AcceptClosed | StLeave => Leave | StAfter => After
  | StWait => Wait_clients | StClose | StDone => Close_persistence
  end.

Definition next_stop (pc : shutPC) : action :=
  match pc with
  | ShIdle => Shut_call | ShListener => Shut_listener | ShServe => Shut_serve | ShClients => Shut_clients
  | ShForced => Shut_forced | ShClose | ShDone => Shut_close
  end.

(** A goroutine of the server can go on by itself, whatever clients do. *)
Definition can_step (s : Server) : Prop := exists a, external a = false /\ is_Some (step a s).

Lemma start_can_step s :
  called (stopping s) = true -> closing s = true -> clients s = ∅ -> expiring s = false -> starting s <> StDone ->
  (starting s = StAccept -> listening s = false) -> can_step s.
Proof.
  intros Hcall Hc Hcl Hx Hd Hli. exists (next_start (starting s)).
  destruct s as [ac cl st sr sc sd li ct ex ao an sv pc sh]. fields. subst.
  destruct pc; try done; (split; [done|]); unfold Lifecycle.step, start_step, at_pc, when; fields; cbn [next_start]; fields; try done.
  by rewrite -> Hli.
Qed.

Lemma stop_can_step s :
  inv AOFEnabled MaxConnections s -> starting s = StDone -> called (stopping s) = true ->
  clients s = ∅ -> expiring s = false -> stopping s <> ShDone -> can_step s.
Proof.
  intros Hi Hst Hcall Hcl Hx Hd. exists (next_stop (stopping s)).
  assert (Hserve : stopping s = ShServe -> serveDone s = true).
  { intros Hs. destruct (serveDone s) eqn:Hsd; [done|]. pose proof (inv_done _ _ _ Hi Hsd) as Hser.
    rw Hst in Hser. exfalso. assert (false = true); [|done]. apply Hser, (inv_via _ _ _ Hi). by rw Hs. }
  destruct s as [ac cl st sr sc sd li ct ex ao an sv pc sh]. fields. subst.
  destruct sh; try done; (split; [done|]); unfold Lifecycle.step, shut_step, at_sh, when; fields; cbn [next_stop]; fields; try done.
  by rw Hserve.
Qed.

(** The accept loop is left once the listener is closed. *)
Lemma accepting_can_step s :
  inv AOFEnabled MaxConnections s -> stopping s = ShServe -> serveDone s = false -> can_step s.
Proof.
  intros Hi Hs Hd. pose proof (inv_unlisten _ _ _ Hi Hs) as Hli. destruct (inv_called _ _ _ Hi ltac:(by rw Hs)) as (Hc & _).
  pose proof (inv_done _ _ _ Hi Hd (inv_via _ _ _ Hi ltac:(by rw Hs))) as Hser. exists (next_start (starting s)).
  destruct s as [ac cl st sr sc sd li ct ex ao an sv pc sh]. fields. subst.
  destruct pc; try done; (split; [done|]); unfold Lifecycle.step, start_step, at_pc, when; fields; cbn [next_start]; fields; done.
Qed.

(** While clients are connected, [Shutdown] gets to closing their connections, and
    then they leave. *)
Lemma active_can_step s :
  inv AOFEnabled MaxConnections s -> called (stopping s) = true -> active s <> ∅ -> can_step s.
Proof.
  intros Hi Hcall Hact. assert (Hcl : clients s <> ∅).
  { intros Hcl. apply Hact. pose proof (inv_active _ _ _ Hi). set_solver. }
  assert (Hst : started s = true).
  { destruct (started s) eqn:Hst; [done|]. by destruct (inv_idle _ _ _ Hi Hst). }
  assert (Hrun : stopped (stopping s) = false).
  { destruct (stopped (stopping s)) eqn:Hsp; [|done]. by destruct (inv_stopped _ _ _ Hi Hsp Hst). }
  destruct (stopping s) eqn:Hs; try done.
  - exists Shut_listener. split; [done|]. unfold Lifecycle.step, shut_step, at_sh. by rewrite -> bool_decide_eq_true_2.
  - destruct (serveDone s) eqn:Hd; [|by apply accepting_can_step]. exists Shut_serve. split; [done|].
    unfold Lifecycle.step, shut_step, at_sh, when. rewrite -> bool_decide_eq_true_2 by done. by rw Hd.
  - exists Shut_timeout. split; [done|]. unfold Lifecycle.step, shut_step, at_sh. by rewrite -> bool_decide_eq_true_2.
  - apply set_choose_L in Hact as [c Hin]. exists (Handler_remove c false). split; [done|].
    unfold Lifecycle.step, when. pose proof (inv_forced _ _ _ Hi Hs c Hin).
    rewrite -> !bool_decide_eq_true_2 by done. done.
Qed.

Lemma shutdown_progress s :
  inv AOFEnabled MaxConnections s -> called (stopping s) = true -> ended s \/ can_step s.
Proof.
  intros Hi Hcall. destruct (inv_called _ _ _ Hi Hcall) as (Hc & Hsc & _).
  destruct (decide (active s = ∅)) as [Hac|Hac]; [|right; by apply active_can_step].
  destruct (set_choose_or_empty (clients s)) as [[c Hin]|Hcl%leibniz_equiv].
  { right. exists (Handler_done c). split; [done|]. unfold Lifecycle.step, when. rewrite -> bool_decide_eq_true_2 by set_solver. done. }
  destruct (expiring s) eqn:Hx.
  { right. exists Expiry_stop. split; [done|]. unfold Lifecycle.step, when. by rw Hx Hsc. }
  destruct (decide (starting s = StDone)) as [Hst|Hst].
  { destruct (decide (stopping s = ShDone)) as [Hsh|Hsh]; [by left|]. right. apply stop_can_step; auto. }
  right. destruct (decide (starting s = StAccept)) as [Ha|Ha]; [|by apply start_can_step].
  destruct (inv_serving _ _ _ Hi ltac:(by rw Ha)) as [Hstd Hsd].
  destruct (stopping s) eqn:Hs; try done.
  - exists Shut_listener. split; [done|]. unfold Lifecycle.step, shut_step, at_sh. by rewrite -> bool_decide_eq_true_2.
  - by apply accepting_can_step.
  - pose proof (inv_waited _ _ _ Hi ltac:(by rw Hs)). congruence.
  - pose proof (inv_waited _ _ _ Hi ltac:(by rw Hs)). congruence.
  - destruct (inv_stopped _ _ _ Hi ltac:(by rw Hs) Hstd). congruence.
  - destruct (inv_stopped _ _ _ Hi ltac:(by rw Hs) Hstd). congruence.
Qed.

End server.
End LifecycleProgress.
