(* ===== verification/LifecycleTheorems.v ===== *)
(** * What the lifecycle of the blocking server guarantees

    Over every interleaving of [Start], [Shutdown], the client handlers and the
    expiry loop. *)

From S2P Require Import Prelude ServerLifecycle LifecycleProof LifecycleProgress.

Module LifecycleTheorems.
Import Lifecycle LifecycleProof LifecycleProgress.

(** C40.  In every interleaving: the connections served at once never exceed the
    limit; while any client handler or the expiry loop runs, the append-only file is
    open and installed as the journal, so nothing they do goes unrecorded; and once
    [Shutdown] has returned, no handler and no expiry loop runs, nor ever will, and a
    server that had started has closed its listener and its append-only file (one
    whose [Start] was overtaken need not have: [shutdown_race_reopens]). *)
Theorem lifecycle_safe (valid AOFEnabled : bool) (MaxConnections : nat) (actions : list action) (s : Server)
    (Hrun : run valid AOFEnabled MaxConnections actions NewServer = Some s) :
  (size (active s) <= MaxConnections)%nat /\ active s ⊆ clients s /\
  (AOFEnabled = true -> clients s <> ∅ \/ expiring s = true -> aofOpen s = true) /\
  (stopping s = ShDone ->
     clients s = ∅ /\ expiring s = false /\ closing s = true /\
     (started s = true -> aofOpen s = false /\ listening s = false)).
Proof.
  pose proof (run_inv _ _ _ _ _ _ (inv_init AOFEnabled MaxConnections) Hrun) as Hi.
  pose proof (inv_shut _ _ _ Hi) as Hshut. destruct Hi. split_and!; [done|done| |done].
  intros He [Hc|Hx]; auto.
Qed.

(** Two clients, a shutdown that times out on them, and the end. *)
Definition demoActions : list action :=
  [Call; Check_closing; Open_ true; Listen_ true; Recheck; Serve_open true; Enter; Spawn; Accept_conn 1;
   Accept_conn 2; Accept_conn 3; Handler_remove 1 true; Shut_call; Handler_done 1; Shut_listener;
   Accept_fail AcceptClosed; Leave; Shut_serve; After; Expiry_stop; Shut_timeout; Handler_remove 2 false; Handler_done 2;
   Shut_forced; Shut_close].

Definition demoEnd : Server :=
  mkServer ∅ true true true true true false ∅ false false 1 {[2%nat]} StDone ShDone.

Lemma lifecycle_safe_witness :
  stopping demoEnd = ShDone /\
  ((size (active demoEnd) <= 2)%nat /\ active demoEnd ⊆ clients demoEnd /\
   (true = true -> clients demoEnd <> ∅ \/ expiring demoEnd = true -> aofOpen demoEnd = true) /\
   (stopping demoEnd = ShDone ->
      clients demoEnd = ∅ /\ expiring demoEnd = false /\ closing demoEnd = true /\
      (started demoEnd = true -> aofOpen demoEnd = false /\ listening demoEnd = false))).
Proof. split; [done|]. apply (lifecycle_safe true true 2 demoActions demoEnd). vm_compute. reflexivity. Defined.

(** Shutting down terminates.  Once [Shutdown] has been called, in whatever
    state that finds the server, no execution takes more than a bounded number of
    further steps; and no execution stops before both [Start] and [Shutdown] have
    returned and every handler and the expiry loop have ended, unless something is
    left to do that needs no client and no other connection: handlers are only
    supposed to return once the server has closed their connection, and [Accept] once
    it has closed the listener. *)
Lemma shutdown_terminates (valid AOFEnabled : bool) (MaxConnections : nat) (actions : list action) (s : Server)
    (Hrun : run valid AOFEnabled MaxConnections actions NewServer = Some s) (Hcalled : stopping s <> ShIdle) :
  forall more s', run valid AOFEnabled MaxConnections more s = Some s' ->
    (length more <= 20 + 2 * size (clients s))%nat /\
    ((forall a, external a = false -> step valid AOFEnabled MaxConnections a s' = None) ->
     starting s' = StDone /\ stopping s' = ShDone /\ clients s' = ∅ /\ expiring s' = false).
Proof.
  intros more s' Hmore. pose proof (run_inv _ _ _ _ _ _ (inv_init AOFEnabled MaxConnections) Hrun) as Hi.
  assert (Hc : called (stopping s) = true) by by destruct (stopping s).
  destruct (inv_called _ _ _ Hi Hc) as (Hcl & _).
  destruct (run_closing valid AOFEnabled MaxConnections more s s' Hcl Hmore) as [Hlen Hc']. split.
  - pose proof (subseteq_size _ _ (inv_active _ _ _ Hi)). unfold remaining in Hlen.
    assert (start_rank (starting s) <= 14)%nat by (destruct (starting s); simpl; lia).
    assert (stop_rank (stopping s) <= 5)%nat by (destruct (stopping s); simpl; lia || done).
    destruct (expiring s); lia.
  - intros Hend. pose proof (run_inv _ _ _ _ _ _ Hi Hmore) as Hi'.
    destruct (shutdown_progress valid AOFEnabled MaxConnections s' Hi' (Hc' Hc)) as [[]|(a & Hext & s2 & Ha)]; [done|].
    by rw (Hend a Hext) in Ha.
Qed.

(** The execution above, from the call of [Shutdown]. *)
Definition demoCalled : Server := default NewServer (run true true 2 (take 13 demoActions) NewServer).

Lemma shutdown_terminates_witness :
  stopping demoCalled = ShListener /\
  (length (drop 13 demoActions) <= 20 + 2 * size (clients demoCalled))%nat /\
  ((forall a, external a = false -> step true true 2 a demoEnd = None) ->
   starting demoEnd = StDone /\ stopping demoEnd = ShDone /\ clients demoEnd = ∅ /\ expiring demoEnd = false).
Proof.
  split; [vm_compute; reflexivity|].
  apply (shutdown_terminates true true 2 (take 13 demoActions) demoCalled) with (more := drop 13 demoActions).
  - vm_compute. reflexivity.
  - vm_compute. done.
  - vm_compute. reflexivity.
Defined.

(** A [Shutdown] between the last check of [Start] and [Serve] closes the append-only
    file, and [Serve] opens it again before it looks at [closing]: both calls return,
    the file has been recovered twice into the same store and is left open. *)
Lemma shutdown_race_reopens :
  exists s, run true true 2 [Call; Check_closing; Open_ true; Listen_ true; Recheck; Shut_call; Shut_close;
                        Serve_open true; Enter; After] NewServer = Some s /\
    starting s = StDone /\ stopping s = ShDone /\ aofOpen s = true /\ aofOpened s = 2%nat.
Proof. eexists. split; [vm_compute; reflexivity|done]. Qed.

End LifecycleTheorems.
