(* ===== verification/GoFlag.v ===== *)
(** * The part of Go's [flag] and [time] the entry points use

    [strconv.ParseInt] with base 0, [strconv.ParseBool], [time.ParseDuration] and
    [flag.Parse] over a table of flags.  The texts of their errors are not modelled:
    the programs only exit with a status. *)

From Stdlib Require Import SpecFloat.
From S2P Require Import Prelude GoTime GoLib.

(** What [flag.Parse] does with [os.Args[1:]]: the flags set and the arguments that
    are left, a request for help, or an error. *)
Inductive parsed (S : Type) := Parsed (settings : S) (rest : list gostring) | HelpRequested | ParseFailed.
Arguments Parsed {S}.
Arguments HelpRequested {S}.
Arguments ParseFailed {S}.

Module GoFlag.

(** ** [strconv.ParseInt(s, 0, 64)] *)
Definition lowerByte (c : ascii) : Z := Z.lor (byte_val c) 32.

(** The value of a digit or a letter. *)
Definition digit_value (c : ascii) : option Z :=
  match GoLib.digit_of c with
  | Some d => Some d
  | None => let l := lowerByte c in if (97 <=? l) && (l <=? 122) then Some (l - 97 + 10) else None
  end.

Definition prefix_base (c : ascii) : option Z :=
  let l := lowerByte c in
  if l =? 98 then Some 2 else if l =? 111 then Some 8 else if l =? 120 then Some 16 else None.

(** The base and the digits. *)
Definition split_base (s : gostring) : Z * gostring :=
  match s with
  | z :: s' =>
      if bool_decide (z = "0"%char) then
        match s' with
        | c :: (_ :: _) as digits =>
            match prefix_base c with Some base => (base, digits) | None => (8, s') end
        | _ => (8, s')
        end
      else (10, s)
  | [] => (10, s)
  end.

Fixpoint digits_loop (base : Z) (s : gostring) (n : Z) : option Z :=
  match s with
  | [] => Some n
  | c :: s' =>
      if bool_decide (c = "_"%char) then digits_loop base s' n
      else
        d ← digit_value c;
        if base <=? d then None
        else let n := n * base + d in if 2 ^ 64 <=? n then None else digits_loop base s' n
  end.

(** [underscoreOK] after the sign: an underscore separates digits, of which the
    prefix of the base counts as one. *)
Inductive seen := SeenNothing | SeenDigit | SeenUnderscore | SeenOther.

Fixpoint underscores_loop (hex : bool) (s : gostring) (i : seen) : bool :=
  match s with
  | [] => match i with SeenUnderscore => false | _ => true end
  | c :: s' =>
      let isDigit := match digit_value c with Some d => (d <? 10) || hex && (d <? 16) | None => false end in
      if isDigit then underscores_loop hex s' SeenDigit
      else if bool_decide (c = "_"%char) then
        match i with SeenDigit => underscores_loop hex s' SeenUnderscore | _ => false end
      else match i with SeenUnderscore => false | _ => underscores_loop hex s' SeenOther end
  end.

Definition underscoreOK (s : gostring) : bool :=
  match s with
  | z :: c :: s' =>
      match (if bool_decide (z = "0"%char) then prefix_base c else None) with
      | Some base => underscores_loop (base =? 16) s' SeenDigit
      | None => underscores_loop false s SeenNothing
      end
  | _ => underscores_loop false s SeenNothing
  end.

Definition ParseUint0 (s : gostring) : option Z :=
  match s with
  | [] => None
  | _ =>
      let '(base, digits) := split_base s in
      n ← digits_loop base digits 0;
      if existsb (fun c => bool_decide (c = "_"%char)) s && negb (underscoreOK s) then None else Some n
  end.

Definition ParseInt0 (s : gostring) : option Z :=
  let '(neg, magnitude) :=
    match s with
    | c :: s' => if bool_decide (c = "-"%char) then (true, s')
                 else if bool_decide (c = "+"%char) then (false, s') else (false, s)
    | [] => (false, s)
    end in
  un ← ParseUint0 magnitude;
  let n := if (neg : bool) then - un else un in
  if decide (in_int64 n) then Some n else None.

Definition ParseBool (s : gostring) : option bool :=
  if bool_decide (s ∈ str <$> ["1"; "t"; "T"; "TRUE"; "true"; "True"]%string) then Some true
  else if bool_decide (s ∈ str <$> ["0"; "f"; "F"; "FALSE"; "false"; "False"]%string) then Some false
  else None.

(** ** [time.ParseDuration] *)
Fixpoint leadingInt (s : gostring) (x : Z) : option (Z * gostring) :=
  match s with
  | [] => Some (x, s)
  | c :: s' =>
      match GoLib.digit_of c with
      | None => Some (x, s)
      | Some d =>
          if 2 ^ 63 / 10 <? x then None
          else let x := x * 10 + d in if 2 ^ 63 <? x then None else leadingInt s' x
      end
  end.

(** Digits after the point, until they do not fit. *)
Fixpoint leadingFraction (s : gostring) (x scale : Z) (overflow : bool) : Z * Z * gostring :=
  match s with
  | [] => (x, scale, s)
  | c :: s' =>
      match GoLib.digit_of c with
      | None => (x, scale, s)
      | Some d =>
          if overflow || ((2 ^ 63 - 1) / 10 <? x) then leadingFraction s' x scale true
          else let y := x * 10 + d in
               if 2 ^ 63 <? y then leadingFraction s' x scale true
               else leadingFraction s' y (scale * 10) false
      end
  end.

(** Up to the next digit or point. *)
Fixpoint unitText (s : gostring) : gostring * gostring :=
  match s with
  | [] => ([], [])
  | c :: s' =>
      if bool_decide (c = "."%char) || bool_decide (is_Some (GoLib.digit_of c)) then ([], s)
      else let '(u, rest) := unitText s' in (c :: u, rest)
  end.

(** The two spellings of microseconds are U+00B5 and U+03BC in UTF-8. *)
Definition unitMap : list (gostring * Z) :=
  [(str "ns", 1); (str "us", 10 ^ 3); (GoLib.chr 194 :: GoLib.chr 181 :: str "s", 10 ^ 3);
   (GoLib.chr 206 :: GoLib.chr 188 :: str "s", 10 ^ 3); (str "ms", 10 ^ 6); (str "s", 10 ^ 9);
   (str "m", 60 * 10 ^ 9); (str "h", 3600 * 10 ^ 9)].

Definition unit_of (u : gostring) : option Z :=
  snd <$> find (fun e => bool_decide (e.1 = u)) unitMap.

(** [uint64(float64(f) * (float64(unit) / scale))] in binary64. *)
Definition float64 (z : Z) : spec_float := binary_normalize 53 1024 z 0 false.

Definition truncate (x : spec_float) : Z :=
  match x with
  | S754_finite false m e => if 0 <=? e then Z.shiftl (Zpos m) e else Z.shiftr (Zpos m) (- e)
  | _ => 0
  end.

Definition fraction (f unit scale : Z) : Z :=
  truncate (SFmul 53 1024 (float64 f) (SFdiv 53 1024 (float64 unit) (float64 scale))).

(** The digits before the point, those after it with their scale, and the rest. *)
Definition durationNumber (s : gostring) : option (Z * Z * Z * gostring) :=
  '(v, s1) ← leadingInt s 0;
  let pre := negb (length s1 =? length s)%nat in
  let '(f, scale, s2, post) :=
    match s1 with
    | c :: s' =>
        if bool_decide (c = "."%char) then
          let '(f, scale, s2) := leadingFraction s' 0 1 false in
          (f, scale, s2, negb (length s2 =? length s')%nat)
        else (0, 1, s1, false)
    | [] => (0, 1, s1, false)
    end in
  if negb pre && negb post then None else Some (v, f, scale, s2).

(** [v] and the fraction in nanoseconds, added to [d]. *)
Definition addUnit (v f scale unit d : Z) : option Z :=
  if 2 ^ 63 / unit <? v then None
  else
    let v := v * unit in
    let v := if 0 <? f then v + fraction f unit scale else v in
    if 2 ^ 63 <? v then None
    else let d := d + v in if 2 ^ 63 <? d then None else Some d.

(** One number with its unit. *)
Definition durationTerm (s : gostring) (d : Z) : option (Z * gostring) :=
  '(v, f, scale, s) ← durationNumber s;
  let '(u, rest) := unitText s in
  match u with
  | [] => None
  | _ => unit ← unit_of u; d ← addUnit v f scale unit d; Some (d, rest)
  end.

(** Every turn takes at least one byte. *)
Fixpoint duration_loop (fuel : nat) (s : gostring) (d : Z) : option Z :=
  match fuel, s with
  | _, [] => Some d
  | O, _ => None
  | S fuel', _ => '(d, rest) ← durationTerm s d; duration_loop fuel' rest d
  end.

Definition ParseDuration (s : gostring) : option Z :=
  let '(neg, s) :=
    match s with
    | c :: s' => if bool_decide (c = "-"%char) then (true, s')
                 else if bool_decide (c = "+"%char) then (false, s') else (false, s)
    | [] => (false, s)
    end in
  if bool_decide (s = str "0") then Some 0
  else match s with
  | [] => None
  | _ =>
      d ← duration_loop (length s) s 0;
      if (neg : bool) then Some (- d) else if 2 ^ 63 - 1 <? d then None else Some d
  end.

(** ** [flag.Parse]

    A flag sets a value from its text; a boolean flag may stand alone. *)
Record flagDef (S : Type) := mkFlag { isBoolFlag : bool; setFlag : gostring -> S -> option S }.
Arguments mkFlag {S}.
Arguments isBoolFlag {S}.
Arguments setFlag {S}.

(** How an argument reads. *)
Inductive argument :=
  | NotFlag | Terminator | BadSyntax | FlagArgument (name : gostring) (value : option gostring).

Fixpoint cutEquals (s : gostring) : gostring * option gostring :=
  match s with
  | [] => ([], None)
  | c :: s' =>
      if bool_decide (c = "="%char) then ([], Some s')
      else let '(name, value) := cutEquals s' in (c :: name, value)
  end.

Definition flagName (name : gostring) : argument :=
  match name with
  | [] => BadSyntax
  | c :: s => if bool_decide (c = "-"%char) || bool_decide (c = "="%char) then BadSyntax
              else let '(rest, value) := cutEquals s in FlagArgument (c :: rest) value
  end.

Definition readArgument (s : gostring) : argument :=
  match s with
  | c :: ((c2 :: s2) as s1) =>
      if negb (bool_decide (c = "-"%char)) then NotFlag
      else if bool_decide (c2 = "-"%char) then match s2 with [] => Terminator | _ => flagName s2 end
      else flagName s1
  | _ => NotFlag
  end.

Section parse.
Context {S : Type} (formal : gostring -> option (flagDef S)).

Fixpoint Parse (args : list gostring) (st : S) : parsed S :=
  match args with
  | [] => Parsed st []
  | s :: rest =>
      match readArgument s with
      | NotFlag => Parsed st args
      | Terminator => Parsed st rest
      | BadSyntax => ParseFailed
      | FlagArgument name value =>
          match formal name with
          | None => if bool_decide (name = str "help") || bool_decide (name = str "h") then HelpRequested else ParseFailed
          | Some flag =>
              if isBoolFlag flag then
                match setFlag flag (default (str "true") value) st with
                | Some st => Parse rest st
                | None => ParseFailed
                end
              else match value, rest with
              | Some v, _ => match setFlag flag v st with Some st => Parse rest st | None => ParseFailed end
              | None, v :: rest' => match setFlag flag v st with Some st => Parse rest' st | None => ParseFailed end
              | None, [] => ParseFailed
              end
          end
      end
  end.
End parse.

Example durations :
  ParseDuration <$> (str <$> ["1h15m30.918s"; "-1.5h"; "0"; "+5s"; ".5ms"; "1d"; "3"; "100ns"; "2562047h47m16.854775807s"; "";
    "0.100000000000000000000h"; "9223372036854775808ns"; "-9223372036854775808ns"]%string) =
  [Some 4530918000000; Some (-5400000000000); Some 0; Some 5000000000; Some 500000; None; None; Some 100;
   Some max_int64; None; Some 360000000000; None; Some min_int64].
Proof. vm_compute. reflexivity. Qed.

Example integers :
  ParseInt0 <$> (str <$> ["128"; "0x1F"; "0b101"; "017"; "0o17"; "1_000"; "1__0"; "_1"; "0x_1"; "0"; "08"; "-0x8000000000000000";
    "0x"; ""; "9223372036854775808"; "+7"; "1_"]%string) =
  [Some 128; Some 31; Some 5; Some 15; Some 15; Some 1000; None; None; Some 1; Some 0; None; Some min_int64;
   None; None; None; Some 7; None].
Proof. vm_compute. reflexivity. Qed.
End GoFlag.
