(* ===== verification/Main.v ===== *)
(** * The two programs

    [cmd/server/main.go], [cmd/reactor-server/main.go] and
    [internal/cpuprofile/cpuprofile.go]: the flags, what happens before a server starts,
    and how the process ends.  The blocking server's [main] runs beside the server's
    own goroutines, so it is a machine on top of [ServerLifecycle]; the reactor's
    [Start] is one function of its answers, so its [main] is one too. *)

From S2P Require Import Prelude GoTime GoLib GoFlag GoNet Store StoreSpec Executor AofRewrite Serving Config.
From S2P Require Import Poller EventLoop ReactorServer.
From S2P Require ServerLifecycle.

(** What [main] knows after [flag.Parse]. *)
Record settings := mkSettings { cfg : Config; cpuProfile : gostring }.

(** What [os.Create], [pprof.StartCPUProfile] and closing the profile answer. *)
Record profileAnswers := mkProfile {
  prCreate : option goerr;
  prStart : option goerr;
  prClose : option goerr;
}.

(** The end of a process: its status, and whether a CPU profile that was started has
    been written to the end. *)
Record exited := mkExited { status : Z; profileComplete : bool }.

(** Where [main] of the blocking server is. *)
Inductive mainPC :=
  | MWaiting                    (* the select *)
  | MShutting                   (* in [Shutdown] *)
  | MDraining                   (* waiting for [Start] to return *)
  | MExited (e : exited).

Module Main.

(** ** The flags *)
Definition on_cfg (f : Config -> Config) (st : settings) : settings := mkSettings (f (cfg st)) (cpuProfile st).

Definition with_Host v c := mkConfig v (Port c) (MaxConnections c) (MaxRequestBytes c) (MaxResponseBytes c)
  (ReadTimeout c) (WriteTimeout c) (AOFEnabled c) (AOFPath c) (AOFSyncPolicy c) (MaxMemoryBytes c) (MaxMemoryPolicy c).
Definition with_Port v c := mkConfig (Host c) v (MaxConnections c) (MaxRequestBytes c) (MaxResponseBytes c)
  (ReadTimeout c) (WriteTimeout c) (AOFEnabled c) (AOFPath c) (AOFSyncPolicy c) (MaxMemoryBytes c) (MaxMemoryPolicy c).
Definition with_MaxConnections v c := mkConfig (Host c) (Port c) v (MaxRequestBytes c) (MaxResponseBytes c)
  (ReadTimeout c) (WriteTimeout c) (AOFEnabled c) (AOFPath c) (AOFSyncPolicy c) (MaxMemoryBytes c) (MaxMemoryPolicy c).
Definition with_MaxRequestBytes v c := mkConfig (Host c) (Port c) (MaxConnections c) v (MaxResponseBytes c)
  (ReadTimeout c) (WriteTimeout c) (AOFEnabled c) (AOFPath c) (AOFSyncPolicy c) (MaxMemoryBytes c) (MaxMemoryPolicy c).
Definition with_MaxResponseBytes v c := mkConfig (Host c) (Port c) (MaxConnections c) (MaxRequestBytes c) v
  (ReadTimeout c) (WriteTimeout c) (AOFEnabled c) (AOFPath c) (AOFSyncPolicy c) (MaxMemoryBytes c) (MaxMemoryPolicy c).
Definition with_ReadTimeout v c := mkConfig (Host c) (Port c) (MaxConnections c) (MaxRequestBytes c) (MaxResponseBytes c)
  v (WriteTimeout c) (AOFEnabled c) (AOFPath c) (AOFSyncPolicy c) (MaxMemoryBytes c) (MaxMemoryPolicy c).
Definition with_WriteTimeout v c := mkConfig (Host c) (Port c) (MaxConnections c) (MaxRequestBytes c) (MaxResponseBytes c)
  (ReadTimeout c) v (AOFEnabled c) (AOFPath c) (AOFSyncPolicy c) (MaxMemoryBytes c) (MaxMemoryPolicy c).
Definition with_AOFEnabled v c := mkConfig (Host c) (Port c) (MaxConnections c) (MaxRequestBytes c) (MaxResponseBytes c)
  (ReadTimeout c) (WriteTimeout c) v (AOFPath c) (AOFSyncPolicy c) (MaxMemoryBytes c) (MaxMemoryPolicy c).
Definition with_AOFPath v c := mkConfig (Host c) (Port c) (MaxConnections c) (MaxRequestBytes c) (MaxResponseBytes c)
  (ReadTimeout c) (WriteTimeout c) (AOFEnabled c) v (AOFSyncPolicy c) (MaxMemoryBytes c) (MaxMemoryPolicy c).
Definition with_AOFSyncPolicy v c := mkConfig (Host c) (Port c) (MaxConnections c) (MaxRequestBytes c) (MaxResponseBytes c)
  (ReadTimeout c) (WriteTimeout c) (AOFEnabled c) (AOFPath c) v (MaxMemoryBytes c) (MaxMemoryPolicy c).
Definition with_MaxMemoryBytes v c := mkConfig (Host c) (Port c) (MaxConnections c) (MaxRequestBytes c) (MaxResponseBytes c)
  (ReadTimeout c) (WriteTimeout c) (AOFEnabled c) (AOFPath c) (AOFSyncPolicy c) v (MaxMemoryPolicy c).
Definition with_MaxMemoryPolicy v c := mkConfig (Host c) (Port c) (MaxConnections c) (MaxRequestBytes c) (MaxResponseBytes c)
  (ReadTimeout c) (WriteTimeout c) (AOFEnabled c) (AOFPath c) (AOFSyncPolicy c) (MaxMemoryBytes c) v.

Section flags.
Context `{Unicode}.

(** [flag.StringVar], [IntVar], [DurationVar], [BoolVar] and [Func]. *)
Definition valued {A} (isBool : bool) (parse : gostring -> option A) (set : A -> Config -> Config) : GoFlag.flagDef settings :=
  GoFlag.mkFlag isBool (fun text st => v ← parse text; Some (on_cfg (set v) st)).
Definition StringVar := valued false (fun text => Some text).
Definition IntVar := valued false GoFlag.ParseInt0.
Definition DurationVar := valued false GoFlag.ParseDuration.
Definition BoolVar := valued true GoFlag.ParseBool.
Definition SizeFunc := valued false (fun text => match Conf.ParseBytes text with inr n => Some n | inl _ => None end).

Definition flags : list (gostring * GoFlag.flagDef settings) :=
  [(str "host", StringVar with_Host);
   (str "port", StringVar with_Port);
   (str "max-connections", IntVar with_MaxConnections);
   (str "max-request-bytes", IntVar with_MaxRequestBytes);
   (str "max-response-bytes", IntVar with_MaxResponseBytes);
   (str "read-timeout", DurationVar with_ReadTimeout);
   (str "write-timeout", DurationVar with_WriteTimeout);
   (str "aof-enabled", BoolVar with_AOFEnabled);
   (str "aof-file", StringVar with_AOFPath);
   (str "aof-sync", StringVar with_AOFSyncPolicy);
   (str "maxmemory", SizeFunc with_MaxMemoryBytes);
   (str "maxmemory-policy", StringVar with_MaxMemoryPolicy);
   (str "cpu-profile", GoFlag.mkFlag false (fun text st => Some (mkSettings (cfg st) text)))].

Definition formal (name : gostring) : option (GoFlag.flagDef settings) :=
  snd <$> find (fun e => bool_decide (e.1 = name)) flags.

(** ** Before the server starts *)

(** [cpuprofile.Start]: an error, or whether a profile is being taken. *)
Definition startProfile (a : profileAnswers) (path : gostring) : goerr + bool :=
  match path with
  | [] => inr false
  | _ =>
      match prCreate a with
      | Some e => inl e
      | None =>
          match prStart a with
          | Some e => inl (default [] (AofRewrite.Join [Some e; prClose a]))
          | None => inr true
          end
      end
  end.

(** Both programs up to the server: the status they exit with, or the configuration
    to serve, whether [main] warns that every interface is open, and whether a profile
    is being taken. *)
Definition startup (a : profileAnswers) (args : list gostring) : Z + (Config * bool * bool) :=
  match GoFlag.Parse formal args (mkSettings Conf.DefaultConfig []) with
  | GoFlag.HelpRequested => inl 0
  | GoFlag.ParseFailed => inl 2
  | GoFlag.Parsed st _ =>
      match Conf.Validate (cfg st) with
      | Some _ => inl 1
      | None =>
          match startProfile a (cpuProfile st) with
          | inl _ => inl 1
          | inr profiling => inr (cfg st, Conf.IsWildcardHost (Host (cfg st)), profiling)
          end
      end
  end.
End flags.

(** [log.Fatalf] exits at once; otherwise the deferred calls stop the profile. *)
Definition leave (profiling failed : bool) : exited :=
  if failed then mkExited 1 (negb profiling) else mkExited 0 true.

(** ** The reactor *)
Definition reactorEnd {K B} (profiling : bool) (r : startEnd K B) : option exited :=
  match r with
  | Running _ => None
  | Returned e closing => Some (leave profiling (bool_decide (is_Some e) || bool_decide (is_Some closing)))
  end.

(** ** The blocking server *)
Section server.
Import ServerLifecycle.
Context (c : Config) (profiling : bool).

(** The server of the configuration, which has been validated. *)
Definition server_step : action -> Server -> option Server :=
  Lifecycle.step true (AOFEnabled c) (Z.to_nat (MaxConnections c)).

(** A signal, the end of [Start] seen by the select and after the shutdown (with an
    error or not), the return of [Shutdown], and what the other goroutines do. *)
Inductive mainAction :=
  | Signal | StartReturned (failed : bool) | ShutdownReturned | Drained (failed : bool) | Other (a : action).

(** What users, clients and the network decide. *)
Definition prompted (a : mainAction) : bool :=
  match a with Signal => true | Other a => external a | _ => false end.

Definition process : Type := (mainPC * Server).

Definition main_step (a : mainAction) (p : process) : option process :=
  let '(m, s) := p in
  match a, m with
  | Signal, MWaiting => s ← server_step Shut_call s; Some (MShutting, s)
  | StartReturned failed, MWaiting =>
      if bool_decide (starting s = StDone) then Some (MExited (leave profiling failed), s) else None
  | ShutdownReturned, MShutting => if bool_decide (stopping s = ShDone) then Some (MDraining, s) else None
  | Drained failed, MDraining =>
      if bool_decide (starting s = StDone) then Some (MExited (leave profiling failed), s) else None
  | Other Shut_call, _ | Other _, MExited _ => None
  | Other a, _ => s ← server_step a s; Some (m, s)
  | _, _ => None
  end.

Fixpoint main_run (actions : list mainAction) (p : process) : option process :=
  match actions with
  | [] => Some p
  | a :: actions' => p ← main_step a p; main_run actions' p
  end.

(** [main] once [startup] has succeeded: [srv.Start] has been called in a goroutine. *)
Definition main_start : process := (MWaiting, Lifecycle.NewServer).
End server.
End Main.
