(* ===== verification/MainProof.v ===== *)
(** * From the command line to the exit

    Decimal numbers and durations in nanoseconds read back as printed, a flag with a
    value sets it, and after a signal every action of the process brings its end
    closer. *)

From S2P Require Import Prelude GoTime GoLib GoFlag GoNet Config ConfigProof Main.
From S2P Require ServerLifecycle LifecycleProof LifecycleProgress.

Module MainProof.
Import Main ConfigProof.

(** ** Numbers *)
Definition digits (s : gostring) : Prop := Forall (fun c => is_Some (GoLib.digit_of c)) s.

Lemma format_digits_digits fuel n acc : digits acc -> digits (GoLib.format_digits fuel n acc).
Proof.
  revert n acc. induction fuel as [|fuel IH]; intros n acc Ha; [done|]. cbn [GoLib.format_digits].
  pose proof (Z.mod_pos_bound n 10 ltac:(lia)).
  assert (digits (GoLib.chr (48 + n mod 10) :: acc)) by (constructor; [by rewrite -> GoLib.digit_of_chr|done]).
  destruct (_ =? 0); [done|by apply IH].
Qed.

Lemma format_digits_leading fuel n acc :
  0 < n < 10 ^ Z.of_nat fuel ->
  exists d s, GoLib.format_digits fuel n acc = GoLib.chr (48 + d) :: s /\ 0 < d < 10.
Proof.
  revert n acc. induction fuel as [|fuel IH]; intros n acc Hn; [simpl in Hn; lia|]. cbn [GoLib.format_digits].
  pose proof (Z.mod_pos_bound n 10 ltac:(lia)). pose proof (Z.div_mod n 10 ltac:(lia)).
  destruct (Z.eqb_spec (n / 10) 0); [exists (n mod 10); eexists; split; [done|lia]|].
  apply IH. split; [pose proof (Z.div_pos n 10); lia|]. apply Z.div_lt_upper_bound; [lia|].
  rewrite -> Nat2Z.inj_succ, Z.pow_succ_r in Hn by lia. lia.
Qed.

Lemma digit_range c d : GoLib.digit_of c = Some d -> 48 <= byte_val c <= 57 /\ d = byte_val c - 48.
Proof. unfold GoLib.digit_of. destruct (_ && _) eqn:Hb; [|done]. intros [= <-]. bool_prop. lia. Qed.

Lemma parse_digits_le s x y : 0 <= x -> GoLib.parse_digits s x = Some y -> x <= y.
Proof.
  revert x. induction s as [|c s IH]; intros x Hx Hp; cbn [GoLib.parse_digits] in Hp; [simplify_eq; lia|].
  destruct (GoLib.digit_of c) as [d|] eqn:Hd; [|done]. apply digit_range in Hd as [Hc ->].
  apply IH in Hp; lia.
Qed.

Lemma digit_not c d x : GoLib.digit_of c = Some d -> (byte_val x < 48 \/ 57 < byte_val x) -> c <> x.
Proof. intros [Hc _]%digit_range Hx ->. lia. Qed.

Lemma digits_loop_decimal s x y :
  0 <= x -> GoLib.parse_digits s x = Some y -> y < 2 ^ 64 -> GoFlag.digits_loop 10 s x = Some y.
Proof.
  revert x. induction s as [|c s IH]; intros x Hx Hp Hy; cbn [GoLib.parse_digits GoFlag.digits_loop] in *; [done|].
  destruct (GoLib.digit_of c) as [d|] eqn:Hd; [|done]. cbn [mbind option_bind] in Hp.
  pose proof (digit_range c d Hd) as [Hc Hdv].
  rewrite -> bool_decide_eq_false_2 by (eapply digit_not; [done|right; by vm_compute]).
  unfold GoFlag.digit_value. rw Hd. cbn [mbind option_bind]. assert (x * 10 + d <= y) by (eapply parse_digits_le; [|exact Hp]; lia).
  rewrite -> (proj2 (Z.leb_gt 10 d)), (proj2 (Z.leb_gt (2 ^ 64) (x * 10 + d))) by lia. apply IH; [lia|done..].
Qed.

(** The text of a number: its digits, a leading zero only for zero. *)
Lemma format_text n :
  0 <= n < 10 ^ 20 -> exists d s, GoLib.format_digits 20 n [] = GoLib.chr (48 + d) :: s /\ 0 <= d < 10 /\
    digits (GoLib.chr (48 + d) :: s) /\ GoLib.parse_digits (GoLib.chr (48 + d) :: s) 0 = Some n /\
    (0 < d \/ s = []).
Proof.
  intros Hn. pose proof (GoLib.parse_uint_format n Hn) as Hp.
  destruct (Z.eq_dec n 0) as [->|Hz].
  { exists 0, []. split_and!; [done|lia|lia|by repeat constructor|done|by right]. }
  destruct (format_digits_leading 20 n [] ltac:(change (Z.of_nat 20) with 20; lia)) as (d & s & Hs & Hd).
  pose proof (format_digits_digits 20 n [] ltac:(constructor)) as Hdig. rw Hs in Hp. rw Hs in Hdig.
  exists d, s. split_and!; [done|lia|lia|done|done|left; lia].
Qed.

Lemma ParseUint0_format n : 0 <= n < 2 ^ 64 -> GoFlag.ParseUint0 (GoLib.format_digits 20 n []) = Some n.
Proof.
  intros Hn. destruct (format_text n ltac:(lia)) as (d & s & -> & Hd & Hdig & Hp & Hlead).
  assert (Hnone : forall s, digits s -> existsb (fun c => bool_decide (c = "_"%char)) s = false).
  { clear. intros s Hs. induction Hs as [|c s [v Hv] _ IH]; [done|]. cbn [existsb]. rw IH.
    rewrite -> bool_decide_eq_false_2; [done|]. eapply digit_not; [done|right; by vm_compute]. }
  unfold GoFlag.ParseUint0. rewrite -> (Hnone _ Hdig).
  assert (exists base digits', GoFlag.split_base (GoLib.chr (48 + d) :: s) = (base, digits') /\
            GoFlag.digits_loop base digits' 0 = Some n) as (base & digits' & -> & ->); [|done].
  unfold GoFlag.split_base. case_bool_decide as Hz.
  - assert (d = 0) as ->.
    { apply (f_equal byte_val) in Hz. rewrite -> GoLib.byte_val_chr in Hz by lia.
      change (byte_val "0"%char) with 48 in Hz. lia. }
    destruct Hlead as [| -> ]; [lia|]. exists 8, []. split; [done|]. by vm_compute in Hp.
  - do 2 eexists. split; [done|]. apply digits_loop_decimal; [lia|done|lia].
Qed.

Lemma ParseInt0_FormatInt n : in_int64 n -> GoFlag.ParseInt0 (GoLib.FormatInt n) = Some n.
Proof.
  intros Hn. assert (Hr : - 2 ^ 63 <= n <= 2 ^ 63 - 1) by apply Hn. unfold GoLib.FormatInt, GoFlag.ParseInt0.
  destruct (Z.ltb_spec n 0).
  - rewrite -> bool_decide_eq_true_2, ParseUint0_format by (done || lia). cbn [mbind option_bind].
    rw Z.opp_involutive. by rewrite -> decide_True.
  - destruct (GoLib.format_digits_head 20 n [] ltac:(lia)) as (d & s & Heq & Hd). rw Heq.
    destruct (GoLib.chr_digit_not_sign d Hd). rewrite -> !bool_decide_eq_false_2 by done. rw -Heq.
    rewrite -> ParseUint0_format by lia. cbn [mbind option_bind]. by rewrite -> decide_True.
Qed.

(** ** Durations in nanoseconds *)
Definition nanoseconds (d : Z) : gostring := GoLib.FormatInt d ++ str "ns".

Lemma leadingInt_digits s u x y :
  0 <= x -> GoLib.parse_digits s x = Some y -> y <= 2 ^ 63 ->
  match u with c :: _ => GoLib.digit_of c = None | [] => True end ->
  GoFlag.leadingInt (s ++ u) x = Some (y, u).
Proof.
  intros Hx Hp Hy Hu. revert x Hx Hp. induction s as [|c s IH]; intros x Hx Hp; cbn [GoLib.parse_digits app] in *.
  { simplify_eq. destruct u as [|c u]; [done|]. cbn [GoFlag.leadingInt]. by rw Hu. }
  cbn [GoFlag.leadingInt]. destruct (GoLib.digit_of c) as [d|] eqn:Hd; [|done]. cbn [mbind option_bind] in Hp.
  pose proof (digit_range c d Hd) as [Hc Hdv]. assert (x * 10 + d <= y) by (eapply parse_digits_le; [|exact Hp]; lia).
  rewrite -> (proj2 (Z.ltb_ge (2 ^ 63 / 10) x)) by (apply Z.div_le_lower_bound; lia).
  rewrite -> (proj2 (Z.ltb_ge (2 ^ 63) (x * 10 + d))) by lia. apply IH; [lia|done].
Qed.

Lemma durationNumber_ns n :
  0 <= n <= 2 ^ 63 -> GoFlag.durationNumber (GoLib.format_digits 20 n [] ++ str "ns") = Some (n, 0, 1, str "ns").
Proof.
  intros Hn. destruct (format_text n ltac:(lia)) as (d & s & -> & Hd & Hdig & Hp & _).
  unfold GoFlag.durationNumber. rewrite -> (leadingInt_digits _ (str "ns") 0 n) by (done || lia).
  cbn [mbind option_bind]. rewrite -> (proj2 (Nat.eqb_neq _ _)); [done|]. rw length_app. simpl. lia.
Qed.

Lemma durationTerm_ns n :
  0 <= n <= 2 ^ 63 -> GoFlag.durationTerm (GoLib.format_digits 20 n [] ++ str "ns") 0 = Some (n, []).
Proof.
  intros Hn. unfold GoFlag.durationTerm. rewrite -> durationNumber_ns by done. cbn [mbind option_bind].
  change (GoFlag.unitText (str "ns")) with (str "ns", [] : gostring). cbv iota beta.
  change (match str "ns" with [] => None | _ :: _ => _ end) with
    (d ← GoFlag.addUnit n 0 1 1 0; Some (d, [] : gostring)).
  assert (GoFlag.addUnit n 0 1 1 0 = Some n) as ->; [|done].
  unfold GoFlag.addUnit. change (2 ^ 63 / 1) with (2 ^ 63). change (0 <? 0) with false. cbv zeta iota.
  rw Z.mul_1_r Z.add_0_l. by rewrite -> !(proj2 (Z.ltb_ge (2 ^ 63) n)) by lia.
Qed.

Lemma ParseDuration_ns d : in_int64 d -> GoFlag.ParseDuration (nanoseconds d) = Some d.
Proof.
  intros Hd. assert (Hr : - 2 ^ 63 <= d <= 2 ^ 63 - 1) by apply Hd. unfold nanoseconds, GoLib.FormatInt.
  assert (Hloop : forall n, 0 <= n <= 2 ^ 63 -> let s := GoLib.format_digits 20 n [] ++ str "ns" in
    exists c s', s = c :: s' /\ s <> str "0" /\ c <> "-"%char /\ c <> "+"%char /\ GoFlag.duration_loop (length s) s 0 = Some n).
  { intros n Hn. pose proof (durationTerm_ns n Hn) as Ht.
    destruct (GoLib.format_digits_head 20 n [] ltac:(lia)) as (k & s & Hs & Hk). rw Hs. rw Hs in Ht.
    destruct (GoLib.chr_digit_not_sign k Hk). do 2 eexists. split_and!; [done| |done|done|].
    - intros Heq. apply (f_equal length) in Heq. simpl in Heq. rw length_app in Heq. simpl in Heq. lia.
    - cbn [length app GoFlag.duration_loop]. cbn [app] in Ht. rw Ht. cbn [mbind option_bind]. by destruct (length _). }
  unfold GoFlag.ParseDuration. destruct (Z.ltb_spec d 0).
  - destruct (Hloop (- d)) as (c & s' & Hs & H0 & _ & _ & Hl); [lia|]. cbn [app].
    rewrite -> bool_decide_eq_true_2 by done. rewrite -> bool_decide_eq_false_2 by done.
    rw Hs. rw -Hs Hl. cbn [mbind option_bind]. by rw Z.opp_involutive.
  - destruct (Hloop d) as (c & s' & Hs & H0 & Hm & Hp & Hl); [lia|]. rw Hs. rw Hs in H0 Hl.
    rewrite -> !bool_decide_eq_false_2 by done. rw Hl. cbn [mbind option_bind].
    by rewrite -> (proj2 (Z.ltb_ge (2 ^ 63 - 1) d)) by lia.
Qed.

(** ** Flags *)
Definition setting (name text : gostring) : gostring := "-"%char :: name ++ "="%char :: text.

Definition plain_name (name : gostring) : bool :=
  match name with
  | c :: _ => negb (bool_decide (c = "-"%char)) && forallb (fun c => negb (bool_decide (c = "="%char))) name
  | [] => false
  end.

Lemma cutEquals_app name v :
  forallb (fun c => negb (bool_decide (c = "="%char))) name = true ->
  GoFlag.cutEquals (name ++ "="%char :: v) = (name, Some v).
Proof.
  induction name as [|c name IH]; intros Hn; [done|]. cbn [forallb] in Hn. apply andb_true_iff in Hn as [Hc Hn].
  cbn [app GoFlag.cutEquals]. apply negb_true_iff in Hc. rw Hc. by rewrite -> IH.
Qed.

Lemma readArgument_setting name v :
  plain_name name = true -> GoFlag.readArgument (setting name v) = GoFlag.FlagArgument name (Some v).
Proof.
  intros Hn. destruct name as [|c name]; [done|]. cbn [plain_name] in Hn. apply andb_true_iff in Hn as [Hm Hn].
  cbn [forallb] in Hn. apply andb_true_iff in Hn as [He Hn]. apply negb_true_iff in Hm, He.
  unfold setting. cbn [app GoFlag.readArgument]. rewrite -> bool_decide_eq_true_2 by done. cbn [negb]. rw Hm.
  unfold GoFlag.flagName. rw Hm He. cbn [orb]. by rewrite -> cutEquals_app.
Qed.

Lemma Parse_setting {S} (formal : gostring -> option (GoFlag.flagDef S)) name flag v st st' rest :
  plain_name name = true -> formal name = Some flag -> GoFlag.setFlag flag v st = Some st' ->
  GoFlag.Parse formal (setting name v :: rest) st = GoFlag.Parse formal rest st'.
Proof.
  intros Hn Hf Hs. cbn [GoFlag.Parse]. rewrite -> readArgument_setting, Hf by done. cbn [default].
  destruct (GoFlag.isBoolFlag flag); by rw Hs.
Qed.

(** Every setting of a configuration as a flag. *)
Definition command_line (c : Config) : list gostring :=
  [setting (str "host") (Host c);
   setting (str "port") (Port c);
   setting (str "max-connections") (GoLib.FormatInt (MaxConnections c));
   setting (str "max-request-bytes") (GoLib.FormatInt (MaxRequestBytes c));
   setting (str "max-response-bytes") (GoLib.FormatInt (MaxResponseBytes c));
   setting (str "read-timeout") (nanoseconds (ReadTimeout c));
   setting (str "write-timeout") (nanoseconds (WriteTimeout c));
   setting (str "aof-enabled") (if AOFEnabled c then str "true" else str "false");
   setting (str "aof-file") (AOFPath c);
   setting (str "aof-sync") (AOFSyncPolicy c);
   setting (str "maxmemory") (GoLib.FormatInt (MaxMemoryBytes c));
   setting (str "maxmemory-policy") (MaxMemoryPolicy c)].

(** The numbers of a configuration are machine integers. *)
Definition representable (c : Config) : Prop :=
  Forall in_int64 [MaxConnections c; MaxRequestBytes c; MaxResponseBytes c; ReadTimeout c; WriteTimeout c] /\
  0 <= MaxMemoryBytes c <= max_int64.

Section flags.
Context `{Unicode}.

Lemma ParseBytes_plain n : 0 <= n <= max_int64 -> Conf.ParseBytes (GoLib.FormatInt n) = inr n.
Proof.
  intros Hn. pose proof (ParseBytes_digits n [] 1 Hn ltac:(by left)) as Hp. rw app_nil_r Z.mul_1_r in Hp.
  by rewrite -> (proj2 (Z.leb_le n max_int64)) in Hp by lia.
Qed.

Lemma Parse_valued {A} isBool (parse : gostring -> option A) set name text v rest st :
  formal name = Some (valued isBool parse set) -> plain_name name = true -> parse text = Some v ->
  GoFlag.Parse formal (setting name text :: rest) st = GoFlag.Parse formal rest (on_cfg (set v) st).
Proof. intros Hf Hn Hp. eapply Parse_setting; [done|exact Hf|]. cbn [valued GoFlag.setFlag]. by rw Hp. Qed.

Lemma Parse_string set name text rest st :
  formal name = Some (StringVar set) -> plain_name name = true ->
  GoFlag.Parse formal (setting name text :: rest) st = GoFlag.Parse formal rest (on_cfg (set text) st).
Proof. intros Hf Hn. by eapply Parse_valued. Qed.

Lemma Parse_int set name n rest st :
  formal name = Some (IntVar set) -> plain_name name = true -> in_int64 n ->
  GoFlag.Parse formal (setting name (GoLib.FormatInt n) :: rest) st = GoFlag.Parse formal rest (on_cfg (set n) st).
Proof. intros Hf Hn Hi. eapply Parse_valued; [exact Hf|done|by apply ParseInt0_FormatInt]. Qed.

Lemma Parse_duration set name d rest st :
  formal name = Some (DurationVar set) -> plain_name name = true -> in_int64 d ->
  GoFlag.Parse formal (setting name (nanoseconds d) :: rest) st = GoFlag.Parse formal rest (on_cfg (set d) st).
Proof. intros Hf Hn Hi. eapply Parse_valued; [exact Hf|done|by apply ParseDuration_ns]. Qed.

Lemma Parse_bool set name (b : bool) rest st :
  formal name = Some (BoolVar set) -> plain_name name = true ->
  GoFlag.Parse formal (setting name (if b then str "true" else str "false") :: rest) st =
    GoFlag.Parse formal rest (on_cfg (set b) st).
Proof. intros Hf Hn. eapply Parse_valued; [exact Hf|done|by destruct b]. Qed.

Lemma Parse_size set name n rest st :
  formal name = Some (SizeFunc set) -> plain_name name = true -> 0 <= n <= max_int64 ->
  GoFlag.Parse formal (setting name (GoLib.FormatInt n) :: rest) st = GoFlag.Parse formal rest (on_cfg (set n) st).
Proof. intros Hf Hn Hi. eapply Parse_valued; [exact Hf|done|cbn beta; by rewrite -> ParseBytes_plain]. Qed.

Lemma Parse_command_line c rest st :
  representable c -> GoFlag.Parse formal (command_line c ++ rest) st = GoFlag.Parse formal rest (mkSettings c (cpuProfile st)).
Proof.
  intros [Hi Hm]. rewrite -> !Forall_cons in Hi. destruct Hi as (? & ? & ? & ? & ? & _). unfold command_line. cbn [app].
  rewrite -> (Parse_string with_Host), (Parse_string with_Port) by reflexivity.
  rewrite -> (Parse_int with_MaxConnections), (Parse_int with_MaxRequestBytes), (Parse_int with_MaxResponseBytes)
    by (done || reflexivity).
  rewrite -> (Parse_duration with_ReadTimeout), (Parse_duration with_WriteTimeout) by (done || reflexivity).
  rewrite -> (Parse_bool with_AOFEnabled), (Parse_string with_AOFPath), (Parse_string with_AOFSyncPolicy) by reflexivity.
  rewrite -> (Parse_size with_MaxMemoryBytes), (Parse_string with_MaxMemoryPolicy) by (done || reflexivity).
  by destruct c.
Qed.
End flags.

(** ** The process *)
Section process.
Import ServerLifecycle LifecycleProof.LifecycleProof LifecycleProgress.LifecycleProgress.
Context (c : Config) (profiling : bool).
Abbreviation limit := (Z.to_nat (MaxConnections c)).

(** After a signal [main] is in [Shutdown] or past it, and the server knows. *)
Definition signalled (p : process) : Prop :=
  match p.1 with
  | MWaiting => False
  | MShutting => called (stopping p.2) = true
  | MDraining => stopping p.2 = ShDone
  | MExited e => stopping p.2 = ShDone /\ exists failed, e = leave profiling failed
  end.

Record main_inv (p : process) : Prop := {
  mi_server : inv (AOFEnabled c) limit p.2;
  mi_waiting : p.1 = MWaiting -> stopping p.2 = ShIdle;
  mi_shutting : p.1 = MShutting -> called (stopping p.2) = true;
}.

Definition main_rank (m : mainPC) : nat :=
  match m with MWaiting => 3 | MShutting => 2 | MDraining => 1 | MExited _ => 0 end.

(** An action of [main], or one of another goroutine while [main] stays where it is. *)
Lemma main_step_cases a p p' :
  main_step c profiling a p = Some p' ->
  (exists b, a = Other b /\ b <> Shut_call /\ (forall e, p.1 <> MExited e) /\ p'.1 = p.1 /\
     server_step c b p.2 = Some p'.2) \/
  match a, p.1 with
  | Signal, MWaiting => p'.1 = MShutting /\ server_step c Shut_call p.2 = Some p'.2
  | StartReturned failed, MWaiting => starting p.2 = StDone /\ p' = (MExited (leave profiling failed), p.2)
  | ShutdownReturned, MShutting => stopping p.2 = ShDone /\ p' = (MDraining, p.2)
  | Drained failed, MDraining => starting p.2 = StDone /\ p' = (MExited (leave profiling failed), p.2)
  | _, _ => False
  end.
Proof.
  destruct p as [m s]. cbn [fst snd]. intros Hs. destruct a as [|failed| |failed|b].
  1-4: right; destruct m; cbn [main_step] in Hs; try done.
  - destruct (server_step c Shut_call s) as [s1|]; [|done]. by simplify_eq/=.
  - case_bool_decide; [|done]. by simplify_eq.
  - case_bool_decide; [|done]. by simplify_eq.
  - case_bool_decide; [|done]. by simplify_eq.
  - left. exists b. assert (b <> Shut_call) by (intros ->; by destruct m).
    assert (forall e, m <> MExited e) by (intros e ->; by destruct b).
    assert (exists s', server_step c b s = Some s' /\ p' = (m, s')) as (s' & Hs' & ->).
    { destruct m; try done; destruct b; try done; cbn [main_step] in Hs;
        (destruct (server_step c _ s) as [s'|]; [|done]); cbn [mbind option_bind] in Hs; injection Hs as <-; by eexists. }
    by split_and!.
Qed.

Lemma Shut_call_called s s' : Lifecycle.step true (AOFEnabled c) limit Shut_call s = Some s' -> called (stopping s') = true.
Proof.
  unfold Lifecycle.step, Lifecycle.shut_step, Lifecycle.at_sh. case_bool_decide; [|done]. cbv zeta. intros [= <-].
  by destruct (started _).
Qed.

Lemma main_step_inv a p p' : main_inv p -> main_step c profiling a p = Some p' -> main_inv p'.
Proof.
  intros [Hi Hw Hsh] Hs. apply main_step_cases in Hs as [(b & -> & Hb & _ & Hm & Hs)|Hs].
  - split; [by eapply step_inv| |]; rw Hm; intros Hm'.
    + by eapply step_uncalled; [| |apply Hw].
    + by eapply step_called; [|apply Hsh].
  - destruct a as [|failed| |failed|b]; destruct (p.1) eqn:Hp; try done.
    + destruct Hs as [Hm Hs].
      split; [exact (step_inv _ _ _ _ _ _ Hi Hs)|by rw Hm|]. intros _. by eapply Shut_call_called.
    + destruct Hs as [_ ->]. by split.
    + destruct Hs as [_ ->]. by split.
    + destruct Hs as [_ ->]. by split.
Qed.

Lemma main_step_signalled a p p' :
  signalled p -> main_step c profiling a p = Some p' -> signalled p'.
Proof.
  intros Hg Hs. apply main_step_cases in Hs as [(b & -> & Hb & Hne & Hm & Hs)|Hs]; unfold signalled in *.
  - rw Hm. destruct (p.1) eqn:Hp; [done|by eapply step_called|by eapply step_done|exfalso; by eapply Hne].
  - destruct a as [|failed| |failed|b]; destruct (p.1) eqn:Hp; try done; destruct Hs as [Hx Hs]; subst p'; [done|].
    split; [done|by exists failed].
Qed.

(** After a signal every action brings the exit closer. *)
Definition main_remaining (p : process) : nat := (main_rank p.1 + remaining p.2)%nat.

Lemma main_remaining_bound p : main_inv p -> (main_remaining p <= 24 + 2 * size (clients p.2))%nat.
Proof.
  intros [Hi _ _]. pose proof (subseteq_size _ _ (inv_active _ _ _ Hi)). unfold main_remaining, remaining.
  assert (start_rank (starting p.2) <= 14)%nat by (destruct (starting p.2); simpl; lia).
  assert (stop_rank (stopping p.2) <= 6)%nat by (destruct (stopping p.2); simpl; lia).
  assert (main_rank p.1 <= 3)%nat by (destruct p.1; simpl; lia). destruct (expiring p.2); lia.
Qed.

Lemma signalled_called p : signalled p -> called (stopping p.2) = true.
Proof. unfold signalled. destruct (p.1); [done|done|by intros ->|by intros [-> _]]. Qed.

Lemma main_step_remaining a p p' :
  main_inv p -> signalled p -> main_step c profiling a p = Some p' -> (main_remaining p' < main_remaining p)%nat.
Proof.
  intros [Hi _ _] Hg Hs. destruct (inv_called _ _ _ Hi (signalled_called _ Hg)) as [Hc _]. unfold main_remaining.
  apply main_step_cases in Hs as [(b & -> & Hb & _ & Hm & Hs)|Hs].
  - rw Hm. destruct (step_closing _ _ _ b p.2 p'.2 Hc Hs) as [_ Hlt]. lia.
  - unfold signalled in Hg. destruct a as [|failed| |failed|b]; destruct (p.1) eqn:Hp; try done;
      destruct Hs as [Hx ->]; simpl; lia.
Qed.

Lemma main_run_bounded actions p p' :
  main_inv p -> signalled p -> main_run c profiling actions p = Some p' ->
  (length actions + main_remaining p' <= main_remaining p)%nat /\ main_inv p' /\ signalled p'.
Proof.
  revert p. induction actions as [|a actions IH]; intros p Hi Hg Hr; cbn [main_run] in Hr; [by simplify_eq|].
  destruct (main_step c profiling a p) as [p1|] eqn:Hs; [|done]. cbn [mbind option_bind] in Hr.
  pose proof (main_step_remaining _ _ _ Hi Hg Hs).
  destruct (IH p1 (main_step_inv _ _ _ Hi Hs) (main_step_signalled _ _ _ Hg Hs) Hr) as (Hl & ? & ?).
  simpl. split_and!; [lia|done..].
Qed.

(** Until the process has exited, it can go on by itself. *)
Lemma main_progress p :
  main_inv p -> signalled p ->
  (exists e, p.1 = MExited e) \/ exists a, prompted a = false /\ is_Some (main_step c profiling a p).
Proof.
  intros [Hi _ _] Hg. pose proof (signalled_called _ Hg) as Hc. destruct p as [m s]. unfold signalled in Hg. cbn [fst snd] in *.
  assert (Hother : forall b s', external b = false -> Lifecycle.step true (AOFEnabled c) limit b s = Some s' ->
    (m = MShutting \/ m = MDraining) -> exists a, prompted a = false /\ is_Some (main_step c profiling a (m, s))).
  { intros b s' Hext Hb Hm. assert (b <> Shut_call) as Hne.
    { intros ->. unfold Lifecycle.step, Lifecycle.shut_step, Lifecycle.at_sh in Hb. case_bool_decide as Hx; [|done]. by rw Hx in Hc. }
    exists (Other b). split; [exact Hext|].
    destruct Hm as [-> | ->]; destruct b; try done; cbn [main_step]; unfold server_step; rw Hb; by eexists. }
  destruct m as [| | |e]; [done| | |left; by eexists]; right.
  - destruct (shutdown_progress true _ _ s Hi Hc) as [[Hst Hsh _ _]|(b & Hext & s' & Hb)]; [|eauto].
    exists ShutdownReturned. split; [done|]. cbn [main_step]. rewrite -> bool_decide_eq_true_2 by done. by eexists.
  - destruct (shutdown_progress true _ _ s Hi Hc) as [[Hst Hsh _ _]|(b & Hext & s' & Hb)]; [|eauto].
    exists (Drained false). split; [done|]. cbn [main_step]. rewrite -> bool_decide_eq_true_2 by done. by eexists.
Qed.

Lemma main_run_inv actions p p' : main_inv p -> main_run c profiling actions p = Some p' -> main_inv p'.
Proof.
  revert p. induction actions as [|a actions IH]; intros p Hi Hr; cbn [main_run] in Hr; [by simplify_eq|].
  destruct (main_step c profiling a p) as [p1|] eqn:Hs; [|done]. cbn [mbind option_bind] in Hr.
  eapply IH; [|exact Hr]. by eapply main_step_inv.
Qed.

Lemma main_start_inv : main_inv main_start.
Proof. split; [apply inv_init|done|done]. Qed.

End process.
End MainProof.
