(* ===== verification/MainTheorems.v ===== *)
(** * The programs as a whole

    What the command line can say, what a process serves, and that a signal ends it. *)

From S2P Require Import Prelude GoTime GoLib GoFlag GoNet RespTheorems Executor Config ConfigProof Main MainProof.
From S2P Require ServerLifecycle LifecycleProof LifecycleProgress.

Module MainTheorems.
Import Main MainProof.

(** C15.  Both programs serve valid configurations only, and every valid one.  Whatever
    the arguments, a process either exits with a status of at most 2 or serves a
    configuration that validates, and warns exactly when its host is a wildcard
    address.  Any valid configuration whose numbers are machine integers, written as
    flags, is served as it is; flags that come before are overridden. *)
Theorem command_line_complete `{Unicode} (a : profileAnswers) (c : Config)
    (Hvalid : Conf.Validate c = None) (Hrange : representable c) :
  (forall args, match startup a args with
     | inl status => 0 <= status <= 2
     | inr (c', warns, _) => Conf.Validate c' = None /\ warns = Conf.IsWildcardHost (Host c')
     end) /\
  startup a (command_line c) = inr (c, Conf.IsWildcardHost (Host c), false) /\
  forall earlier, representable earlier ->
    startup a (command_line earlier ++ command_line c) = inr (c, Conf.IsWildcardHost (Host c), false).
Proof.
  assert (Hown : forall st, GoFlag.Parse formal (command_line c) st = GoFlag.Parsed (mkSettings c (cpuProfile st)) []).
  { intros st. pose proof (Parse_command_line c [] st Hrange) as Hp. by rw app_nil_r in Hp. }
  split; [|split].
  - intros args. unfold startup. destruct (GoFlag.Parse _ _ _) as [st rest| |]; [|lia..].
    destruct (Conf.Validate (cfg st)) eqn:Hv; [lia|]. destruct (startProfile a _); [lia|done].
  - unfold startup. rw Hown. cbn [cfg cpuProfile]. by rw Hvalid.
  - intros earlier He. unfold startup. rewrite -> Parse_command_line, Hown by done. cbn [cfg cpuProfile]. by rw Hvalid.
Qed.

(** A server for one host, with limits. *)
Definition smallConfig : Config :=
  mkConfig (str "127.0.0.1") (str "7000") 10 65536 1048576 (1500 * 10 ^ 6) 1 false [] (str "no") (64 * 2 ^ 20)
    PolicyAllKeysLRU.

Definition noProfile : profileAnswers := mkProfile None None None.

Lemma command_line_complete_witness :
  (forall args, match @startup asciiOnly noProfile args with
     | inl status => 0 <= status <= 2
     | inr (c', warns, _) => @Conf.Validate asciiOnly c' = None /\ warns = Conf.IsWildcardHost (Host c')
     end) /\
  @startup asciiOnly noProfile (command_line smallConfig) = inr (smallConfig, Conf.IsWildcardHost (Host smallConfig), false) /\
  forall earlier, representable earlier ->
    @startup asciiOnly noProfile (command_line earlier ++ command_line smallConfig) =
      inr (smallConfig, Conf.IsWildcardHost (Host smallConfig), false).
Proof.
  apply (@command_line_complete asciiOnly noProfile smallConfig).
  - vm_compute. reflexivity.
  - split; [repeat (constructor; [by vm_compute|]); constructor|by vm_compute].
Defined.

(** Flags as a user writes them. *)
Example a_command_line :
  @startup asciiOnly noProfile (str <$> ["--port"; "7000"; "-host=::1"; "-aof-enabled=false"; "-maxmemory"; "64mb";
      "-read-timeout=1.5s"; "-max-connections=0x10"; "rest"]%string) =
  inr (with_MaxMemoryBytes (2 ^ 26) (with_AOFEnabled false (with_Port (str "7000") (with_Host (str "::1")
         (with_ReadTimeout (1500 * 10 ^ 6) (with_MaxConnections 16 Conf.DefaultConfig))))), false, false) /\
  @startup asciiOnly noProfile (str <$> ["-h"]%string) = inl 0 /\
  @startup asciiOnly noProfile (str <$> ["-port"]%string) = inl 2 /\
  @startup asciiOnly noProfile (str <$> ["-port=x"]%string) = inl 1.
Proof. by vm_compute. Qed.

(** C11.  A signal ends the process.  Once [main] has answered a signal by calling
    [Shutdown], in whatever state that finds the server, the process takes a bounded
    number of further steps, and it is never stuck before it has exited: until then
    there is a step that does not depend on any client, any further connection or any
    further signal, given that a handler returns once the server has closed its
    connection and [Accept] once it has closed the listener.  When it exits, no
    handler and no expiry loop runs, and a server that had started has closed its
    listener and its append-only file.  The status is 0 or 1, and with 0 a CPU profile
    is complete. *)
Theorem signal_ends_process (c : Config) (profiling : bool) (before : list mainAction) (p : process)
    (Hrun : main_run c profiling before main_start = Some p) (Hsignal : p.1 = MShutting) :
  forall more p', main_run c profiling more p = Some p' ->
    (length more <= 24 + 2 * size (ServerLifecycle.clients p.2))%nat /\
    ((forall a, prompted a = false -> main_step c profiling a p' = None) -> exists e, p'.1 = MExited e) /\
    forall e, p'.1 = MExited e ->
      (ServerLifecycle.clients p'.2 = ∅ /\ ServerLifecycle.expiring p'.2 = false /\
       (ServerLifecycle.started p'.2 = true ->
          ServerLifecycle.aofOpen p'.2 = false /\ ServerLifecycle.listening p'.2 = false)) /\
      (status e = 0 /\ profileComplete e = true \/ status e = 1).
Proof.
  intros more p' Hmore. pose proof (main_run_inv _ _ _ _ _ (main_start_inv c) Hrun) as Hi.
  assert (Hg : signalled profiling p) by (unfold signalled; rw Hsignal; by apply (mi_shutting _ _ Hi)).
  destruct (main_run_bounded _ _ _ _ _ Hi Hg Hmore) as (Hlen & Hi' & Hg'). split_and!.
  - etrans; [|apply (main_remaining_bound c p Hi)]. lia.
  - intros Hstuck. destruct (main_progress _ _ _ Hi' Hg') as [He|(a & Hp & q & Ha)]; [done|]. by rw (Hstuck a Hp) in Ha.
  - intros e He. unfold signalled in Hg'. rw He in Hg'. destruct Hg' as [Hd [failed ->]].
    destruct (LifecycleProof.LifecycleProof.inv_shut _ _ _ (mi_server _ _ Hi') Hd) as (Hc & Hx & _ & Hs).
    split; [done|]. destruct failed; [by right|by left].
Qed.

(** The execution of [LifecycleTheorems], with [main] around it. *)
Definition signalRun : list mainAction :=
  (Other <$> [ServerLifecycle.Call; ServerLifecycle.Check_closing; ServerLifecycle.Open_ true; ServerLifecycle.Listen_ true;
     ServerLifecycle.Recheck; ServerLifecycle.Serve_open true; ServerLifecycle.Enter; ServerLifecycle.Spawn;
     ServerLifecycle.Accept_conn 1]) ++ [Signal].

Definition exitRun : list mainAction :=
  (Other <$> [ServerLifecycle.Shut_listener; ServerLifecycle.Accept_fail ServerLifecycle.AcceptClosed; ServerLifecycle.Leave;
     ServerLifecycle.Shut_serve; ServerLifecycle.After; ServerLifecycle.Expiry_stop; ServerLifecycle.Handler_remove 1 true;
     ServerLifecycle.Handler_done 1; ServerLifecycle.Shut_clients; ServerLifecycle.Shut_close]) ++
  [ShutdownReturned; Drained false].

Definition signalledProcess : process := default main_start (main_run smallConfig true signalRun main_start).
Definition exitedProcess : process := default main_start (main_run smallConfig true exitRun signalledProcess).

Lemma signal_ends_process_witness :
  exitedProcess.1 = MExited (mkExited 0 true) /\
  (length exitRun <= 24 + 2 * size (ServerLifecycle.clients signalledProcess.2))%nat /\
  ((forall a, prompted a = false -> main_step smallConfig true a exitedProcess = None) -> exists e, exitedProcess.1 = MExited e) /\
  forall e, exitedProcess.1 = MExited e ->
    (ServerLifecycle.clients exitedProcess.2 = ∅ /\ ServerLifecycle.expiring exitedProcess.2 = false /\
     (ServerLifecycle.started exitedProcess.2 = true ->
        ServerLifecycle.aofOpen exitedProcess.2 = false /\ ServerLifecycle.listening exitedProcess.2 = false)) /\
    (status e = 0 /\ profileComplete e = true \/ status e = 1).
Proof.
  split; [vm_compute; reflexivity|].
  apply (signal_ends_process smallConfig true signalRun signalledProcess) with (more := exitRun).
  - vm_compute. reflexivity.
  - vm_compute. reflexivity.
  - vm_compute. reflexivity.
Defined.

(** A server that fails while a profile is taken exits without completing it. *)
Example profile_lost_on_failure :
  main_step smallConfig true (StartReturned true)
    (MWaiting, ServerLifecycle.Lifecycle.at_start ServerLifecycle.StDone ServerLifecycle.Lifecycle.NewServer) =
  Some (MExited (mkExited 1 false), ServerLifecycle.Lifecycle.at_start ServerLifecycle.StDone ServerLifecycle.Lifecycle.NewServer).
Proof. vm_compute. reflexivity. Qed.
End MainTheorems.
